(* ===== verification/_CoqProject ===== *)
-Q . S2P
Prelude.v
Calls.v
Net.v
Text.v
Core.v
Channel.v
Mpsc.v
ServerConfig.v
Router.v
Session.v
SessionInv.v
SessionLaws.v
ServerThms.v
Uplink.v
Downlink.v
Remotes.v
Web.v
WebSteps.v
ClientConfig.v
HttpHead.v
Chain.v
Engine.v
EngineThms.v
Carrier.v
CarrierThms.v
Link.v
Joining.v
Tunnel.v
Mux.v
MuxThms.v
Streams.v
Os.v
NetCfg.v
NetCfgThms.v
NetCfgWin.v
ServerNet.v
ServerNetThms.v
SysProxy.v
Tun.v
Wintun.v
LogRing.v
Profiles.v
Desktop.v
DesktopThms.v
DesktopExit.v
Elevate.v
Android.v
AndroidLib.v
Anyhow.v
ServerMain.v
Handshake.v
Dial.v
Latency.v
Cli.v
