(* ===== verification/Prelude.v ===== *)
(** * EntroTunnel: a verification library

    EntroTunnel is a self-hosted VPN and proxy.  A server (src/server) listens on raw TCP,
    WebSocket or QUIC; clients reach it directly or through a chain of servers, identify
    themselves with a token, and exchange frames over one encrypted message channel: IP
    packets read from a virtual device, or multiplexed byte streams of a local HTTP proxy.
    The client engine (src/core/client-core) runs inside a command line program
    (src/desktop/cli), a desktop application (src/desktop/client-tauri) and an Android
    library (src/mobile/android/rust); src/core/core holds what client and server share.

    ** How the code is modelled

    Definitions follow the source function by function and keep its names where that is
    possible; two names that collide are told apart by a Module or a prefix.

    - A function without effects is a Gallina function.  [Result] is [result Error], an
      effect is a function [eff S E A := S -> S * result E A] of explicit state.
    - Code that is a straight sequence of calls to the system or to a library (dialing,
      network set-up, opening a device, a chain of hops) runs over the list of the calls
      made so far.  The environment is a class whose methods see that whole list before
      they answer, so a theorem holds for every behaviour of the outside, however it
      changes between two calls.  Calls.v has the generic part, Os.v the commands, files
      and lookups of the operating system.
    - Code that interleaves (tasks, threads, commands of a user interface, concurrent
      requests) is a transition function [step : State -> Event -> option State] with one
      event per access to shared state or completed await; an await whose outcome the code
      ignores (a write to a TUN, [let _ = tun.send(..).await]) is an event like the others,
      and its outcome, even a refusal, is part of the history.  [runs step] below folds it
      over a list of events; every interleaving of the tasks is such a list, and an
      invariant of the steps is an invariant of the runs ([runs_inv]).
    - Machine integers are [Z] with the wrap-around written out ([wrap], [wrap_add64],
      [sat_add64]); bytes are [list Byte.byte]; text that is parsed byte by byte is bytes,
      other text is [string].
    - Third-party code is a class of operations, with a second class of laws where a
      theorem relies on documented behaviour: [Base64] and [Bincode] (Core.v), the snow
      handshake and transport (Channel.v, Handshake.v), [IpNet] and the TOML and JSON
      formats (ServerConfig.v, ClientConfig.v, Profiles.v), rustls, tungstenite and quinn
      (Dial.v), [Wintun] (Wintun.v), the tables iproute2 and iptables keep ([RouteTable] in
      NetCfgThms.v, [Firewall] in ServerNetThms.v).  Each class has a concrete instance in a Module of
      witnesses, so no theorem is about an impossible library.

    ** The files

    Shared by all: this file; Calls.v; Net.v (addresses, their text and parsers); Text.v
    (operations of [str]); Mpsc.v (bounded channels, the disk); Anyhow.v (errors of the
    two programs with a [main]).

    What client and server share (src/core/core).  Core.v: error.rs, config.rs, lib.rs and
    protocol/.  Channel.v: framing.rs and the sending and receiving halves of tcp.rs,
    ws.rs and quic.rs; the class [MessageChannel] says what a transport promises, and
    theorems about frames ([frames_round_trip]) are proved against it.  [noise_link_fifo],
    [ws_link_fifo], [ld_link_fifo]: a pair of ends refines two FIFO queues, messages split
    and reassembled, lengths bounded, an oversized message refused.  Handshake.v:
    crypto/noise.rs; two honest sides end up linked ([handshake_links]), and a stranger to
    the key gets no byte out of the server ([stranger_gets_nothing]).  Dial.v:
    crypto/tls.rs and the connecting and accepting halves of the transports; whom a dial
    trusts ([dial_trust]) and what a listener demands ([accept_policy]).  Tun.v, Wintun.v:
    tun.rs; descriptors are not leaked, packets are not reordered, and when the Windows
    device can be dropped ([wintun_drop_hangs]).

    Server.  ServerConfig.v: config.rs.  Router.v, Session.v: session.rs; Router.v has the
    routing tables and the metrics, Session.v the server as one transition system
    (admission, network offer, frame handler, writers, remote streams, packet
    demultiplexer).  SessionInv.v and SessionLaws.v have the invariants of its runs,
    ServerThms.v the guarantees: only enabled peers of the configuration get a session
    ([sessions_authorised]), a packet goes only where its destination says
    ([tun_packet_isolated]), routes belong to live sessions, permissions are enforced
    ([egress_permitted]), counters balance, queues are bounded, a handler comes back to
    reading after at most three steps of its own and waits for nothing but its one write to
    the TUN ([handler_returns]), every branch of a handshake,
    and the end of a session.  Uplink.v: what a client sends, against the frames received:
    packets put on the TUN ([packets_reach_tun]), data written to the remotes of streams
    ([streams_reach_remotes]) and what a congested stream loses
    ([congested_stream_loses]).  Downlink.v: what a client is sent, against what was
    queued ([downlink_in_order], [packet_reaches_client]); Remotes.v: what the remotes of
    its streams send back ([remotes_reach_client]).
    Web.v, WebSteps.v: web.rs; authorisation, the views, the edits, alone and overlapping
    ([panel_saves]).  ServerNet.v, ServerNetThms.v: net.rs;
    the packet filter ends as it began ([firewall_restored]).  ServerMain.v: main.rs; the
    two commands, TLS material, tasks, the accept loop, and [server_restores_network].

    Client (src/core/client-core).  ClientConfig.v: config.rs, links and imports.
    Chain.v, Carrier.v, CarrierThms.v: chain.rs; hops are dialed in order, each through
    the one before ([chain_in_order]); the duplex stream and the three tasks of a carrier
    relay both directions ([carrier_relays]), whether the transport on top drops its end or
    only shuts down its writing half, and once cancelled and left by the transport they stop
    whatever order the awaits complete in ([carrier_winds_down]).  Engine.v,
    EngineThms.v: engine.rs; session set-up, and the packet path with its redials as a
    transition system ([packets_in_order], [redial_gives_up]).  HttpHead.v, Mux.v,
    MuxThms.v: proxy.rs; the request head against a declarative reading
    ([head_segmentation]), and the multiplexer: what becomes of the bytes read from a local
    connection's socket, those of the request head among them, and what it gets back
    ([local_stream_order], [local_stream_delivery]).  NetCfg.v, NetCfgThms.v,
    NetCfgWin.v: netcfg.rs on three systems; routes are restored ([netcfg_restores], over
    the documented behaviour of iproute2, [RouteTable]; [windows_undo_exact]) and a rule cannot take the server's own route
    ([split_rules_safe]).  SysProxy.v: sysproxy.rs.  Latency.v: latency.rs.

    Programs.  Cli.v: the command line client ([import_then_run]).  Profiles.v, Desktop.v,
    DesktopThms.v, DesktopExit.v, Elevate.v, LogRing.v: the desktop client; its store, the
    commands that overlap on the slot of the engine ([one_engine]), starting and leaving,
    by the tray, by closing the window or by the system's request
    ([quit_stops_engine], [exits_without_stopping]), the quoting of the elevated relaunch
    ([elevation_quoting]), the log window.  Android.v, AndroidLib.v: the Android bridge and
    the library's global slots ([android_fd_once]).

    Joining.v composes the two sides: a client's greeting against the server's transition
    system, any other work interleaved ([client_joins]).  From then on,
    Link.v links any client that says which frames it sends and takes to the server, both
    stepping independently, with the frames a transport accepted in flight.  Tunnel.v is
    that link for the packet path, from one device to the write to the other: every packet
    is in one place, in order, and those a device accepts are a part of them
    ([tunnel_in_order]).  Streams.v is that link for the multiplexer of the local proxy:
    what a local program writes and what the remote of its stream gets
    ([proxied_in_order]).

    How they meet: Session.v and Engine.v speak the frames of Core.v over a
    [MessageChannel]; Chain.v dials with the calls of Dial.v's shape and its carrier is the
    byte stream under the next hop's channel; Engine.v starts Mux.v or the packet path and
    NetCfg.v and undoes them on every exit; ServerMain.v composes ServerConfig.v and
    ServerNet.v with the tasks that run Session.v and Web.v; the programs compose
    ClientConfig.v and Engine.v.

    ** Bounds and fuel

    Recursion is structural or on fuel given by the input: the lossy UTF-8 decoder,
    trimming and splitting use the length of the text (each round consumes a byte);
    hexadecimal digits use 4 (16 bits); [first_free] in Profiles.v uses one more than the
    number of profiles and is proved to find a name; the parsers use the length of the
    text.  The constants are the source's: 1024 slots in a session's or device's queue,
    three redials, ten attempts to set an address on Windows, 2000 lines of log, 65535
    bytes of a Noise message.

    ** Not modelled

    Time, except as events (a deadline passes, a timer ticks) or as the number a clock
    answers; cryptography inside snow and rustls; parsing of command lines (clap), HTTP
    routing (axum), JNI strings and window calls, which are foreign; log messages and the
    flag that hides console windows on Windows; the stubs for other operating systems,
    which are constant errors; [NoVerify] of tls.rs, whose three methods accept; the
    attributes that derive serialisers, whose formats are the parameters above; tests. *)
From stdpp Require Export base tactics list gmap strings pretty option fin_maps sorting.
From Stdlib Require Export ZArith Lia.
From Stdlib Require Import Strings.Byte.
Open Scope Z_scope.

(** ** Machine integers: a [w]-bit unsigned integer is a [Z], its wrap-around written out *)

Definition wrap (w z : Z) : Z := z mod 2 ^ w.
Definition u64_max : Z := 2 ^ 64 - 1.
Definition wrap_add64 (a b : Z) : Z := wrap 64 (a + b).
Definition sat_add64 (a b : Z) : Z := Z.min u64_max (a + b).
Definition sat_sub (a b : Z) : Z := Z.max 0 (a - b).

(** ** Bytes *)

Abbreviation byte := Byte.byte.
Abbreviation bytes := (list Byte.byte).

#[export] Instance byte_eq_dec : EqDecision byte := Byte.byte_eq_dec.
#[export] Program Instance byte_countable : Countable byte :=
  inj_countable Byte.to_N Byte.of_N _.
Next Obligation. intros b. apply Byte.of_to_N. Qed.

Definition Z_of_byte (b : byte) : Z := Z.of_N (Byte.to_N b).
Definition byte_of_Z (z : Z) : byte :=
  match Byte.of_N (Z.to_N (z mod 256)) with Some b => b | None => Byte.x00 end.

Lemma Z_of_byte_bound b : 0 <= Z_of_byte b < 256.
Proof. unfold Z_of_byte. pose proof (Byte.to_N_bounded b). lia. Qed.

Lemma byte_of_Z_of_byte b : byte_of_Z (Z_of_byte b) = b.
Proof.
  unfold byte_of_Z. pose proof (Z_of_byte_bound b).
  rewrite Z.mod_small by lia. unfold Z_of_byte. rewrite N2Z.id.
  by rewrite Byte.of_to_N.
Qed.

Lemma Z_of_byte_of_Z z : Z_of_byte (byte_of_Z z) = z mod 256.
Proof.
  unfold byte_of_Z. pose proof (Z.mod_pos_bound z 256 ltac:(lia)) as Hb.
  destruct (Byte.of_N (Z.to_N (z mod 256))) as [b|] eqn:E.
  - unfold Z_of_byte. apply Byte.to_of_N in E. rewrite E. lia.
  - apply Byte.of_N_None_iff in E. lia.
Qed.

(** Big-endian encodings of fixed width ([to_be_bytes], [write_u16], [write_u32]). *)
Fixpoint be_split (n : nat) (z : Z) : bytes :=
  match n with
  | O => []
  | S n' => be_split n' (z / 256) ++ [byte_of_Z z]
  end.

Definition be_combine (bs : bytes) : Z :=
  fold_left (fun acc b => acc * 256 + Z_of_byte b) bs 0.

Lemma be_combine_snoc bs b : be_combine (bs ++ [b]) = be_combine bs * 256 + Z_of_byte b.
Proof. unfold be_combine. by rewrite fold_left_app. Qed.

Lemma length_be_split n z : length (be_split n z) = n.
Proof.
  revert z; induction n as [|n IH]; intros z; cbn [be_split]; [done|].
  rewrite length_app, IH. cbn. lia.
Qed.

Lemma be_combine_split n z : be_combine (be_split n z) = z mod 256 ^ Z.of_nat n.
Proof.
  revert z; induction n as [|n IH]; intros z; cbn [be_split].
  - by rewrite Z.mod_1_r.
  - rewrite be_combine_snoc, IH, Z_of_byte_of_Z, Nat2Z.inj_succ, Z.pow_succ_r by lia.
    rewrite Z.rem_mul_r by (try apply Z.pow_nonzero; lia). lia.
Qed.

Lemma be_combine_split_small n z :
  0 <= z < 256 ^ Z.of_nat n -> be_combine (be_split n z) = z.
Proof. intros H. rewrite be_combine_split. by apply Z.mod_small. Qed.

Lemma be_combine_bound bs : 0 <= be_combine bs < 256 ^ Z.of_nat (length bs).
Proof.
  induction bs as [|b bs IH] using rev_ind; [by cbn|].
  rewrite be_combine_snoc, length_app. cbn [length].
  replace (Z.of_nat (length bs + 1)) with (Z.succ (Z.of_nat (length bs))) by lia.
  rewrite Z.pow_succ_r by lia. pose proof (Z_of_byte_bound b). lia.
Qed.

Lemma be_split_combine bs : be_split (length bs) (be_combine bs) = bs.
Proof.
  induction bs as [|b bs IH] using rev_ind; [done|].
  rewrite length_app, Nat.add_comm. cbn [be_split length Nat.add].
  rewrite be_combine_snoc. pose proof (Z_of_byte_bound b) as Hb. f_equal.
  - rewrite Z.div_add_l, Z.div_small by lia. by rewrite Z.add_0_r.
  - f_equal. rewrite <- (byte_of_Z_of_byte b) at 2. unfold byte_of_Z at 1.
    rewrite Z.add_comm, Z.mod_add by lia.
    unfold byte_of_Z. done.
Qed.

Lemma be_split_inj n z1 z2 :
  0 <= z1 < 256 ^ Z.of_nat n -> 0 <= z2 < 256 ^ Z.of_nat n ->
  be_split n z1 = be_split n z2 -> z1 = z2.
Proof.
  intros H1 H2 E. apply (f_equal be_combine) in E.
  by rewrite !be_combine_split_small in E.
Qed.

#[global] Arguments be_split : simpl never.
#[global] Arguments be_combine : simpl never.

(** A value read back from a big-endian field followed by other data. *)
Lemma take_be_split n z rest : take n (be_split n z ++ rest) = be_split n z.
Proof. rewrite take_app_length'; [done|]. by rewrite length_be_split. Qed.

Lemma drop_be_split n z rest : drop n (be_split n z ++ rest) = rest.
Proof. rewrite drop_app_length'; [done|]. by rewrite length_be_split. Qed.

Lemma length_be_split_app n z (rest : bytes) :
  length (be_split n z ++ rest) = (n + length rest)%nat.
Proof. by rewrite length_app, length_be_split. Qed.

(** ** Results and effectful computations

    [result E A] is Rust's [Result<A, E>].  [eff S E A] is an effectful
    computation over an explicit state [S]: the state survives an error, as the
    side effects of a Rust function survive an early return through [?]. *)

Inductive result (E A : Type) : Type :=
  | Ok (a : A)
  | Err (e : E).
Arguments Ok {E A} a.
Arguments Err {E A} e.

#[export] Instance result_eq_dec {E A} `{EqDecision E} `{EqDecision A} :
  EqDecision (result E A).
Proof. solve_decision. Defined.

#[export] Instance result_ret E : MRet (result E) := @Ok E.
#[export] Instance result_bind E : MBind (result E) := fun A B f r =>
  match r with Ok a => f a | Err e => Err e end.
#[export] Instance result_fmap E : FMap (result E) := fun A B f r =>
  match r with Ok a => Ok (f a) | Err e => Err e end.

Definition is_ok {E A} (r : result E A) : bool :=
  match r with Ok _ => true | Err _ => false end.
Definition ok {E A} (r : result E A) : option A :=
  match r with Ok a => Some a | Err _ => None end.
Definition map_err {E F A} (f : E -> F) (r : result E A) : result F A :=
  match r with Ok a => Ok a | Err e => Err (f e) end.
Definition ok_or {E A} (e : E) (o : option A) : result E A :=
  match o with Some a => Ok a | None => Err e end.

Definition eff (S E A : Type) : Type := S -> S * result E A.

#[export] Instance eff_ret S E : MRet (eff S E) := fun A a s => (s, Ok a).
#[export] Instance eff_bind S E : MBind (eff S E) := fun A B f m s =>
  match m s with
  | (s', Ok a) => f a s'
  | (s', Err e) => (s', Err e)
  end.

(** [let _ = e;] and [e.ok();]: run for the effect, discard the outcome. *)
Definition ignore {S E F A} (m : eff S E A) : eff S F unit := fun s => ((m s).1, Ok tt).
(** [e.is_ok()] as a value; the computation itself never fails. *)
Definition try_eff {S E F A} (m : eff S E A) : eff S F (result E A) :=
  fun s => let (s', r) := m s in (s', Ok r).
Definition throw {S E A} (e : E) : eff S E A := fun s => (s, Err e).
(** [.map_err(f)] on a computation; [?] converts with a [From] implementation. *)
Definition with_err {S E F A} (f : E -> F) (m : eff S E A) : eff S F A :=
  fun s => let (s', r) := m s in (s', map_err f r).
Definition lift_result {S E A} (r : result E A) : eff S E A := fun s => (s, r).

Lemma eff_bind_ok {S E A B} (m : eff S E A) (f : A -> eff S E B) s s' b :
  (m ≫= f) s = (s', Ok b) <-> exists t a, m s = (t, Ok a) /\ f a t = (s', Ok b).
Proof.
  unfold mbind, eff_bind. destruct (m s) as [t [a|e]]; naive_solver.
Qed.

Lemma eff_bind_err {S E A B} (m : eff S E A) (f : A -> eff S E B) s s' e :
  (m ≫= f) s = (s', Err e) <->
  m s = (s', Err e) \/ exists t a, m s = (t, Ok a) /\ f a t = (s', Err e).
Proof.
  unfold mbind, eff_bind. destruct (m s) as [t [a|e']]; naive_solver.
Qed.

Lemma ignore_ok {S E F A} (m : eff S E A) s : ignore m s = ((m s).1, Ok tt) :> S * result F unit.
Proof. done. Qed.

(** ** Strings *)

Lemma string_app_cons c s r : String c s +:+ r = String c (s +:+ r).
Proof. reflexivity. Qed.
Lemma string_app_nil r : "" +:+ r = r.
Proof. reflexivity. Qed.

Lemma string_app_nil_r s : s +:+ "" = s.
Proof. induction s as [|c s IH]; [done|]. by rewrite string_app_cons, IH. Qed.
Lemma string_app_assoc s1 s2 s3 : s1 +:+ (s2 +:+ s3) = (s1 +:+ s2) +:+ s3.
Proof. induction s1 as [|c s IH]; [done|]. by rewrite !string_app_cons, IH. Qed.

Lemma string_length_app s1 s2 :
  String.length (s1 +:+ s2) = (String.length s1 + String.length s2)%nat.
Proof. induction s1 as [|c s IH]; [done|]. rewrite string_app_cons. cbn. by rewrite IH. Qed.

(** ** Automation *)

Create HintDb tunnel.
#[export] Hint Rewrite @length_app @length_be_split @take_be_split @drop_be_split
  @length_be_split_app : tunnel.

(** Case analysis on every [match] and [if] of the goal or of a hypothesis. *)
Ltac case_match_all :=
  repeat (case_match; simplify_eq/=; try done).
Ltac inv H := inversion H; clear H; subst.

(** ** Runs of a transition system

    A component that interleaves is a partial step function on states and events; its runs
    are the lists of events it can take. *)
Section Runs.
Context {St Ev : Type} (step : St -> Ev -> option St).
Fixpoint runs (es : list Ev) (s : St) : option St :=
  match es with [] => Some s | e :: r => s' ← step s e; runs r s' end.

Lemma runs_cons e es s : runs (e :: es) s = (s' ← step s e; runs es s').
Proof. done. Qed.
Lemma runs_app es fs s : runs (es ++ fs) s = (s' ← runs es s; runs fs s').
Proof. revert s. induction es as [|e es IH]; intros s; [done|]. cbn. destruct (step s e); [apply IH|done]. Qed.
Lemma runs_push e es s s1 s' : step s e = Some s1 -> runs es s1 = Some s' -> runs (e :: es) s = Some s'.
Proof. intros E. cbn [runs]. by rewrite E. Qed.
(** What every step keeps holds at the end of every run. *)
Lemma runs_inv (I : St -> Prop) : (forall s e s', I s -> step s e = Some s' -> I s') ->
  forall es s s', I s -> runs es s = Some s' -> I s'.
Proof.
  intros Hstep. induction es as [|e es IH]; intros s s' Hs; cbn [runs]; [by intros [= <-]|].
  intros (s1 & E & Hr)%bind_Some. eauto.
Qed.
(** The same for steps of a kind only. *)
Lemma runs_inv_of (I : St -> Prop) (P : Ev -> Prop) :
  (forall s e s', I s -> P e -> step s e = Some s' -> I s') ->
  forall es s s', I s -> Forall P es -> runs es s = Some s' -> I s'.
Proof.
  intros Hstep. induction es as [|e es IH]; intros s s' Hs Hp; cbn [runs]; [by intros [= <-]|].
  apply Forall_cons in Hp as [He Hp]. intros (s1 & E & Hr)%bind_Some. eauto.
Qed.
End Runs.
