(* ===== verification/Calls.v ===== *)
(** Computations over the list of calls made to the outside so far: asking for an answer,
    and what it means to perform a fixed sequence of calls up to the first failure. *)
From S2P Require Import Prelude.

Section Calls.
Context {C E : Type}.

(** One call; the answer may depend on every call before it. *)
Definition ask {A} (c : C) (f : list C -> result E A) : eff (list C) E A :=
  fun h => (h ++ [c], f h).

(** A computation dropped after so many of its calls. *)
Definition cut {A} (k : nat) (e : E) (m : eff (list C) E A) : eff (list C) E A :=
  fun h => (h ++ take k (drop (length h) (m h).1), Err e).

(** A computation that performs exactly [cs] when it succeeds, and a prefix otherwise. *)
Definition performs {A} (m : eff (list C) E A) (cs : list C) : Prop := forall h h' r,
  m h = (h', r) -> exists l, h' = h ++ l /\ l `prefix_of` cs /\ (is_ok r = true -> l = cs).

Lemma performs_ask {A} c (f : list C -> result E A) : performs (ask c f) [c].
Proof. intros h h' r [= <- <-]. by exists [c]. Qed.
Lemma performs_ret {A} (a : A) : performs (mret a) [].
Proof. intros h h' r [= <- <-]. exists []. by rewrite app_nil_r. Qed.
Lemma performs_throw {A} e cs : performs (throw e : eff (list C) E A) cs.
Proof. intros h h' r [= <- <-]. exists []. rewrite app_nil_r. split_and!; [done|apply prefix_nil|done]. Qed.
Lemma performs_lift {A} (x : result E A) : performs (lift_result x) [].
Proof. intros h h' r [= <- <-]. exists []. by rewrite app_nil_r. Qed.
Lemma performs_bind {A B} (m : eff (list C) E A) (f : A -> eff (list C) E B) cs ds :
  performs m cs -> (forall a, performs (f a) ds) -> performs (m ≫= f) (cs ++ ds).
Proof.
  intros Hm Hf h h' r. unfold mbind, eff_bind. destruct (m h) as [h1 [a|e]] eqn:E0.
  - destruct (Hm _ _ _ E0) as (l & -> & _ & Hl). rewrite (Hl eq_refl).
    intros Hr. destruct (Hf a _ _ _ Hr) as (l' & -> & Hp & Hok).
    exists (cs ++ l'). rewrite app_assoc. split_and!; [done|by apply prefix_app|].
    intros Hr'. by rewrite (Hok Hr').
  - intros [= <- <-]. destruct (Hm _ _ _ E0) as (l & -> & Hp & _). exists l.
    split_and!; [done|by apply prefix_app_r|done].
Qed.
(** The continuation may use the value a successful first part returned. *)
Lemma performs_bind_ok {A B} (x : result E A) (f : A -> eff (list C) E B) ds :
  (forall a, x = Ok a -> performs (f a) ds) -> performs (lift_result x ≫= f) ds.
Proof.
  intros Hf h h' r. unfold mbind, eff_bind, lift_result. destruct x as [a|e].
  - apply Hf; done.
  - intros [= <- <-]. by apply performs_throw with (e := e).
Qed.
(** Nothing follows a last call. *)
Lemma performs_last {A B} (m : eff (list C) E A) (f : A -> eff (list C) E B) cs :
  performs m cs -> (forall a, performs (f a) []) -> performs (m ≫= f) cs.
Proof. intros Hm Hf. rewrite <- (app_nil_r cs). by apply performs_bind. Qed.

(** It performs the same sequence, and never succeeds. *)
Lemma performs_cut {A} k e (m : eff (list C) E A) cs : performs m cs -> performs (cut k e m) cs.
Proof.
  intros Hm h h' r [= <- <-]. destruct (m h) as [h1 r1] eqn:E0. destruct (Hm _ _ _ E0) as (l & -> & Hl & _).
  cbn. rewrite drop_app_length. exists (take k l). split_and!; [done| |done].
  by transitivity l; [apply prefix_take|].
Qed.

(** The two outcomes of a first call or of a first check. *)
Lemma ask_bind {A B} c (f : list C -> result E A) (k : A -> eff (list C) E B) h h' r :
  (ask c f ≫= k) h = (h', r) ->
  (exists e, f h = Err e /\ h' = h ++ [c] /\ r = Err e) \/ (exists a, f h = Ok a /\ k a (h ++ [c]) = (h', r)).
Proof. unfold ask, mbind, eff_bind. destruct (f h); [by right; eauto|intros [= <- <-]; left; eauto]. Qed.
Lemma lift_bind {A B} (x : result E A) (k : A -> eff (list C) E B) h h' r :
  (lift_result x ≫= k) h = (h', r) ->
  (exists e, x = Err e /\ h' = h /\ r = Err e) \/ (exists a, x = Ok a /\ k a h = (h', r)).
Proof. unfold lift_result, mbind, eff_bind. destruct x; [by right; eauto|intros [= <- <-]; left; eauto]. Qed.
End Calls.
