(* ===== verification/Net.v ===== *)
(** Internet addresses of [std::net] as the crates use them: [Ipv4Addr],
    [Ipv6Addr], [IpAddr], [SocketAddr], their octets, their [Display] text and
    the [FromStr] parsers.  The parsers follow the standard library's
    recursive-descent reader (at most three decimal digits per IPv4 group, no
    leading zero, at most four hexadecimal digits per IPv6 group, one [::]). *)
From Stdlib Require Import Ascii.
From S2P Require Import Prelude.

(** ** Data *)

Record Ipv4Addr := Ipv4 { v4_a : byte; v4_b : byte; v4_c : byte; v4_d : byte }.

(** Sixteen octets, as four 32-bit words. *)
Record Ipv6Addr := Ipv6 { v6_w0 : Ipv4Addr; v6_w1 : Ipv4Addr; v6_w2 : Ipv4Addr; v6_w3 : Ipv4Addr }.

Inductive IpAddr := V4 (a : Ipv4Addr) | V6 (a : Ipv6Addr).
Record SocketAddr := SockAddr { sa_ip : IpAddr; sa_port : Z }.

#[export] Instance ipv4_eq_dec : EqDecision Ipv4Addr.
Proof. solve_decision. Defined.
#[export] Instance ipv6_eq_dec : EqDecision Ipv6Addr.
Proof. solve_decision. Defined.
#[export] Instance ipaddr_eq_dec : EqDecision IpAddr.
Proof. solve_decision. Defined.
#[export] Instance sockaddr_eq_dec : EqDecision SocketAddr.
Proof. solve_decision. Defined.

#[export] Program Instance ipv4_countable : Countable Ipv4Addr :=
  inj_countable' (fun a => (v4_a a, v4_b a, v4_c a, v4_d a))
    (fun '(a, b, c, d) => Ipv4 a b c d) _.
Next Obligation. by intros []. Qed.
#[export] Program Instance ipv6_countable : Countable Ipv6Addr :=
  inj_countable' (fun a => (v6_w0 a, v6_w1 a, v6_w2 a, v6_w3 a))
    (fun '(a, b, c, d) => Ipv6 a b c d) _.
Next Obligation. by intros []. Qed.

(** ** Octets and integers *)

Definition v4_octets (a : Ipv4Addr) : bytes := [v4_a a; v4_b a; v4_c a; v4_d a].
Definition v4_of_octets (o : bytes) : Ipv4Addr :=
  Ipv4 (nth 0 o Byte.x00) (nth 1 o Byte.x00) (nth 2 o Byte.x00) (nth 3 o Byte.x00).
(** [u32::from(v4)] and [Ipv4Addr::from(u32)]. *)
Definition u32_of_v4 (a : Ipv4Addr) : Z := be_combine (v4_octets a).
Definition v4_of_u32 (z : Z) : Ipv4Addr := v4_of_octets (be_split 4 z).

Definition v6_octets (a : Ipv6Addr) : bytes :=
  v4_octets (v6_w0 a) ++ v4_octets (v6_w1 a) ++ v4_octets (v6_w2 a) ++ v4_octets (v6_w3 a).
Definition v6_of_octets (o : bytes) : Ipv6Addr :=
  Ipv6 (v4_of_octets (take 4 o)) (v4_of_octets (take 4 (drop 4 o)))
       (v4_of_octets (take 4 (drop 8 o))) (v4_of_octets (take 4 (drop 12 o))).

Lemma v4_of_octets_octets a : v4_of_octets (v4_octets a) = a.
Proof. by destruct a. Qed.
Lemma v6_of_octets_octets a : v6_of_octets (v6_octets a) = a.
Proof. by destruct a as [[] [] [] []]. Qed.
Lemma length_v4_octets a : length (v4_octets a) = 4%nat.
Proof. done. Qed.
Lemma length_v6_octets a : length (v6_octets a) = 16%nat.
Proof. done. Qed.

Lemma v4_of_u32_of_v4 a : v4_of_u32 (u32_of_v4 a) = a.
Proof.
  unfold v4_of_u32, u32_of_v4.
  change 4%nat with (length (v4_octets a)). rewrite be_split_combine.
  apply v4_of_octets_octets.
Qed.
Lemma be_split_u32_of_v4 a : be_split 4 (u32_of_v4 a) = v4_octets a.
Proof. unfold u32_of_v4. change 4%nat with (length (v4_octets a)). apply be_split_combine. Qed.
Lemma u32_of_v4_bound a : 0 <= u32_of_v4 a < 2 ^ 32.
Proof. apply (be_combine_bound (v4_octets a)). Qed.
#[export] Instance u32_of_v4_inj : Inj (=) (=) u32_of_v4.
Proof. intros a b E. by rewrite <- (v4_of_u32_of_v4 a), E, v4_of_u32_of_v4. Qed.

(** ** Text *)

Definition show_v4 (a : Ipv4Addr) : string :=
  pretty (Z_of_byte (v4_a a)) +:+ "." +:+ pretty (Z_of_byte (v4_b a)) +:+ "." +:+
  pretty (Z_of_byte (v4_c a)) +:+ "." +:+ pretty (Z_of_byte (v4_d a)).

Example show_v4_ex : show_v4 (v4_of_octets [Byte.x0a; Byte.x42; Byte.x00; Byte.xff]) = "10.66.0.255".
Proof. reflexivity. Qed.

Definition hex_digit (z : Z) : string :=
  default "" (["0";"1";"2";"3";"4";"5";"6";"7";"8";"9";"a";"b";"c";"d";"e";"f"] !! Z.to_nat z).
Fixpoint show_hex_fuel (fuel : nat) (z : Z) : string :=
  match fuel with
  | O => ""
  | S f => if z <? 16 then hex_digit z else show_hex_fuel f (z / 16) +:+ hex_digit (z mod 16)
  end.
(** [format!("{:x}", segment)]; four digits are enough for a [u16]. *)
Definition show_hex (z : Z) : string := show_hex_fuel 4 z.

(** The eight 16-bit segments. *)
Definition v4_halves (a : Ipv4Addr) : list Z :=
  [be_combine [v4_a a; v4_b a]; be_combine [v4_c a; v4_d a]].
Definition v6_segments (a : Ipv6Addr) : list Z :=
  v4_halves (v6_w0 a) ++ v4_halves (v6_w1 a) ++ v4_halves (v6_w2 a) ++ v4_halves (v6_w3 a).
Definition v6_of_segments (l : list Z) : Ipv6Addr :=
  v6_of_octets (mjoin (map (be_split 2) l)).

(** Longest run of zero segments, the first one on a tie: (start, length). *)
Fixpoint zero_span (i : nat) (l : list Z) (cur best : nat * nat) : nat * nat :=
  match l with
  | [] => best
  | s :: l =>
    if s =? 0 then
      let cur := if (cur.2 =? 0)%nat then (i, 1%nat) else (cur.1, S cur.2) in
      zero_span (S i) l cur (if (best.2 <? cur.2)%nat then cur else best)
    else zero_span (S i) l (0%nat, 0%nat) best
  end.
Fixpoint join (sep : string) (l : list string) : string :=
  match l with
  | [] => ""
  | [x] => x
  | x :: l => x +:+ sep +:+ join sep l
  end.
Definition show_v6 (a : Ipv6Addr) : string :=
  let s := v6_segments a in
  if decide (take 6 s = [0;0;0;0;0;65535]) then "::ffff:" +:+ show_v4 (v6_w3 a)
  else
    let z := zero_span 0 s (0%nat, 0%nat) (0%nat, 0%nat) in
    if (1 <? z.2)%nat then
      join ":" (map show_hex (take z.1 s)) +:+ "::" +:+
      join ":" (map show_hex (drop (z.1 + z.2) s))
    else join ":" (map show_hex s).

Definition show_ip (a : IpAddr) : string :=
  match a with V4 a => show_v4 a | V6 a => show_v6 a end.
Definition show_sockaddr (s : SocketAddr) : string :=
  match sa_ip s with
  | V4 a => show_v4 a +:+ ":" +:+ pretty (sa_port s)
  | V6 a => "[" +:+ show_v6 a +:+ "]:" +:+ pretty (sa_port s)
  end.

(** ** Parsing ([FromStr]): readers return the value and the remaining text *)

Definition digit_of (radix : Z) (c : Ascii.ascii) : option Z :=
  let n := Z.of_N (Ascii.N_of_ascii c) in
  let d := if (48 <=? n) && (n <=? 57) then Some (n - 48)
           else if (97 <=? n) && (n <=? 102) then Some (n - 87)
           else if (65 <=? n) && (n <=? 70) then Some (n - 55)
           else None in
  match d with Some v => if v <? radix then Some v else None | None => None end.

(** Reads every digit; gives up past [max] digits.  Result: value, count, rest. *)
Fixpoint read_digits (radix : Z) (max : nat) (acc : Z) (count : nat) (s : string)
  : option (Z * nat * string) :=
  match s with
  | String c s' =>
    match digit_of radix c with
    | Some d => if (max <? S count)%nat then None
                else read_digits radix max (acc * radix + d) (S count) s'
    | None => Some (acc, count, s)
    end
  | EmptyString => Some (acc, count, s)
  end.
Definition leading_zero (s : string) : bool :=
  match s with String c _ => bool_decide (c = "0"%char) | EmptyString => false end.
Definition read_number (radix : Z) (max : nat) (limit : Z) (allow_zero_prefix : bool)
    (s : string) : option (Z * string) :=
  match read_digits radix max 0 0 s with
  | Some (v, count, rest) =>
    if (count =? 0)%nat then None
    else if negb allow_zero_prefix && leading_zero s && (1 <? count)%nat then None
    else if v <? limit then Some (v, rest) else None
  | None => None
  end.
Definition read_char (c : Ascii.ascii) (s : string) : option string :=
  match s with
  | String c' s' => if decide (c = c') then Some s' else None
  | EmptyString => None
  end.
(** [read_separator]: the separator is required before every group but the first. *)
Definition read_sep {A} (sep : Ascii.ascii) (i : nat) (p : string -> option (A * string))
    (s : string) : option (A * string) :=
  if (i =? 0)%nat then p s else s ← read_char sep s; p s.

Definition read_ipv4 (s : string) : option (Ipv4Addr * string) :=
  '(a, s) ← read_sep "." 0 (read_number 10 3 256 false) s;
  '(b, s) ← read_sep "." 1 (read_number 10 3 256 false) s;
  '(c, s) ← read_sep "." 2 (read_number 10 3 256 false) s;
  '(d, s) ← read_sep "." 3 (read_number 10 3 256 false) s;
  Some (Ipv4 (byte_of_Z a) (byte_of_Z b) (byte_of_Z c) (byte_of_Z d), s).

(** Groups [i], [i+1], ... up to [limit]; true if an embedded IPv4 tail was read. *)
Fixpoint read_groups (n i limit : nat) (s : string) : list Z * bool * string :=
  match n with
  | O => ([], false, s)
  | S n' =>
    let v4 := if (i <? limit - 1)%nat then read_sep ":" i read_ipv4 s else None in
    match v4 with
    | Some (a, s') => (v4_halves a, true, s')
    | None =>
      match read_sep ":" i (read_number 16 4 65536 true) s with
      | Some (g, s') =>
        let '(gs, b, r) := read_groups n' (S i) limit s' in (g :: gs, b, r)
      | None => ([], false, s)
      end
    end
  end.
Definition read_ipv6 (s : string) : option (Ipv6Addr * string) :=
  let '(head, head_v4, s) := read_groups 8 0 8 s in
  if (length head =? 8)%nat then Some (v6_of_segments head, s)
  else if head_v4 then None
  else
    s ← read_char ":" s; s ← read_char ":" s;
    let limit := (8 - (length head + 1))%nat in
    let '(tail, _, s) := read_groups limit 0 limit s in
    Some (v6_of_segments
            (head ++ replicate (8 - length head - length tail) 0 ++ tail), s).

Definition parse_whole {A} (p : string -> option (A * string)) (s : string) : option A :=
  match p s with Some (a, EmptyString) => Some a | _ => None end.
Definition parse_ipv4 (s : string) : option Ipv4Addr :=
  if (15 <? String.length s)%nat then None else parse_whole read_ipv4 s.
Definition parse_ipv6 (s : string) : option Ipv6Addr := parse_whole read_ipv6 s.
Definition parse_ip (s : string) : option IpAddr :=
  parse_whole (fun s =>
    match read_ipv4 s with
    | Some (a, r) => Some (V4 a, r)
    | None => '(a, r) ← read_ipv6 s; Some (V6 a, r)
    end) s.

Example parse_v4_ex : parse_ipv4 "10.66.0.2" = Some (v4_of_u32 (10 * 2^24 + 66 * 2^16 + 2)).
Proof. reflexivity. Qed.
Example parse_v4_octal : parse_ipv4 "10.066.0.2" = None. Proof. reflexivity. Qed.
Example parse_v4_big : parse_ipv4 "10.256.0.2" = None. Proof. reflexivity. Qed.
Example show_parse_v6 :
  show_v6 <$> (parse_ipv6 "fd66:0:0::A42:2") = Some "fd66::a42:2".
Proof. reflexivity. Qed.
Example show_parse_v6_mapped : show_v6 <$> parse_ipv6 "::ffff:1.2.3.4" = Some "::ffff:1.2.3.4".
Proof. reflexivity. Qed.
Example parse_v6_full : parse_ipv6 "1:2:3:4:5:6:7" = None. Proof. reflexivity. Qed.

(** ** Printing an IPv4 address and parsing it back *)

(** Evaluates the decimal text of a concrete byte, and the digits of a concrete text. *)
Ltac eval_show :=
  match goal with |- context [pretty ?z] =>
    let s := eval vm_compute in (pretty z : string) in
    change (pretty z) with s end.
Ltac eval_digits :=
  repeat (match goal with |- context [digit_of 10 (Ascii.Ascii ?a ?b ?c ?d ?e ?f ?g ?h)] =>
    let x := constr:(digit_of 10 (Ascii.Ascii a b c d e f g h)) in
    let v := eval vm_compute in x in change x with v end; cbn [read_digits Nat.ltb Nat.leb]).

Lemma read_number_show (b : byte) (r : string) :
  (forall c r', r = String c r' -> digit_of 10 c = None) ->
  read_number 10 3 256 false (pretty (Z_of_byte b) +:+ r) = Some (Z_of_byte b, r).
Proof.
  intros Hr. unfold read_number.
  assert (Hd : forall v n, read_digits 10 3 v n r = Some (v, n, r)).
  { intros v n. destruct r as [|c r']; [done|]. cbn. by rewrite (Hr c r'). }
  destruct b; eval_show; rewrite ?string_app_cons, ?string_app_nil;
    cbn [read_digits]; eval_digits; rewrite Hd; reflexivity.
Qed.

Lemma read_char_eq c s : read_char c (String c s) = Some s.
Proof. cbn. by rewrite decide_True. Qed.

Ltac skip_dot :=
  cbn -[read_number pretty String.append read_char];
  rewrite ?(string_app_cons "."%char ""), ?string_app_nil, ?read_char_eq;
  cbn -[read_number pretty String.append read_char].

Lemma read_ipv4_show a r :
  (forall c r', r = String c r' -> digit_of 10 c = None) ->
  read_ipv4 (show_v4 a +:+ r) = Some (a, r).
Proof.
  intros Hr. unfold read_ipv4, show_v4. rewrite <- !string_app_assoc.
  assert (Hdot : forall s c r', String "."%char s = String c r' -> digit_of 10 c = None).
  { intros s c r' [= <- _]. reflexivity. }
  rewrite ?(string_app_cons "."%char ""), ?string_app_nil.
  cbn [read_sep Nat.eqb].
  do 3 (rewrite read_number_show by eauto; skip_dot).
  rewrite read_number_show by done. cbn -[read_number pretty String.append].
  rewrite !byte_of_Z_of_byte. by destruct a.
Qed.

Lemma show_v4_short a : (String.length (show_v4 a) <= 15)%nat.
Proof.
  assert (Hb : forall b, (String.length (pretty (Z_of_byte b)) <= 3)%nat).
  { intros b. destruct b; vm_compute; lia. }
  unfold show_v4. rewrite !string_length_app.
  pose proof (Hb (v4_a a)). pose proof (Hb (v4_b a)).
  pose proof (Hb (v4_c a)). pose proof (Hb (v4_d a)).
  change (String.length ".") with 1%nat. lia.
Qed.

Lemma parse_show_v4 a : parse_ipv4 (show_v4 a) = Some a.
Proof.
  unfold parse_ipv4. pose proof (show_v4_short a).
  destruct (Nat.ltb_spec 15 (String.length (show_v4 a))); [lia|].
  unfold parse_whole. rewrite <- (string_app_nil_r (show_v4 a)).
  by rewrite read_ipv4_show.
Qed.

Lemma parse_ip_show_v4 a : parse_ip (show_v4 a) = Some (V4 a).
Proof.
  unfold parse_ip, parse_whole. rewrite <- (string_app_nil_r (show_v4 a)).
  by rewrite read_ipv4_show.
Qed.

#[export] Instance show_v4_inj : Inj (=) (=) show_v4.
Proof.
  intros a b E. apply (f_equal parse_ipv4) in E. rewrite !parse_show_v4 in E. congruence.
Qed.
