(* ===== verification/Text.v ===== *)
(** The [str] operations of the standard library the crates use, on UTF-8 byte
    lists: [from_utf8_lossy], [trim], [trim_end], [split_whitespace], [lines],
    [strip_prefix], [rsplit_once], [split], [eq_ignore_ascii_case],
    [u16::from_str], [windows(n).position(..)]. *)
From stdpp Require Import strings.
From S2P Require Import Prelude.

Definition to_b (s : string) : bytes := String.list_byte_of_string s.
Definition str (s : bytes) : string := String.string_of_list_byte s.

Lemma str_b s : str (to_b s) = s.
Proof. apply String.string_of_list_byte_of_string. Qed.
Lemma b_str s : to_b (str s) = s.
Proof. apply String.list_byte_of_string_of_list_byte. Qed.

Definition in_range (lo hi : Z) (c : byte) : bool :=
  (lo <=? Z_of_byte c) && (Z_of_byte c <=? hi).

(** ** [String::from_utf8_lossy]

    [utf8_len s] is [Ok n] when [s] starts with a well-formed character of [n]
    bytes, and [Err n] when the first [n] bytes are a maximal ill-formed part. *)
Definition cont (s : bytes) : bool :=
  match s with c :: _ => in_range 128 191 c | [] => false end.
Definition second3 (c : byte) (s : bytes) : bool :=
  match s with
  | [] => false
  | d :: _ =>
    (in_range 224 224 c && in_range 160 191 d) || (in_range 225 236 c && in_range 128 191 d) ||
    (in_range 237 237 c && in_range 128 159 d) || (in_range 238 239 c && in_range 128 191 d)
  end.
Definition second4 (c : byte) (s : bytes) : bool :=
  match s with
  | [] => false
  | d :: _ =>
    (in_range 240 240 c && in_range 144 191 d) || (in_range 241 243 c && in_range 128 191 d) ||
    (in_range 244 244 c && in_range 128 143 d)
  end.
Definition utf8_len (s : bytes) : result nat nat :=
  match s with
  | [] => Ok 0%nat
  | c :: s1 =>
    if in_range 0 127 c then Ok 1%nat
    else if in_range 194 223 c then if cont s1 then Ok 2%nat else Err 1%nat
    else if in_range 224 239 c then
      if second3 c s1 then if cont (drop 1 s1) then Ok 3%nat else Err 2%nat else Err 1%nat
    else if in_range 240 244 c then
      if second4 c s1 then
        if cont (drop 1 s1) then if cont (drop 2 s1) then Ok 4%nat else Err 3%nat else Err 2%nat
      else Err 1%nat
    else Err 1%nat
  end.
Definition replacement : bytes := [Byte.xef; Byte.xbf; Byte.xbd].
Fixpoint utf8_lossy_fuel (fuel : nat) (s : bytes) : bytes :=
  match fuel, s with
  | S f, _ :: _ =>
    match utf8_len s with
    | Ok n => take n s ++ utf8_lossy_fuel f (drop n s)
    | Err n => replacement ++ utf8_lossy_fuel f (drop n s)
    end
  | _, _ => []
  end.
(** Every round consumes at least one byte, so the length is enough fuel. *)
Definition from_utf8_lossy (s : bytes) : bytes := utf8_lossy_fuel (length s) s.

Definition is_ascii (s : bytes) : Prop := Forall (fun c => in_range 0 127 c = true) s.

Lemma from_utf8_lossy_ascii s : is_ascii s -> from_utf8_lossy s = s.
Proof.
  unfold from_utf8_lossy. induction 1 as [|c s Hc _ IH]; [done|].
  cbn [length utf8_lossy_fuel utf8_len]. rewrite Hc. change (drop 1 (c :: s)) with s. cbn. by rewrite IH.
Qed.

(** ** White space (Unicode [White_Space], as UTF-8 sequences) *)

Definition ws_chars : list bytes :=
  [ [Byte.x09]; [Byte.x0a]; [Byte.x0b]; [Byte.x0c]; [Byte.x0d]; [Byte.x20];
    [Byte.xc2; Byte.x85]; [Byte.xc2; Byte.xa0]; [Byte.xe1; Byte.x9a; Byte.x80];
    [Byte.xe2; Byte.x80; Byte.x80]; [Byte.xe2; Byte.x80; Byte.x81];
    [Byte.xe2; Byte.x80; Byte.x82]; [Byte.xe2; Byte.x80; Byte.x83];
    [Byte.xe2; Byte.x80; Byte.x84]; [Byte.xe2; Byte.x80; Byte.x85];
    [Byte.xe2; Byte.x80; Byte.x86]; [Byte.xe2; Byte.x80; Byte.x87];
    [Byte.xe2; Byte.x80; Byte.x88]; [Byte.xe2; Byte.x80; Byte.x89];
    [Byte.xe2; Byte.x80; Byte.x8a]; [Byte.xe2; Byte.x80; Byte.xa8];
    [Byte.xe2; Byte.x80; Byte.xa9]; [Byte.xe2; Byte.x80; Byte.xaf];
    [Byte.xe2; Byte.x81; Byte.x9f]; [Byte.xe3; Byte.x80; Byte.x80] ].

(** [strip_prefix p s]: the rest of [s] after [p]. *)
Fixpoint strip_prefix (p s : bytes) : option bytes :=
  match p, s with
  | [], _ => Some s
  | c :: p, d :: s => if decide (c = d) then strip_prefix p s else None
  | _ :: _, [] => None
  end.
Definition starts_with (p s : bytes) : bool :=
  match strip_prefix p s with Some _ => true | None => false end.

(** One character of a set given as UTF-8 sequences, at the front. *)
Fixpoint strip_char (set : list bytes) (s : bytes) : option bytes :=
  match set with
  | [] => None
  | p :: set => match strip_prefix p s with Some r => Some r | None => strip_char set s end
  end.
Definition strip_ws : bytes -> option bytes := strip_char ws_chars.
Fixpoint trim_front_fuel (set : list bytes) (fuel : nat) (s : bytes) : bytes :=
  match fuel with
  | O => s
  | S f => match strip_char set s with Some r => trim_front_fuel set f r | None => s end
  end.
Definition trim_start (s : bytes) : bytes := trim_front_fuel ws_chars (length s) s.
(** The end is the front of the reversed text, with reversed sequences. *)
Definition trim_end (s : bytes) : bytes :=
  rev (trim_front_fuel (map (@rev byte) ws_chars) (length s) (rev s)).
Definition trim (s : bytes) : bytes := trim_end (trim_start s).

(** [split_whitespace]: the maximal runs of non-blank characters; [acc] holds
    the current run, reversed. *)
Fixpoint split_ws_fuel (fuel : nat) (acc s : bytes) : list bytes :=
  let flush := match acc with [] => [] | _ => [rev acc] end in
  match fuel with
  | O => flush
  | S f =>
    match strip_ws s with
    | Some r => flush ++ split_ws_fuel f [] r
    | None => match s with [] => flush | c :: s => split_ws_fuel f (c :: acc) s end
    end
  end.
Definition split_whitespace (s : bytes) : list bytes := split_ws_fuel (S (length s)) [] s.

(** ** Separators *)

(** Pieces between occurrences of one separator byte; never empty. *)
Fixpoint split_byte (c : byte) (s : bytes) : list bytes :=
  match s with
  | [] => [[]]
  | d :: s =>
    let r := split_byte c s in
    if decide (c = d) then [] :: r
    else match r with p :: ps => (d :: p) :: ps | [] => [[d]] end
  end.
Definition chop_cr (l : bytes) : bytes :=
  match rev l with c :: r => if decide (c = Byte.x0d) then rev r else l | [] => l end.
(** [lines]: a final piece with no terminator keeps its [\r], an empty one is dropped. *)
Fixpoint terminated (ps : list bytes) : list bytes :=
  match ps with
  | [] => []
  | [p] => match p with [] => [] | _ => [p] end
  | p :: ps => chop_cr p :: terminated ps
  end.
Definition lines (s : bytes) : list bytes := terminated (split_byte Byte.x0a s).
(** [rsplit_once(c)]: around the last occurrence. *)
Fixpoint rsplit_once (c : byte) (s : bytes) : option (bytes * bytes) :=
  match s with
  | [] => None
  | d :: s =>
    match rsplit_once c s with
    | Some (l, r) => Some (d :: l, r)
    | None => if decide (c = d) then Some ([], s) else None
    end
  end.

(** [hay.windows(needle.len()).position(|w| w == needle)] for a non-empty needle. *)
Fixpoint find_sub_from (i : nat) (needle hay : bytes) : option nat :=
  if starts_with needle hay then Some i
  else match hay with [] => None | _ :: hay => find_sub_from (S i) needle hay end.

(** ** Case-insensitive comparison and numbers *)

Definition to_ascii_lowercase (c : byte) : byte :=
  if in_range 65 90 c then byte_of_Z (Z_of_byte c + 32) else c.
Definition eq_ignore_ascii_case (s t : bytes) : bool :=
  bool_decide (map to_ascii_lowercase s = map to_ascii_lowercase t).

Fixpoint parse_digits (acc limit : Z) (s : bytes) : option Z :=
  match s with
  | [] => Some acc
  | c :: s =>
    if in_range 48 57 c then
      let v := acc * 10 + (Z_of_byte c - 48) in
      if v <? limit then parse_digits v limit s else None
    else None
  end.
(** [s.parse::<u16>()], [s.parse::<u32>()]: an optional [+], then digits. *)
Definition parse_uint (limit : Z) (s : bytes) : option Z :=
  match s with
  | [] => None
  | [c] => if decide (c = Byte.x2b) then None else parse_digits 0 limit [c]
  | c :: r => if decide (c = Byte.x2b) then parse_digits 0 limit r else parse_digits 0 limit s
  end.
Definition parse_u16 : bytes -> option Z := parse_uint (2 ^ 16).

Example lines_ex : map str (lines (to_b "GET / HTTP/1.1" ++ [Byte.x0d; Byte.x0a] ++ to_b "Host: h" ++ [Byte.x0a]))
  = ["GET / HTTP/1.1"; "Host: h"].
Proof. reflexivity. Qed.
Example trim_ex : str (trim (to_b "  a b  ")) = "a b". Proof. reflexivity. Qed.
Example split_ex : map str (split_whitespace (to_b " GET  /x ")) = ["GET"; "/x"]. Proof. reflexivity. Qed.
Example rsplit_ex : rsplit_once Byte.x3a (to_b "[::1]:80") = Some (to_b "[::1]", to_b "80"). Proof. reflexivity. Qed.
Example parse_u16_ex : map parse_u16 [to_b "80"; to_b "+80"; to_b "65536"; to_b ""; to_b "8x"]
  = [Some 80; Some 80; None; None; None]. Proof. reflexivity. Qed.

(** ** Lemmas *)

Lemma strip_prefix_Some p s r : strip_prefix p s = Some r <-> s = p ++ r.
Proof.
  revert s; induction p as [|c p IH]; intros s; cbn.
  - naive_solver.
  - destruct s as [|d s]; [naive_solver|]. case_decide; [|naive_solver].
    subst. rewrite IH. naive_solver.
Qed.

Lemma rsplit_once_Some c s l r : rsplit_once c s = Some (l, r) -> s = l ++ c :: r /\ c ∉ r.
Proof.
  revert l r; induction s as [|d s IH]; intros l r; cbn; [done|].
  destruct (rsplit_once c s) as [[l' r']|] eqn:E.
  - intros [= <- <-]. destruct (IH l' r' eq_refl) as [-> ?]. done.
  - case_decide; [|done]. intros [= <- <-]. subst. split; [done|].
    clear IH. revert E. induction s as [|e s IH]; cbn; [set_solver|].
    destruct (rsplit_once d s) as [[]|]; [done|]. case_decide; [done|]. set_solver.
Qed.

Lemma rsplit_once_app c l r : c ∉ r -> rsplit_once c (l ++ c :: r) = Some (l, r).
Proof.
  intros Hr. induction l as [|d l IH]; cbn; [|by rewrite IH].
  assert (rsplit_once c r = None) as ->; [|by rewrite decide_True].
  induction r as [|e r IH]; cbn; [done|].
  rewrite IH by set_solver. rewrite decide_False; [done|set_solver].
Qed.

Lemma find_sub_from_Some i needle hay n :
  find_sub_from i needle hay = Some n ->
  (i <= n)%nat /\ exists l r, hay = l ++ needle ++ r /\ length l = (n - i)%nat.
Proof.
  revert i; induction hay as [|c hay IH]; intros i; cbn; unfold starts_with.
  - destruct (strip_prefix needle []) eqn:E; [|done]. intros [= ->].
    apply strip_prefix_Some in E. split; [lia|]. exists [], l. cbn. split; [done|lia].
  - destruct (strip_prefix needle (c :: hay)) eqn:E.
    + intros [= ->]. apply strip_prefix_Some in E.
      split; [lia|]. exists [], l. cbn. split; [done|lia].
    + intros H. apply IH in H as (Hle & l & r & -> & Hl).
      split; [lia|]. exists (c :: l), r. cbn. split; [done|lia].
Qed.

Lemma find_sub_from_complete i needle l r :
  is_Some (find_sub_from i needle (l ++ needle ++ r)).
Proof.
  revert i; induction l as [|c l IH]; intros i; cbn [app].
  - assert (H : starts_with needle (needle ++ r) = true).
    { unfold starts_with. by rewrite (proj2 (strip_prefix_Some _ _ _) eq_refl). }
    destruct (needle ++ r); cbn; rewrite H; eauto.
  - cbn. destruct (starts_with _ _); eauto.
Qed.
