(* ===== verification/Core.v ===== *)
(** Shared types of [core/core]: the error type, the wire-shared configuration
    enums and pre-shared-key helpers, the protocol constants and the frames.
    [base64], the random generator and [bincode] are third-party: they are the
    parameters [Base64] and [Bincode]. *)
From stdpp Require Import strings.
From S2P Require Import Prelude Net Text.

(** ** Errors (error.rs) *)

(** What the code distinguishes of a [std::io::Error]: its kind and its text. *)
Inductive ErrorKind := UnexpectedEof | WouldBlock | OtherKind.
Record IoError := mkIo { io_kind : ErrorKind; io_text : string }.

Inductive Error :=
  | Io (e : IoError)
  | Codec (msg : string)
  | Crypto (msg : string)
  | Protocol (msg : string)
  | Auth (msg : string)
  | Transport (msg : string)
  | Config (msg : string)
  | Closed
  | NotImplemented (msg : string).

#[export] Instance io_kind_eq_dec : EqDecision ErrorKind.
Proof. solve_decision. Defined.
#[export] Instance io_eq_dec : EqDecision IoError.
Proof. solve_decision. Defined.
#[export] Instance error_eq_dec : EqDecision Error.
Proof. solve_decision. Defined.

Abbreviation Result := (result Error).

Definition show_error (e : Error) : string :=
  match e with
  | Io e => "io: " +:+ io_text e
  | Codec m => "codec: " +:+ m
  | Crypto m => "crypto: " +:+ m
  | Protocol m => "protocol: " +:+ m
  | Auth m => "auth: " +:+ m
  | Transport m => "transport: " +:+ m
  | Config m => "config: " +:+ m
  | Closed => "connection closed"
  | NotImplemented m => "not implemented: " +:+ m
  end.

(** ** Constants (lib.rs) *)

Definition PROTOCOL_VERSION : Z := 2.
Definition MAX_MESSAGE_LEN : Z := 256 * 1024.
Definition DEFAULT_MTU : Z := 1380.
Definition KEEPALIVE_SECS : Z := 15.
Definition DEAD_LINK_SECS : Z := 45.
Definition NOISE_PATTERN : string := "Noise_NNpsk0_25519_ChaChaPoly_BLAKE2s".

(** ** Wire-shared configuration (config.rs) *)

Inductive TransportKind := Tcp | Ws | Quic.
Inductive SessionMode := GlobalProxy | SystemProxy | HttpProxy | Vpn.

#[export] Instance transport_kind_eq_dec : EqDecision TransportKind.
Proof. solve_decision. Defined.
#[export] Instance session_mode_eq_dec : EqDecision SessionMode.
Proof. solve_decision. Defined.

Definition show_transport (t : TransportKind) : string :=
  match t with Tcp => "tcp" | Ws => "ws" | Quic => "quic" end.

(** The mode as the server sees it: [SystemProxy] is a client-side concern. *)
Definition wire (m : SessionMode) : SessionMode :=
  match m with SystemProxy => HttpProxy | other => other end.
Definition is_stream (m : SessionMode) : bool :=
  match m with HttpProxy | SystemProxy => true | _ => false end.
Definition show_mode (m : SessionMode) : string :=
  match m with
  | GlobalProxy => "global_proxy"
  | SystemProxy => "system_proxy"
  | HttpProxy => "http_proxy"
  | Vpn => "vpn"
  end.

Lemma wire_idem m : wire (wire m) = wire m.
Proof. by destruct m. Qed.
Lemma is_stream_wire m : is_stream (wire m) = is_stream m.
Proof. by destruct m. Qed.

(** *** Pre-shared keys *)

(** The [base64] crate: the standard engine, and the URL-safe ones a link may use. *)
Class Base64 := {
  b64_encode : bytes -> bytes;
  b64_decode : bytes -> result string bytes;
  b64_decode_url : bytes -> result string bytes;
  b64_decode_url_nopad : bytes -> result string bytes;
}.

(** Documented behaviour: decoding inverts encoding, and the encoded text uses
    the alphabet of RFC 4648 ([A-Z], [a-z], [0-9], [+], [/], [=]). *)
Definition b64_char (c : byte) : bool :=
  in_range 65 90 c || in_range 97 122 c || in_range 47 57 c ||
  in_range 43 43 c || in_range 61 61 c.
Class Base64Laws `{Base64} := {
  b64_decode_encode : forall k, b64_decode (b64_encode k) = Ok k;
  b64_alphabet : forall k, Forall (fun c => b64_char c = true) (b64_encode k);
}.

Definition generate_psk `{Base64} (random : bytes) : bytes := b64_encode random.

Definition parse_psk `{Base64} (s : bytes) : Result bytes :=
  match b64_decode (trim s) with
  | Err e => Err (Config ("invalid psk base64: " +:+ e))
  | Ok key =>
    if (length key =? 32)%nat then Ok key
    else Err (Config ("psk must be 32 bytes, got " +:+ pretty (length key)))
  end.

(** ** Control messages (protocol/control.rs) *)

Record Hello := mkHello {
  hello_version : Z;
  hello_token : string;
  hello_mode : SessionMode;
  requested_ip : option Ipv4Addr;
  client_name : option string;
  join_vpn : bool;
}.

Record Welcome := mkWelcome {
  session_id : Z;
  assigned_ip : Ipv4Addr;
  prefix_len : Z;
  gateway : Ipv4Addr;
  mtu : Z;
  dns : list Ipv4Addr;
  assigned_ip6 : option Ipv6Addr;
  prefix6 : Z;
  gateway6 : option Ipv6Addr;
  dns6 : list Ipv6Addr;
}.

Record PeerInfo := mkPeerInfo {
  peer_ip : Ipv4Addr;
  peer_name : string;
  peer_ip6 : option Ipv6Addr;
}.

Inductive TargetAddr :=
  | TIp (a : SocketAddr)
  | TDomain (host : string) (port : Z).

Definition show_target (t : TargetAddr) : string :=
  match t with
  | TIp a => show_sockaddr a
  | TDomain h p => h +:+ ":" +:+ pretty p
  end.

(** ** Frames (protocol/frame.rs) *)

Inductive Frame :=
  | FHello (h : Hello)
  | FWelcome (w : Welcome)
  | FReject (reason : string)
  | FPing
  | FPong
  | FPacket (p : bytes)
  | FStreamOpen (id : Z) (target : TargetAddr)
  | FStreamData (id : Z) (data : bytes)
  | FStreamClose (id : Z) (error : option string)
  | FGetPeers
  | FPeerList (peers : list PeerInfo).

#[export] Instance hello_eq_dec : EqDecision Hello.
Proof. solve_decision. Defined.
#[export] Instance welcome_eq_dec : EqDecision Welcome.
Proof. solve_decision. Defined.
#[export] Instance peer_info_eq_dec : EqDecision PeerInfo.
Proof. solve_decision. Defined.
#[export] Instance target_eq_dec : EqDecision TargetAddr.
Proof. solve_decision. Defined.
#[export] Instance frame_eq_dec : EqDecision Frame.
Proof. solve_decision. Defined.

(** The [bincode] crate on [Frame]; an error is its text. *)
Class Bincode := {
  bincode_serialize : Frame -> result string bytes;
  bincode_deserialize : bytes -> result string Frame;
}.
Class BincodeLaws `{Bincode} := {
  bincode_round_trip : forall f m, bincode_serialize f = Ok m -> bincode_deserialize m = Ok f;
}.

(** The IP packets among the frames of a connection. *)
Definition packets (fs : list Frame) : list bytes :=
  omap (fun f => match f with FPacket b => Some b | _ => None end) fs.
(** The data of one stream among them. *)
Definition data_of (id : Z) (fs : list Frame) : list bytes :=
  omap (fun f => match f with FStreamData i d => if decide (i = id) then Some d else None | _ => None end) fs.
Lemma packets_app a b : packets (a ++ b) = packets a ++ packets b.
Proof. apply omap_app. Qed.
Lemma data_app id a b : data_of id (a ++ b) = data_of id a ++ data_of id b.
Proof. apply omap_app. Qed.

(** Payload bytes a frame carries, as both ends count them for their statistics. *)
Definition payload_len (f : Frame) : Z :=
  match f with
  | FPacket p => Z.of_nat (length p)
  | FStreamData _ d => Z.of_nat (length d)
  | _ => 0
  end.
Lemma payload_len_nonneg f : 0 <= payload_len f.
Proof. destruct f; cbn; lia. Qed.

(** ** Text without blanks is left alone by [trim] *)

(** Base64 text, and the colon of a link's scheme. *)
Definition link_char (c : byte) : bool := b64_char c || in_range 58 58 c.

Lemma link_char_not_ws c s : link_char c = true -> strip_ws (c :: s) = None.
Proof. destruct c; try (by intros [=]); intros _; reflexivity. Qed.
Lemma link_char_not_ws_rev c s :
  link_char c = true -> strip_char (map (@rev byte) ws_chars) (c :: s) = None.
Proof. destruct c; try (by intros [=]); intros _; reflexivity. Qed.

Lemma trim_link s : Forall (fun c => link_char c = true) s -> trim s = s.
Proof.
  intros H. unfold trim. assert (trim_start s = s) as ->.
  { unfold trim_start. destruct H as [|c s Hc H]; [done|]. cbn [length trim_front_fuel].
    by rewrite (link_char_not_ws c s Hc : strip_char ws_chars _ = None). }
  unfold trim_end. apply Forall_rev in H.
  assert (forall n, trim_front_fuel (map (@rev byte) ws_chars) n (rev s) = rev s) as ->.
  { intros [|n]; [done|]. destruct H as [|c r Hc H]; [done|]. cbn [trim_front_fuel].
    by rewrite link_char_not_ws_rev. }
  apply rev_involutive.
Qed.
Lemma b64_link s :
  Forall (fun c => b64_char c = true) s -> Forall (fun c => link_char c = true) s.
Proof. intros H. eapply Forall_impl; [exact H|]. intros c Hc. unfold link_char. by rewrite Hc. Qed.
Lemma trim_b64 s : Forall (fun c => b64_char c = true) s -> trim s = s.
Proof. intros H. by apply trim_link, b64_link. Qed.

(** ** Pre-shared keys round trip *)

(** A generated pre-shared key is accepted back exactly when it has 32 bytes: for
    every random byte string [k], parsing its base64 text gives [k] when
    [length k = 32] and a configuration error naming the length otherwise; and
    whatever text is accepted, the key has 32 bytes. *)
Theorem psk_round_trip `{Base64Laws} (k : bytes) :
  parse_psk (generate_psk k) =
    (if (length k =? 32)%nat then Ok k
     else Err (Config ("psk must be 32 bytes, got " +:+ pretty (length k)))) /\
  (forall s key, parse_psk s = Ok key -> length key = 32%nat).
Proof.
  split.
  - unfold parse_psk, generate_psk. rewrite trim_b64 by apply b64_alphabet.
    by rewrite b64_decode_encode.
  - intros s key. unfold parse_psk. destruct (b64_decode (trim s)) as [k'|e]; [|done].
    destruct (Nat.eqb_spec (length k') 32); [|done]. by intros [= <-].
Qed.

(** A concrete text codec over the same alphabet: two letters per byte. *)
Module NibbleCodec.
Definition letter (z : Z) : byte := byte_of_Z (65 + z).
Definition enc1 (b : byte) : bytes := [letter (Z_of_byte b / 16); letter (Z_of_byte b mod 16)].
Definition dec1 (c d : byte) : byte := byte_of_Z (16 * (Z_of_byte c - 65) + (Z_of_byte d - 65)).
Fixpoint dec (s : bytes) : result string bytes :=
  match s with
  | [] => Ok []
  | c :: d :: r => match dec r with Ok k => Ok (dec1 c d :: k) | Err e => Err e end
  | _ => Err "odd length"
  end.
#[export] Instance codec : Base64 := {|
  b64_encode k := flat_map enc1 k; b64_decode := dec;
  b64_decode_url := dec; b64_decode_url_nopad := dec |}.
#[export] Instance laws : Base64Laws.
Proof.
  split.
  - induction k as [|b k IH]; [done|]. change (dec (flat_map enc1 k) = Ok k) in IH.
    change (dec (letter (Z_of_byte b / 16) :: letter (Z_of_byte b mod 16) :: flat_map enc1 k)
      = Ok (b :: k)).
    cbn [dec]. rewrite IH. by destruct b.
  - intros k. change (Forall (fun c => b64_char c = true) (flat_map enc1 k)).
    induction k as [|b k IH]; [done|]. cbn [flat_map]. apply Forall_app. split; [|done].
    by destruct b; repeat constructor.
Qed.
End NibbleCodec.

Lemma psk_round_trip_witness :
  let k := replicate 32 Byte.xa7 in
  @parse_psk NibbleCodec.codec (@generate_psk NibbleCodec.codec k) = Ok k.
Proof. cbv zeta. apply (@psk_round_trip NibbleCodec.codec NibbleCodec.laws (replicate 32 Byte.xa7)). Defined.
