(* ===== verification/Channel.v ===== *)
(** Message channels of [core/core/src/transport]: the [MessageSink] /
    [MessageStream] contract as an interface, and its four implementations
    (length-delimited framing, QUIC, Noise over TCP, WebSocket).  Both halves of a
    channel belong to one endpoint state, because the Noise halves share one
    [TransportState].  [snow] and [tungstenite] are parameters. *)
From stdpp Require Import strings.
From S2P Require Import Prelude Net Text Core.

(** ** Byte streams ([AsyncRead] / [AsyncWrite]) *)

(** A write half: what it has sent, how many more bytes it accepts before it
    fails with [w_err] ([None]: no limit), and what [flush] and [shutdown] answer. *)
Record Writer := mkWriter {
  w_out : bytes;
  w_room : option nat;
  w_err : IoError;
  w_flush : option IoError;
  w_shut : bool;
}.
(** A read half: everything the peer will still send, then its end: a clean EOF
    ([None]) or an error. *)
Record Reader := mkReader { r_in : bytes; r_end : option IoError }.

Definition eof : IoError := mkIo UnexpectedEof "early eof".

Definition set_out (w : Writer) (out : bytes) (room : option nat) : Writer :=
  mkWriter out room (w_err w) (w_flush w) (w_shut w).
Definition write_all (bs : bytes) : eff Writer IoError unit := fun w =>
  match w_room w with
  | None => (set_out w (w_out w ++ bs) None, Ok tt)
  | Some n =>
    if (length bs <=? n)%nat
    then (set_out w (w_out w ++ bs) (Some (n - length bs)%nat), Ok tt)
    else (set_out w (w_out w ++ take n bs) (Some O), Err (w_err w))
  end.
Definition flush : eff Writer IoError unit := fun w =>
  (w, match w_flush w with None => Ok tt | Some e => Err e end).
(** Shutting down flushes, then closes the write side. *)
Definition shutdown : eff Writer IoError unit := fun w =>
  match w_flush w with
  | None => (mkWriter (w_out w) (w_room w) (w_err w) (w_flush w) true, Ok tt)
  | Some e => (w, Err e)
  end.
Definition write_uint (n : nat) (v : Z) : eff Writer IoError unit := write_all (be_split n v).
Definition read_exact (n : nat) : eff Reader IoError bytes := fun r =>
  if (n <=? length (r_in r))%nat
  then (mkReader (drop n (r_in r)) (r_end r), Ok (take n (r_in r)))
  else (mkReader [] (r_end r), Err (default eof (r_end r))).
Definition read_uint (n : nat) : eff Reader IoError Z := bs ← read_exact n; mret (be_combine bs).

Lemma write_all_ok bs w w' :
  write_all bs w = (w', Ok tt) -> w_out w' = w_out w ++ bs.
Proof. unfold write_all. destruct (w_room w); [case_match|]; by intros [= <-]. Qed.

Lemma flush_ok w w' : flush w = (w', Ok tt) -> w' = w.
Proof. unfold flush. case_match; by intros [= <-]. Qed.

(** A writer that never fails. *)
Definition writable (w : Writer) : Prop := w_room w = None /\ w_flush w = None.
Lemma write_all_writable bs w :
  writable w -> exists w', write_all bs w = (w', Ok tt) /\ writable w'.
Proof. intros [Hr Hf]. unfold write_all. rewrite Hr. eexists. split; [done|]. done. Qed.
Lemma flush_writable w : writable w -> flush w = (w, Ok tt).
Proof. intros [_ Hf]. unfold flush. by rewrite Hf. Qed.

Lemma read_exact_app bs rest e :
  read_exact (length bs) (mkReader (bs ++ rest) e) = (mkReader rest e, Ok bs).
Proof.
  unfold read_exact. cbn [r_in r_end]. rewrite length_app.
  destruct (Nat.leb_spec (length bs) (length bs + length rest)); [|lia].
  by rewrite drop_app_length, take_app_length.
Qed.

Lemma read_uint_split n v rest e :
  0 <= v < 256 ^ Z.of_nat n ->
  read_uint n (mkReader (be_split n v ++ rest) e) = (mkReader rest e, Ok v).
Proof.
  intros Hv. unfold read_uint, mbind, eff_bind.
  rewrite <- (length_be_split n v) at 1. rewrite read_exact_app.
  cbn. by rewrite be_combine_split_small.
Qed.

Lemma read_exact_feed n r bs r' w :
  read_exact n r = (r', Ok bs) ->
  read_exact n (mkReader (r_in r ++ w) (r_end r)) = (mkReader (r_in r' ++ w) (r_end r'), Ok bs).
Proof.
  unfold read_exact. cbn [r_in r_end]. rewrite length_app.
  destruct (Nat.leb_spec n (length (r_in r))); [|done]. intros [= <- <-].
  destruct (Nat.leb_spec n (length (r_in r) + length w)); [|lia].
  cbn. by rewrite drop_app_le, take_app_le.
Qed.

Lemma read_uint_feed n r v r' w :
  read_uint n r = (r', Ok v) ->
  read_uint n (mkReader (r_in r ++ w) (r_end r)) = (mkReader (r_in r' ++ w) (r_end r'), Ok v).
Proof.
  unfold read_uint. intros (t & bs & H1 & H2)%eff_bind_ok. apply eff_bind_ok.
  exists (mkReader (r_in t ++ w) (r_end t)), bs. split; [by apply read_exact_feed|].
  by injection H2 as <- <-.
Qed.

(** ** The interface *)

Class MessageChannel (End : Type) := {
  wire_item : Type;
  mc_send : bytes -> eff End Error unit;
  mc_recv : eff End Error bytes;
  mc_out : End -> list wire_item;    (* everything sent so far *)
  mc_in : End -> list wire_item;     (* delivered, not yet read *)
  mc_feed : list wire_item -> End -> End;  (* delivery by the transport *)
  mc_sync : End -> End -> Prop;      (* what the first sends next, the second can read *)
  mc_fits : bytes -> Prop;           (* messages the channel accepts *)
  mc_ready : End -> Prop;            (* the transport below accepts writes *)
  mc_close : eff End Error unit;
}.

(** What a channel promises: an ordered, reliable, message-preserving, full-duplex link. *)
Class MessageChannelLaws (End : Type) `{MessageChannel End} := {
  mc_send_out : forall m a a', mc_send m a = (a', Ok tt) -> exists w, mc_out a' = mc_out a ++ w;
  mc_send_recv : forall m a a' b w,
    mc_sync a b -> mc_in b = [] -> mc_send m a = (a', Ok tt) -> mc_out a' = mc_out a ++ w ->
    exists b', mc_recv (mc_feed w b) = (b', Ok m) /\ mc_in b' = [] /\ mc_sync a' b';
  mc_recv_feed : forall w b b' m,
    mc_recv b = (b', Ok m) -> mc_recv (mc_feed w b) = (mc_feed w b', Ok m);
  mc_feed_sync : forall w a b, mc_sync b a -> mc_sync (mc_feed w b) a;
  mc_send_other : forall m a a' b,
    mc_sync b a -> mc_in a = [] -> mc_send m a = (a', Ok tt) -> mc_sync b a' /\ mc_in a' = [];
  mc_send_reads : forall m k a a' b, mc_send m a = (a', Ok tt) -> mc_recv a = (b, Ok k) ->
    exists b', mc_recv a' = (b', Ok k) /\ mc_send m b = (b', Ok tt);
  mc_recv_other : forall a b b' m, mc_sync b a -> mc_recv b = (b', Ok m) -> mc_sync b' a;
  mc_send_ready : forall m a, mc_ready a -> mc_fits m ->
    exists a', mc_send m a = (a', Ok tt) /\ mc_ready a';
  mc_recv_ready : forall a a' m, mc_ready a -> mc_recv a = (a', Ok m) -> mc_ready a';
  mc_feed_ready : forall w a, mc_ready a -> mc_ready (mc_feed w a);
  mc_feed_nil : forall a, mc_feed [] a = a;
  mc_feed_app : forall w w' a, mc_feed (w ++ w') a = mc_feed w' (mc_feed w a);
}.

(** ** A full-duplex link refines a pair of queues *)

Section Link.
Context {End : Type} `{MessageChannelLaws End}.

Inductive link_op := SendA (m : bytes) | SendB (m : bytes) | RecvA | RecvB.

(** [a] sends, the transport delivers to [b] what [a] wrote. *)
Definition send_to (m : bytes) (a b : End) : End * End * Result unit :=
  let (a', r) := mc_send m a in
  (a', mc_feed (drop (length (mc_out a)) (mc_out a')) b, r).

Definition link_step (o : link_op) (l : End * End) : (End * End) * Result (option bytes) :=
  match o with
  | SendA m => let '(a, b, r) := send_to m l.1 l.2 in ((a, b), (fun _ => None) <$> r)
  | SendB m => let '(b, a, r) := send_to m l.2 l.1 in ((a, b), (fun _ => None) <$> r)
  | RecvA => let (a, r) := mc_recv l.1 in ((a, l.2), Some <$> r)
  | RecvB => let (b, r) := mc_recv l.2 in ((l.1, b), Some <$> r)
  end.

(** The specification: two FIFO queues, (from A to B, from B to A). *)
Definition spec_step (o : link_op) (q : list bytes * list bytes)
  : option ((list bytes * list bytes) * option bytes) :=
  match o with
  | SendA m => Some ((q.1 ++ [m], q.2), None)
  | SendB m => Some ((q.1, q.2 ++ [m]), None)
  | RecvA => match q.2 with m :: p => Some ((q.1, p), Some m) | [] => None end
  | RecvB => match q.1 with m :: p => Some ((p, q.2), Some m) | [] => None end
  end.

(** [carries a b q]: [b] will receive exactly [q], then what [a] sends next. *)
Inductive carries : End -> End -> list bytes -> Prop :=
  | carries_nil a b : mc_in b = [] -> mc_sync a b -> carries a b []
  | carries_cons a b b' m q :
      mc_recv b = (b', Ok m) -> carries a b' q -> carries a b (m :: q).

Definition link_rel (l : End * End) (q : list bytes * list bytes) : Prop :=
  carries l.1 l.2 q.1 /\ carries l.2 l.1 q.2.

Lemma carries_send a b q m a' w :
  carries a b q -> mc_send m a = (a', Ok tt) -> mc_out a' = mc_out a ++ w ->
  carries a' (mc_feed w b) (q ++ [m]).
Proof.
  induction 1 as [a b Hin Hsync|a b b' k q Hr Hc IH]; intros Hs Hw; cbn.
  - destruct (mc_send_recv m a a' b w) as (b' & Hrecv & Hin' & Hsync'); auto.
    econstructor; [done|]. by constructor.
  - econstructor; [by apply mc_recv_feed|]. by apply IH.
Qed.

Lemma carries_sender_feed a b q w : carries a b q -> carries (mc_feed w a) b q.
Proof.
  induction 1; econstructor; eauto using mc_feed_sync.
Qed.
Lemma carries_receiver_sends b a q m a' :
  carries b a q -> mc_send m a = (a', Ok tt) -> carries b a' q.
Proof.
  intros Hc. revert a'. induction Hc as [b a Hin Hsync|b a a1 k q Hr Hc IH]; intros a' Hs.
  - destruct (mc_send_other m a a' b) as [? ?]; auto. by constructor.
  - destruct (mc_send_reads m k a a' a1) as (a1' & ? & ?); auto. econstructor; eauto.
Qed.
Lemma carries_sender_recv a b q a' m :
  carries a b q -> mc_recv a = (a', Ok m) -> carries a' b q.
Proof. intros Hc Hr. induction Hc; econstructor; eauto using mc_recv_other. Qed.

Lemma send_to_rel m a b a' b' q p :
  carries a b q -> carries b a p -> send_to m a b = (a', b', Ok tt) ->
  carries a' b' (q ++ [m]) /\ carries b' a' p.
Proof.
  intros Hq Hp. unfold send_to. destruct (mc_send m a) as [a1 r] eqn:Hs.
  intros [= -> <- ->]. destruct (mc_send_out _ _ _ Hs) as [w Hw].
  rewrite Hw, drop_app_length. split; [by eapply carries_send|].
  apply carries_sender_feed. by eapply carries_receiver_sends.
Qed.

(** Every step the specification allows, the link does with the same outcome;
    only a send may fail, and then the link says so. *)
Lemma link_simulates o l q q' r :
  link_rel l q -> spec_step o q = Some (q', r) ->
  match link_step o l with
  | (l', Ok r') => r' = r /\ link_rel l' q'
  | (_, Err _) => exists m, o = SendA m \/ o = SendB m
  end.
Proof.
  destruct l as [a b], q as [p1 p2]; intros [Hq Hp]; cbn in Hq, Hp.
  destruct o as [m|m| |]; cbn.
  - intros [= <- <-]. destruct (send_to m a b) as [[a' b'] [[]|e]] eqn:E; cbn; [|eauto].
    split; [done|]. by apply (send_to_rel m a b).
  - intros [= <- <-]. destruct (send_to m b a) as [[b' a'] [[]|e]] eqn:E; cbn; [|eauto].
    split; [done|]. apply and_comm. by apply (send_to_rel m b a).
  - destruct p2 as [|m p2]; [done|]. intros [= <- <-]. inversion Hp as [|? ? ? ? ? Hr Hc]; subst.
    rewrite Hr. cbn. split; [done|]. split; [|done]. by eapply carries_sender_recv.
  - destruct p1 as [|m p1]; [done|]. intros [= <- <-]. inversion Hq as [|? ? ? ? ? Hr Hc]; subst.
    rewrite Hr. cbn. split; [done|]. split; [done|]. by eapply carries_sender_recv.
Qed.

Fixpoint link_run (os : list link_op) (l : End * End) : (End * End) * Result (list (option bytes)) :=
  match os with
  | [] => (l, Ok [])
  | o :: os =>
    match link_step o l with
    | (l, Ok r) => let (l, rs) := link_run os l in (l, (cons r) <$> rs)
    | (l, Err e) => (l, Err e)
    end
  end.
Fixpoint spec_run (os : list link_op) (q : list bytes * list bytes)
  : option ((list bytes * list bytes) * list (option bytes)) :=
  match os with
  | [] => Some (q, [])
  | o :: os =>
    match spec_step o q with
    | Some (q, r) => match spec_run os q with Some (q, rs) => Some (q, r :: rs) | None => None end
    | None => None
    end
  end.

Definition op_fits (o : link_op) : Prop :=
  match o with SendA m | SendB m => mc_fits m | _ => True end.
Definition link_ready (l : End * End) : Prop := mc_ready l.1 /\ mc_ready l.2.

Lemma send_to_ready m a b :
  mc_ready a -> mc_ready b -> mc_fits m ->
  exists a' b', send_to m a b = (a', b', Ok tt) /\ mc_ready a' /\ mc_ready b'.
Proof.
  intros Ha Hb Hm. destruct (mc_send_ready m a Ha Hm) as (a' & Hs & Ha').
  unfold send_to. rewrite Hs. eexists _, _. split; [done|]. auto using mc_feed_ready.
Qed.

Lemma link_step_ready o l :
  link_ready l -> op_fits o ->
  match link_step o l with
  | (l', Ok _) => link_ready l'
  | (_, Err _) => o = RecvA \/ o = RecvB
  end.
Proof.
  destruct l as [a b]. intros [Ha Hb] Ho. destruct o as [m|m| |]; cbn in *.
  - destruct (send_to_ready m a b) as (? & ? & -> & ? & ?); auto. by split.
  - destruct (send_to_ready m b a) as (? & ? & -> & ? & ?); auto. by split.
  - destruct (mc_recv a) as [a' [m|e]] eqn:E; cbn; [|auto]. split; eauto using mc_recv_ready.
  - destruct (mc_recv b) as [b' [m|e]] eqn:E; cbn; [|auto]. split; eauto using mc_recv_ready.
Qed.

(** On a working transport every run the queues allow happens, with their outcomes. *)
Lemma link_fifo os l q q' rs :
  link_rel l q -> link_ready l -> Forall op_fits os -> spec_run os q = Some (q', rs) ->
  exists l', link_run os l = (l', Ok rs) /\ link_rel l' q'.
Proof.
  intros Hl Hr Hos. revert l q rs Hl Hr.
  induction Hos as [|o os Ho Hos IH]; intros l q rs Hl Hr; cbn.
  - intros [= <- <-]. eauto.
  - destruct (spec_step o q) as [[q1 r1]|] eqn:E1; [|done].
    destruct (spec_run os q1) as [[q2 rs2]|] eqn:E2; [|done]. intros [= <- <-].
    pose proof (link_simulates _ _ _ _ _ Hl E1) as Hstep.
    pose proof (link_step_ready _ _ Hr Ho) as Hready.
    destruct (link_step o l) as [l1 [r|e]]; [|naive_solver].
    destruct Hstep as [-> Hl1].
    destruct (IH _ _ _ Hl1 Hready E2) as (l' & -> & ?). eauto.
Qed.
End Link.
Arguments link_op : clear implicits.

(** ** Length-delimited framing (transport/framing.rs) *)

(** The two halves of one endpoint; the peer's bytes arrive in [e_r]. *)
Record StreamEnd := mkEnd { e_w : Writer; e_r : Reader }.

Definition on_w {E A} (m : eff Writer E A) : eff StreamEnd E A := fun e =>
  let (w, r) := m (e_w e) in (mkEnd w (e_r e), r).
Definition on_r {E A} (m : eff Reader E A) : eff StreamEnd E A := fun e =>
  let (r, v) := m (e_r e) in (mkEnd (e_w e) r, v).
Definition feed (w : bytes) (e : StreamEnd) : StreamEnd :=
  mkEnd (e_w e) (mkReader (r_in (e_r e) ++ w) (r_end (e_r e))).

Definition msg_len (m : bytes) : Z := Z.of_nat (length m).

Module LdSink.
Definition send (msg : bytes) : eff Writer Error unit :=
  if MAX_MESSAGE_LEN <? msg_len msg
  then throw (Protocol ("message too large: " +:+ pretty (msg_len msg)))
  else
    with_err Io (write_uint 4 (wrap 32 (msg_len msg)));;
    with_err Io (write_all msg);;
    with_err Io flush.
Definition close : eff Writer Error unit := with_err Io shutdown.
End LdSink.

Module LdStream.
(** A failed length read: a clean end is [Closed]. *)
Definition closed_or_io (e : IoError) : Error :=
  if decide (io_kind e = UnexpectedEof) then Closed else Io e.
Definition recv : eff Reader Error bytes :=
  len ← with_err closed_or_io (read_uint 4);
  if MAX_MESSAGE_LEN <? len
  then throw (Protocol ("frame too large: " +:+ pretty len))
  else with_err Io (read_exact (Z.to_nat len)).
End LdStream.

(** ** QUIC (transport/quic.rs): the same frames on a bidirectional stream, no
    flush, and quinn's own write and read errors reported as [Transport]. *)
Module QuicSink.
Definition send (msg : bytes) : eff Writer Error unit :=
  if MAX_MESSAGE_LEN <? msg_len msg
  then throw (Protocol ("message too large: " +:+ pretty (msg_len msg)))
  else
    with_err Io (write_uint 4 (wrap 32 (msg_len msg)));;
    with_err (fun e => Transport ("quic write: " +:+ io_text e)) (write_all msg).
(** [finish] ends the stream; its outcome is ignored. *)
Definition close : eff Writer Error unit := ignore shutdown.
End QuicSink.

Module QuicRecv.
Definition recv : eff Reader Error bytes :=
  len ← with_err LdStream.closed_or_io (read_uint 4);
  if MAX_MESSAGE_LEN <? len
  then throw (Protocol ("frame too large: " +:+ pretty len))
  else with_err (fun e => Transport ("quic read: " +:+ io_text e)) (read_exact (Z.to_nat len)).
End QuicRecv.

Lemma with_err_ok {S E F A} (f : E -> F) (m : eff S E A) s s' a :
  with_err f m s = (s', Ok a) <-> m s = (s', Ok a).
Proof. unfold with_err. destruct (m s) as [t [?|?]]; cbn; naive_solver. Qed.

Lemma msg_len_fits m : msg_len m <= MAX_MESSAGE_LEN -> wrap 32 (msg_len m) = msg_len m.
Proof. intros H. apply Z.mod_small. unfold msg_len, MAX_MESSAGE_LEN in *. lia. Qed.

(** What a successful send puts on the wire. *)
Definition ld_encode (m : bytes) : bytes := be_split 4 (msg_len m) ++ m.

Lemma ld_send_wire m w w' :
  LdSink.send m w = (w', Ok tt) ->
  msg_len m <= MAX_MESSAGE_LEN /\ w_out w' = w_out w ++ ld_encode m.
Proof.
  unfold LdSink.send. destruct (Z.ltb_spec MAX_MESSAGE_LEN (msg_len m)); [done|].
  rewrite msg_len_fits by done. intros (w1 & [] & H1 & H2)%eff_bind_ok.
  apply eff_bind_ok in H2 as (w2 & [] & H2 & H3). apply with_err_ok in H1, H2, H3.
  apply write_all_ok in H1, H2. apply flush_ok in H3 as ->.
  split; [done|]. by rewrite H2, H1, <- app_assoc.
Qed.
Lemma quic_send_wire m w w' :
  QuicSink.send m w = (w', Ok tt) ->
  msg_len m <= MAX_MESSAGE_LEN /\ w_out w' = w_out w ++ ld_encode m.
Proof.
  unfold QuicSink.send. destruct (Z.ltb_spec MAX_MESSAGE_LEN (msg_len m)); [done|].
  rewrite msg_len_fits by done. intros (w1 & [] & H1 & H2)%eff_bind_ok.
  apply with_err_ok in H1, H2. apply write_all_ok in H1, H2.
  split; [done|]. by rewrite H2, H1, <- app_assoc.
Qed.

(** The two readers agree on every stream they accept. *)
Lemma quic_recv_ld r r' m :
  QuicRecv.recv r = (r', Ok m) <-> LdStream.recv r = (r', Ok m).
Proof.
  unfold QuicRecv.recv, LdStream.recv. rewrite !eff_bind_ok.
  split; intros (t & l & H1 & H2); exists t, l; (split; [done|]); case_match; try done;
    by rewrite with_err_ok in *.
Qed.

Lemma ld_recv_encode m rest e :
  msg_len m <= MAX_MESSAGE_LEN ->
  LdStream.recv (mkReader (ld_encode m ++ rest) e) = (mkReader rest e, Ok m).
Proof.
  intros Hm. unfold LdStream.recv, ld_encode. rewrite <- app_assoc. apply eff_bind_ok.
  exists (mkReader (m ++ rest) e), (msg_len m). split.
  - apply with_err_ok, read_uint_split. unfold msg_len, MAX_MESSAGE_LEN in *. lia.
  - destruct (Z.ltb_spec MAX_MESSAGE_LEN (msg_len m)); [lia|].
    apply with_err_ok. unfold msg_len. rewrite Nat2Z.id. apply read_exact_app.
Qed.

Lemma ld_recv_feed r r' m w :
  LdStream.recv r = (r', Ok m) ->
  LdStream.recv (mkReader (r_in r ++ w) (r_end r)) = (mkReader (r_in r' ++ w) (r_end r'), Ok m).
Proof.
  unfold LdStream.recv. intros (t & l & H1 & H2)%eff_bind_ok. apply eff_bind_ok.
  exists (mkReader (r_in t ++ w) (r_end t)), l. apply with_err_ok in H1. split.
  - by apply with_err_ok, read_uint_feed.
  - case_match; [done|]. apply with_err_ok in H2. by apply with_err_ok, read_exact_feed.
Qed.

Lemma ld_send_ready m w :
  msg_len m <= MAX_MESSAGE_LEN -> writable w ->
  exists w', LdSink.send m w = (w', Ok tt) /\ writable w'.
Proof.
  intros Hm Hw. unfold LdSink.send. destruct (Z.ltb_spec MAX_MESSAGE_LEN (msg_len m)); [lia|].
  destruct (write_all_writable (be_split 4 (wrap 32 (msg_len m))) w Hw) as [w1 [H1 Hw1]].
  destruct (write_all_writable m w1 Hw1) as [w2 [H2 Hw2]].
  exists w2. split; [|done]. apply eff_bind_ok. exists w1, tt. split; [by apply with_err_ok|].
  apply eff_bind_ok. exists w2, tt. split; [by apply with_err_ok|].
  by apply with_err_ok, flush_writable.
Qed.
Lemma quic_send_ready m w :
  msg_len m <= MAX_MESSAGE_LEN -> writable w ->
  exists w', QuicSink.send m w = (w', Ok tt) /\ writable w'.
Proof.
  intros Hm Hw. unfold QuicSink.send. destruct (Z.ltb_spec MAX_MESSAGE_LEN (msg_len m)); [lia|].
  destruct (write_all_writable (be_split 4 (wrap 32 (msg_len m))) w Hw) as [w1 [H1 Hw1]].
  destruct (write_all_writable m w1 Hw1) as [w2 [H2 Hw2]].
  exists w2. split; [|done]. apply eff_bind_ok. exists w1, tt. split; by apply with_err_ok.
Qed.

(** Any framing with an encoding its reader inverts is a message channel. *)
Section Framed.
Context (sendw : bytes -> eff Writer Error unit) (closew : eff Writer Error unit)
  (recvr : eff Reader Error bytes) (enc : bytes -> bytes) (fits : bytes -> Prop).
Hypothesis send_wire : forall m w w',
  sendw m w = (w', Ok tt) -> fits m /\ w_out w' = w_out w ++ enc m.
Hypothesis recv_enc : forall m rest e,
  fits m -> recvr (mkReader (enc m ++ rest) e) = (mkReader rest e, Ok m).
Hypothesis recv_feed : forall r r' m w, recvr r = (r', Ok m) ->
  recvr (mkReader (r_in r ++ w) (r_end r)) = (mkReader (r_in r' ++ w) (r_end r'), Ok m).

Hypothesis send_ready : forall m w, fits m -> writable w ->
  exists w', sendw m w = (w', Ok tt) /\ writable w'.

Definition framed_channel : MessageChannel StreamEnd := {|
  wire_item := byte;
  mc_send m := on_w (sendw m);
  mc_recv := on_r recvr;
  mc_out e := w_out (e_w e);
  mc_in e := r_in (e_r e);
  mc_feed := feed;
  mc_sync _ _ := True;
  mc_fits := fits;
  mc_ready e := writable (e_w e);
  mc_close := on_w closew;
|}.

Lemma on_w_ok {A} (m : eff Writer Error A) e e' a :
  on_w m e = (e', Ok a) <-> exists w, m (e_w e) = (w, Ok a) /\ e' = mkEnd w (e_r e).
Proof. unfold on_w. destruct (m (e_w e)) as [w r]. naive_solver. Qed.
Lemma on_r_ok {A} (m : eff Reader Error A) e e' a :
  on_r m e = (e', Ok a) <-> exists r, m (e_r e) = (r, Ok a) /\ e' = mkEnd (e_w e) r.
Proof. unfold on_r. destruct (m (e_r e)) as [r v]. naive_solver. Qed.

Lemma framed_laws : @MessageChannelLaws StreamEnd framed_channel.
Proof.
  split; cbn.
  - intros m a a' (w & Hs & ->)%on_w_ok. apply send_wire in Hs as [_ Hw]. eauto.
  - intros m a a' [bw [rin rend]] w _ Hin (w' & Hs & ->)%on_w_ok Hw. cbn in *. subst rin.
    apply send_wire in Hs as [Hfit Hout]. rewrite Hout in Hw. apply app_inv_head in Hw as <-.
    exists (mkEnd bw (mkReader [] rend)). split; [|done]. apply on_r_ok.
    exists (mkReader [] rend). cbn. split; [|done].
    by rewrite <- (app_nil_r (enc m)), recv_enc.
  - intros w b b' m (r & Hr & ->)%on_r_ok. apply on_r_ok.
    eexists. cbn. split; [by apply recv_feed|]. done.
  - done.
  - intros m a a' b _ Hin (w' & Hs & ->)%on_w_ok. done.
  - intros m k a a' b (w' & Hs & ->)%on_w_ok (r' & Hr & ->)%on_r_ok.
    exists (mkEnd w' r'). split; [apply on_r_ok|apply on_w_ok]; cbn; eauto.
  - done.
  - intros m a Ha Hm. destruct (send_ready m (e_w a) Hm Ha) as (w' & Hs & ?).
    exists (mkEnd w' (e_r a)). split; [apply on_w_ok; eauto|done].
  - by intros a a' m Ha (r' & _ & ->)%on_r_ok.
  - done.
  - intros [w [r e]]. unfold feed. cbn. by rewrite app_nil_r.
  - intros w w' [aw [r e]]. unfold feed. cbn. by rewrite app_assoc.
Qed.
End Framed.

Definition ld_channel : MessageChannel StreamEnd := 
  framed_channel LdSink.send LdSink.close LdStream.recv (fun m => msg_len m <= MAX_MESSAGE_LEN).
Definition quic_channel : MessageChannel StreamEnd := 
  framed_channel QuicSink.send QuicSink.close QuicRecv.recv (fun m => msg_len m <= MAX_MESSAGE_LEN).

Lemma ld_laws : @MessageChannelLaws StreamEnd ld_channel.
Proof.
  apply (framed_laws _ _ _ ld_encode).
  - intros m w w'. apply ld_send_wire.
  - intros m rest e. apply ld_recv_encode.
  - intros r r' m w. apply ld_recv_feed.
  - intros m w. apply ld_send_ready.
Qed.
Lemma quic_laws : @MessageChannelLaws StreamEnd quic_channel.
Proof.
  apply (framed_laws _ _ _ ld_encode).
  - intros m w w'. apply quic_send_wire.
  - intros m rest e Hm. by apply quic_recv_ld, ld_recv_encode.
  - intros r r' m w Hr. apply quic_recv_ld. apply quic_recv_ld in Hr. by apply ld_recv_feed.
  - intros m w. apply quic_send_ready.
Qed.

(** ** Noise over TCP (transport/tcp.rs) *)

(** The [snow] crate's [TransportState]; an error is its text.  [write_message]
    gets the length of the output buffer and returns the ciphertext. *)
Class Snow := {
  TransportState : Type;
  snow_write : TransportState -> bytes -> nat -> TransportState * result string bytes;
  snow_read : TransportState -> bytes -> nat -> TransportState * result string bytes;
}.

(** Documented behaviour of a Noise transport pair.  [snow_sync a b]: the key and
    nonce [a] encrypts with are those [b] decrypts with.  A message grows by the
    16-byte tag; the two directions of one state are independent. *)
Class SnowLaws `{Snow} := {
  snow_sync : TransportState -> TransportState -> Prop;
  snow_transport : forall a b m n a' c k,
    snow_sync a b -> snow_write a m n = (a', Ok c) -> (length c <= k)%nat ->
    exists b', snow_read b c k = (b', Ok m) /\ snow_sync a' b';
  snow_accepts : forall a m, msg_len m + 16 <= 65535 ->
    exists a' c, snow_write a m (length m + 16) = (a', Ok c);
  snow_tag : forall a m n a' c, snow_write a m n = (a', Ok c) -> length c = (length m + 16)%nat;
  snow_write_other : forall a b m n a' c,
    snow_sync b a -> snow_write a m n = (a', Ok c) -> snow_sync b a';
  snow_read_other : forall a b c n b' m,
    snow_sync b a -> snow_read b c n = (b', Ok m) -> snow_sync b' a;
  snow_commute : forall a m n a' c d k b p,
    snow_write a m n = (a', Ok c) -> snow_read a d k = (b, Ok p) ->
    exists b', snow_read a' d k = (b', Ok p) /\ snow_write b m n = (b', Ok c);
}.

Definition NOISE_MAX_PLAINTEXT : Z := 65519.

Section Noise.
Context `{Snow}.

(** Both halves of a connection share the transport state ([Arc<Mutex<..>>]). *)
Record NoiseEnd := mkNoise { n_w : Writer; n_r : Reader; n_ts : TransportState }.

Definition noise_w {A} (m : eff Writer IoError A) : eff NoiseEnd Error A := fun e =>
  let (w, r) := m (n_w e) in (mkNoise w (n_r e) (n_ts e), map_err Io r).
Definition noise_r {A} (m : eff Reader Error A) : eff NoiseEnd Error A := fun e =>
  let (r, v) := m (n_r e) in (mkNoise (n_w e) r (n_ts e), v).
(** The AEAD transform, under the mutex. *)
Definition noise_ts {A} (what : string) (f : TransportState -> TransportState * result string A)
  : eff NoiseEnd Error A := fun e =>
  let (t, r) := f (n_ts e) in
  (mkNoise (n_w e) (n_r e) t, map_err (fun m => Crypto (what +:+ m)) r).

Definition noise_send (msg : bytes) : eff NoiseEnd Error unit :=
  if NOISE_MAX_PLAINTEXT <? msg_len msg
  then throw (Protocol ("noise message too large: " +:+ pretty (msg_len msg) +:+
                        " (max " +:+ pretty NOISE_MAX_PLAINTEXT +:+ ")"))
  else
    c ← noise_ts "noise encrypt: " (fun t => snow_write t msg (length msg + 16));
    noise_w (write_uint 2 (wrap 16 (msg_len c)));;
    noise_w (write_all c);;
    noise_w flush.
(** [close] ignores the outcome of [shutdown]. *)
Definition noise_close : eff NoiseEnd Error unit := ignore (noise_w shutdown).

Definition noise_recv : eff NoiseEnd Error bytes :=
  len ← noise_r (with_err LdStream.closed_or_io (read_uint 2));
  cipher ← noise_r (with_err Io (read_exact (Z.to_nat len)));
  noise_ts "noise decrypt: " (fun t => snow_read t cipher (Z.to_nat len)).

Definition noise_feed (w : bytes) (e : NoiseEnd) : NoiseEnd :=
  mkNoise (n_w e) (mkReader (r_in (n_r e) ++ w) (r_end (n_r e))) (n_ts e).

Lemma noise_w_ok {A} (m : eff Writer IoError A) e e' a :
  noise_w m e = (e', Ok a) <->
  exists w, m (n_w e) = (w, Ok a) /\ e' = mkNoise w (n_r e) (n_ts e).
Proof. unfold noise_w. destruct (m (n_w e)) as [w [?|?]]; naive_solver. Qed.
Lemma noise_r_ok {A} (m : eff Reader Error A) e e' a :
  noise_r m e = (e', Ok a) <->
  exists r, m (n_r e) = (r, Ok a) /\ e' = mkNoise (n_w e) r (n_ts e).
Proof. unfold noise_r. destruct (m (n_r e)) as [r [?|?]]; naive_solver. Qed.
Lemma noise_ts_ok {A} what (f : TransportState -> TransportState * result string A) e e' a :
  noise_ts what f e = (e', Ok a) <->
  exists t, f (n_ts e) = (t, Ok a) /\ e' = mkNoise (n_w e) (n_r e) t.
Proof. unfold noise_ts. destruct (f (n_ts e)) as [t [?|?]]; naive_solver. Qed.
End Noise.

Section NoiseLaws.
Context `{SnowLaws}.

Definition noise_encode (c : bytes) : bytes := be_split 2 (msg_len c) ++ c.

Lemma noise_send_ok m e e' :
  noise_send m e = (e', Ok tt) <->
  msg_len m <= NOISE_MAX_PLAINTEXT /\
  exists t c w1 w2 w3, snow_write (n_ts e) m (length m + 16) = (t, Ok c) /\
    write_uint 2 (wrap 16 (msg_len c)) (n_w e) = (w1, Ok tt) /\
    write_all c w1 = (w2, Ok tt) /\ flush w2 = (w3, Ok tt) /\
    e' = mkNoise w3 (n_r e) t.
Proof.
  unfold noise_send. destruct (Z.ltb_spec NOISE_MAX_PLAINTEXT (msg_len m)) as [Hl|Hl].
  { split; [done|]. intros [? _]. lia. }
  split.
  - intros (e1 & c & (t & Ht & ->)%noise_ts_ok & Hr)%eff_bind_ok.
    apply eff_bind_ok in Hr as (e2 & [] & (w1 & H1 & ->)%noise_w_ok & Hr).
    apply eff_bind_ok in Hr as (e3 & [] & (w2 & H2 & ->)%noise_w_ok & (w3 & H3 & ->)%noise_w_ok).
    cbn in *. split; [done|]. by exists t, c, w1, w2, w3.
  - intros (_ & t & c & w1 & w2 & w3 & Ht & H1 & H2 & H3 & ->).
    apply eff_bind_ok. eexists _, c. split; [apply noise_ts_ok; eauto|].
    apply eff_bind_ok. eexists _, tt. split; [apply noise_w_ok; eauto|].
    apply eff_bind_ok. eexists _, tt. split; [apply noise_w_ok; eauto|].
    apply noise_w_ok; eauto.
Qed.

Lemma noise_recv_ok e e' m :
  noise_recv e = (e', Ok m) <->
  exists l r1 c r2 t, read_uint 2 (n_r e) = (r1, Ok l) /\
    read_exact (Z.to_nat l) r1 = (r2, Ok c) /\
    snow_read (n_ts e) c (Z.to_nat l) = (t, Ok m) /\ e' = mkNoise (n_w e) r2 t.
Proof.
  unfold noise_recv. rewrite eff_bind_ok. split.
  - intros (e1 & l & (r1 & H1 & ->)%noise_r_ok & Hr).
    apply eff_bind_ok in Hr as (e2 & c & (r2 & H2 & ->)%noise_r_ok & (t & H3 & ->)%noise_ts_ok).
    apply with_err_ok in H1, H2. naive_solver.
  - intros (l & r1 & c & r2 & t & H1 & H2 & H3 & ->).
    apply (with_err_ok LdStream.closed_or_io) in H1. apply (with_err_ok Io) in H2.
    eexists _, l. split; [apply noise_r_ok; eauto|].
    apply eff_bind_ok. eexists _, c. split; [apply noise_r_ok; eauto|].
    apply noise_ts_ok; eauto.
Qed.

Lemma noise_send_wire m e e' :
  noise_send m e = (e', Ok tt) ->
  exists c, snow_write (n_ts e) m (length m + 16) = (n_ts e', Ok c) /\ n_r e' = n_r e /\
    0 <= msg_len c < 2 ^ 16 /\ w_out (n_w e') = w_out (n_w e) ++ noise_encode c.
Proof.
  intros (Hl & t & c & w1 & w2 & w3 & Ht & H1 & H2 & H3 & ->)%noise_send_ok.
  exists c. cbn. pose proof (snow_tag _ _ _ _ _ Ht) as Htag.
  assert (0 <= msg_len c < 2 ^ 16).
  { unfold msg_len, NOISE_MAX_PLAINTEXT in *. lia. }
  split_and!; [done..|lia|lia|].
  apply flush_ok in H3 as ->. apply write_all_ok in H1, H2.
  rewrite H2, H1, <- app_assoc. unfold wrap. by rewrite Z.mod_small.
Qed.

Lemma noise_recv_encode e c rest rend t m :
  0 <= msg_len c < 2 ^ 16 -> n_r e = mkReader (noise_encode c ++ rest) rend ->
  snow_read (n_ts e) c (length c) = (t, Ok m) ->
  noise_recv e = (mkNoise (n_w e) (mkReader rest rend) t, Ok m).
Proof.
  intros Hc Hr Ht. apply noise_recv_ok.
  exists (msg_len c), (mkReader (c ++ rest) rend), c, (mkReader rest rend), t.
  unfold msg_len in *. rewrite Nat2Z.id. split_and!; [|apply read_exact_app|done|done].
  rewrite Hr. unfold noise_encode. rewrite <- app_assoc. by apply read_uint_split.
Qed.

Definition noise_channel : MessageChannel NoiseEnd := {|
  wire_item := byte;
  mc_send := noise_send;
  mc_recv := noise_recv;
  mc_out e := w_out (n_w e);
  mc_in e := r_in (n_r e);
  mc_feed := noise_feed;
  mc_sync a b := snow_sync (n_ts a) (n_ts b);
  mc_fits m := msg_len m <= NOISE_MAX_PLAINTEXT;
  mc_ready e := writable (n_w e);
  mc_close := noise_close;
|}.

Lemma noise_laws : @MessageChannelLaws NoiseEnd noise_channel.
Proof.
  split; cbn.
  - intros m a a' (c & _ & _ & _ & Hw)%noise_send_wire. eauto.
  - intros m a a' [bw [rin rend] bt] w Hsync Hin (c & Ht & _ & Hc & Hout)%noise_send_wire Hw.
    cbn in *. subst rin. rewrite Hout in Hw. apply app_inv_head in Hw as <-.
    destruct (snow_transport _ _ _ _ _ _ (length c) Hsync Ht) as (t & Hr & Hs); [done|].
    exists (mkNoise bw (mkReader [] rend) t). split; [|done].
    apply (noise_recv_encode (mkNoise bw (mkReader (noise_encode c) rend) bt) c [] rend);
      [done|by rewrite app_nil_r|done].
  - intros w b b' m (l & r1 & c & r2 & t & H1 & H2 & H3 & ->)%noise_recv_ok.
    apply noise_recv_ok. eexists l, _, c, _, t. cbn.
    split_and!; [by apply read_uint_feed|by apply read_exact_feed|done|done].
  - done.
  - intros m a a' b Hs Hin (c & Ht & Hr & _)%noise_send_wire. rewrite Hr.
    eauto using snow_write_other.
  - intros m k a a' b (Hl & t & c & w1 & w2 & w3 & Ht & H1 & H2 & H3 & ->)%noise_send_ok
      (l & r1 & d & r2 & u & G1 & G2 & G3 & ->)%noise_recv_ok.
    destruct (snow_commute _ _ _ _ _ _ _ _ _ Ht G3) as (t' & ? & ?).
    exists (mkNoise w3 r2 t'). split.
    + apply noise_recv_ok. cbn. naive_solver.
    + apply noise_send_ok. cbn. split; [done|]. naive_solver.
  - intros a b b' m Hs (l & r1 & c & r2 & t & _ & _ & H3 & ->)%noise_recv_ok.
    cbn. eauto using snow_read_other.
  - intros m a Ha Hm. destruct (snow_accepts (n_ts a) m) as (t & c & Ht).
    { change (msg_len m <= 65519) in Hm. lia. }
    destruct (write_all_writable (be_split 2 (wrap 16 (msg_len c))) _ Ha) as (w1 & H1 & Hw1).
    destruct (write_all_writable c w1 Hw1) as (w2 & H2 & Hw2).
    exists (mkNoise w2 (n_r a) t). split; [|done]. apply noise_send_ok. split; [done|].
    exists t, c, w1, w2, w2. by split_and!; [| | |apply flush_writable|].
  - by intros a a' m Ha (l & r1 & c & r2 & t & _ & _ & _ & ->)%noise_recv_ok.
  - done.
  - intros [w [r e] t]. unfold noise_feed. cbn. by rewrite app_nil_r.
  - intros w w' [aw [r e] t]. unfold noise_feed. cbn. by rewrite app_assoc.
Qed.
End NoiseLaws.

(** ** WebSocket (transport/ws.rs) *)

(** [tungstenite]'s messages and errors, as far as the code tells them apart. *)
Inductive WsMsg := WsBinary (data : bytes) | WsClose | WsOther (kind : string).
Inductive WsError := ConnectionClosed | AlreadyClosed | WsFail (text : string).

Definition ws_err (e : WsError) : Error :=
  match e with
  | ConnectionClosed | AlreadyClosed => Closed
  | WsFail t => Transport ("ws: " +:+ t)
  end.

Module WsCh.
(** What was sent, what the next [send] answers, and the items still to come. *)
Record WsEnd := mkWs {
  ws_out : list WsMsg;
  ws_fail : option WsError;
  ws_in : list (result WsError WsMsg);
}.

Definition put (m : WsMsg) : eff WsEnd WsError unit := fun e =>
  match ws_fail e with
  | Some x => (e, Err x)
  | None => (mkWs (ws_out e ++ [m]) None (ws_in e), Ok tt)
  end.
Definition send (msg : bytes) : eff WsEnd Error unit := with_err ws_err (put (WsBinary msg)).
Definition close : eff WsEnd Error unit := ignore (put WsClose).

(** Text, ping and pong are skipped; a close or the end of the stream is [Closed]. *)
Fixpoint next_binary (items : list (result WsError WsMsg))
  : list (result WsError WsMsg) * Result bytes :=
  match items with
  | [] => ([], Err Closed)
  | Ok (WsBinary d) :: r => (r, Ok d)
  | Ok WsClose :: r => (r, Err Closed)
  | Ok (WsOther _) :: r => next_binary r
  | Err e :: r => (r, Err (ws_err e))
  end.
Definition recv : eff WsEnd Error bytes := fun e =>
  let (r, v) := next_binary (ws_in e) in (mkWs (ws_out e) (ws_fail e) r, v).

Definition channel : MessageChannel WsEnd := {|
  wire_item := result WsError WsMsg;
  mc_send := send;
  mc_recv := recv;
  mc_out e := map Ok (ws_out e);
  mc_in e := ws_in e;
  mc_feed w e := mkWs (ws_out e) (ws_fail e) (ws_in e ++ w);
  mc_sync _ _ := True;
  mc_fits _ := True;
  mc_ready e := ws_fail e = None;
  mc_close := close;
|}.

Lemma send_ok m e e' :
  send m e = (e', Ok tt) <->
  ws_fail e = None /\ e' = mkWs (ws_out e ++ [WsBinary m]) None (ws_in e).
Proof. unfold send, with_err, put. destruct (ws_fail e); cbn; naive_solver. Qed.
Lemma recv_ok e e' m :
  recv e = (e', Ok m) <->
  exists r, next_binary (ws_in e) = (r, Ok m) /\ e' = mkWs (ws_out e) (ws_fail e) r.
Proof. unfold recv. destruct (next_binary (ws_in e)). naive_solver. Qed.
Lemma next_binary_app l r m w :
  next_binary l = (r, Ok m) -> next_binary (l ++ w) = (r ++ w, Ok m).
Proof.
  induction l as [|[[d| |k]|e] l IH]; cbn; try done. by intros [= <- <-].
Qed.

Lemma laws : @MessageChannelLaws WsEnd channel.
Proof.
  split; cbn.
  - intros m a a' [_ ->]%send_ok. cbn. rewrite map_app. eauto.
  - intros m a a' [bo bf bi] w _ Hin [_ ->]%send_ok. cbn in *. subst bi.
    rewrite map_app. intros Hw%app_inv_head. subst w. cbn. eexists. split; [done|]. done.
  - intros w b b' m (r & Hr & ->)%recv_ok. apply recv_ok.
    eexists. split; [by apply next_binary_app|]. done.
  - done.
  - intros m a a' b _ Hin [_ ->]%send_ok. done.
  - intros m k a a' b [Hf ->]%send_ok (r & Hr & ->)%recv_ok. cbn.
    exists (mkWs (ws_out a ++ [WsBinary m]) None r). split; [apply recv_ok; eauto|].
    apply send_ok. by rewrite Hf.
  - done.
  - intros m a Ha _. eexists. by split; [apply send_ok|].
  - by intros a a' m Ha (r & _ & ->)%recv_ok.
  - done.
  - intros []. cbn. by rewrite app_nil_r.
  - intros w w' []. cbn. by rewrite app_assoc.
Qed.
End WsCh.

(** ** Frames over a channel (protocol/mod.rs) *)

Section Frames.
Context {End : Type} `{MessageChannel End} `{Bincode}.

Definition frame_send (f : Frame) : eff End Error unit :=
  m ← lift_result (map_err Codec (bincode_serialize f));
  mc_send m.
Definition frame_close : eff End Error unit := mc_close.
Definition frame_recv : eff End Error Frame :=
  m ← mc_recv;
  lift_result (map_err Codec (bincode_deserialize m)).

Fixpoint send_frames (fs : list Frame) : eff End Error unit :=
  match fs with
  | [] => mret tt
  | f :: fs => frame_send f;; send_frames fs
  end.
Fixpoint recv_frames (n : nat) : eff End Error (list Frame) :=
  match n with
  | O => mret []
  | S n => f ← frame_recv; fs ← recv_frames n; mret (f :: fs)
  end.
End Frames.

(** ** Endpoints and dialling (transport/mod.rs) *)

Record Endpoint := mkEndpoint {
  ep_host : string;
  ep_port : Z;
  ep_kind : TransportKind;
  ep_ws_path : string;
  ep_server_name : string;
}.
Record ClientSecurity := mkSecurity {
  noise_psk : bytes;
  tls_skip_verify : bool;
  tls_pinned_cert_pem : option string;
}.

(** Compile-time features, and the handshakes each transport runs. *)
Record Transports (Chan Carrier : Type) := mkTransports {
  feature_tcp : bool;
  feature_ws : bool;
  feature_quic : bool;
  tcp_connect : Endpoint -> ClientSecurity -> Result Chan;
  ws_connect : Endpoint -> ClientSecurity -> Result Chan;
  quic_connect : Endpoint -> ClientSecurity -> Result Chan;
  tcp_connect_over : Carrier -> ClientSecurity -> Result Chan;
  ws_connect_over : Carrier -> Endpoint -> ClientSecurity -> Result Chan;
}.
Arguments feature_tcp {_ _}. Arguments feature_ws {_ _}. Arguments feature_quic {_ _}.
Arguments tcp_connect {_ _}. Arguments ws_connect {_ _}. Arguments quic_connect {_ _}.
Arguments tcp_connect_over {_ _}. Arguments ws_connect_over {_ _}.

Definition connect {Chan Carrier} (t : Transports Chan Carrier) (ep : Endpoint)
    (sec : ClientSecurity) : Result Chan :=
  match ep_kind ep with
  | Tcp => if feature_tcp t then tcp_connect t ep sec
           else Err (NotImplemented "tcp feature disabled in this build")
  | Ws => if feature_ws t then ws_connect t ep sec
          else Err (NotImplemented "ws feature disabled in this build")
  | Quic => if feature_quic t then quic_connect t ep sec
            else Err (NotImplemented "quic feature disabled in this build")
  end.

Definition connect_over {Chan Carrier} (t : Transports Chan Carrier) (stream : Carrier)
    (ep : Endpoint) (sec : ClientSecurity) : Result Chan :=
  match ep_kind ep with
  | Tcp => if feature_tcp t then tcp_connect_over t stream sec
           else Err (NotImplemented "tcp feature disabled in this build")
  | Ws => if feature_ws t then ws_connect_over t stream ep sec
          else Err (NotImplemented "ws feature disabled in this build")
  | Quic => Err (NotImplemented
      "QUIC can only be the first hop of a proxy chain (UDP can't tunnel over a relayed stream)")
  end.

(** ** Shared lemmas *)

(** Before anything is sent, an endpoint with nothing delivered carries no message. *)
Lemma fresh_link {End} `{MessageChannelLaws End} (a b : End) :
  mc_in a = [] -> mc_in b = [] -> mc_sync a b -> mc_sync b a -> link_rel (a, b) ([], []).
Proof. intros. split; by constructor. Qed.

Section FrameLemmas.
Context {End : Type} `{MessageChannelLaws End} `{BincodeLaws}.

Lemma frame_send_ok f (a a' : End) :
  frame_send f a = (a', Ok tt) <->
  exists m, bincode_serialize f = Ok m /\ mc_send m a = (a', Ok tt).
Proof.
  unfold frame_send, lift_result, mbind, eff_bind.
  destruct (bincode_serialize f); cbn; naive_solver.
Qed.
Lemma frame_recv_ok f (b b' : End) :
  frame_recv b = (b', Ok f) <->
  exists m, mc_recv b = (b', Ok m) /\ bincode_deserialize m = Ok f.
Proof.
  unfold frame_recv, lift_result, mbind, eff_bind.
  destruct (mc_recv b) as [b1 [m|e]]; [|by split; [|intros (? & ? & ?)]].
  split.
  - intros [= <- E]. exists m. split; [done|]. by destruct (bincode_deserialize m); simplify_eq/=.
  - intros (m' & [= <- <-] & ->). done.
Qed.

(** What [b] reads while [a]'s messages [q] are in flight. *)
Lemma carries_frames a b q fs :
  carries a b q -> Forall2 (fun f m => bincode_serialize f = Ok m) fs q ->
  exists b', recv_frames (length fs) b = (b', Ok fs).
Proof.
  intros Hc. revert fs. induction Hc as [a b|a b b' m q Hr Hc IH]; intros fs Hf.
  - apply Forall2_nil_inv_r in Hf as ->. eauto.
  - apply Forall2_cons_inv_r in Hf as (f & fs' & Hm & Hf & ->).
    destruct (IH _ Hf) as [b2 Hb2]. exists b2. cbn. apply eff_bind_ok.
    exists b', f. split; [apply frame_recv_ok; eauto using bincode_round_trip|].
    apply eff_bind_ok. by exists b2, fs'.
Qed.

Lemma send_frames_carries fs (a a' b : End) q :
  carries a b q -> send_frames fs a = (a', Ok tt) ->
  exists w ms, mc_out a' = mc_out a ++ w /\ carries a' (mc_feed w b) (q ++ ms) /\
    Forall2 (fun f m => bincode_serialize f = Ok m) fs ms.
Proof.
  revert a b q. induction fs as [|f fs IH]; intros a b q Hc; cbn.
  - intros [= ->]. exists [], []. rewrite !app_nil_r. split_and!; [done| |done].
    by rewrite mc_feed_nil.
  - intros (a1 & [] & (m & Hm & Hs)%frame_send_ok & Hrest)%eff_bind_ok.
    destruct (mc_send_out _ _ _ Hs) as [w Hw].
    destruct (IH a1 (mc_feed w b) (q ++ [m])) as (w2 & ms & Hout & Hc2 & HF).
    { by eapply carries_send. }
    { done. }
    exists (w ++ w2), (m :: ms). split_and!.
    + by rewrite Hout, Hw, app_assoc.
    + rewrite mc_feed_app. by rewrite <- app_assoc in Hc2.
    + by constructor.
Qed.
End FrameLemmas.

(** ** Properties *)

(** A length-delimited link is an exact pair of FIFO queues: from two fresh
    endpoints over a working transport, any interleaving of sends (each at most
    MAX_MESSAGE_LEN) and of the receives the queues allow succeeds, every receive
    yields the oldest unread message of the other side byte for byte, and no
    message is split, merged, lost or reordered. *)
Theorem ld_link_fifo (a b : StreamEnd) os q rs :
  r_in (e_r a) = [] -> r_in (e_r b) = [] -> writable (e_w a) -> writable (e_w b) ->
  Forall (@op_fits StreamEnd ld_channel) os -> spec_run os ([], []) = Some (q, rs) ->
  exists l, @link_run StreamEnd ld_channel os (a, b) = (l, Ok rs).
Proof.
  intros Ha Hb Hwa Hwb Hfit Hrun.
  destruct (@link_fifo _ ld_channel ld_laws os (a, b) ([], []) q rs) as (l & Hl & _); eauto.
  - by apply (@fresh_link _ ld_channel ld_laws).
  - by split.
Qed.

Definition fresh_end : StreamEnd :=
  mkEnd (mkWriter [] None eof None false) (mkReader [] None).
Definition demo_ops : list link_op :=
  [SendA [Byte.x01; Byte.x02]; SendB [Byte.xff]; SendA []; RecvB; RecvA; RecvB].

Lemma ld_link_fifo_witness :
  exists l, @link_run StreamEnd ld_channel demo_ops (fresh_end, fresh_end) =
    (l, Ok [None; None; None; Some [Byte.x01; Byte.x02]; Some [Byte.xff]; Some []]).
Proof.
  apply (ld_link_fifo fresh_end fresh_end demo_ops ([], [])); try reflexivity; try by split.
  repeat constructor; vm_compute; discriminate.
Defined.

(** C9. The same queue refinement for Noise over TCP, under the documented
    behaviour of a snow transport pair: both directions share one cipher state
    and two-byte length prefixes, yet every admissible interleaving of sends (at
    most NOISE_MAX_PLAINTEXT bytes) and receives succeeds with FIFO outcomes. *)
Theorem noise_link_fifo `{SnowLaws} (a b : NoiseEnd) os q rs :
  r_in (n_r a) = [] -> r_in (n_r b) = [] -> writable (n_w a) -> writable (n_w b) ->
  snow_sync (n_ts a) (n_ts b) -> snow_sync (n_ts b) (n_ts a) ->
  Forall (@op_fits NoiseEnd noise_channel) os -> spec_run os ([], []) = Some (q, rs) ->
  exists l, @link_run NoiseEnd noise_channel os (a, b) = (l, Ok rs).
Proof.
  intros Ha Hb Hwa Hwb Hab Hba Hfit Hrun.
  destruct (@link_fifo _ noise_channel noise_laws os (a, b) ([], []) q rs) as (l & Hl & _); eauto.
  - by apply (@fresh_link _ noise_channel noise_laws).
  - by split.
Qed.

(** A concrete cipher state: the nonces of both directions; a ciphertext is the
    sending nonce in sixteen bytes, then the text. *)
Module CounterCipher.
Record state := mkState { tx : Z; rx : Z }.
Definition write (s : state) (m : bytes) (n : nat) : state * result string bytes :=
  if (n <? length m + 16)%nat then (s, Err "output buffer too small")
  else (mkState (tx s + 1) (rx s), Ok (be_split 16 (tx s) ++ m)).
Definition read (s : state) (c : bytes) (n : nat) : state * result string bytes :=
  if decide (take 16 c = be_split 16 (rx s)) then (mkState (tx s) (rx s + 1), Ok (drop 16 c))
  else (s, Err "decrypt error").
#[export] Instance snow : Snow := {|
  TransportState := state; snow_write := write; snow_read := read |}.

Lemma write_ok s m n s' c :
  write s m n = (s', Ok c) <->
  (length m + 16 <= n)%nat /\ s' = mkState (tx s + 1) (rx s) /\ c = be_split 16 (tx s) ++ m.
Proof. unfold write. destruct (Nat.ltb_spec n (length m + 16)); naive_solver lia. Qed.
Lemma read_ok s c n s' m :
  read s c n = (s', Ok m) <->
  take 16 c = be_split 16 (rx s) /\ s' = mkState (tx s) (rx s + 1) /\ m = drop 16 c.
Proof. unfold read. case_decide; naive_solver. Qed.

#[export] Instance laws : SnowLaws.
Proof.
  refine {| snow_sync := fun a b : TransportState => tx a = rx b |}; cbn.
  - intros a b m n a' c k Hs (_ & -> & ->)%write_ok _.
    exists (mkState (tx b) (rx b + 1)). cbn. split; [|congruence]. apply read_ok.
    rewrite (take_be_split 16), (drop_be_split 16), Hs. done.
  - intros a m _. eexists _, _. apply write_ok. done.
  - intros a m n a' c (_ & _ & ->)%write_ok. rewrite length_app, (length_be_split 16). lia.
  - by intros a b m n a' c Hs (_ & -> & _)%write_ok.
  - by intros a b c n b' m Hs (_ & -> & _)%read_ok.
  - intros a m n a' c d k b p (Hn & -> & ->)%write_ok (Hd & -> & ->)%read_ok.
    eexists. split; [by apply read_ok|]. by apply write_ok.
Defined.
End CounterCipher.

Lemma noise_link_fifo_witness :
  let w := mkWriter [] None eof None false in
  let r := mkReader [] None in
  let e := @mkNoise CounterCipher.snow w r (CounterCipher.mkState 7 7) in
  exists l, @link_run _ (@noise_channel CounterCipher.snow CounterCipher.laws) demo_ops (e, e) =
    (l, Ok [None; None; None; Some [Byte.x01; Byte.x02]; Some [Byte.xff]; Some []]).
Proof.
  cbv zeta.
  apply (@noise_link_fifo CounterCipher.snow CounterCipher.laws _ _ demo_ops ([], []));
    try reflexivity; try by split.
  repeat constructor; vm_compute; discriminate.
Defined.

(** QUIC framing is the same wire format: its reader accepts exactly the streams
    the length-delimited reader accepts, with the same message and remainder, and on
    a working transport its writer performs the same writes as the other one. *)
Theorem quic_ld_equivalent :
  (forall r r' m, QuicRecv.recv r = (r', Ok m) <-> LdStream.recv r = (r', Ok m)) /\
  (forall m w, writable w -> QuicSink.send m w = LdSink.send m w).
Proof.
  split; [intros; apply quic_recv_ld|]. intros m w Hw.
  destruct (Z.ltb_spec MAX_MESSAGE_LEN (msg_len m)) as [Hl|Hl].
  - unfold QuicSink.send, LdSink.send. apply Z.ltb_lt in Hl. by rewrite Hl.
  - unfold QuicSink.send, LdSink.send. apply Z.ltb_ge in Hl. rewrite Hl.
    destruct (write_all_writable (be_split 4 (wrap 32 (msg_len m))) w Hw) as (w1 & H1 & Hw1).
    destruct (write_all_writable m w1 Hw1) as (w2 & H2 & Hw2).
    unfold mbind, eff_bind, with_err, write_uint. rewrite H1. cbn -[flush]. rewrite H2. cbn -[flush].
    by rewrite flush_writable.
Qed.

(** What is left of a reader after [n] bytes. *)
Definition skip (n : nat) (r : Reader) : Reader := mkReader (drop n (r_in r)) (r_end r).

(** The receiver bounds what it allocates and tells apart the ways a stream can
    end.  For every stream: fewer than four bytes then a clean end is [Closed];
    a length above MAX_MESSAGE_LEN is refused after the four header bytes, nothing
    of the payload consumed; a short payload is an [Io] error; otherwise the message
    is exactly the announced bytes, so a received message never exceeds the bound. *)
Theorem ld_recv_spec (r : Reader) :
  let n := msg_len (r_in r) in
  let l := be_combine (take 4 (r_in r)) in
  LdStream.recv r =
    if n <? 4 then
      (mkReader [] (r_end r),
       Err (match r_end r with None => Closed | Some e => LdStream.closed_or_io e end))
    else if MAX_MESSAGE_LEN <? l then
      (skip 4 r, Err (Protocol ("frame too large: " +:+ pretty l)))
    else if n - 4 <? l then (mkReader [] (r_end r), Err (Io (default eof (r_end r))))
    else (skip (4 + Z.to_nat l) r, Ok (take (Z.to_nat l) (drop 4 (r_in r)))).
Proof.
  cbv zeta. unfold LdStream.recv, read_uint, with_err, mbind, eff_bind, read_exact at 1, msg_len.
  destruct (Z.ltb_spec (Z.of_nat (length (r_in r))) 4) as [H4|H4].
  - destruct (Nat.leb_spec 4 (length (r_in r))); [lia|]. by destruct (r_end r).
  - destruct (Nat.leb_spec 4 (length (r_in r))); [|lia]. cbn [mret eff_ret map_err].
    destruct (MAX_MESSAGE_LEN <? be_combine (take 4 (r_in r))) eqn:Hmax; [done|].
    pose proof (be_combine_bound (take 4 (r_in r))) as [Hl _].
    unfold read_exact. cbn [r_in r_end]. rewrite length_drop.
    destruct (Z.ltb_spec (Z.of_nat (length (r_in r)) - 4) (be_combine (take 4 (r_in r)))).
    + destruct (Nat.leb_spec (Z.to_nat (be_combine (take 4 (r_in r)))) (length (r_in r) - 4)); [lia|].
      done.
    + destruct (Nat.leb_spec (Z.to_nat (be_combine (take 4 (r_in r)))) (length (r_in r) - 4)); [|lia].
      cbn [map_err]. unfold skip. by rewrite drop_drop.
Qed.

(** Oversized sends fail before touching the wire: the length-delimited, QUIC and
    Noise writers return a protocol error naming the length and leave the endpoint
    (bytes written, cipher state) exactly as it was.  A Noise message above
    NOISE_MAX_PLAINTEXT is refused, never split. *)
Theorem oversized_send_rejected `{Snow} (m : bytes) (w : Writer) (e : NoiseEnd) :
  (MAX_MESSAGE_LEN < msg_len m ->
     LdSink.send m w = (w, Err (Protocol ("message too large: " +:+ pretty (msg_len m)))) /\
     QuicSink.send m w = (w, Err (Protocol ("message too large: " +:+ pretty (msg_len m))))) /\
  (NOISE_MAX_PLAINTEXT < msg_len m -> exists t, noise_send m e = (e, Err (Protocol t))).
Proof.
  split; intros Hl%Z.ltb_lt.
  - unfold LdSink.send, QuicSink.send. by rewrite Hl.
  - unfold noise_send. rewrite Hl. eexists. reflexivity.
Qed.

Lemma oversized_send_rejected_witness :
  let m := replicate (Z.to_nat 65520) Byte.x00 in
  exists t, @noise_send CounterCipher.snow m
    (@mkNoise CounterCipher.snow (mkWriter [] None eof None false) (mkReader [] None)
       (CounterCipher.mkState 0 0)) =
    (@mkNoise CounterCipher.snow (mkWriter [] None eof None false) (mkReader [] None)
       (CounterCipher.mkState 0 0), Err (Protocol t)).
Proof.
  cbv zeta.
  apply (@oversized_send_rejected CounterCipher.snow _ (mkWriter [] None eof None false)).
  unfold msg_len. rewrite length_replicate, Z2Nat.id by lia. reflexivity.
Defined.

(** A WebSocket channel is the same FIFO link (binary messages map one to one),
    and its receiver skips text, ping and pong items: it returns the first binary
    message, and reports [Closed] on a close frame or at the end of the stream. *)
Theorem ws_link_fifo (a b : WsCh.WsEnd) os q rs :
  WsCh.ws_in a = [] -> WsCh.ws_in b = [] -> WsCh.ws_fail a = None -> WsCh.ws_fail b = None ->
  spec_run os ([], []) = Some (q, rs) ->
  (exists l, @link_run _ WsCh.channel os (a, b) = (l, Ok rs)) /\
  (forall ks r, WsCh.next_binary (map (fun k => Ok (WsOther k)) ks ++ r) = WsCh.next_binary r).
Proof.
  intros Ha Hb Hfa Hfb Hrun. split.
  - destruct (@link_fifo _ WsCh.channel WsCh.laws os (a, b) ([], []) q rs) as (l & Hl & _); eauto.
    + by apply (@fresh_link _ WsCh.channel WsCh.laws).
    + by split.
    + apply Forall_true. by intros [].
  - intros ks r. induction ks as [|k ks IH]; [done|]. exact IH.
Qed.

Lemma ws_link_fifo_witness :
  let e := WsCh.mkWs [] None [] in
  (exists l, @link_run _ WsCh.channel demo_ops (e, e) =
    (l, Ok [None; None; None; Some [Byte.x01; Byte.x02]; Some [Byte.xff]; Some []])) /\
  (forall ks r, WsCh.next_binary (map (fun k => Ok (WsOther k)) ks ++ r) = WsCh.next_binary r).
Proof. cbv zeta. by apply (ws_link_fifo _ _ demo_ops ([], [])). Defined.

(** Frames cross any message channel intact and in order: if every frame of a list
    was sent successfully, then once the transport has delivered what was written the
    peer's reader returns exactly that list. *)
Theorem frames_round_trip {End} `{MessageChannelLaws End} `{BincodeLaws} (a b a' : End) fs :
  mc_in b = [] -> mc_sync a b -> send_frames fs a = (a', Ok tt) ->
  exists w b', mc_out a' = mc_out a ++ w /\
    recv_frames (length fs) (mc_feed w b) = (b', Ok fs).
Proof.
  intros Hin Hs Hsend.
  destruct (send_frames_carries fs a a' b [] (carries_nil a b Hin Hs) Hsend)
    as (w & ms & Hw & Hc & HF).
  destruct (carries_frames _ _ _ _ Hc HF) as [b' Hb']. eauto.
Qed.

(** A concrete codec: a tag byte, then the payload; the other frames are refused. *)
Module TagCodec.
#[export] Instance codec : Bincode := {|
  bincode_serialize f :=
    match f with
    | FPing => Ok [Byte.x03]
    | FPong => Ok [Byte.x04]
    | FPacket p => Ok (Byte.x05 :: p)
    | _ => Err "unsupported"
    end;
  bincode_deserialize m :=
    match m with
    | [Byte.x03] => Ok FPing
    | [Byte.x04] => Ok FPong
    | Byte.x05 :: p => Ok (FPacket p)
    | _ => Err "bad tag"
    end |}.
#[export] Instance laws : BincodeLaws.
Proof. split. intros [] m [= <-]; done. Qed.
End TagCodec.

Lemma frames_round_trip_witness :
  let fs := [FPing; FPacket [Byte.x45; Byte.x00]; FPong] in
  let a' := ((@send_frames StreamEnd ld_channel TagCodec.codec fs) fresh_end).1 in
  exists w b', @mc_out StreamEnd ld_channel a' = @mc_out StreamEnd ld_channel fresh_end ++ w /\
    @recv_frames StreamEnd ld_channel TagCodec.codec 3 (@mc_feed StreamEnd ld_channel w fresh_end) = (b', Ok fs).
Proof.
  cbv zeta. apply (@frames_round_trip StreamEnd ld_channel ld_laws TagCodec.codec TagCodec.laws
    fresh_end fresh_end ((@send_frames StreamEnd ld_channel TagCodec.codec
      [FPing; FPacket [Byte.x45; Byte.x00]; FPong]) fresh_end).1
    [FPing; FPacket [Byte.x45; Byte.x00]; FPong]); [reflexivity|by split|reflexivity].
Defined.
