(* ===== verification/Mpsc.v ===== *)
(** Bounded channels ([tokio::sync::mpsc]) as values of a shared store, the disk the
    programs read and write, and sums over finite maps. *)
From S2P Require Import Prelude Core.

(** ** Bounded channels

    The sending half is shared by name (the key of the channel in its store); the
    value holds what was accepted and not yet received, and whether the receiver
    still exists. *)

Record mpsc (A : Type) := mkMpsc { items : list A; cap : Z; rx_open : bool }.
Arguments mkMpsc {A} items cap rx_open.
Arguments items {A} m.
Arguments cap {A} m.
Arguments rx_open {A} m.

Definition mpsc_new {A} (n : Z) : mpsc A := mkMpsc [] n true.
Definition queue_len {A} (m : mpsc A) : Z := Z.of_nat (length (items m)).
(** A send would not have to wait: there is room, or the receiver is gone. *)
Definition send_ready {A} (m : mpsc A) : bool := negb (rx_open m) || (queue_len m <? cap m).
Definition try_send {A} (x : A) (m : mpsc A) : mpsc A * bool :=
  if rx_open m && (queue_len m <? cap m) then (mkMpsc (items m ++ [x]) (cap m) true, true)
  else (m, false).
Definition close_rx {A} (m : mpsc A) : mpsc A := mkMpsc [] (cap m) false.
Definition pop {A} (m : mpsc A) : option (A * mpsc A) :=
  match items m with
  | x :: r => Some (x, mkMpsc r (cap m) (rx_open m))
  | [] => None
  end.

Definition mpsc_ok {A} (n : Z) (m : mpsc A) : Prop := cap m = n /\ queue_len m <= n.

Lemma mpsc_new_ok {A} n : 0 <= n -> mpsc_ok n (mpsc_new (A:=A) n).
Proof. done. Qed.
Lemma try_send_ok {A} n x (m : mpsc A) : mpsc_ok n m -> mpsc_ok n (try_send x m).1.
Proof.
  intros [Hc Hq]. unfold try_send. destruct (rx_open m); [|done].
  destruct (Z.ltb_spec (queue_len m) (cap m)); [|done].
  split; [done|]. unfold queue_len in *. cbn. rewrite length_app. cbn. lia.
Qed.
Lemma pop_ok {A} n x (m m' : mpsc A) : mpsc_ok n m -> pop m = Some (x, m') -> mpsc_ok n m'.
Proof.
  intros [Hc Hq] Hp. destruct m as [[|y r] k o]; [done|].
  injection Hp as -> <-. split; [done|]. cbv [queue_len items length] in *. lia.
Qed.
Lemma close_rx_ok {A} n (m : mpsc A) : 0 <= n -> mpsc_ok n m -> mpsc_ok n (close_rx m).
Proof. by intros ? [? ?]. Qed.
Lemma try_send_Some {A} (x : A) m m' :
  try_send x m = (m', true) ->
  items m' = items m ++ [x] /\ queue_len m < cap m /\ rx_open m = true /\ cap m' = cap m.
Proof.
  unfold try_send. destruct (rx_open m); [|done].
  destruct (Z.ltb_spec (queue_len m) (cap m)); [|done]. by intros [= <-].
Qed.
Lemma try_send_items {A} (x : A) m :
  items (try_send x m).1 = items m \/ items (try_send x m).1 = items m ++ [x].
Proof. unfold try_send. case_match; auto. Qed.
#[export] Hint Resolve try_send_ok pop_ok close_rx_ok : tunnel.

(** ** Files

    A write either succeeds, or fails before touching the file ([None]) or after
    truncating it and writing a number of its bytes. *)

Record Disk := mkDisk {
  files : gmap string bytes;
  write_fault : gmap string (IoError * option nat);
}.
Definition read_file (path : string) (d : Disk) : result IoError bytes :=
  ok_or (mkIo OtherKind "No such file or directory (os error 2)") (files d !! path).
Definition write_file (path : string) (data : bytes) : eff Disk IoError unit := fun d =>
  match write_fault d !! path with
  | None => (mkDisk (<[path := data]> (files d)) (write_fault d), Ok tt)
  | Some (e, None) => (d, Err e)
  | Some (e, Some n) => (mkDisk (<[path := take n data]> (files d)) (write_fault d), Err e)
  end.

Lemma read_write_file path data d d' :
  write_file path data d = (d', Ok tt) -> read_file path d' = Ok data.
Proof.
  unfold write_file. destruct (write_fault d !! path) as [[e [n|]]|]; try done.
  intros [= <-]. unfold read_file. cbn. by rewrite lookup_insert_eq.
Qed.

(** ** Sums over finite maps *)

Section SumMap.
Context `{Countable K} {A : Type} (f : K -> A -> Z).

Definition sum_map (m : gmap K A) : Z := map_fold (fun k a acc => f k a + acc) 0 m.

Lemma sum_map_empty : sum_map ∅ = 0.
Proof. done. Qed.
Lemma sum_map_insert m k a : m !! k = None -> sum_map (<[k := a]> m) = f k a + sum_map m.
Proof.
  intros Hk. unfold sum_map. rewrite map_fold_insert_L; [done| |done].
  intros. lia.
Qed.
Lemma sum_map_delete m k a : m !! k = Some a -> sum_map (delete k m) = sum_map m - f k a.
Proof.
  intros Hk. rewrite <- (insert_delete_id m k a Hk) at 2.
  rewrite sum_map_insert by apply lookup_delete_eq. lia.
Qed.
Lemma sum_map_update m k a b :
  m !! k = Some a -> sum_map (<[k := b]> m) = sum_map m - f k a + f k b.
Proof.
  intros Hk. rewrite <- insert_delete_eq, sum_map_insert by apply lookup_delete_eq.
  rewrite (sum_map_delete _ _ _ Hk). lia.
Qed.
Lemma sum_map_zero m : (forall k a, m !! k = Some a -> f k a = 0) -> sum_map m = 0.
Proof.
  induction m as [|k a m Hk IH] using map_ind; intros Hf; [done|].
  rewrite sum_map_insert, (Hf k a), IH; [done| |by rewrite lookup_insert_eq|done].
  intros j b Hj. apply Hf. rewrite lookup_insert_ne; congruence.
Qed.
End SumMap.
