(* ===== verification/ServerConfig.v ===== *)
(** The server configuration (server/src/config.rs): records, peer lookup, derived
    network parameters, loading and saving.  [toml] and [ipnet] are parameters. *)
From S2P Require Import Prelude Net Text Core Mpsc.

Record ListenerConfig := mkListener { l_transport : TransportKind; l_bind : string; l_tls : bool }.

Record NetworkConfig := mkNetwork {
  subnet : string;
  net_gateway : Ipv4Addr;
  net_mtu : Z;
  net_dns : list Ipv4Addr;
  tun_name : string;
  egress_iface : option string;
  net_subnet6 : option string;
  net_gateway6 : option Ipv6Addr;
  net_dns6 : list Ipv6Addr;
}.

Record SecurityConfig := mkSecurityConfig {
  noise_psk : string;
  tls_cert_path : option string;
  tls_key_path : option string;
}.

Record WebConfig := mkWeb { web_bind : string; admin_token : string }.

Record PeerConfig := mkPeer {
  p_name : string;
  p_token : string;
  p_ip : Ipv4Addr;
  enabled : bool;
  allow_global : bool;
  allow_http_proxy : bool;
}.

Record ServerConfig := mkConfig {
  listeners : list ListenerConfig;
  network : NetworkConfig;
  security : SecurityConfig;
  web : WebConfig;
  peers : list PeerConfig;
}.

#[export] Instance listener_eq_dec : EqDecision ListenerConfig.
Proof. solve_decision. Defined.
#[export] Instance network_eq_dec : EqDecision NetworkConfig.
Proof. solve_decision. Defined.
#[export] Instance security_eq_dec : EqDecision SecurityConfig.
Proof. solve_decision. Defined.
#[export] Instance web_eq_dec : EqDecision WebConfig.
Proof. solve_decision. Defined.
#[export] Instance peer_config_eq_dec : EqDecision PeerConfig.
Proof. solve_decision. Defined.

#[export] Instance server_config_eq_dec : EqDecision ServerConfig.
Proof. solve_decision. Defined.

(** The [ipnet] crate: parsed networks, as far as the server uses them. *)
Class IpNet := {
  Ipv4Net : Type;
  Ipv6Net : Type;
  parse_v4net : string -> result string Ipv4Net;
  parse_v6net : string -> result string Ipv6Net;
  v4net_prefix : Ipv4Net -> Z;
  v6net_prefix : Ipv6Net -> Z;
  v6net_network : Ipv6Net -> Ipv6Addr;
}.

(** The [toml] crate on this configuration. *)
Class ServerToml := {
  toml_parse : bytes -> result string ServerConfig;
  toml_print : ServerConfig -> result string bytes;
}.
Class ServerTomlLaws `{ServerToml} := {
  toml_round_trip : forall c t, toml_print c = Ok t -> toml_parse t = Ok c;
}.

(** Defaults of the network section, parsed when the file omits them. *)
Definition default_subnet6 : option string := Some "fd66::/64".
Definition default_gateway6 : option Ipv6Addr := parse_ipv6 "fd66::1".
Definition default_dns6 : list Ipv6Addr :=
  omap parse_ipv6 ["2001:4860:4860::8888"; "2606:4700:4700::1111"].
Definition default_tun : string := "et0".

Section Load.
Context `{ServerToml}.
Definition load (path : string) (d : Disk) : Result ServerConfig :=
  match read_file path d with
  | Err e => Err (Io e)
  | Ok text => map_err (fun e => Config ("parse " +:+ path +:+ ": " +:+ e)) (toml_parse text)
  end.
Definition save (path : string) (c : ServerConfig) : eff Disk Error unit :=
  text ← lift_result (map_err (fun e => Config ("serialize: " +:+ e)) (toml_print c));
  with_err Io (write_file path text).
End Load.

(** [prefix_len] of the source; the record field of the same name is in [Welcome]. *)
Definition cfg_prefix_len `{IpNet} (c : ServerConfig) : Result Z :=
  match parse_v4net (subnet (network c)) with
  | Err e => Err (Config ("bad subnet " +:+ subnet (network c) +:+ ": " +:+ e))
  | Ok n => Ok (v4net_prefix n)
  end.
Definition subnet6_net `{IpNet} (c : ServerConfig) : option Ipv6Net :=
  s ← net_subnet6 (network c); ok (parse_v6net s).
Definition find_peer (c : ServerConfig) (token : string) : option PeerConfig :=
  List.find (fun p => String.eqb (p_token p) token) (peers c).

Definition v4 (a b c d : Z) : Ipv4Addr := v4_of_octets (map byte_of_Z [a; b; c; d]).

(** The random key and tokens are arguments. *)
Definition template (psk admin tok : string) : ServerConfig := {|
  listeners := [mkListener Tcp "0.0.0.0:8443" true];
  network := mkNetwork "10.66.0.0/24" (v4 10 66 0 1) 1380 [v4 8 8 8 8; v4 1 1 1 1]
    "et0" None default_subnet6 default_gateway6 default_dns6;
  security := mkSecurityConfig psk None None;
  web := mkWeb "127.0.0.1:9000" admin;
  peers := [mkPeer "example" tok (v4 10 66 0 2) true true true];
|}.

(** ** Lookup *)

Lemma find_peer_Some c t p :
  find_peer c t = Some p -> In p (peers c) /\ p_token p = t.
Proof. intros [Hin He]%List.find_some. by apply String.eqb_eq in He. Qed.
Lemma find_peer_None c t : find_peer c t = None <-> Forall (fun p => p_token p <> t) (peers c).
Proof.
  unfold find_peer. induction (peers c) as [|p l IH]; cbn; [done|].
  destruct (String.eqb_spec (p_token p) t).
  - split; [done|]. by intros [? _]%Forall_cons.
  - rewrite IH, Forall_cons. naive_solver.
Qed.

(** The well-formedness the admin API keeps: one peer per token, one per address. *)
Definition peers_wf (c : ServerConfig) : Prop :=
  NoDup (map p_token (peers c)) /\ NoDup (map p_ip (peers c)).

Lemma NoDup_map_eq {A B} (f : A -> B) l x y :
  NoDup (map f l) -> In x l -> In y l -> f x = f y -> x = y.
Proof.
  induction l as [|z l IH]; cbn; [done|]. intros [Hz Hl]%NoDup_cons [->|Hx] [->|Hy] E.
  - done.
  - destruct Hz. rewrite E. apply list_elem_of_In. by apply in_map.
  - destruct Hz. rewrite <- E. apply list_elem_of_In. by apply in_map.
  - auto.
Qed.

Lemma find_peer_wf c p : peers_wf c -> In p (peers c) -> find_peer c (p_token p) = Some p.
Proof.
  intros [Ht _] Hp. destruct (find_peer c (p_token p)) as [q|] eqn:E.
  - apply find_peer_Some in E as [Hq E]. f_equal. by apply (NoDup_map_eq p_token (peers c)).
  - apply find_peer_None in E. rewrite Forall_forall in E. destruct (E p); [|done].
    by apply list_elem_of_In.
Qed.
