(* ===== verification/Router.v ===== *)
(** The virtual-IP router and the traffic metrics of the server (server/src/session.rs:
    [Router], [Metrics]).

    A [Sender<Frame>] and an [Arc<Counters>] are shared objects: an entry holds the
    key of the connection that created them, and the objects live in the stores
    [Queues] and [CounterStore]. *)
From stdpp Require Import sorting.
From S2P Require Import Prelude Net Core Mpsc.

Abbreviation cid := nat.

Record Online := mkOnline {
  on_name : string;
  on_mode : SessionMode;
  on_addr : string;
  on_member : bool;
  on_ip6 : option Ipv6Addr;
}.
Record Counters := mkCounters { c_up : Z; c_down : Z }.
Record Entry := mkEntry {
  e_tx : cid;
  e_info : Online;
  e_token : string;
  e_counters : cid;
  e_connected : Z;
}.
Record LiveEntry := mkLive {
  lv_ip : Ipv4Addr;
  lv_name : string;
  lv_token : string;
  lv_mode : SessionMode;
  lv_addr : string;
  lv_up : Z;
  lv_down : Z;
  lv_secs : Z;
}.

Abbreviation Queues := (gmap cid (mpsc Frame)).
Abbreviation CounterStore := (gmap cid Counters).

(** Whole seconds between two instants, kept in nanoseconds. *)
Definition elapsed_secs (since now : Z) : Z := sat_sub now since / 10 ^ 9.

Module Router.
Record t := mk { v4s : gmap Ipv4Addr Entry; v6s : gmap Ipv6Addr cid }.
Definition new : t := mk ∅ ∅.

(** [register] and [unregister] are two map operations each. *)
Definition register6 (ip6 : option Ipv6Addr) (tx : cid) (r : t) : t :=
  match ip6 with Some v6 => mk (v4s r) (<[v6 := tx]> (v6s r)) | None => r end.
Definition register4 (ip : Ipv4Addr) (e : Entry) (r : t) : t := mk (<[ip := e]> (v4s r)) (v6s r).
Definition unregister4 (ip : Ipv4Addr) (r : t) : t := mk (delete ip (v4s r)) (v6s r).
Definition unregister6 (ip6 : option Ipv6Addr) (r : t) : t :=
  match ip6 with Some v6 => mk (v4s r) (delete v6 (v6s r)) | None => r end.
Definition register (ip : Ipv4Addr) (ip6 : option Ipv6Addr) (e : Entry) (r : t) : t :=
  register4 ip e (register6 ip6 (e_tx e) r).
Definition unregister (ip : Ipv4Addr) (ip6 : option Ipv6Addr) (r : t) : t :=
  unregister6 ip6 (unregister4 ip r).

(** Sending on the channel a key names; a channel not in the store has no receiver. *)
Definition send_on (c : cid) (f : Frame) (qs : Queues) : Queues * bool :=
  match qs !! c with
  | Some q => let (q', b) := try_send f q in (<[c := q']> qs, b)
  | None => (qs, false)
  end.

Definition deliver (r : t) (ip : Ipv4Addr) (f : Frame) (qs : Queues) : Queues * bool :=
  match v4s r !! ip with
  | Some e => send_on (e_tx e) f qs
  | None => (qs, false)
  end.
Definition deliver6 (r : t) (ip6 : Ipv6Addr) (f : Frame) (qs : Queues) : Queues * bool :=
  match v6s r !! ip6 with
  | Some tx => send_on tx f qs
  | None => (qs, false)
  end.

Definition online (r : t) : list (Ipv4Addr * Online) :=
  map (fun p => (p.1, e_info p.2)) (map_to_list (v4s r)).
Definition live (r : t) (cs : CounterStore) (now : Z) : list LiveEntry :=
  map (fun p =>
    let e := p.2 in
    let k := default (mkCounters 0 0) (cs !! e_counters e) in
    mkLive p.1 (on_name (e_info e)) (e_token e) (on_mode (e_info e)) (on_addr (e_info e))
      (c_up k) (c_down k) (elapsed_secs (e_connected e) now))
    (map_to_list (v4s r)).
End Router.

(** ** Metrics *)

Record PeerAgg := mkAgg { a_name : string; a_ip : Ipv4Addr; a_mode : SessionMode; a_up : Z; a_down : Z }.
Record TrafficSample := mkSample { s_t : Z; s_up : Z; s_down : Z }.
Record PeerStat := mkStat {
  st_name : string;
  st_token : string;
  st_ip : string;
  st_mode : option string;
  st_online : bool;
  st_addr : option string;
  st_up : Z;
  st_down : Z;
  st_secs : Z;
}.
Definition MAX_SAMPLES : Z := 180.

Module Metrics.
Record t := mk {
  start : Z;
  total_up : Z;
  total_down : Z;
  agg : gmap string PeerAgg;
  timeline : list TrafficSample;
  last : Z * Z;
}.
Definition new (now : Z) : t := mk now 0 0 ∅ [] (0, 0).
Definition uptime_secs (now : Z) (m : t) : Z := elapsed_secs (start m) now.

Definition add_up (n : Z) (m : t) : t :=
  mk (start m) (wrap_add64 (total_up m) n) (total_down m) (agg m) (timeline m) (last m).
Definition add_down (n : Z) (m : t) : t :=
  mk (start m) (total_up m) (wrap_add64 (total_down m) n) (agg m) (timeline m) (last m).
Definition totals (m : t) : Z * Z := (total_up m, total_down m).

(** [+=] on [u64]: wraps in a release build. *)
Definition fold_session (token name : string) (ip : Ipv4Addr) (mode : SessionMode) (up down : Z)
    (m : t) : t :=
  let e := default (mkAgg name ip mode 0 0) (agg m !! token) in
  let e' := mkAgg name ip mode (wrap_add64 (a_up e) up) (wrap_add64 (a_down e) down) in
  mk (start m) (total_up m) (total_down m) (<[token := e']> (agg m)) (timeline m) (last m).

(** [while tl.len() > MAX_SAMPLES { tl.pop_front(); }] *)
Fixpoint trim_front (tl : list TrafficSample) : list TrafficSample :=
  match tl with
  | [] => []
  | _ :: r => if MAX_SAMPLES <? Z.of_nat (length tl) then trim_front r else tl
  end.
Definition sample (now : Z) (m : t) : t :=
  let '(cu, cd) := totals m in
  let du := sat_sub cu (last m).1 in
  let dd := sat_sub cd (last m).2 in
  let tl := trim_front (timeline m ++ [mkSample (uptime_secs now m) du dd]) in
  mk (start m) (total_up m) (total_down m) (agg m) tl (cu, cd).

(** The two passes of [peer_stats] over its hash map, then the sort. *)
Definition stat_of_agg (token : string) (a : PeerAgg) : PeerStat :=
  mkStat (a_name a) token (show_v4 (a_ip a)) (Some (show_mode (a_mode a))) false None
    (a_up a) (a_down a) 0.
Definition add_live (out : gmap string PeerStat) (l : LiveEntry) : gmap string PeerStat :=
  let s := default (mkStat (lv_name l) (lv_token l) (show_v4 (lv_ip l)) None false None 0 0 0)
             (out !! lv_token l) in
  <[lv_token l := mkStat (lv_name l) (st_token s) (show_v4 (lv_ip l)) (Some (show_mode (lv_mode l)))
     true (Some (lv_addr l)) (wrap_add64 (st_up s) (lv_up l)) (wrap_add64 (st_down s) (lv_down l))
     (lv_secs l)]> out.
Definition merged (m : t) (live : list LiveEntry) : gmap string PeerStat :=
  fold_left add_live live (map_imap (fun k a => Some (stat_of_agg k a)) (agg m)).
Definition heavier (a b : PeerStat) : Prop :=
  wrap_add64 (st_up b) (st_down b) <= wrap_add64 (st_up a) (st_down a).
#[export] Instance heavier_dec : RelDecision heavier.
Proof. intros a b. unfold heavier. apply _. Defined.
Definition peer_stats (m : t) (live : list LiveEntry) : list PeerStat :=
  merge_sort heavier (map snd (map_to_list (merged m live))).
End Metrics.

(** ** Router lemmas *)

Section RouterLemmas.
Import Router.

Lemma send_on_spec c f qs qs' b :
  send_on c f qs = (qs', b) ->
  (forall d, d <> c -> qs' !! d = qs !! d) /\
  (b = false -> qs' = qs) /\
  (b = true -> exists q, qs !! c = Some q /\ queue_len q < cap q /\ rx_open q = true /\
     qs' = <[c := mkMpsc (items q ++ [f]) (cap q) true]> qs).
Proof.
  unfold send_on. destruct (qs !! c) as [q|] eqn:E; [|by intros [= <- <-]].
  unfold try_send. destruct (rx_open q) eqn:Ho; cbn [andb].
  - destruct (Z.ltb_spec (queue_len q) (cap q)); intros [= <- <-].
    + split_and!; [by intros; rewrite lookup_insert_ne|done|eauto].
    + rewrite insert_id by done. done.
  - intros [= <- <-]. rewrite insert_id by done. done.
Qed.

Lemma send_on_ok n c f qs : (forall d q, qs !! d = Some q -> mpsc_ok n q) ->
  forall d q, (send_on c f qs).1 !! d = Some q -> mpsc_ok n q.
Proof.
  intros Hq d q. unfold send_on. destruct (qs !! c) as [q0|] eqn:E; [|apply Hq].
  destruct (try_send f q0) as [q1 b] eqn:Et. cbn. intros [[<- <-]|[Hd Hq1]]%lookup_insert_Some.
  - change q1 with (q1, b).1. rewrite <- Et. apply try_send_ok. eauto.
  - eauto.
Qed.

(** What is registered is found, other addresses are untouched, and unregistering
    removes exactly the address. *)
Lemma register_lookup ip ip6 e r :
  v4s (register ip ip6 e r) !! ip = Some e /\
  (forall k, k <> ip -> v4s (register ip ip6 e r) !! k = v4s r !! k) /\
  (forall v6, ip6 = Some v6 -> v6s (register ip ip6 e r) !! v6 = Some (e_tx e)) /\
  (forall k, ip6 <> Some k -> v6s (register ip ip6 e r) !! k = v6s r !! k).
Proof.
  unfold register, register4, register6. destruct ip6 as [v6|]; cbn.
  - split_and!; [by simplify_map_eq|intros; by simplify_map_eq|intros ? [= <-]; by simplify_map_eq|].
    intros k Hk. rewrite lookup_insert_ne; [done|congruence].
  - by split_and!; [simplify_map_eq|intros; simplify_map_eq| |].
Qed.

Lemma unregister_register ip ip6 e r :
  v4s r !! ip = None -> (forall v6, ip6 = Some v6 -> v6s r !! v6 = None) ->
  unregister ip ip6 (register ip ip6 e r) = r.
Proof.
  intros H4 H6. destruct r as [a b]. unfold register, unregister, register6, register4, unregister6, unregister4.
  cbn in *. destruct ip6 as [v6|]; cbn.
  - rewrite !delete_insert_id; auto.
  - rewrite delete_insert_id; auto.
Qed.
End RouterLemmas.

(** ** Metrics lemmas *)

Section MetricsLemmas.
Import Metrics.

Lemma trim_front_drop tl : trim_front tl = drop (length tl - Z.to_nat MAX_SAMPLES) tl.
Proof.
  induction tl as [|x tl IH]; [done|]. cbn [trim_front length].
  change (Z.to_nat MAX_SAMPLES) with 180%nat in *.
  destruct (Z.ltb_spec MAX_SAMPLES (Z.of_nat (S (length tl)))) as [H|H].
  - change MAX_SAMPLES with 180 in H. rewrite IH.
    by replace (S (length tl) - 180)%nat with (S (length tl - 180)) by lia.
  - change MAX_SAMPLES with 180 in H. by replace (S (length tl) - 180)%nat with O by lia.
Qed.

(** Sum of a counter over the live entries of one token. *)
Definition live_sum (f : LiveEntry -> Z) (k : string) (ls : list LiveEntry) : Z :=
  fold_right (fun l acc => (if decide (lv_token l = k) then f l else 0) + acc) 0 ls.
Definition stat_sum (f : PeerStat -> Z) (k : string) (m : gmap string PeerStat) : Z :=
  from_option f 0 (m !! k).

Lemma wrap_add64_mod a b : wrap_add64 a b mod 2 ^ 64 = (a + b) mod 2 ^ 64.
Proof. unfold wrap_add64, wrap. apply Z.mod_mod. lia. Qed.
Lemma mod_add_r a b c : b mod 2 ^ 64 = c mod 2 ^ 64 -> (a + b) mod 2 ^ 64 = (a + c) mod 2 ^ 64.
Proof. intros H. rewrite Z.add_mod, H, <- Z.add_mod; lia. Qed.

Lemma add_live_sums out l k :
  stat_sum st_up k (add_live out l) mod 2 ^ 64 =
    (stat_sum st_up k out + live_sum lv_up k [l]) mod 2 ^ 64 /\
  stat_sum st_down k (add_live out l) mod 2 ^ 64 =
    (stat_sum st_down k out + live_sum lv_down k [l]) mod 2 ^ 64.
Proof.
  unfold add_live, stat_sum, live_sum. cbn [fold_right]. case_decide as Hk.
  - subst k. rewrite lookup_insert_eq. cbn. rewrite !wrap_add64_mod.
    destruct (out !! lv_token l); cbn; by rewrite !Z.add_0_r.
  - rewrite lookup_insert_ne by done. by rewrite !Z.add_0_r.
Qed.

Lemma merged_sums ls out k :
  stat_sum st_up k (fold_left add_live ls out) mod 2 ^ 64 =
    (stat_sum st_up k out + live_sum lv_up k ls) mod 2 ^ 64 /\
  stat_sum st_down k (fold_left add_live ls out) mod 2 ^ 64 =
    (stat_sum st_down k out + live_sum lv_down k ls) mod 2 ^ 64.
Proof.
  revert out. induction ls as [|l ls IH]; intros out; cbn [fold_left].
  { by rewrite !Z.add_0_r. }
  destruct (IH (add_live out l)) as [-> ->]. destruct (add_live_sums out l k) as [Hu Hd].
  unfold live_sum in *. cbn [fold_right] in *. rewrite Z.add_0_r in Hu, Hd.
  split; rewrite (Z.add_comm (stat_sum _ _ (add_live _ _))).
  - rewrite (mod_add_r _ _ _ Hu). f_equal. lia.
  - rewrite (mod_add_r _ _ _ Hd). f_equal. lia.
Qed.

(** Every entry is stored under its own token, online exactly when it is live. *)
Definition stats_wf (ls : list LiveEntry) (m : gmap string PeerStat) : Prop :=
  forall k s, m !! k = Some s -> st_token s = k /\
    (st_online s = true <-> exists l, In l ls /\ lv_token l = k).

Lemma add_live_wf ls l m : stats_wf ls m -> stats_wf (ls ++ [l]) (add_live m l).
Proof.
  intros Hm k s. unfold add_live. intros [[<- <-]|[Hk Hs]]%lookup_insert_Some; cbn.
  - split.
    + destruct (m !! lv_token l) as [s|] eqn:E; [|done]. by apply Hm in E as [? _].
    + split; [|done]. intros _. exists l. split; [|done]. apply in_or_app. cbn. auto.
  - apply Hm in Hs as [Ht Ho]. split; [done|]. rewrite Ho. split.
    + intros (x & Hx & ?). exists x. split; [|done]. apply in_or_app. auto.
    + intros (x & [Hx|[<-|[]]]%in_app_or & Ex); [eauto|done].
Qed.

Lemma fold_live_wf ls done0 m :
  stats_wf done0 m -> stats_wf (done0 ++ ls) (fold_left add_live ls m).
Proof.
  revert done0 m. induction ls as [|l ls IH]; intros d m Hm; cbn [fold_left].
  - by rewrite app_nil_r.
  - replace (d ++ l :: ls) with ((d ++ [l]) ++ ls) by by rewrite <- app_assoc.
    apply IH, add_live_wf, Hm.
Qed.

Lemma fold_live_dom ls m k :
  is_Some (fold_left add_live ls m !! k) <->
  is_Some (m !! k) \/ exists l, In l ls /\ lv_token l = k.
Proof.
  revert m. induction ls as [|l ls IH]; intros m; cbn [fold_left].
  - split; [auto|]. intros [?|(x & [] & _)]. done.
  - rewrite IH. unfold add_live. rewrite lookup_insert_is_Some. cbn.
    destruct (decide (lv_token l = k)); naive_solver.
Qed.

Lemma stats_of_agg_lookup m k :
  map_imap (fun k a => Some (stat_of_agg k a)) (agg m) !! k =
  stat_of_agg k <$> agg m !! k.
Proof. rewrite map_lookup_imap. by destruct (agg m !! k). Qed.

Lemma merged_wf m ls : stats_wf ls (merged m ls).
Proof.
  apply (fold_live_wf ls []). intros k s. rewrite stats_of_agg_lookup.
  intros (a & _ & ->)%fmap_Some. cbn. split; [done|]. split; [done|]. by intros (? & [] & _).
Qed.

Lemma heavier_total : Total heavier.
Proof. intros a b. unfold heavier. lia. Qed.
Lemma heavier_trans : Transitive heavier.
Proof. intros a b c. unfold heavier. lia. Qed.

Lemma peer_stats_elem m ls s :
  s ∈ peer_stats m ls <-> merged m ls !! st_token s = Some s.
Proof.
  unfold peer_stats. rewrite (merge_sort_Permutation heavier).
  rewrite list_elem_of_In, in_map_iff. split.
  - intros ([k s'] & E & Hin). cbn in E. subst s'. apply list_elem_of_In, elem_of_map_to_list in Hin.
    by destruct (merged_wf m ls k s Hin) as [-> _].
  - intros Hs. exists (st_token s, s). split; [done|]. by apply list_elem_of_In, elem_of_map_to_list.
Qed.

Lemma NoDup_stat_tokens (m : gmap string PeerStat) (l : list (string * PeerStat)) :
  (forall p, p ∈ l -> m !! p.1 = Some p.2 /\ st_token p.2 = p.1) -> NoDup (map fst l) ->
  NoDup (map st_token (map snd l)).
Proof.
  intros Hl Hn. replace (map st_token (map snd l)) with (map fst l); [done|].
  rewrite map_map. apply map_ext_in. intros p Hp%list_elem_of_In. symmetry. by apply Hl.
Qed.
End MetricsLemmas.

(** The per-peer statistics merge history and live sessions without loss or double
    counting: one line per token, present exactly for the tokens with folded history
    or a live session, its bytes equal (as 64-bit counters) to the folded total plus
    the live counters of that token, marked online exactly when a live session has
    the token, and the lines sorted by decreasing traffic. *)
Theorem peer_stats_spec (m : Metrics.t) (ls : list LiveEntry) :
  let out := Metrics.peer_stats m ls in
  Sorted Metrics.heavier out /\ NoDup (map st_token out) /\
  (forall k, (exists s, s ∈ out /\ st_token s = k) <->
     is_Some (Metrics.agg m !! k) \/ exists l, In l ls /\ lv_token l = k) /\
  (forall s, s ∈ out ->
     (st_online s = true <-> exists l, In l ls /\ lv_token l = st_token s) /\
     st_up s mod 2 ^ 64 =
       (from_option a_up 0 (Metrics.agg m !! st_token s) + live_sum lv_up (st_token s) ls) mod 2 ^ 64 /\
     st_down s mod 2 ^ 64 =
       (from_option a_down 0 (Metrics.agg m !! st_token s) + live_sum lv_down (st_token s) ls) mod 2 ^ 64).
Proof.
  cbv zeta. split_and!.
  - apply Sorted_merge_sort, heavier_total.
  - unfold Metrics.peer_stats. erewrite merge_sort_Permutation.
    apply (NoDup_stat_tokens (Metrics.merged m ls)); [|apply NoDup_fst_map_to_list].
    intros [k s] H%elem_of_map_to_list. split; [done|]. by apply merged_wf in H as [? _].
  - intros k. split.
    + intros (s & Hs%peer_stats_elem & <-). apply mk_is_Some, fold_live_dom in Hs.
      rewrite stats_of_agg_lookup, fmap_is_Some in Hs. done.
    + intros Hk. assert (is_Some (Metrics.merged m ls !! k)) as [s Hs].
      { apply fold_live_dom. by rewrite stats_of_agg_lookup, fmap_is_Some. }
      destruct (merged_wf m ls k s Hs) as [E _]. exists s. split; [|done].
      apply peer_stats_elem. by rewrite E.
  - intros s Hs%peer_stats_elem. split; [by apply merged_wf in Hs as [_ ?]|].
    pose proof (merged_sums ls (map_imap (fun k a => Some (Metrics.stat_of_agg k a)) (Metrics.agg m))
      (st_token s)) as Hsum.
    unfold stat_sum in Hsum at 1 3. change (fold_left Metrics.add_live ls _) with (Metrics.merged m ls) in Hsum.
    rewrite Hs in Hsum. unfold stat_sum in Hsum. rewrite stats_of_agg_lookup in Hsum.
    destruct (Metrics.agg m !! st_token s); exact Hsum.
Qed.

(** The throughput sampler keeps a bounded ring: a sample appends the traffic since
    the previous one (saturating at zero), keeps exactly the newest MAX_SAMPLES
    entries in order, and leaves the totals and the per-peer history alone. *)
Theorem sample_spec (m : Metrics.t) (now : Z) :
  let m' := Metrics.sample now m in
  let x := mkSample (Metrics.uptime_secs now m)
             (sat_sub (Metrics.total_up m) (Metrics.last m).1)
             (sat_sub (Metrics.total_down m) (Metrics.last m).2) in
  (length (Metrics.timeline m') <= 180)%nat /\
  (exists old, Metrics.timeline m ++ [x] = old ++ Metrics.timeline m') /\
  ((length (Metrics.timeline m) < 180)%nat -> Metrics.timeline m' = Metrics.timeline m ++ [x]) /\
  List.last (Metrics.timeline m') x = x /\
  Metrics.last m' = Metrics.totals m /\ Metrics.totals m' = Metrics.totals m /\
  Metrics.agg m' = Metrics.agg m.
Proof.
  cbv zeta. unfold Metrics.sample. cbn -[elapsed_secs sat_sub].
  rewrite trim_front_drop, length_app. change (Z.to_nat MAX_SAMPLES) with 180%nat. cbn [length].
  set (x := mkSample _ _ _). set (l := Metrics.timeline m). split_and!; try done.
  - rewrite length_drop, length_app. cbn [length]. lia.
  - eexists. symmetry. apply take_drop.
  - intros H. by replace (length l + 1 - 180)%nat with O by lia.
  - rewrite drop_app_le by lia. apply List.last_last.
Qed.
