(* ===== verification/Session.v ===== *)
(** Server sessions (server/src/session.rs): admission, the network offer, the frame
    handler of a connection, the outbound writer, the remote-dialing tasks of
    HTTP-proxy streams and the packet demultiplexer, as one transition system.

    Every step is one access to shared state or one completed await, so any
    interleaving of the server's tasks is a sequence of [event]s.  The handler of a
    frame is compiled to the list of atomic [action]s it performs in order; the one that
    awaits, a write to the TUN, is over when an event says so. *)
From stdpp Require Import gmap.
From Stdlib Require Import Ascii.
From S2P Require Import Prelude Net Core Mpsc ServerConfig Router.

(** ** Addresses *)

(** [o[12..16].copy_from_slice(v4)] on the octets of the network address. *)
Definition embed_v4 (net : Ipv6Addr) (a : Ipv4Addr) : Ipv6Addr :=
  v6_of_octets (take 12 (v6_octets net) ++ be_split 4 (u32_of_v4 a)).
Definition derive_ipv6 `{IpNet} (net : Ipv6Net) (a : Ipv4Addr) : Ipv6Addr :=
  embed_v4 (v6net_network net) a.

(** ** Handshake *)

Record Session := mkSession {
  ss_hello : Hello;
  ss_peer : PeerConfig;
  ss_ip6 : option Ipv6Addr;
}.
Definition assigned (s : Session) : Ipv4Addr := p_ip (ss_peer s).
Definition vpn_member (s : Session) : bool :=
  bool_decide (hello_mode (ss_hello s) = Vpn) || join_vpn (ss_hello s).
(** Whether the session's packets go to the server's TUN. *)
Definition packet_path (s : Session) : bool :=
  negb (is_stream (hello_mode (ss_hello s))) || vpn_member s.

Definition version_reason (v : Z) : string :=
  "protocol version mismatch (server " +:+ pretty PROTOCOL_VERSION +:+ ", client " +:+ pretty v +:+ ")".

(** The peer record of a hello, or the reason of its rejection. *)
Definition admission (c : ServerConfig) (h : Hello) : result string PeerConfig :=
  if negb (hello_version h =? PROTOCOL_VERSION) then Err (version_reason (hello_version h))
  else match find_peer c (hello_token h) with
  | None => Err "unknown token"
  | Some p =>
    if negb (enabled p) then Err "peer is disabled"
    else if bool_decide (hello_mode h = GlobalProxy) && negb (allow_global p)
    then Err "global proxy not allowed for this peer"
    else Ok p
  end.

Definition derived_ip6 `{IpNet} (c : ServerConfig) (ipv6 : bool) (p : PeerConfig) : option Ipv6Addr :=
  match ipv6, subnet6_net c with
  | true, Some n => Some (derive_ipv6 n (p_ip p))
  | _, _ => None
  end.

(** The second reading of the configuration: the session and its [Welcome]. *)
Definition net_offer `{IpNet} (c : ServerConfig) (ipv6 : bool) (h : Hello) (p : PeerConfig) (sid : Z)
    : Session * Welcome :=
  let plen := default 24 (ok (cfg_prefix_len c)) in
  let n := network c in
  let '(ip6, gw6, p6, dns6) :=
    match ipv6, subnet6_net c with
    | true, Some net6 =>
      (Some (derive_ipv6 net6 (p_ip p)), net_gateway6 n, v6net_prefix net6, net_dns6 n)
    | _, _ => (None, None, 0, [])
    end in
  (mkSession h p ip6,
   mkWelcome sid (p_ip p) plen (net_gateway n) (net_mtu n) (net_dns n) ip6 p6 gw6 dns6).

(** ** The frame handler *)

Inductive action :=
  | ACountUp (n : Z)
  | AMetricUp (n : Z)
  | ATun (pkt : bytes)
  | ATrySend (f : Frame)
  | AGetPeers
  | AOpen (id : Z) (target : TargetAddr)
  | AData (id : Z) (data : bytes)
  | ARemove (id : Z).

Definition no_http_proxy : string := "http proxy not allowed for this peer".

Definition on_frame (s : Session) (f : Frame) : list action :=
  match f with
  | FPacket pkt =>
    [ACountUp (payload_len f); AMetricUp (payload_len f)] ++
    (if packet_path s then [ATun pkt] else [])
  | FPing => [ATrySend FPong]
  | FGetPeers => [AGetPeers]
  | FStreamOpen id target =>
    if allow_http_proxy (ss_peer s) then [AOpen id target]
    else [ATrySend (FStreamClose id (Some no_http_proxy))]
  | FStreamData id d => [ACountUp (payload_len f); AMetricUp (payload_len f); AData id d]
  | FStreamClose id _ => [ARemove id]
  | _ => []
  end.

(** The other VPN members, as listed to a client. *)
Definition visible_peers (s : Session) (online : list (Ipv4Addr * Online)) : list PeerInfo :=
  map (fun p => mkPeerInfo p.1 (on_name p.2) (on_ip6 p.2))
    (List.filter (fun p => negb (bool_decide (p.1 = assigned s)) && on_member p.2) online).

(** ** State *)

Inductive Phase :=
  | AwaitHello
  | Looking (h : Hello)
  | Rejecting (reason : string)
  | Offering (h : Hello) (p : PeerConfig)
  | Register6 (s : Session) (w : Welcome)
  | Register4 (s : Session) (w : Welcome)
  | Welcoming (s : Session) (w : Welcome)
  | Running (s : Session) (todo : list action)
  | Unreg4 (s : Session) (welcomed : bool)
  | Unreg6 (s : Session) (welcomed : bool)
  | Aborting (s : Session)
  | Folding (s : Session)
  | Finished (s : option Session).

(** The outbound writer task. *)
Inductive WPhase :=
  | WNone | WIdle | WSending (f : Frame) | WCount (n : Z) | WMetric (n : Z) | WClosing | WDone.

Abbreviation tid := nat.
Record Conn := mkConn {
  cn_addr : string;
  cn_phase : Phase;
  cn_writer : WPhase;
  cn_stop : bool;
  cn_streams : gmap Z tid;
  cn_log : list Frame;
}.

(** A remote-dialing task: the dial, then one loop per direction. *)
Inductive TPhase := Dialing | DialFailed (f : Frame) | Open | Ended.
Inductive UpPhase := UIdle | UWriting (d : bytes) | UEnded.
Inductive DownPhase := DReading | DSending (f : Frame) | DEnded.
#[export] Instance down_phase_eq_dec : EqDecision DownPhase.
Proof. solve_decision. Defined.
Record Task := mkTask {
  t_conn : cid;
  t_id : Z;
  t_target : TargetAddr;
  t_rx : mpsc bytes;
  t_phase : TPhase;
  t_up : UpPhase;
  t_down : DownPhase;
  t_stop : bool;
  t_sent : list bytes;
}.

Record Server := mkServer {
  sv_cfg : ServerConfig;
  sv_ipv6 : bool;
  sv_has_tun : bool;
  sv_demux : bool;
  sv_router : Router.t;
  sv_queues : Queues;
  sv_counters : CounterStore;
  sv_metrics : Metrics.t;
  sv_conns : gmap cid Conn;
  sv_tasks : gmap tid Task;
  sv_writes : list (cid * bytes * bool);
  sv_now : Z;
  sv_next : nat;
}.

Definition set_router (f : Router.t -> Router.t) (s : Server) : Server :=
  mkServer (sv_cfg s) (sv_ipv6 s) (sv_has_tun s) (sv_demux s) (f (sv_router s)) (sv_queues s)
    (sv_counters s) (sv_metrics s) (sv_conns s) (sv_tasks s) (sv_writes s) (sv_now s) (sv_next s).
Definition set_queues (f : Queues -> Queues) (s : Server) : Server :=
  mkServer (sv_cfg s) (sv_ipv6 s) (sv_has_tun s) (sv_demux s) (sv_router s) (f (sv_queues s))
    (sv_counters s) (sv_metrics s) (sv_conns s) (sv_tasks s) (sv_writes s) (sv_now s) (sv_next s).
Definition set_counters (f : CounterStore -> CounterStore) (s : Server) : Server :=
  mkServer (sv_cfg s) (sv_ipv6 s) (sv_has_tun s) (sv_demux s) (sv_router s) (sv_queues s)
    (f (sv_counters s)) (sv_metrics s) (sv_conns s) (sv_tasks s) (sv_writes s) (sv_now s) (sv_next s).
Definition set_metrics (f : Metrics.t -> Metrics.t) (s : Server) : Server :=
  mkServer (sv_cfg s) (sv_ipv6 s) (sv_has_tun s) (sv_demux s) (sv_router s) (sv_queues s)
    (sv_counters s) (f (sv_metrics s)) (sv_conns s) (sv_tasks s) (sv_writes s) (sv_now s) (sv_next s).
Definition set_conns (f : gmap cid Conn -> gmap cid Conn) (s : Server) : Server :=
  mkServer (sv_cfg s) (sv_ipv6 s) (sv_has_tun s) (sv_demux s) (sv_router s) (sv_queues s)
    (sv_counters s) (sv_metrics s) (f (sv_conns s)) (sv_tasks s) (sv_writes s) (sv_now s) (sv_next s).
Definition set_tasks (f : gmap tid Task -> gmap tid Task) (s : Server) : Server :=
  mkServer (sv_cfg s) (sv_ipv6 s) (sv_has_tun s) (sv_demux s) (sv_router s) (sv_queues s)
    (sv_counters s) (sv_metrics s) (sv_conns s) (f (sv_tasks s)) (sv_writes s) (sv_now s) (sv_next s).
(** A completed write of a client's packet to the TUN, and whether the device took it. *)
Definition log_tun (c : cid) (pkt : bytes) (ok : bool) (s : Server) : Server :=
  mkServer (sv_cfg s) (sv_ipv6 s) (sv_has_tun s) (sv_demux s) (sv_router s) (sv_queues s)
    (sv_counters s) (sv_metrics s) (sv_conns s) (sv_tasks s) (sv_writes s ++ [(c, pkt, ok)]) (sv_now s) (sv_next s).
(** What was handed to the TUN, and what the device took of it. *)
Definition sv_tun (s : Server) : list (cid * bytes) := map fst (sv_writes s).
Definition sv_dev (s : Server) : list (cid * bytes) := map fst (List.filter snd (sv_writes s)).
(** Environment: the configuration as the admin API rewrites it, the clock, the end
    of the demultiplexer loop, and fresh identities. *)
Definition set_env (cfg : ServerConfig) (demux : bool) (now : Z) (next : nat) (s : Server) : Server :=
  mkServer cfg (sv_ipv6 s) (sv_has_tun s) demux (sv_router s) (sv_queues s)
    (sv_counters s) (sv_metrics s) (sv_conns s) (sv_tasks s) (sv_writes s) now next.

Definition set_conn (c : cid) (k : Conn) : Server -> Server := set_conns (insert c k).
Definition set_task (t : tid) (k : Task) : Server -> Server := set_tasks (insert t k).
Definition add_count_up (c : cid) (n : Z) : Server -> Server :=
  set_counters (alter (fun k => mkCounters (wrap_add64 (c_up k) n) (c_down k)) c).
Definition add_count_down (c : cid) (n : Z) : Server -> Server :=
  set_counters (alter (fun k => mkCounters (c_up k) (wrap_add64 (c_down k) n)) c).

Definition in_phase (k : Conn) (p : Phase) : Conn :=
  mkConn (cn_addr k) p (cn_writer k) (cn_stop k) (cn_streams k) (cn_log k).
Definition in_writer (k : Conn) (w : WPhase) : Conn :=
  mkConn (cn_addr k) (cn_phase k) w (cn_stop k) (cn_streams k) (cn_log k).
Definition with_streams (k : Conn) (m : gmap Z tid) : Conn :=
  mkConn (cn_addr k) (cn_phase k) (cn_writer k) (cn_stop k) m (cn_log k).
Definition stop_writer (k : Conn) : Conn :=
  mkConn (cn_addr k) (cn_phase k) (cn_writer k) true (cn_streams k) (cn_log k).
(** A frame the transport accepted for this client. *)
Definition logged (k : Conn) (f : Frame) : Conn :=
  mkConn (cn_addr k) (cn_phase k) (cn_writer k) (cn_stop k) (cn_streams k) (cn_log k ++ [f]).

Definition new_task (c : cid) (id : Z) (target : TargetAddr) : Task :=
  mkTask c id target (mpsc_new 256) Dialing UIdle DReading false [].
Definition task_rx (t : Task) (m : mpsc bytes) : Task :=
  mkTask (t_conn t) (t_id t) (t_target t) m (t_phase t) (t_up t) (t_down t) (t_stop t) (t_sent t).
Definition task_phase (t : Task) (p : TPhase) : Task :=
  mkTask (t_conn t) (t_id t) (t_target t) (t_rx t) p (t_up t) (t_down t) (t_stop t) (t_sent t).
Definition task_up (t : Task) (u : UpPhase) : Task :=
  mkTask (t_conn t) (t_id t) (t_target t) (t_rx t) (t_phase t) u (t_down t) (t_stop t) (t_sent t).
Definition task_down (t : Task) (d : DownPhase) : Task :=
  mkTask (t_conn t) (t_id t) (t_target t) (t_rx t) (t_phase t) (t_up t) d (t_stop t) (t_sent t).
Definition task_sent (t : Task) (d : bytes) : Task :=
  mkTask (t_conn t) (t_id t) (t_target t) (t_rx t) (t_phase t) (t_up t) (t_down t) (t_stop t) (t_sent t ++ [d]).
(** The client-to-remote loop is over: the receiver is dropped and [down] aborted. *)
Definition task_end (t : Task) : Task :=
  mkTask (t_conn t) (t_id t) (t_target t) (close_rx (t_rx t)) (t_phase t) UEnded (t_down t) true (t_sent t).

(** ** Steps *)

Inductive event :=
  | EConfig (c : ServerConfig)
  | ETick (dt : Z)
  | ESample
  | EAccept (addr : string)
  | ERecv (c : cid) (r : Result Frame)
  | ETau (c : cid) (rnd : Z)
  | EDev (c : cid) (ok : bool)
  | ESent (c : cid) (ok : bool)
  | EWTake (c : cid)
  | EWSent (c : cid) (ok : bool)
  | EWTau (c : cid)
  | EWStop (c : cid)
  | ETun (r : result string bytes)
  | EDialed (t : tid) (r : result string unit)
  | EUpTake (t : tid)
  | EUpWrote (t : tid) (ok : bool)
  | EDownRead (t : tid) (r : result string bytes)
  | EDownSend (t : tid)
  | EDownStop (t : tid).

(** One packet read off the TUN, handed to the session owning its destination. *)
Definition byte_at (i : nat) (pkt : bytes) : byte := nth i pkt Byte.x00.
Definition tun_route (r : Router.t) (pkt : bytes) (qs : Queues) : Queues :=
  let n := length pkt in
  if (20 <=? n)%nat then
    let v := Z.shiftr (Z_of_byte (byte_at 0 pkt)) 4 in
    if v =? 4 then
      let dst := Ipv4 (byte_at 16 pkt) (byte_at 17 pkt) (byte_at 18 pkt) (byte_at 19 pkt) in
      (Router.deliver r dst (FPacket pkt) qs).1
    else if (v =? 6) && (40 <=? n)%nat then
      (Router.deliver6 r (v6_of_octets (take 16 (drop 24 pkt))) (FPacket pkt) qs).1
    else qs
  else qs.

Definition open_remote_stream (c : cid) (k : Conn) (id : Z) (target : TargetAddr) (s : Server) : Server :=
  let t := sv_next s in
  set_conn c (with_streams k (<[id := t]> (cn_streams k)))
    (set_task t (new_task c id target)
      (set_env (sv_cfg s) (sv_demux s) (sv_now s) (S t) s)).

Definition online_of (k : Conn) (ss : Session) : Online :=
  mkOnline (p_name (ss_peer ss)) (hello_mode (ss_hello ss)) (cn_addr k) (vpn_member ss) (ss_ip6 ss).

(** An action that awaits the TUN: a packet, on a server that has one. *)
Definition awaits_dev (s : Server) (a : action) : bool :=
  match a with ATun _ => sv_has_tun s | _ => false end.

(** One action of a running handler, its await over: [wrote] is the outcome of the write
    to the TUN, for an action that makes one. *)
Definition do_action (c : cid) (wrote : bool) (ss : Session) (a : action) (rest : list action) (k : Conn)
    (s : Server) : Server :=
  let k' := in_phase k (Running ss rest) in
  match a with
  | ACountUp n => set_conn c k' (add_count_up c n s)
  | AMetricUp n => set_conn c k' (set_metrics (Metrics.add_up n) s)
  | ATun pkt => set_conn c k' (if sv_has_tun s then log_tun c pkt wrote s else s)
  | ATrySend f => set_conn c k' (set_queues (fun qs => (Router.send_on c f qs).1) s)
  | AGetPeers =>
    let ps := visible_peers ss (Router.online (sv_router s)) in
    set_conn c (in_phase k (Running ss (ATrySend (FPeerList ps) :: rest))) s
  | AOpen id target => open_remote_stream c k' id target s
  | AData id d =>
    match cn_streams k !! id with
    | Some t => set_conn c k' (set_tasks (alter (fun x => task_rx x (try_send d (t_rx x)).1) t) s)
    | None => set_conn c k' s
    end
  | ARemove id => set_conn c (with_streams k' (delete id (cn_streams k))) s
  end.

(** The next internal step of a connection's handler. *)
Definition tau `{IpNet} (c : cid) (rnd : Z) (k : Conn) (s : Server) : option Server :=
  match cn_phase k with
  | Looking h =>
    Some (set_conn c (in_phase k
      match admission (sv_cfg s) h with
      | Ok p => Offering h p
      | Err r => Rejecting r
      end) s)
  | Offering h p =>
    let (ss, w) := net_offer (sv_cfg s) (sv_ipv6 s) h p rnd in
    Some (set_conn c (in_phase k (Register6 ss w))
      (set_counters (insert c (mkCounters 0 0)) (set_queues (insert c (mpsc_new 1024)) s)))
  | Register6 ss w =>
    Some (set_conn c (in_phase k (Register4 ss w)) (set_router (Router.register6 (ss_ip6 ss) c) s))
  | Register4 ss w =>
    let e := mkEntry c (online_of k ss) (p_token (ss_peer ss)) c (sv_now s) in
    Some (set_conn c (in_phase k (Welcoming ss w)) (set_router (Router.register4 (assigned ss) e) s))
  | Running ss (a :: rest) =>
    if awaits_dev s a then None else Some (do_action c false ss a rest k s)
  | Unreg4 ss b =>
    Some (set_conn c (in_phase k (Unreg6 ss b)) (set_router (Router.unregister4 (assigned ss)) s))
  | Unreg6 ss b =>
    let s' := set_router (Router.unregister6 (ss_ip6 ss)) s in
    Some (if b then set_conn c (in_phase k (Aborting ss)) s'
          else set_conn c (in_phase k (Finished (Some ss))) (set_queues (alter close_rx c) s'))
  | Aborting ss => Some (set_conn c (in_phase (stop_writer k) (Folding ss)) s)
  | Folding ss =>
    let ct := default (mkCounters 0 0) (sv_counters s !! c) in
    Some (set_conn c (with_streams (in_phase k (Finished (Some ss))) ∅)
      (set_metrics (Metrics.fold_session (p_token (ss_peer ss)) (p_name (ss_peer ss)) (assigned ss)
         (hello_mode (ss_hello ss)) (c_up ct) (c_down ct)) s))
  | _ => None
  end.

(** The await of a write to the TUN is over; a failure is ignored. *)
Definition tun_wrote (c : cid) (wrote : bool) (k : Conn) (s : Server) : option Server :=
  match cn_phase k with
  | Running ss (a :: rest) =>
    if awaits_dev s a then Some (do_action c wrote ss a rest k s) else None
  | _ => None
  end.

(** A read of the connection completed. *)
Definition received (c : cid) (r : Result Frame) (k : Conn) (s : Server) : option Server :=
  match cn_phase k with
  | AwaitHello =>
    Some (set_conn c (in_phase k match r with Ok (FHello h) => Looking h | _ => Finished None end) s)
  | Running ss [] =>
    Some (set_conn c (in_phase k match r with
      | Ok f => Running ss (on_frame ss f)
      | Err _ => Unreg4 ss true
      end) s)
  | _ => None
  end.

(** The send of a [Reject] or of the [Welcome] completed; the latter starts the writer. *)
Definition sent (c : cid) (b : bool) (k : Conn) (s : Server) : option Server :=
  match cn_phase k with
  | Rejecting reason =>
    let k' := if b then logged k (FReject reason) else k in
    Some (set_conn c (in_phase k' (Finished None)) s)
  | Welcoming ss w =>
    Some (set_conn c (if b then in_writer (in_phase (logged k (FWelcome w)) (Running ss [])) WIdle
                      else in_phase k (Unreg4 ss false)) s)
  | _ => None
  end.

(** No sender of the connection's channel is left. *)
Definition no_senders (c : cid) (k : Conn) (s : Server) : bool :=
  match cn_phase k with Finished _ => true | _ => false end &&
  bool_decide (map_Forall (fun _ e => e_tx e <> c) (Router.v4s (sv_router s))) &&
  bool_decide (map_Forall (fun _ x => x <> c) (Router.v6s (sv_router s))) &&
  bool_decide (map_Forall (fun _ t => t_conn t <> c \/ t_down t = DEnded) (sv_tasks s)).

Definition writer_take (c : cid) (k : Conn) (s : Server) : option Server :=
  match cn_writer k with
  | WIdle =>
    q ← sv_queues s !! c;
    match pop q with
    | Some (f, q') => Some (set_conn c (in_writer k (WSending f)) (set_queues (insert c q') s))
    | None => if no_senders c k s then Some (set_conn c (in_writer k WClosing) s) else None
    end
  | _ => None
  end.
Definition writer_sent (c : cid) (b : bool) (k : Conn) (s : Server) : option Server :=
  match cn_writer k with
  | WSending f =>
    Some (set_conn c (if b then
        in_writer (logged k f) (if 0 <? payload_len f then WCount (payload_len f) else WIdle)
      else in_writer k WClosing) s)
  | _ => None
  end.
Definition writer_tau (c : cid) (k : Conn) (s : Server) : option Server :=
  match cn_writer k with
  | WCount n => Some (set_conn c (in_writer k (WMetric n)) (add_count_down c n s))
  | WMetric n => Some (set_conn c (in_writer k WIdle) (set_metrics (Metrics.add_down n) s))
  | WClosing => Some (set_conn c (in_writer k WDone) (set_queues (alter close_rx c) s))
  | _ => None
  end.
(** [abort] takes effect at an await. *)
Definition writer_stop (c : cid) (k : Conn) (s : Server) : option Server :=
  match cn_stop k, cn_writer k with
  | true, WIdle | true, WSending _ | true, WClosing =>
    Some (set_conn c (in_writer k WDone) (set_queues (alter close_rx c) s))
  | _, _ => None
  end.

(** *** Remote-dialing tasks *)

Definition sender_alive (x : tid) (t : Task) (s : Server) : bool :=
  match sv_conns s !! t_conn t with
  | Some k => bool_decide (cn_streams k !! t_id t = Some x)
  | None => false
  end.

Definition dialed (x : tid) (r : result string unit) (t : Task) (s : Server) : option Server :=
  match t_phase t with
  | Dialing =>
    Some (set_task x (task_phase t match r with
      | Ok _ => Open
      | Err e => DialFailed (FStreamClose (t_id t)
          (Some ("dial " +:+ show_target (t_target t) +:+ ": " +:+ e)))
      end) s)
  | _ => None
  end.
Definition up_take (x : tid) (t : Task) (s : Server) : option Server :=
  match t_phase t, t_up t with
  | Open, UIdle =>
    match pop (t_rx t) with
    | Some (d, m) => Some (set_task x (task_up (task_rx t m) (UWriting d)) s)
    | None => if sender_alive x t s then None else Some (set_task x (task_end t) s)
    end
  | _, _ => None
  end.
Definition up_wrote (x : tid) (b : bool) (t : Task) (s : Server) : option Server :=
  match t_phase t, t_up t with
  | Open, UWriting d => Some (set_task x (if b then task_up (task_sent t d) UIdle else task_end t) s)
  | _, _ => None
  end.
Definition down_read (x : tid) (r : result string bytes) (t : Task) (s : Server) : option Server :=
  match t_phase t, t_down t with
  | Open, DReading =>
    match r with
    | Ok [] | Err _ => Some (set_task x (task_down t (DSending (FStreamClose (t_id t) None))) s)
    | Ok d =>
      if (length d <=? Z.to_nat 16384)%nat
      then Some (set_task x (task_down t (DSending (FStreamData (t_id t) d))) s) else None
    end
  | _, _ => None
  end.
(** The send of a frame to the session completes: there is room, or no receiver. *)
Definition session_send (c : cid) (f : Frame) (s : Server) : option (Server * bool) :=
  q ← sv_queues s !! c;
  if send_ready q
  then let (qs, b) := Router.send_on c f (sv_queues s) in Some (set_queues (fun _ => qs) s, b)
  else None.
Definition down_send (x : tid) (t : Task) (s : Server) : option Server :=
  match t_phase t, t_down t with
  | DialFailed f, _ =>
    p ← session_send (t_conn t) f s;
    Some (set_task x (task_down (task_phase (task_end t) Ended) DEnded) p.1)
  | Open, DSending f =>
    p ← session_send (t_conn t) f s;
    let (s', b) := p : Server * bool in
    Some (set_task x (task_down t match f, b with
      | FStreamData _ _, true => DReading
      | FStreamData _ _, false => DSending (FStreamClose (t_id t) None)
      | _, _ => DEnded
      end) s')
  | _, _ => None
  end.
Definition down_stop (x : tid) (t : Task) (s : Server) : option Server :=
  if t_stop t then Some (set_task x (task_down t DEnded) s) else None.

Definition step `{IpNet} (s : Server) (e : event) : option Server :=
  match e with
  | EConfig c => Some (set_env c (sv_demux s) (sv_now s) (sv_next s) s)
  | ETick dt => if 0 <=? dt then Some (set_env (sv_cfg s) (sv_demux s) (sv_now s + dt) (sv_next s) s) else None
  | ESample => Some (set_metrics (Metrics.sample (sv_now s)) s)
  | EAccept addr =>
    let c := sv_next s in
    Some (set_conn c (mkConn addr AwaitHello WNone false ∅ [])
      (set_env (sv_cfg s) (sv_demux s) (sv_now s) (S c) s))
  | ERecv c r => k ← sv_conns s !! c; received c r k s
  | ETau c rnd => k ← sv_conns s !! c; tau c rnd k s
  | EDev c b => k ← sv_conns s !! c; tun_wrote c b k s
  | ESent c b => k ← sv_conns s !! c; sent c b k s
  | EWTake c => k ← sv_conns s !! c; writer_take c k s
  | EWSent c b => k ← sv_conns s !! c; writer_sent c b k s
  | EWTau c => k ← sv_conns s !! c; writer_tau c k s
  | EWStop c => k ← sv_conns s !! c; writer_stop c k s
  | ETun r =>
    if sv_has_tun s && sv_demux s then
      match r with
      | Ok pkt => Some (set_queues (tun_route (sv_router s) pkt) s)
      | Err _ => Some (set_env (sv_cfg s) false (sv_now s) (sv_next s) s)
      end
    else None
  | EDialed x r => t ← sv_tasks s !! x; dialed x r t s
  | EUpTake x => t ← sv_tasks s !! x; up_take x t s
  | EUpWrote x b => t ← sv_tasks s !! x; up_wrote x b t s
  | EDownRead x r => t ← sv_tasks s !! x; down_read x r t s
  | EDownSend x => t ← sv_tasks s !! x; down_send x t s
  | EDownStop x => t ← sv_tasks s !! x; down_stop x t s
  end.

Definition start (c : ServerConfig) (ipv6 has_tun : bool) (now : Z) : Server :=
  mkServer c ipv6 has_tun true Router.new ∅ ∅ (Metrics.new now) ∅ ∅ [] now 0.

Abbreviation run := (runs step).
