(* ===== verification/SessionInv.v ===== *)
(** Theorems about the server's transition system (Session.v): invariants of every
    interleaving, packet routing, and the outcomes of a handshake. *)
From stdpp Require Import gmap.
From S2P Require Import Prelude Net Core Mpsc ServerConfig Router Session.

Section Inv.
Context `{IpNet}.

Lemma run_invariant (I : Server -> Prop) :
  (forall s e s', I s -> step s e = Some s' -> I s') ->
  forall es s s', run es s = Some s' -> I s -> I s'.
Proof. intros HI es s s' Hr Hs. by apply (runs_inv step I HI es s). Qed.

(** Invariants proved in layers: a step may use what is already invariant. *)
Lemma run_invariant_with (J I : Server -> Prop) :
  (forall s e s', J s -> step s e = Some s' -> J s') ->
  (forall s e s', J s -> I s -> step s e = Some s' -> I s') ->
  forall es s s', run es s = Some s' -> J s -> I s -> I s'.
Proof.
  intros HJ HI es s s' Hr Hj Hi.
  apply (run_invariant (fun s => J s /\ I s)) in Hr; [tauto| |done].
  intros t e t' [? ?] ?. eauto.
Qed.

End Inv.

(** The session a connection is serving or has served. *)
Definition session_of (p : Phase) : option Session :=
  match p with
  | Register6 s _ | Register4 s _ | Welcoming s _ | Running s _ | Unreg4 s _ | Unreg6 s _
  | Aborting s | Folding s => Some s
  | Finished o => o
  | _ => None
  end.

(** ** The rules of the system

    One rule per branch of the code; [step_moves] says that the executable step
    performs one of them. *)
Inductive move `{IpNet} (s : Server) : Server -> Prop :=
  | MEnv cfg d now : move s (set_env cfg d now (sv_next s) s)
  | MSample : move s (set_metrics (Metrics.sample (sv_now s)) s)
  | MAccept addr : move s (set_conn (sv_next s) (mkConn addr AwaitHello WNone false ∅ [])
      (set_env (sv_cfg s) (sv_demux s) (sv_now s) (S (sv_next s)) s))
  | MHello c k h : sv_conns s !! c = Some k -> cn_phase k = AwaitHello ->
      move s (set_conn c (in_phase k (Looking h)) s)
  | MNoHello c k : sv_conns s !! c = Some k -> cn_phase k = AwaitHello ->
      move s (set_conn c (in_phase k (Finished None)) s)
  | MAdmit c k h p : sv_conns s !! c = Some k -> cn_phase k = Looking h ->
      admission (sv_cfg s) h = Ok p -> move s (set_conn c (in_phase k (Offering h p)) s)
  | MRefuse c k h r : sv_conns s !! c = Some k -> cn_phase k = Looking h ->
      admission (sv_cfg s) h = Err r -> move s (set_conn c (in_phase k (Rejecting r)) s)
  | MRejected c k r : sv_conns s !! c = Some k -> cn_phase k = Rejecting r ->
      move s (set_conn c (in_phase (logged k (FReject r)) (Finished None)) s)
  | MRejectLost c k r : sv_conns s !! c = Some k -> cn_phase k = Rejecting r ->
      move s (set_conn c (in_phase k (Finished None)) s)
  | MOffer c k h p sid ss w : sv_conns s !! c = Some k -> cn_phase k = Offering h p ->
      net_offer (sv_cfg s) (sv_ipv6 s) h p sid = (ss, w) ->
      move s (set_conn c (in_phase k (Register6 ss w))
        (set_counters (insert c (mkCounters 0 0)) (set_queues (insert c (mpsc_new 1024)) s)))
  | MRegister6 c k ss w : sv_conns s !! c = Some k -> cn_phase k = Register6 ss w ->
      move s (set_conn c (in_phase k (Register4 ss w)) (set_router (Router.register6 (ss_ip6 ss) c) s))
  | MRegister4 c k ss w : sv_conns s !! c = Some k -> cn_phase k = Register4 ss w ->
      move s (set_conn c (in_phase k (Welcoming ss w)) (set_router (Router.register4 (assigned ss)
        (mkEntry c (online_of k ss) (p_token (ss_peer ss)) c (sv_now s))) s))
  | MWelcomed c k ss w : sv_conns s !! c = Some k -> cn_phase k = Welcoming ss w ->
      move s (set_conn c (in_writer (in_phase (logged k (FWelcome w)) (Running ss [])) WIdle) s)
  | MWelcomeLost c k ss w : sv_conns s !! c = Some k -> cn_phase k = Welcoming ss w ->
      move s (set_conn c (in_phase k (Unreg4 ss false)) s)
  | MFrame c k ss f : sv_conns s !! c = Some k -> cn_phase k = Running ss [] ->
      move s (set_conn c (in_phase k (Running ss (on_frame ss f))) s)
  | MHangup c k ss : sv_conns s !! c = Some k -> cn_phase k = Running ss [] ->
      move s (set_conn c (in_phase k (Unreg4 ss true)) s)
  | MAction c b k ss a rest : sv_conns s !! c = Some k -> cn_phase k = Running ss (a :: rest) ->
      move s (do_action c b ss a rest k s)
  | MUnreg4 c k ss b : sv_conns s !! c = Some k -> cn_phase k = Unreg4 ss b ->
      move s (set_conn c (in_phase k (Unreg6 ss b)) (set_router (Router.unregister4 (assigned ss)) s))
  | MUnreg6 c k ss : sv_conns s !! c = Some k -> cn_phase k = Unreg6 ss true ->
      move s (set_conn c (in_phase k (Aborting ss)) (set_router (Router.unregister6 (ss_ip6 ss)) s))
  | MUnreg6Lost c k ss : sv_conns s !! c = Some k -> cn_phase k = Unreg6 ss false ->
      move s (set_conn c (in_phase k (Finished (Some ss)))
        (set_queues (alter close_rx c) (set_router (Router.unregister6 (ss_ip6 ss)) s)))
  | MAbort c k ss : sv_conns s !! c = Some k -> cn_phase k = Aborting ss ->
      move s (set_conn c (in_phase (stop_writer k) (Folding ss)) s)
  | MFold c k ss ct : sv_conns s !! c = Some k -> cn_phase k = Folding ss ->
      ct = default (mkCounters 0 0) (sv_counters s !! c) ->
      move s (set_conn c (with_streams (in_phase k (Finished (Some ss))) ∅)
        (set_metrics (Metrics.fold_session (p_token (ss_peer ss)) (p_name (ss_peer ss)) (assigned ss)
          (hello_mode (ss_hello ss)) (c_up ct) (c_down ct)) s))
  | MWTake c k q f q' : sv_conns s !! c = Some k -> cn_writer k = WIdle ->
      sv_queues s !! c = Some q -> pop q = Some (f, q') ->
      move s (set_conn c (in_writer k (WSending f)) (set_queues (insert c q') s))
  | MWEnd c k : sv_conns s !! c = Some k -> cn_writer k = WIdle ->
      move s (set_conn c (in_writer k WClosing) s)
  | MWSent c k f : sv_conns s !! c = Some k -> cn_writer k = WSending f ->
      move s (set_conn c (in_writer (logged k f)
        (if 0 <? payload_len f then WCount (payload_len f) else WIdle)) s)
  | MWFailed c k f : sv_conns s !! c = Some k -> cn_writer k = WSending f ->
      move s (set_conn c (in_writer k WClosing) s)
  | MWCount c k n : sv_conns s !! c = Some k -> cn_writer k = WCount n ->
      move s (set_conn c (in_writer k (WMetric n)) (add_count_down c n s))
  | MWMetric c k n : sv_conns s !! c = Some k -> cn_writer k = WMetric n ->
      move s (set_conn c (in_writer k WIdle) (set_metrics (Metrics.add_down n) s))
  | MWDone c k : sv_conns s !! c = Some k ->
      cn_writer k = WClosing \/ cn_stop k = true /\ (cn_writer k = WIdle \/ exists f, cn_writer k = WSending f) ->
      move s (set_conn c (in_writer k WDone) (set_queues (alter close_rx c) s))
  | MTun pkt : move s (set_queues (tun_route (sv_router s) pkt) s)
  | MTask x t t' : sv_tasks s !! x = Some t -> t_conn t' = t_conn t -> t_id t' = t_id t ->
      (forall n, 0 <= n -> mpsc_ok n (t_rx t) -> mpsc_ok n (t_rx t')) ->
      move s (set_task x t' s)
  | MTaskSend x t t' f q : sv_tasks s !! x = Some t -> t_conn t' = t_conn t -> t_id t' = t_id t ->
      (forall n, 0 <= n -> mpsc_ok n (t_rx t) -> mpsc_ok n (t_rx t')) ->
      sv_queues s !! t_conn t = Some q -> send_ready q = true ->
      (t_phase t = DialFailed f \/ t_down t = DSending f) ->
      move s (set_task x t' (set_queues (fun qs => (Router.send_on (t_conn t) f qs).1) s)).

Section Moves.
Context `{IpNet}.
#[local] Hint Constructors move : core.

Lemma received_moves c r k s s' :
  sv_conns s !! c = Some k -> received c r k s = Some s' -> move s s'.
Proof.
  intros Hk. unfold received. destruct (cn_phase k) eqn:Hp; try done.
  - intros [= <-]. destruct r as [[]|]; eauto.
  - destruct todo; [|done]. intros [= <-]. destruct r; eauto.
Qed.
Lemma sent_moves c b k s s' :
  sv_conns s !! c = Some k -> sent c b k s = Some s' -> move s s'.
Proof.
  intros Hk. unfold sent. destruct (cn_phase k) eqn:Hp; try done; intros [= <-]; destruct b; eauto.
Qed.
Lemma tau_moves c rnd k s s' :
  sv_conns s !! c = Some k -> tau c rnd k s = Some s' -> move s s'.
Proof.
  intros Hk. unfold tau. destruct (cn_phase k) eqn:Hp; try done.
  - destruct (admission (sv_cfg s) h) eqn:E; intros [= <-]; eauto.
  - destruct (net_offer _ _ _ _ _) eqn:E. intros [= <-]. eauto.
  - intros [= <-]. eauto.
  - intros [= <-]. eauto.
  - destruct todo; [done|]. destruct (awaits_dev s a); [done|]. intros [= <-]. eauto.
  - intros [= <-]. eauto.
  - destruct welcomed; intros [= <-]; eauto.
  - intros [= <-]. eauto.
  - intros [= <-]. eauto.
Qed.
Lemma tun_wrote_Some c b k s s' : tun_wrote c b k s = Some s' -> exists ss pkt rest,
  cn_phase k = Running ss (ATun pkt :: rest) /\ sv_has_tun s = true /\ s' = do_action c b ss (ATun pkt) rest k s.
Proof.
  unfold tun_wrote. destruct (cn_phase k) as [| | | | | | |ss [|[] rest]| | | | |] eqn:Hp; try done; cbn.
  destruct (sv_has_tun s) eqn:Ht; [|done]. intros [= <-]. eexists _, _, _. split_and!; [reflexivity|done|]. cbn; by rewrite ?Ht.
Qed.
Lemma tun_moves c b k s s' :
  sv_conns s !! c = Some k -> tun_wrote c b k s = Some s' -> move s s'.
Proof. intros Hk (ss & pkt & rest & Hp & _ & ->)%tun_wrote_Some. eauto. Qed.
Lemma writer_moves c k s s' : sv_conns s !! c = Some k ->
  (writer_take c k s = Some s' \/ (exists b, writer_sent c b k s = Some s') \/
   writer_tau c k s = Some s' \/ writer_stop c k s = Some s') -> move s s'.
Proof.
  intros Hk [E|[[b E]|[E|E]]]; revert E.
  - unfold writer_take. destruct (cn_writer k) eqn:Hw; try done.
    destruct (sv_queues s !! c) as [q|] eqn:Hq; [|done]. cbn.
    destruct (pop q) as [[f q']|] eqn:Hp.
    + intros [= <-]. eapply MWTake; eauto.
    + destruct (no_senders c k s); [|done]. intros [= <-]. eauto.
  - unfold writer_sent. destruct (cn_writer k) eqn:Hw; try done. destruct b; intros [= <-]; eauto.
  - unfold writer_tau. destruct (cn_writer k) eqn:Hw; try done; intros [= <-]; eauto.
  - unfold writer_stop. destruct (cn_stop k) eqn:Hc; [|done].
    destruct (cn_writer k) eqn:Hw; try done; intros [= <-]; eauto 6.
Qed.

Lemma session_send_Some c f s p : session_send c f s = Some p ->
  exists q, sv_queues s !! c = Some q /\ send_ready q = true /\
    p.1 = set_queues (fun qs => (Router.send_on c f qs).1) s.
Proof.
  unfold session_send. destruct (sv_queues s !! c) as [q|] eqn:Hq; [|done]. cbn.
  destruct (send_ready q) eqn:Hr; [|done].
  destruct (Router.send_on c f (sv_queues s)) as [qs b] eqn:Es. intros [= <-].
  exists q. split_and!; [done..|]. unfold set_queues. cbn. by rewrite Es.
Qed.

Ltac task_case := eapply MTask; [eassumption|done|done|cbn; eauto with tunnel].

Lemma task_moves x t s s' : sv_tasks s !! x = Some t ->
  ((exists r, dialed x r t s = Some s') \/ up_take x t s = Some s' \/
   (exists b, up_wrote x b t s = Some s') \/ (exists r, down_read x r t s = Some s') \/
   down_send x t s = Some s' \/ down_stop x t s = Some s') -> move s s'.
Proof.
  intros Ht [[r E]|[E|[[b E]|[[r E]|[E|E]]]]]; revert E.
  - unfold dialed. destruct (t_phase t); try done. intros [= <-]. eauto.
  - unfold up_take. destruct (t_phase t); try done. destruct (t_up t); try done.
    destruct (pop (t_rx t)) as [[d m]|] eqn:Hp.
    + intros [= <-]. task_case.
    + destruct (sender_alive x t s); [done|]. intros [= <-]. task_case.
  - unfold up_wrote. destruct (t_phase t); try done. destruct (t_up t); try done.
    intros [= <-]. destruct b; task_case.
  - unfold down_read. destruct (t_phase t); try done. destruct (t_down t); try done.
    destruct r as [[|y d]|]; [| |]; try (intros [= <-]; task_case; fail).
    destruct (_ <=? _)%nat; [|done]. intros [= <-]. task_case.
  - unfold down_send. destruct (t_phase t) eqn:Hp; try done.
    + destruct (session_send _ _ _) as [p|] eqn:E; [|done]. cbn.
      apply session_send_Some in E as (q & Hq & Hr & ->). intros [= <-].
      eapply MTaskSend; [done|done|done|cbn; eauto with tunnel|done|done|eauto].
    + destruct (t_down t) eqn:Hd; try done.
      destruct (session_send _ _ _) as [[p b]|] eqn:E; [|done]. cbn.
      apply session_send_Some in E as (q & Hq & Hr & Hs). cbn in Hs. subst p. intros [= <-].
      eapply MTaskSend; [done|done|done|cbn; eauto with tunnel|done|done|eauto].
  - unfold down_stop. destruct (t_stop t); [|done]. intros [= <-]. task_case.
Qed.

Lemma step_moves s e s' : step s e = Some s' -> move s s'.
Proof.
  destruct e; cbn [step];
    try (destruct (sv_conns s !! c) as [k|] eqn:Hk; [cbn|done]);
    try (destruct (sv_tasks s !! t) as [x|] eqn:Hx; [cbn|done]).
  all: eauto using received_moves, sent_moves, tau_moves, tun_moves, writer_moves, task_moves.
  all: try (intros; eapply task_moves; eauto 8; fail).
  all: try (intros; eapply writer_moves; eauto 8; fail).
  - intros [= <-]. eauto.
  - case_match; [|done]. intros [= <-]. eauto.
  - intros [= <-]. eauto.
  - intros [= <-]. eauto.
  - case_match; [|done]. destruct r; intros [= <-]; eauto.
Qed.

Lemma run_moves (I : Server -> Prop) :
  (forall s s', I s -> move s s' -> I s') ->
  forall es s s', run es s = Some s' -> I s -> I s'.
Proof. intros HI. apply run_invariant. eauto using step_moves. Qed.
End Moves.

Lemma insert_Forall {A} (P : nat -> A -> Prop) (m : gmap nat A) k x :
  map_Forall P m -> P k x -> map_Forall P (<[k := x]> m).
Proof. intros ? ?. by apply map_Forall_insert_2. Qed.

(** ** Admission *)

Definition authorised (h : Hello) (p : PeerConfig) : Prop :=
  hello_version h = PROTOCOL_VERSION /\ p_token p = hello_token h /\ enabled p = true /\
  (hello_mode h = GlobalProxy -> allow_global p = true).

Lemma admission_ok c h p :
  admission c h = Ok p <-> find_peer c (hello_token h) = Some p /\ authorised h p.
Proof.
  unfold admission, authorised. destruct (Z.eqb_spec (hello_version h) PROTOCOL_VERSION) as [Hv|Hv]; cbn.
  2: { split; [done|]. naive_solver. }
  destruct (find_peer c (hello_token h)) as [q|] eqn:Hf; [|naive_solver].
  apply find_peer_Some in Hf as [_ Ht]. destruct (enabled q) eqn:He; cbn; [|naive_solver congruence].
  case_bool_decide as Hm; cbn; [|naive_solver].
  destruct (allow_global q) eqn:Hg; cbn; naive_solver congruence.
Qed.

Definition phase_auth (p : Phase) : Prop :=
  match p with
  | Offering h q => authorised h q
  | _ => forall ss, session_of p = Some ss -> authorised (ss_hello ss) (ss_peer ss)
  end.
Definition conns_auth (s : Server) : Prop := map_Forall (fun _ k => phase_auth (cn_phase k)) (sv_conns s).

Lemma net_offer_session `{IpNet} c v6 h p sid :
  (net_offer c v6 h p sid).1 = mkSession h p (derived_ip6 c v6 p).
Proof. unfold net_offer, derived_ip6. destruct v6; [|done]. by destruct (subnet6_net c). Qed.

Lemma net_offer_eq `{IpNet} c v6 h p sid ss w :
  net_offer c v6 h p sid = (ss, w) ->
  ss = mkSession h p (derived_ip6 c v6 p) /\ assigned_ip w = p_ip p /\ assigned_ip6 w = ss_ip6 ss.
Proof.
  intros E. pose proof (net_offer_session c v6 h p sid) as Hs. rewrite E in Hs. cbn in Hs.
  split; [done|]. subst ss. cbn. unfold net_offer, derived_ip6 in *.
  destruct v6, (subnet6_net c); cbn in *; by injection E as <-.
Qed.

(** What an action does to its connection: it stays in the reader loop. *)
Lemma with_streams_id k : with_streams k (cn_streams k) = k.
Proof. by destruct k. Qed.
Lemma do_action_conn c b ss a rest k s :
  exists p m, sv_conns (do_action c b ss a rest k s) = <[c := with_streams (in_phase k (Running ss p)) m]> (sv_conns s).
Proof.
  assert (forall p, exists m, in_phase k p = with_streams (in_phase k p) m) as Hk.
  { intros p. exists (cn_streams k). by destruct k. }
  destruct a; cbn; try (destruct (Hk (Running ss rest)) as [m Hm]; exists rest, m; rewrite <- Hm; done).
  - destruct (Hk (Running ss rest)) as [m Hm]. exists rest, m. rewrite <- Hm. by destruct (sv_has_tun s).
  - destruct (Hk (Running ss (ATrySend (FPeerList (visible_peers ss (Router.online (sv_router s)))) :: rest))) as [m Hm].
    eexists _, m. rewrite <- Hm. done.
  - exists rest, (<[id := sv_next s]> (cn_streams k)). done.
  - destruct (Hk (Running ss rest)) as [m Hm]. exists rest, m. rewrite <- Hm. by destruct (cn_streams k !! id).
  - exists rest, (delete id (cn_streams k)). done.
Qed.

(** The connection an assumption looks up satisfies the invariant. *)
Ltac conn_inv Hi :=
  match goal with
  | H : sv_conns _ !! _ = Some _ |- _ =>
    let Hk := fresh in pose proof (map_Forall_lookup_1 _ _ _ _ Hi H) as Hk; cbv beta in Hk
  end.
Ltac phase_rw :=
  repeat match goal with
  | E : cn_phase ?k = _, G : phase_auth (cn_phase ?k) |- _ => rewrite E in G
  | E : cn_phase ?k = _ |- context [cn_phase ?k] => rewrite E
  end; cbn in *.

Lemma conns_auth_move `{IpNet} s s' : conns_auth s -> move s s' -> conns_auth s'.
Proof.
  unfold conns_auth. intros Hi Hm. destruct Hm; try done.
  all: try (apply insert_Forall; [done|]; try conn_inv Hi; cbn; phase_rw; try done).
  - by apply admission_ok in H2 as [_ ?].
  - apply net_offer_eq in H2 as (-> & _ & _). by intros ? [= <-].
  - destruct (do_action_conn c b ss a rest k s) as (p & m & ->).
    apply insert_Forall; [done|]. conn_inv Hi. cbn. by phase_rw.
Qed.

(** ** Identities are fresh, sessions persist *)

Definition ids_fresh (s : Server) : Prop := forall c, (sv_next s <= c)%nat ->
  sv_conns s !! c = None /\ sv_tasks s !! c = None.


Section Fresh.
Context `{IpNet}.

Lemma insert_fresh {A} (m : gmap nat A) n k x y d :
  m !! k = Some x -> (forall j, (n <= j)%nat -> m !! j = None) -> (n <= d)%nat ->
  <[k := y]> m !! d = None.
Proof.
  intros Hk Hm Hd. rewrite lookup_insert_ne; [auto|]. intros ->. rewrite Hm in Hk; done.
Qed.

Lemma ids_fresh_move s s' : ids_fresh s -> move s s' -> ids_fresh s'.
Proof.
  intros Hi Hm. assert (forall d, (sv_next s <= d)%nat -> sv_conns s !! d = None) as Hc by apply Hi.
  assert (forall d, (sv_next s <= d)%nat -> sv_tasks s !! d = None) as Ht by apply Hi.
  destruct Hm; intros j Hj; cbn in *; split; auto; try (eapply insert_fresh; eauto; fail).
  - rewrite lookup_insert_ne by lia. apply Hc. lia.
  - apply Ht. lia.
  - destruct (do_action_conn c b ss a rest k s) as (p & m & ->).
    eapply (insert_fresh _ (sv_next s)); eauto.
    destruct a; cbn in Hj; try done; try lia.
    + by destruct (sv_has_tun s).
    + by destruct (cn_streams k !! id).
  - destruct a; cbn in Hj |- *; auto.
    + destruct (sv_has_tun s); auto.
    + rewrite lookup_insert_ne by lia. apply Ht. lia.
    + destruct (cn_streams k !! id) as [u|]; cbn in *; [|auto].
      rewrite lookup_alter_None. auto.
Qed.
End Fresh.

Definition serves (s : Server) (c : cid) (ss : Session) : Prop :=
  exists k, sv_conns s !! c = Some k /\ session_of (cn_phase k) = Some ss.

(** How a connection may change in one step. *)
Record evolves (k k' : Conn) : Prop := {
  ev_addr : cn_addr k' = cn_addr k;
  ev_session : forall ss, session_of (cn_phase k) = Some ss -> session_of (cn_phase k') = Some ss;
  ev_log : exists l, cn_log k' = cn_log k ++ l;
}.

Section Evolve.
Context `{IpNet}.

Lemma evolves_refl k : evolves k k.
Proof. split; try done. exists []. by rewrite app_nil_r. Qed.

Lemma insert_evolves (m : gmap nat Conn) c k k' d x :
  m !! c = Some k -> evolves k k' -> m !! d = Some x ->
  exists y, <[c := k']> m !! d = Some y /\ evolves x y.
Proof.
  intros Hc Hk Hd. destruct (decide (c = d)) as [->|].
  - rewrite lookup_insert_eq. naive_solver.
  - rewrite lookup_insert_ne by done. eauto using evolves_refl.
Qed.

Lemma move_evolves s s' c k : ids_fresh s -> move s s' -> sv_conns s !! c = Some k ->
  exists k', sv_conns s' !! c = Some k' /\ evolves k k'.
Proof.
  intros Hf Hm Hk. destruct Hm; cbn; eauto using evolves_refl.
  all: try match goal with
    | E : sv_conns _ !! ?d = Some _ |- exists y, <[?d := _]> _ !! _ = Some y /\ _ =>
      apply (insert_evolves _ _ _ _ _ _ E); [|done]; split; cbn;
        [done| by (try match goal with P : cn_phase _ = _ |- _ => rewrite P end)
         | solve [exists []; by rewrite app_nil_r | eexists; reflexivity] ]
    end.
  - rewrite lookup_insert_ne; [eauto using evolves_refl|].
    intros <-. destruct (Hf (sv_next s)) as [E _]; [done|]. congruence.
  - destruct (do_action_conn c0 b ss a rest k0 s) as (p & m & ->).
    eapply insert_evolves; eauto. split; cbn; [done|by rewrite H1|]. exists []. by rewrite app_nil_r.
Qed.

Lemma serves_move s s' c ss : ids_fresh s -> move s s' -> serves s c ss -> serves s' c ss.
Proof.
  intros Hf Hm (k & Hk & Hs). destruct (move_evolves s s' c k Hf Hm Hk) as (k' & Hk' & He).
  exists k'. split; [done|]. by apply He.
Qed.
End Evolve.

(** ** Queues stay within their capacity *)

Definition queues_ok (s : Server) : Prop :=
  (forall c q, sv_queues s !! c = Some q -> mpsc_ok 1024 q) /\
  (forall x t, sv_tasks s !! x = Some t -> mpsc_ok 256 (t_rx t)).

(** The sends of the demultiplexer are a [send_on] or nothing. *)
Lemma deliver_send_on r ip f qs :
  Router.deliver r ip f qs = (qs, false) \/
  exists e, Router.v4s r !! ip = Some e /\ Router.deliver r ip f qs = Router.send_on (e_tx e) f qs.
Proof. unfold Router.deliver. destruct (Router.v4s r !! ip); eauto. Qed.
Lemma deliver6_send_on r ip f qs :
  Router.deliver6 r ip f qs = (qs, false) \/
  exists c, Router.v6s r !! ip = Some c /\ Router.deliver6 r ip f qs = Router.send_on c f qs.
Proof. unfold Router.deliver6. destruct (Router.v6s r !! ip); eauto. Qed.

Definition ip_version (pkt : bytes) : Z := Z.shiftr (Z_of_byte (byte_at 0 pkt)) 4.
Definition dst4 (pkt : bytes) : Ipv4Addr :=
  Ipv4 (byte_at 16 pkt) (byte_at 17 pkt) (byte_at 18 pkt) (byte_at 19 pkt).
Definition dst6 (pkt : bytes) : Ipv6Addr := v6_of_octets (take 16 (drop 24 pkt)).

(** Where a packet off the TUN goes: the owner of its destination address, or nowhere. *)
Definition tun_target (r : Router.t) (pkt : bytes) : option cid :=
  if (20 <=? length pkt)%nat then
    if ip_version pkt =? 4 then e_tx <$> Router.v4s r !! dst4 pkt
    else if (ip_version pkt =? 6) && (40 <=? length pkt)%nat then Router.v6s r !! dst6 pkt
    else None
  else None.

Lemma tun_route_target r pkt qs :
  tun_route r pkt qs =
    match tun_target r pkt with
    | Some c => (Router.send_on c (FPacket pkt) qs).1
    | None => qs
    end.
Proof.
  unfold tun_route, tun_target. destruct (20 <=? length pkt)%nat; [|done].
  unfold ip_version. destruct (_ =? 4).
  - unfold Router.deliver. change (Ipv4 _ _ _ _) with (dst4 pkt).
    by destruct (Router.v4s r !! dst4 pkt).
  - destruct (_ && _); [|done]. unfold Router.deliver6. change (v6_of_octets _) with (dst6 pkt).
    by destruct (Router.v6s r !! dst6 pkt).
Qed.

Lemma alter_close_ok n (qs : Queues) c : 0 <= n ->
  (forall d q, qs !! d = Some q -> mpsc_ok n q) ->
  forall d q, alter close_rx c qs !! d = Some q -> mpsc_ok n q.
Proof.
  intros Hn Hq d q. rewrite lookup_alter_Some. intros [(-> & q' & Hq' & ->)|[_ ?]]; eauto with tunnel.
Qed.
Lemma insert_lookup_all {A} (P : A -> Prop) (m : gmap nat A) k x :
  (forall d y, m !! d = Some y -> P y) -> P x -> forall d y, <[k := x]> m !! d = Some y -> P y.
Proof. intros Hm Hx d y [[_ <-]|[_ ?]]%lookup_insert_Some; eauto. Qed.

Lemma do_action_queues c b ss a rest k s : queues_ok s -> queues_ok (do_action c b ss a rest k s).
Proof.
  intros [Hq Ht]. destruct a; try (split; [exact Hq|exact Ht]).
  - cbn. by destruct (sv_has_tun s).
  - split; [|exact Ht]. cbn. by apply send_on_ok.
  - split; [exact Hq|]. cbn. apply insert_lookup_all; [done|]. by apply mpsc_new_ok.
  - cbn. destruct (cn_streams k !! id) as [u|]; [|by split]. split; [exact Hq|]. cbn.
    intros x t. rewrite lookup_alter_Some. intros [(-> & y & Hy & ->)|[_ ?]]; [|eauto].
    cbn. apply try_send_ok. eauto.
Qed.

Lemma queues_ok_move `{IpNet} s s' : queues_ok s -> move s s' -> queues_ok s'.
Proof.
  intros Hi Hm. pose proof Hi as [Hq Ht].
  destruct Hm; try (split; [exact Hq|exact Ht]).
  - split; [|exact Ht]. cbn. apply insert_lookup_all; [done|]. by apply mpsc_new_ok.
  - by apply do_action_queues.
  - split; [|exact Ht]. cbn. by apply alter_close_ok.
  - split; [|exact Ht]. cbn. apply insert_lookup_all; eauto with tunnel.
  - split; [|exact Ht]. cbn. by apply alter_close_ok.
  - split; [|exact Ht]. cbn. rewrite tun_route_target. destruct (tun_target _ _); [|done].
    by apply send_on_ok.
  - split; [exact Hq|]. cbn. apply insert_lookup_all; [done|].
    match goal with H : forall n, 0 <= n -> _ |- _ => apply H; [lia|eauto] end.
  - split; cbn.
    + by apply send_on_ok.
    + apply insert_lookup_all; [done|].
      match goal with H : forall n, 0 <= n -> _ |- _ => apply H; [lia|eauto] end.
Qed.

(** ** Routing entries belong to the sessions that hold the address *)

(** The session whose IPv4 (IPv6) route is in place during a phase. *)
Definition holds4 (p : Phase) : option Session :=
  match p with
  | Welcoming s _ | Running s _ | Unreg4 s _ => Some s
  | _ => None
  end.
Definition holds6 (p : Phase) : option Session :=
  match p with
  | Register4 s _ | Welcoming s _ | Running s _ | Unreg4 s _ | Unreg6 s _ => Some s
  | _ => None
  end.

Definition routes4 (r : Router.t) (cs : gmap cid Conn) : Prop := forall ip e,
  Router.v4s r !! ip = Some e -> exists k ss, cs !! e_tx e = Some k /\
    holds4 (cn_phase k) = Some ss /\ assigned ss = ip /\ e_info e = online_of k ss /\
    e_token e = p_token (ss_peer ss) /\ e_counters e = e_tx e.
Definition routes6 (r : Router.t) (cs : gmap cid Conn) : Prop := forall v6 c,
  Router.v6s r !! v6 = Some c -> exists k ss, cs !! c = Some k /\
    holds6 (cn_phase k) = Some ss /\ ss_ip6 ss = Some v6.
Definition routed (s : Server) : Prop :=
  routes4 (sv_router s) (sv_conns s) /\ routes6 (sv_router s) (sv_conns s).

(** A step of a connection keeps the routes it holds. *)
Definition keeps (k k' : Conn) : Prop := cn_addr k' = cn_addr k /\
  (forall ss, holds4 (cn_phase k) = Some ss -> holds4 (cn_phase k') = Some ss) /\
  (forall ss, holds6 (cn_phase k) = Some ss -> holds6 (cn_phase k') = Some ss).

Lemma routed_insert r (cs : gmap cid Conn) c k' :
  match cs !! c with Some k => keeps k k' | None => True end ->
  routes4 r cs /\ routes6 r cs -> routes4 r (<[c := k']> cs) /\ routes6 r (<[c := k']> cs).
Proof.
  intros Hk [H4 H6]. split.
  - intros ip e (k & ss & He & Hh & Ha & Hi & Hr)%H4. destruct (decide (e_tx e = c)) as [<-|].
    + rewrite He in Hk. destruct Hk as (Hka & Hk4 & _). exists k', ss.
      rewrite lookup_insert_eq. split_and!; auto; [|tauto..].
      rewrite Hi. unfold online_of. by rewrite Hka.
    + exists k, ss. by rewrite lookup_insert_ne by done.
  - intros v6 d (k & ss & He & Hh & Hv)%H6. destruct (decide (d = c)) as [->|].
    + rewrite He in Hk. destruct Hk as (_ & _ & Hk6). exists k', ss. rewrite lookup_insert_eq. auto.
    + exists k, ss. by rewrite lookup_insert_ne by done.
Qed.

Lemma routed_set_conn s s' c k k' :
  routed s -> sv_conns s !! c = Some k -> sv_router s' = sv_router s ->
  sv_conns s' = <[c := k']> (sv_conns s) -> keeps k k' -> routed s'.
Proof.
  intros Hr Hc Hr' Hc' Hk. unfold routed. rewrite Hr', Hc'. apply routed_insert; [|done].
  by rewrite Hc.
Qed.

Section Routed.
Context `{IpNet}.

Lemma routed_register6 s c k ss w :
  routed s -> sv_conns s !! c = Some k -> cn_phase k = Register6 ss w ->
  routed (set_conn c (in_phase k (Register4 ss w)) (set_router (Router.register6 (ss_ip6 ss) c) s)).
Proof.
  intros Hr Hc Hp. assert (routes4 (sv_router s) (<[c := in_phase k (Register4 ss w)]> (sv_conns s)) /\ routes6 (sv_router s) (<[c := in_phase k (Register4 ss w)]> (sv_conns s))) as [H4 H6].
  { apply routed_insert; [|done]. rewrite Hc. split; [done|]. by rewrite Hp. }
  unfold Router.register6. destruct (ss_ip6 ss) as [v6|] eqn:Hv; split; cbn; try done.
  intros v d. cbn. intros [[<- <-]|[_ ?]]%lookup_insert_Some; [|eauto].
  exists (in_phase k (Register4 ss w)), ss. by rewrite lookup_insert_eq.
Qed.

Lemma routed_register4 s c k ss w :
  routed s -> sv_conns s !! c = Some k -> cn_phase k = Register4 ss w ->
  routed (set_conn c (in_phase k (Welcoming ss w)) (set_router (Router.register4 (assigned ss)
        (mkEntry c (online_of k ss) (p_token (ss_peer ss)) c (sv_now s))) s)).
Proof.
  intros Hr Hc Hp. assert (routes4 (sv_router s) (<[c := in_phase k (Welcoming ss w)]> (sv_conns s)) /\ routes6 (sv_router s) (<[c := in_phase k (Welcoming ss w)]> (sv_conns s))) as [H4 H6].
  { apply routed_insert; [|done]. rewrite Hc. split; [done|]. by rewrite Hp. }
  split; cbn; [|done]. intros ip e. cbn. intros [[<- <-]|[_ ?]]%lookup_insert_Some; [|eauto].
  exists (in_phase k (Welcoming ss w)), ss. by rewrite lookup_insert_eq.
Qed.

Lemma routed_unreg4 s c k ss b :
  routed s -> sv_conns s !! c = Some k -> cn_phase k = Unreg4 ss b ->
  routed (set_conn c (in_phase k (Unreg6 ss b)) (set_router (Router.unregister4 (assigned ss)) s)).
Proof.
  intros [H4 H6] Hc Hp. split; cbn.
  - intros ip e. cbn. intros [Hne He]%lookup_delete_Some.
    destruct (H4 ip e He) as (k0 & s0 & Hk0 & Hh & Ha & Hrest).
    destruct (decide (e_tx e = c)) as [<-|].
    + rewrite Hc in Hk0. injection Hk0 as <-. rewrite Hp in Hh. injection Hh as <-. done.
    + exists k0, s0. by rewrite lookup_insert_ne by done.
  - intros v d (k0 & s0 & Hk0 & Hh & Hv)%H6. destruct (decide (d = c)) as [->|].
    + rewrite Hc in Hk0. injection Hk0 as <-. rewrite Hp in Hh. injection Hh as <-.
      exists (in_phase k (Unreg6 ss b)), ss. by rewrite lookup_insert_eq.
    + exists k0, s0. by rewrite lookup_insert_ne by done.
Qed.

Lemma routed_unreg6 s c k ss b p :
  routed s -> sv_conns s !! c = Some k -> cn_phase k = Unreg6 ss b ->
  let r := Router.unregister6 (ss_ip6 ss) (sv_router s) in
  routes4 r (<[c := in_phase k p]> (sv_conns s)) /\ routes6 r (<[c := in_phase k p]> (sv_conns s)).
Proof.
  intros [H4 H6] Hc Hp r. assert (Router.v4s r = Router.v4s (sv_router s)) as E4.
  { unfold r, Router.unregister6. by destruct (ss_ip6 ss). }
  split.
  - intros ip e. rewrite E4. intros (k0 & s0 & Hk0 & Hh & Hrest)%H4.
    destruct (decide (e_tx e = c)) as [<-|].
    + rewrite Hc in Hk0. injection Hk0 as <-. by rewrite Hp in Hh.
    + exists k0, s0. by rewrite lookup_insert_ne by done.
  - intros v d Hvd. assert (Router.v6s (sv_router s) !! v = Some d /\ ss_ip6 ss <> Some v) as [Hs Hne].
    { revert Hvd. unfold r, Router.unregister6. destruct (ss_ip6 ss) as [v6|]; cbn; [|done].
      intros [? ?]%lookup_delete_Some. split; congruence. }
    destruct (H6 v d Hs) as (k0 & s0 & Hk0 & Hh & Hv). destruct (decide (d = c)) as [->|].
    + rewrite Hc in Hk0. injection Hk0 as <-. rewrite Hp in Hh. injection Hh as <-. done.
    + exists k0, s0. by rewrite lookup_insert_ne by done.
Qed.

Lemma routed_move s s' : ids_fresh s -> routed s -> move s s' -> routed s'.
Proof.
  intros Hf Hi Hm. destruct Hm; try done.
  all: try (eapply routed_set_conn; [done|eassumption|reflexivity|reflexivity|];
    split; cbn; [done| by (try match goal with P : cn_phase _ = _ |- _ => rewrite P end)]; fail).
  - unfold routed. cbn. apply routed_insert; [|done]. by destruct (Hf (sv_next s)) as [-> _].
  - by apply routed_register6.
  - by apply routed_register4.
  - destruct (do_action_conn c b ss a rest k s) as (p & m & E).
    eapply routed_set_conn; [done|eassumption| |exact E|].
    + destruct a; cbn; try done; [by destruct (sv_has_tun s)|by destruct (cn_streams k !! id)].
    + split; cbn; [done|by rewrite H1].
  - by apply routed_unreg4.
  - by apply (routed_unreg6 s c k ss true).
  - by apply (routed_unreg6 s c k ss false).
Qed.
End Routed.
