(* ===== verification/SessionLaws.v ===== *)
(** Permissions, accounting and the client's view: the remaining invariants of the
    server's transition system, and the theorems about its runs. *)
From stdpp Require Import gmap.
From S2P Require Import Prelude Net Core Mpsc ServerConfig Router Session SessionInv.

(** ** Permissions *)

Definition action_ok (ss : Session) (a : action) : Prop :=
  match a with
  | ATun _ => packet_path ss = true
  | AOpen _ _ => allow_http_proxy (ss_peer ss) = true
  | _ => True
  end.
Definition phase_todo (p : Phase) : Prop :=
  match p with Running ss todo => Forall (action_ok ss) todo | _ => True end.

Lemma on_frame_ok ss f : Forall (action_ok ss) (on_frame ss f).
Proof.
  destruct f; cbn; try (by repeat constructor).
  - destruct (packet_path ss) eqn:E; by repeat constructor.
  - destruct (allow_http_proxy (ss_peer ss)) eqn:E; by repeat constructor.
Qed.

Definition todo_ok (s : Server) : Prop :=
  map_Forall (fun _ k => phase_todo (cn_phase k)) (sv_conns s).

Lemma phase_todo_tail k ss a rest :
  phase_todo (cn_phase k) -> cn_phase k = Running ss (a :: rest) ->
  action_ok ss a /\ Forall (action_ok ss) rest.
Proof. intros Hk E. rewrite E in Hk. by apply Forall_cons in Hk. Qed.

Section Perm.
Context `{IpNet}.

Lemma todo_ok_move s s' : todo_ok s -> move s s' -> todo_ok s'.
Proof.
  unfold todo_ok. intros Hi Hm. destruct Hm; try done.
  all: try (apply insert_Forall; [done|]; try conn_inv Hi; cbn; done).
  - apply insert_Forall; [done|]. apply on_frame_ok.
  - conn_inv Hi. destruct (phase_todo_tail _ _ _ _ H2 H1) as [_ Hrest].
    destruct a; cbn; try (apply insert_Forall; [done|]; cbn; done).
    + destruct (sv_has_tun s); by apply insert_Forall.
    + apply insert_Forall; [done|]. cbn. by constructor.
    + by destruct (cn_streams k !! id); apply insert_Forall.
Qed.

Definition tun_ok (s : Server) : Prop := forall c pkt, In (c, pkt) (sv_tun s) ->
  exists ss, serves s c ss /\ packet_path ss = true.
Definition tasks_ok (s : Server) : Prop := forall x t, sv_tasks s !! x = Some t ->
  exists ss, serves s (t_conn t) ss /\ allow_http_proxy (ss_peer ss) = true.
Definition streams_own (s : Server) : Prop := forall c k id x,
  sv_conns s !! c = Some k -> cn_streams k !! id = Some x ->
  exists t, sv_tasks s !! x = Some t /\ t_conn t = c /\ t_id t = id.

Lemma tun_ok_move s s' : ids_fresh s -> todo_ok s -> tun_ok s -> move s s' -> tun_ok s'.
Proof.
  intros Hf Ht Hi Hm c pkt Hin.
  assert (In (c, pkt) (sv_tun s) \/ exists k ss rest,
    sv_conns s !! c = Some k /\ cn_phase k = Running ss (ATun pkt :: rest)) as [Hold|Hnew].
  { destruct Hm; auto. destruct a; cbn in Hin; auto.
    - destruct (sv_has_tun s); [|auto]. unfold sv_tun in Hin. cbn in Hin. rewrite map_app in Hin.
      apply in_app_or in Hin as [?|[[= <- <-]|[]]]; [auto|]. eauto 6.
    - destruct (cn_streams k !! id); auto. }
  - destruct (Hi _ _ Hold) as (ss & Hs & Hp). eauto using serves_move.
  - destruct Hnew as (k & ss & rest & Hk & Hp). exists ss. split.
    + eapply serves_move; eauto. exists k. by rewrite Hp.
    + conn_inv Ht. by apply (phase_todo_tail _ _ _ _ H0) in Hp as [? _].
Qed.

(** Where a task after a step comes from. *)
Lemma move_task_from s s' x t : move s s' -> sv_tasks s' !! x = Some t ->
  (exists t0, sv_tasks s !! x = Some t0 /\ t_conn t = t_conn t0 /\ t_id t = t_id t0) \/
  x = sv_next s /\ exists k ss target rest, sv_conns s !! t_conn t = Some k /\
    cn_phase k = Running ss (AOpen (t_id t) target :: rest).
Proof.
  intros Hm Hx. destruct Hm; cbn in Hx; eauto.
  - destruct a; cbn in Hx; eauto.
    + destruct (sv_has_tun s); eauto.
    + apply lookup_insert_Some in Hx as [[<- <-]|[_ Hx]]; [right; cbn; eauto 10|eauto].
    + destruct (cn_streams k !! id) as [u|]; [|eauto]. cbn in Hx.
      apply lookup_alter_Some in Hx as [(-> & t0 & ? & ->)|[_ ?]]; eauto.
  - apply lookup_insert_Some in Hx as [[<- <-]|[_ Hx]]; eauto.
  - apply lookup_insert_Some in Hx as [[<- <-]|[_ Hx]]; eauto.
Qed.
Lemma tasks_ok_move s s' : ids_fresh s -> todo_ok s -> tasks_ok s -> move s s' -> tasks_ok s'.
Proof.
  intros Hf Ht Hi Hm x t Hx.
  destruct (move_task_from _ _ _ _ Hm Hx) as [(t0 & H0 & E & _)|(_ & k & ss & target & rest & Hk & Hp)].
  - rewrite E. destruct (Hi _ _ H0) as (ss & Hs & Hp). eauto using serves_move.
  - exists ss. split.
    + eapply serves_move; eauto. exists k. by rewrite Hp.
    + conn_inv Ht. by apply (phase_todo_tail _ _ _ _ H0) in Hp as [? _].
Qed.

(** Tasks never change owner, so a stream table stays valid. *)
Lemma move_task s s' x t : ids_fresh s -> move s s' -> sv_tasks s !! x = Some t ->
  exists t', sv_tasks s' !! x = Some t' /\ t_conn t' = t_conn t /\ t_id t' = t_id t.
Proof.
  intros Hf Hm Hx.
  assert (forall y u u', sv_tasks s !! y = Some u -> t_conn u' = t_conn u -> t_id u' = t_id u ->
    exists t', <[y := u']> (sv_tasks s) !! x = Some t' /\ t_conn t' = t_conn t /\ t_id t' = t_id t) as Hins.
  { intros y u u' Hu Hc Hd. destruct (decide (y = x)) as [->|].
    - rewrite lookup_insert_eq. exists u'. split; [done|]. naive_solver congruence.
    - rewrite lookup_insert_ne by done. eauto. }
  destruct Hm; cbn; eauto.
  destruct a; cbn; eauto.
  - destruct (sv_has_tun s); eauto.
  - rewrite lookup_insert_ne; [eauto|]. intros <-. destruct (Hf (sv_next s)) as [_ E]; [done|]. congruence.
  - destruct (cn_streams k !! id) as [u|]; cbn; [|eauto]. destruct (decide (u = x)) as [->|].
    + rewrite lookup_alter_eq, Hx. cbn. eauto.
    + rewrite lookup_alter_ne by done. eauto.
Qed.

Lemma streams_own_move s s' : ids_fresh s -> streams_own s -> move s s' -> streams_own s'.
Proof.
  intros Hf Hi Hm c k id x Hk Hx.
  assert ((exists k0, sv_conns s !! c = Some k0 /\ cn_streams k0 !! id = Some x) \/
    exists t, sv_tasks s' !! x = Some t /\ t_conn t = c /\ t_id t = id) as [(k0 & Hk0 & Hx0)|?]; [|
      destruct (Hi c k0 id x Hk0 Hx0) as (t & Ht & Hc & Hid);
      destruct (move_task s s' x t Hf Hm Ht) as (t' & ? & ? & ?); exists t'; naive_solver congruence
    |done].
  destruct Hm; cbn in Hk; eauto.
  all: try (apply lookup_insert_Some in Hk as [[<- <-]|[_ Hk]]; [|by eauto]; cbn in Hx; eauto).
  - done.
  - destruct a; cbn in Hk |- *.
    all: try (apply lookup_insert_Some in Hk as [[<- <-]|[_ Hk]]; [|by eauto]; cbn in Hx; eauto).
    + destruct (sv_has_tun s); cbn in Hk;
        apply lookup_insert_Some in Hk as [[<- <-]|[_ Hk]]; cbn in Hx; eauto.
    + apply lookup_insert_Some in Hx as [[<- <-]|[_ Hx]]; [|eauto].
      right. rewrite lookup_insert_eq. eauto.
    + destruct (cn_streams k0 !! id0); cbn in Hk;
        apply lookup_insert_Some in Hk as [[<- <-]|[_ Hk]]; cbn in Hx; eauto.
    + apply lookup_delete_Some in Hx as [_ Hx]. eauto.
  - by rewrite lookup_empty in Hx.
Qed.
End Perm.

(** ** What the client sees *)

(** The welcome announces the addresses the session is routed by. *)
Definition agrees (ss : Session) (w : Welcome) : Prop :=
  assigned_ip w = assigned ss /\ assigned_ip6 w = ss_ip6 ss.
Definition silent (k : Conn) : Prop := cn_log k = [] /\ cn_writer k = WNone.
Definition welcomed (ss : Session) (k : Conn) : Prop :=
  exists w rest, cn_log k = FWelcome w :: rest /\ agrees ss w.
Definition log_inv (k : Conn) : Prop :=
  match cn_phase k with
  | AwaitHello | Looking _ | Rejecting _ | Offering _ _ => silent k
  | Register6 ss w | Register4 ss w | Welcoming ss w => silent k /\ agrees ss w
  | Running ss _ => welcomed ss k
  | Unreg4 ss _ | Unreg6 ss _ | Aborting ss | Folding ss | Finished (Some ss) => silent k \/ welcomed ss k
  | Finished None => cn_writer k = WNone /\ (cn_log k = [] \/ exists r, cn_log k = [FReject r])
  end.
Definition logs_ok (s : Server) : Prop := map_Forall (fun _ k => log_inv k) (sv_conns s).

Lemma log_inv_writer k k' f :
  log_inv k -> cn_writer k <> WNone -> cn_phase k' = cn_phase k ->
  cn_log k' = cn_log k ++ f -> log_inv k'.
Proof.
  unfold log_inv, silent, welcomed. intros Hk Hw Hp Hl. rewrite Hp. rewrite Hl.
  assert (forall ss, (exists w rest, cn_log k = FWelcome w :: rest /\ agrees ss w) ->
    exists w rest, cn_log k ++ f = FWelcome w :: rest /\ agrees ss w) as Hmono.
  { intros ss (w & rest & -> & ?). exists w, (rest ++ f). done. }
  destruct (cn_phase k) as [| | | | | | | | | | | |[]]; try tauto; auto;
    destruct Hk as [[? ?]|Hk]; auto; done.
Qed.

Lemma logs_ok_move `{IpNet} s s' : logs_ok s -> move s s' -> logs_ok s'.
Proof.
  unfold logs_ok. intros Hi Hm. destruct Hm; try done.
  all: try (apply insert_Forall; [done|]; conn_inv Hi;
    eapply log_inv_writer; [eassumption|congruence|reflexivity|cbn; by rewrite ?app_nil_r]; fail).
  all: try (apply insert_Forall; [done|]; conn_inv Hi;
    match goal with P : cn_phase _ = _, G : log_inv _ |- _ => unfold log_inv in G; rewrite P in G end;
    cbn; try done; unfold silent, welcomed in *; cbn; tauto).
  - by apply insert_Forall.
  - apply insert_Forall; [done|]. conn_inv Hi. unfold log_inv in *. rewrite H1 in H2. cbn.
    destruct H2 as [-> ->]. split; [done|]. right. by exists r.
  - apply insert_Forall; [done|]. conn_inv Hi. unfold log_inv in *. rewrite H1 in H3. cbn.
    split; [done|]. apply net_offer_eq in H2 as (-> & ? & ?). by split.
  - apply insert_Forall; [done|]. conn_inv Hi. unfold log_inv in *. rewrite H1 in H2. cbn.
    destruct H2 as [[Hl _] Ha]. exists w, []. cbn. by rewrite Hl.
  - destruct (do_action_conn c b ss a rest k s) as (p & m & ->).
    apply insert_Forall; [done|]. conn_inv Hi. unfold log_inv in *. rewrite H1 in H2. done.
  - apply insert_Forall; [done|]. conn_inv Hi. by apply (log_inv_writer k _ [f]); [|congruence|..].
  - apply insert_Forall; [done|]. conn_inv Hi.
    eapply (log_inv_writer k _ []); [done| |done|by rewrite app_nil_r]. naive_solver congruence.
Qed.

(** ** Accounting *)

Definition started (p : Phase) : bool := match session_of p with Some _ => true | None => false end.

(** Counters exist exactly for the connections that reached registration. *)
Record stored (s : Server) : Prop := {
  st_conn : forall c k, sv_conns s !! c = Some k ->
    (started (cn_phase k) = true <-> is_Some (sv_counters s !! c)) /\
    (cn_writer k <> WNone -> started (cn_phase k) = true);
  st_known : forall c, is_Some (sv_counters s !! c) -> is_Some (sv_conns s !! c);
}.

Section Stored.
Context `{IpNet}.

Lemma stored_insert s s' c k k' :
  stored s -> sv_conns s !! c = Some k -> sv_conns s' = <[c := k']> (sv_conns s) ->
  (forall d, is_Some (sv_counters s' !! d) <-> is_Some (sv_counters s !! d)) ->
  started (cn_phase k') = started (cn_phase k) ->
  (cn_writer k' <> WNone -> cn_writer k <> WNone \/ started (cn_phase k') = true) -> stored s'.
Proof.
  intros [H1 H2] Hk Hc Hd Hs Hw. split.
  - intros d x. rewrite Hc, lookup_insert_Some, Hd. intros [[<- <-]|[_ Hx]]; [|auto].
    destruct (H1 _ _ Hk) as [? Hold]. rewrite Hs in *. split; [done|]. intros [?|?]%Hw; auto.
  - intros d. rewrite Hd, Hc. intros [x Hx]%H2. apply lookup_insert_is_Some'. eauto.
Qed.

Lemma alter_dom {A} (f : A -> A) c (m : gmap nat A) d : is_Some (alter f c m !! d) <-> is_Some (m !! d).
Proof. apply lookup_alter_is_Some. Qed.

Lemma do_action_counters c b ss a rest k s d :
  is_Some (sv_counters (do_action c b ss a rest k s) !! d) <-> is_Some (sv_counters s !! d).
Proof.
  destruct a; try done.
  - cbn. apply alter_dom.
  - cbn. by destruct (sv_has_tun s).
  - cbn. by destruct (cn_streams k !! id).
Qed.

Lemma stored_move s s' : ids_fresh s -> stored s -> move s s' -> stored s'.
Proof.
  intros Hf Hi Hm. pose proof Hi as [H1 H2]. destruct Hm.
  all: try (by split).
  all: try (eapply stored_insert; [exact Hi|eassumption|reflexivity|
      intros; cbn; rewrite ?alter_dom; reflexivity|cbn| cbn];
    [ by try (match goal with P : cn_phase _ = _ |- _ => rewrite P end)
    | first [by auto|by left; congruence] ]; fail).
  - split; cbn.
    + intros d x [[<- <-]|[_ Hx]]%lookup_insert_Some; [|by apply H1].
      split; [|done]. split; [done|]. intros [y Hy]%H2. cbn in Hy.
      destruct (Hf (sv_next s)) as [E _]; [done|]. congruence.
    + intros d [x Hx]%H2. apply lookup_insert_is_Some'. eauto.
  - split; cbn.
    + intros d x [[<- <-]|[Hne Hx]]%lookup_insert_Some.
      * rewrite lookup_insert_eq. split; [|done]. split; eauto.
      * rewrite lookup_insert_ne by done. by apply H1.
    + intros d [->|[x Hx]%H2]%lookup_insert_is_Some'; apply lookup_insert_is_Some'; eauto.
  - destruct (do_action_conn c b ss a rest k s) as (p & m & E).
    eapply (stored_insert s); [done|eassumption|exact E|apply do_action_counters|cbn; by rewrite H3|auto].
  - eapply (stored_insert s); [done|eassumption|reflexivity|done|done|].
    intros _. left. naive_solver congruence.
Qed.
End Stored.

(** Bytes a handler (a writer) has counted for its session but not yet for the server. *)
Definition act_pending (a : action) : Z :=
  match a with AMetricUp n => n | ACountUp n => - n | _ => 0 end.
Definition todo_pending (l : list action) : Z := fold_right (fun a acc => act_pending a + acc) 0 l.
Definition pending_up (k : Conn) : Z :=
  match cn_phase k with Running _ todo => todo_pending todo | _ => 0 end.
Definition pending_down (k : Conn) : Z :=
  match cn_writer k with WMetric n => n | _ => 0 end.

Definition up_sum (s : Server) : Z := sum_map (fun _ c => c_up c) (sv_counters s).
Definition down_sum (s : Server) : Z := sum_map (fun _ c => c_down c) (sv_counters s).
Definition up_pending (s : Server) : Z := sum_map (fun _ k => pending_up k) (sv_conns s).
Definition down_pending (s : Server) : Z := sum_map (fun _ k => pending_down k) (sv_conns s).

(** Equality of 64-bit counters. *)
Definition eq64 (a b : Z) : Prop := exists q, a = b + q * 2 ^ 64.
Definition balanced (s : Server) : Prop :=
  eq64 (Metrics.total_up (sv_metrics s) + up_pending s) (up_sum s) /\
  eq64 (Metrics.total_down (sv_metrics s) + down_pending s) (down_sum s).

Lemma eq64_mod a b : eq64 a b <-> a mod 2 ^ 64 = b mod 2 ^ 64.
Proof.
  split.
  - intros [q ->]. by rewrite Z.mod_add.
  - intros E. exists (a / 2 ^ 64 - b / 2 ^ 64).
    pose proof (Z.div_mod a (2 ^ 64)). pose proof (Z.div_mod b (2 ^ 64)). lia.
Qed.
Lemma wrap_add64_eq a n : exists q, wrap_add64 a n = a + n + q * 2 ^ 64.
Proof.
  exists (- ((a + n) / 2 ^ 64)). unfold wrap_add64, wrap. rewrite Z.mod_eq by lia. lia.
Qed.
Lemma on_frame_pending ss f : todo_pending (on_frame ss f) = 0.
Proof. destruct f; cbn; try done; [destruct (packet_path ss)|destruct (allow_http_proxy _)|]; cbn; lia. Qed.

Lemma sums_conn s s' c k k' :
  sv_conns s !! c = Some k -> sv_conns s' = <[c := k']> (sv_conns s) ->
  sv_counters s' = sv_counters s ->
  Metrics.totals (sv_metrics s') = Metrics.totals (sv_metrics s) ->
  pending_up k' = pending_up k -> pending_down k' = pending_down k ->
  balanced s -> balanced s'.
Proof.
  intros Hk Hc Hct [= Hu Hd] Hpu Hpd. unfold balanced, up_pending, down_pending, up_sum, down_sum.
  rewrite Hc, Hct, Hu, Hd, !(sum_map_update _ _ _ _ k' Hk), Hpu, Hpd.
  intros [[q1 E1] [q2 E2]]. split; [exists q1|exists q2]; lia.
Qed.

Section Balance.
Context `{IpNet}.

Lemma sum_alter (f : Counters -> Z) (g : Counters -> Counters) (m : CounterStore) c x :
  m !! c = Some x -> sum_map (fun _ k => f k) (alter g c m) = sum_map (fun _ k => f k) m - f x + f (g x).
Proof.
  intros Hx. rewrite <- (sum_map_update (fun _ k => f k) m c x (g x) Hx). f_equal.
  apply map_eq. intros d. destruct (decide (c = d)) as [->|].
  - by rewrite lookup_alter_eq, lookup_insert_eq, Hx.
  - by rewrite lookup_alter_ne, lookup_insert_ne.
Qed.

Lemma balanced_count_up s c k k' n :
  sv_conns s !! c = Some k -> is_Some (sv_counters s !! c) ->
  pending_up k' = pending_up k + n -> pending_down k' = pending_down k ->
  balanced s -> balanced (set_conn c k' (add_count_up c n s)).
Proof.
  intros Hk [x Hx] Hpu Hpd. unfold balanced, up_pending, down_pending, up_sum, down_sum. cbn.
  rewrite !(sum_map_update _ _ _ _ k' Hk), Hpu, Hpd, !(sum_alter _ _ _ _ _ Hx). cbn.
  destruct (wrap_add64_eq (c_up x) n) as [q ->].
  intros [[q1 E1] [q2 E2]]. split; [exists (q1 - q)|exists q2]; lia.
Qed.
Lemma balanced_count_down s c k k' n :
  sv_conns s !! c = Some k -> is_Some (sv_counters s !! c) ->
  pending_up k' = pending_up k -> pending_down k' = pending_down k + n ->
  balanced s -> balanced (set_conn c k' (add_count_down c n s)).
Proof.
  intros Hk [x Hx] Hpu Hpd. unfold balanced, up_pending, down_pending, up_sum, down_sum. cbn.
  rewrite !(sum_map_update _ _ _ _ k' Hk), Hpu, Hpd, !(sum_alter _ _ _ _ _ Hx). cbn.
  destruct (wrap_add64_eq (c_down x) n) as [q ->].
  intros [[q1 E1] [q2 E2]]. split; [exists q1|exists (q2 - q)]; lia.
Qed.
Lemma balanced_metric_up s c k k' n :
  sv_conns s !! c = Some k -> pending_up k' = pending_up k - n -> pending_down k' = pending_down k ->
  balanced s -> balanced (set_conn c k' (set_metrics (Metrics.add_up n) s)).
Proof.
  intros Hk Hpu Hpd. unfold balanced, up_pending, down_pending, up_sum, down_sum. cbn.
  rewrite !(sum_map_update _ _ _ _ k' Hk), Hpu, Hpd.
  destruct (wrap_add64_eq (Metrics.total_up (sv_metrics s)) n) as [q ->].
  intros [[q1 E1] [q2 E2]]. split; [exists (q1 + q)|exists q2]; lia.
Qed.
Lemma balanced_metric_down s c k k' n :
  sv_conns s !! c = Some k -> pending_up k' = pending_up k -> pending_down k' = pending_down k - n ->
  balanced s -> balanced (set_conn c k' (set_metrics (Metrics.add_down n) s)).
Proof.
  intros Hk Hpu Hpd. unfold balanced, up_pending, down_pending, up_sum, down_sum. cbn.
  rewrite !(sum_map_update _ _ _ _ k' Hk), Hpu, Hpd.
  destruct (wrap_add64_eq (Metrics.total_down (sv_metrics s)) n) as [q ->].
  intros [[q1 E1] [q2 E2]]. split; [exists q1|exists (q2 + q)]; lia.
Qed.

Lemma do_action_balanced s c b k ss a rest :
  stored s -> sv_conns s !! c = Some k -> cn_phase k = Running ss (a :: rest) ->
  balanced s -> balanced (do_action c b ss a rest k s).
Proof.
  intros [Hst _] Hk Hp Hb.
  assert (pending_up (in_phase k (Running ss rest)) = pending_up k - act_pending a) as Hpu.
  { unfold pending_up. rewrite Hp. unfold todo_pending. cbn [cn_phase in_phase fold_right]. lia. }
  assert (is_Some (sv_counters s !! c)) as Hct by (apply (Hst c k Hk); by rewrite Hp).
  destruct a; cbn [act_pending] in Hpu.
  - apply (balanced_count_up _ _ k); [done|done|lia|done|done].
  - apply (balanced_metric_up _ _ k); [done|lia|done|done].
  - eapply (sums_conn s _ c k (in_phase k (Running ss rest))); [done|..|by rewrite Hpu; lia|done|done]; cbn; by destruct (sv_has_tun s).
  - eapply (sums_conn s _ c k); [done|done|done|done|by rewrite Hpu; lia|done|done].
  - eapply (sums_conn s _ c k); [done|done|done|done| |done|done].
    unfold pending_up in *. rewrite Hp in *. cbn in *. lia.
  - eapply (sums_conn s _ c k); [done|done|done|done| |done|done].
    unfold pending_up in *. rewrite Hp in *. cbn in *. lia.
  - eapply (sums_conn s _ c k (in_phase k (Running ss rest))); [done|..|by rewrite Hpu; lia|done|done]; cbn; by destruct (cn_streams k !! id).
  - eapply (sums_conn s _ c k); [done|done|done|done| |done|done].
    unfold pending_up in *. rewrite Hp in *. cbn in *. lia.
Qed.

Ltac same_sums Hb :=
  eapply sums_conn; [eassumption|reflexivity|reflexivity|reflexivity
    |unfold pending_up; cbn|unfold pending_down; cbn|exact Hb].

Lemma balanced_move s s' :
  ids_fresh s -> stored s -> logs_ok s -> balanced s -> move s s' -> balanced s'.
Proof.
  intros Hf Hst Hlog Hb Hm. destruct Hm; try exact Hb.
  all: try (same_sums Hb;
    [ by (try match goal with P : cn_phase _ = _ |- _ => rewrite P end)
    | by (try match goal with P : cn_writer _ = _ |- _ => rewrite P end) ]; fail).
  - revert Hb. unfold balanced, up_pending, down_pending, up_sum, down_sum. cbn.
    destruct (Hf (sv_next s)) as [E _]; [done|].
    by rewrite !(sum_map_insert _ _ _ _ E).
  - assert (sv_counters s !! c = None) as E.
    { destruct Hst as [Hst _]. apply Hst in H0 as [[_ Hx] _]. apply eq_None_not_Some.
      intros Hx'%Hx. by rewrite H1 in Hx'. }
    revert Hb. unfold balanced, up_pending, down_pending, up_sum, down_sum. cbn.
    rewrite !(sum_map_insert _ _ _ _ E), !(sum_map_update _ _ _ _ _ H0).
    unfold pending_up, pending_down. cbn. rewrite H1.
    intros [[q1 E1] [q2 E2]]. split; [exists q1|exists q2]; lia.
  - conn_inv Hlog. unfold log_inv in H2. rewrite H1 in H2. destruct H2 as [[_ Hw] _].
    same_sums Hb.
    + by rewrite H1.
    + by rewrite Hw.
  - same_sums Hb; [|done].
    rewrite H1. apply on_frame_pending.
  - by apply do_action_balanced.
  - same_sums Hb; [done|].
    rewrite H1. by destruct (0 <? payload_len f).
  - apply (balanced_count_down _ _ k); [done| |done| |done].
    + destruct Hst as [Hst _]. destruct (Hst _ _ H0) as [Hx Hy]. apply Hx, Hy. congruence.
    + unfold pending_down. cbn. rewrite H1. lia.
  - apply (balanced_metric_down _ _ k); [done|done| |done].
    unfold pending_down. cbn. rewrite H1. lia.
  - same_sums Hb; [done|].
    destruct H1 as [->|[_ [->|[f ->]]]]; done.
Qed.
End Balance.

(** ** The invariant of the system *)

Record inv (s : Server) : Prop := {
  inv_fresh : ids_fresh s;
  inv_auth : conns_auth s;
  inv_queues : queues_ok s;
  inv_routed : routed s;
  inv_todo : todo_ok s;
  inv_tun : tun_ok s;
  inv_tasks : tasks_ok s;
  inv_streams : streams_own s;
  inv_stored : stored s;
  inv_logs : logs_ok s;
  inv_balanced : balanced s;
}.

Section Runs.
Context `{IpNet}.

Lemma inv_start c v6 tun now : inv (start c v6 tun now).
Proof.
  split; cbn.
  - done.
  - apply map_Forall_empty.
  - by split.
  - by split.
  - apply map_Forall_empty.
  - by intros ? ?.
  - by intros ? ?.
  - by intros ? ? ? ?.
  - split; [done|]. by intros ? [? ?].
  - apply map_Forall_empty.
  - split; by exists 0.
Qed.

Lemma inv_move s s' : inv s -> move s s' -> inv s'.
Proof.
  intros [] Hm. split; eauto using ids_fresh_move, conns_auth_move, queues_ok_move, routed_move,
    todo_ok_move, tun_ok_move, tasks_ok_move, streams_own_move, stored_move, logs_ok_move, balanced_move.
Qed.

Lemma run_inv es c v6 tun now s : run es (start c v6 tun now) = Some s -> inv s.
Proof. intros Hr. eapply (run_moves inv inv_move); [done|apply inv_start]. Qed.

(** The configurations a run has used. *)
Definition configs (es : list event) : list ServerConfig :=
  omap (fun e => match e with EConfig c => Some c | _ => None end) es.

Definition peer_known (cs : list ServerConfig) (p : Phase) : Prop :=
  match p with
  | Offering h q => exists c, In c cs /\ find_peer c (hello_token h) = Some q
  | _ => forall ss, session_of p = Some ss ->
      exists c, In c cs /\ find_peer c (hello_token (ss_hello ss)) = Some (ss_peer ss)
  end.
Definition known (cs : list ServerConfig) (s : Server) : Prop :=
  In (sv_cfg s) cs /\ map_Forall (fun _ k => peer_known cs (cn_phase k)) (sv_conns s).

Lemma peer_known_mono cs cs' p : incl cs cs' -> peer_known cs p -> peer_known cs' p.
Proof. intros Hi. destruct p; cbn; naive_solver. Qed.

Lemma do_action_cfg c b ss a rest k s : sv_cfg (do_action c b ss a rest k s) = sv_cfg s.
Proof. destruct a; cbn; try done; [by destruct (sv_has_tun s)|by destruct (cn_streams k !! id)]. Qed.

Lemma conn_step_cfg c r rnd b k s s' :
  (received c r k s = Some s' \/ tau c rnd k s = Some s' \/ tun_wrote c b k s = Some s' \/ sent c b k s = Some s' \/
   writer_take c k s = Some s' \/ writer_sent c b k s = Some s' \/ writer_tau c k s = Some s' \/
   writer_stop c k s = Some s') -> sv_cfg s' = sv_cfg s.
Proof.
  intros [E|[E|[E|[E|E]]]]; revert E.
  - unfold received. destruct (cn_phase k); try done; [|destruct todo; [|done]]; by intros [= <-].
  - unfold tau. destruct (cn_phase k); try done; try (by intros [= <-]).
    + destruct (net_offer _ _ _ _ _). by intros [= <-].
    + destruct todo; [done|]. destruct (awaits_dev s a); [done|]. intros [= <-]. apply do_action_cfg.
    + by destruct welcomed0; intros [= <-].
  - intros (ss & pkt & rest & _ & _ & ->)%tun_wrote_Some. apply do_action_cfg.
  - unfold sent. destruct (cn_phase k); try done; by intros [= <-].
  - unfold writer_take, writer_sent, writer_tau, writer_stop.
    intros [E|[E|[E|E]]]; revert E; destruct (cn_writer k); try done; try (by intros [= <-]);
      try (destruct (cn_stop k); by intros [= <-]).
    destruct (sv_queues s !! c) as [q|]; [cbn|done]. destruct (pop q) as [[? ?]|]; [by intros [= <-]|].
    destruct (no_senders c k s); [by intros [= <-]|done].
Qed.

Lemma task_step_keeps x r r' b t s s' :
  (dialed x r t s = Some s' \/ up_take x t s = Some s' \/ up_wrote x b t s = Some s' \/
   down_read x r' t s = Some s' \/ down_send x t s = Some s' \/ down_stop x t s = Some s') ->
  sv_cfg s' = sv_cfg s /\ sv_conns s' = sv_conns s.
Proof.
  intros [E|[E|[E|[E|[E|E]]]]]; revert E;
    unfold dialed, up_take, up_wrote, down_read, down_send, down_stop;
    try destruct (t_phase t); try destruct (t_up t); try destruct (t_down t); try done;
    try (by intros [= <-]).
  all: try (destruct (pop (t_rx t)) as [[? ?]|]; [by intros [= <-]|destruct (sender_alive x t s); by intros [= <-]]).
  all: try (destruct r' as [[|? ?]|?]; try (by intros [= <-]); destruct (_ <=? _)%nat; by intros [= <-]).
  all: try (destruct (session_send _ _ _) as [[p b']|] eqn:E; [cbn|done];
    apply session_send_Some in E as (? & _ & _ & Ep); cbn in Ep; subst p; by intros [= <-]).
  all: destruct (t_stop t); by intros [= <-].
Qed.

Lemma step_cfg s e s' : step s e = Some s' ->
  sv_cfg s' = match e with EConfig c => c | _ => sv_cfg s end.
Proof.
  destruct e; cbn [step];
    try (destruct (sv_conns s !! c) as [k|]; [cbn|done]);
    try (destruct (sv_tasks s !! t) as [x|]; [cbn|done]); intros Hs.
  all: try (eapply conn_step_cfg; eauto 14; fail).
  all: try (eapply task_step_keeps; eauto 12; fail).
  all: repeat case_match; first [discriminate Hs|by injection Hs as <-].
  Unshelve. all: first [exact (Err Closed)|exact 0|exact true|exact (Ok [])|exact (Err "")].
Qed.
End Runs.
