(* ===== verification/ServerThms.v ===== *)
(** What the server's runs guarantee: admission, isolation of routed packets,
    permissions, accounting, bounds, the client's view and the end of sessions. *)
From stdpp Require Import gmap.
From S2P Require Import Prelude Net Text Core Mpsc ServerConfig Router Session SessionInv SessionLaws.

Section Known.
Context `{IpNet}.

Lemma known_move cs s s' : known cs s -> move s s' -> In (sv_cfg s') cs -> known cs s'.
Proof.
  intros [Hc Hi] Hm Hc'. split; [done|]. clear Hc'. destruct Hm; try done.
  all: try (apply insert_Forall; [done|]; try conn_inv Hi; cbn;
    match goal with P : cn_phase _ = _, G : peer_known _ _ |- _ => rewrite P in G | _ => idtac end; done).
  - apply insert_Forall; [done|]. apply admission_ok in H2 as [Hf _]. cbn. eauto.
  - apply insert_Forall; [done|]. conn_inv Hi. rewrite H1 in H3.
    apply net_offer_eq in H2 as (-> & _ & _). intros ? [= <-]. done.
  - destruct (do_action_conn c b ss a rest k s) as (p & m & ->).
    apply insert_Forall; [done|]. conn_inv Hi. by rewrite H1 in H2.
Qed.

Lemma run_known es cs s s' :
  run es s = Some s' -> known cs s -> known (cs ++ configs es) s'.
Proof.
  revert cs s. induction es as [|e es IH]; cbn [runs]; intros cs s Hr Hk.
  - injection Hr as <-. unfold configs. cbn. by rewrite app_nil_r.
  - destruct (step s e) as [t|] eqn:E; [cbn in Hr|done].
    replace (cs ++ configs (e :: es)) with ((cs ++ configs [e]) ++ configs es)
      by (rewrite <- app_assoc; by destruct e).
    apply (IH _ _ Hr). apply (known_move _ s); [|by eapply step_moves|].
    + destruct Hk as [? Hk]. split; [apply in_or_app; auto|].
      eapply map_Forall_impl; [exact Hk|]. intros ? ? Hx.
      apply (peer_known_mono cs); [|exact Hx]. intros ? ?. apply in_or_app; auto.
    + rewrite (step_cfg _ _ _ E). apply in_or_app. destruct Hk as [? _]. destruct e; cbn; auto.
Qed.
End Known.

(** C1. No session without authorisation.  In every reachable state of the server, under
    any interleaving of its tasks and any rewriting of the configuration, a connection
    that is being served (or was) presented the right protocol version and a token for
    which a configuration of the run, initial or later, has that peer record, enabled,
    and permitted the global proxy if the session runs in that mode. *)
Theorem sessions_authorised `{IpNet} es cfg v6 tun now s c k ss :
  run es (start cfg v6 tun now) = Some s ->
  sv_conns s !! c = Some k -> session_of (cn_phase k) = Some ss ->
  let h := ss_hello ss in let p := ss_peer ss in
  hello_version h = PROTOCOL_VERSION /\ enabled p = true /\
  (hello_mode h = GlobalProxy -> allow_global p = true) /\
  exists cf, In cf (cfg :: configs es) /\ find_peer cf (hello_token h) = Some p.
Proof.
  intros Hr Hk Hs h p. pose proof (run_inv _ _ _ _ _ _ Hr) as Hinv.
  assert (known (cfg :: configs es) s) as [_ Hkn].
  { apply (run_known es [cfg] _ _ Hr). split; [by left|apply map_Forall_empty]. }
  pose proof (map_Forall_lookup_1 _ _ _ _ (inv_auth _ Hinv) Hk) as Ha.
  pose proof (map_Forall_lookup_1 _ _ _ _ Hkn Hk) as Hp. cbv beta in Ha, Hp.
  assert (authorised h p) as (Hv & _ & He & Hg) by (destruct (cn_phase k); try done; by apply Ha).
  split_and!; [done..|]. destruct (cn_phase k); try done; by apply Hp.
Qed.

(** A session that currently owns the destination address of a packet. *)
Definition owns (s : Server) (c : cid) (pkt : bytes) : Prop :=
  exists k ss, sv_conns s !! c = Some k /\
    ((ip_version pkt = 4 /\ holds4 (cn_phase k) = Some ss /\ assigned ss = dst4 pkt) \/
     (ip_version pkt = 6 /\ holds6 (cn_phase k) = Some ss /\ ss_ip6 ss = Some (dst6 pkt))).

(** C2. Isolation of routed packets.  A packet read off the TUN changes no queue but,
    possibly, one: that of a live session whose own virtual address (IPv4, or derived
    IPv6) is the destination in the packet's header; what is appended is the packet,
    unmodified, behind what was queued.  Nothing else of the server changes. *)
Theorem tun_packet_isolated `{IpNet} es cfg v6 tun now s s' pkt :
  run es (start cfg v6 tun now) = Some s -> step s (ETun (Ok pkt)) = Some s' ->
  s' = set_queues (fun _ => sv_queues s') s /\
  (forall c, sv_queues s' !! c <> sv_queues s !! c ->
     owns s c pkt /\ (20 <= length pkt)%nat /\
     exists q, sv_queues s !! c = Some q /\
       sv_queues s' !! c = Some (mkMpsc (items q ++ [FPacket pkt]) (cap q) true)) /\
  (forall c d, sv_queues s' !! c <> sv_queues s !! c -> sv_queues s' !! d <> sv_queues s !! d -> c = d).
Proof.
  intros Hr%run_inv Hs. cbn in Hs. destruct (_ && _); [|done]. injection Hs as <-.
  split; [reflexivity|]. cbn. rewrite tun_route_target. destruct (tun_target (sv_router s) pkt) as [t|] eqn:Ht;
    [|split; [by intros ? []|by intros ? ? []]].
  destruct (Router.send_on t (FPacket pkt) (sv_queues s)) as [qs b] eqn:Hq. cbn.
  destruct (send_on_spec _ _ _ _ _ Hq) as (Hother & Hfail & Hok).
  assert (forall c, qs !! c <> sv_queues s !! c -> c = t) as Honly.
  { intros c Hc. destruct (decide (c = t)) as [|Hne]; [done|]. by apply Hother in Hne. }
  split; [|by intros c d ->%Honly ->%Honly].
  intros c Hc. pose proof (Honly c Hc) as ->. destruct b; [|by rewrite Hfail in Hc].
  destruct (Hok eq_refl) as (q & Hq0 & _ & _ & ->). destruct (inv_routed _ Hr) as [H4 H6].
  split_and!; [| |exists q; by rewrite lookup_insert_eq].
  - revert Ht. unfold tun_target. destruct (20 <=? length pkt)%nat; [|done].
    destruct (Z.eqb_spec (ip_version pkt) 4).
    + intros (en & He & ->)%fmap_Some. apply H4 in He as (k & ss & ? & ? & ? & _).
      exists k, ss. auto 6.
    + destruct (Z.eqb_spec (ip_version pkt) 6); cbn [andb]; [|done].
      destruct (40 <=? length pkt)%nat; [|done].
      intros (k & ss & ? & ? & ?)%H6. exists k, ss. auto 7.
  - revert Ht. unfold tun_target. by destruct (Nat.leb_spec 20 (length pkt)).
Qed.

(** C15. Routes do not outlive their sessions.  Every IPv4 entry of the router belongs to
    a connection in service, which holds the entry's address, token and counters, and
    every IPv6 entry to one that derived that address; so once all connections have
    finished, both routing tables are empty. *)
Theorem routes_belong_to_sessions `{IpNet} es cfg v6 tun now s :
  run es (start cfg v6 tun now) = Some s ->
  (forall ip e, Router.v4s (sv_router s) !! ip = Some e -> exists k ss,
     sv_conns s !! e_tx e = Some k /\ holds4 (cn_phase k) = Some ss /\ assigned ss = ip /\
     e_token e = p_token (ss_peer ss) /\ e_counters e = e_tx e) /\
  (forall a c, Router.v6s (sv_router s) !! a = Some c -> exists k ss,
     sv_conns s !! c = Some k /\ holds6 (cn_phase k) = Some ss /\ ss_ip6 ss = Some a) /\
  ((forall c k, sv_conns s !! c = Some k -> exists o, cn_phase k = Finished o) ->
     sv_router s = Router.new).
Proof.
  intros Hr%run_inv. destruct (inv_routed _ Hr) as [H4 H6]. split_and!.
  - intros ip e He. destruct (H4 _ _ He) as (k & ss & ? & ? & ? & _ & ? & ?). eauto 8.
  - exact H6.
  - intros Hdone. destruct (sv_router s) as [a b] eqn:E. unfold Router.new. f_equal.
    + apply map_eq. intros ip. rewrite lookup_empty. apply eq_None_not_Some. intros [e He].
      destruct (H4 ip e He) as (k & ss & Hk & Hh & _). destruct (Hdone _ _ Hk) as [o Ho].
      by rewrite Ho in Hh.
    + apply map_eq. intros v. rewrite lookup_empty. apply eq_None_not_Some. intros [c Hc].
      destruct (H6 v c Hc) as (k & ss & Hk & Hh & _). destruct (Hdone _ _ Hk) as [o Ho].
      by rewrite Ho in Hh.
Qed.

(** C16. Egress is permitted egress.  Every packet handed to the server's TUN came from a
    session in a packet mode or one that joined the VPN; every remote-dialing task
    serves a session whose peer may use the HTTP proxy; and a connection's stream table
    only reaches its own tasks, under their own stream ids. *)
Theorem egress_permitted `{IpNet} es cfg v6 tun now s :
  run es (start cfg v6 tun now) = Some s ->
  (forall c pkt, In (c, pkt) (sv_tun s) -> exists ss, serves s c ss /\
     (is_stream (hello_mode (ss_hello ss)) = false \/ join_vpn (ss_hello ss) = true)) /\
  (forall x t, sv_tasks s !! x = Some t -> exists ss, serves s (t_conn t) ss /\
     allow_http_proxy (ss_peer ss) = true) /\
  (forall c k id x, sv_conns s !! c = Some k -> cn_streams k !! id = Some x ->
     exists t, sv_tasks s !! x = Some t /\ t_conn t = c /\ t_id t = id).
Proof.
  intros Hr%run_inv. split_and!; [|apply Hr|apply Hr].
  intros c pkt Hin. destruct (inv_tun _ Hr _ _ Hin) as (ss & Hs & Hp). exists ss. split; [done|].
  revert Hp. unfold packet_path, vpn_member. destruct (hello_mode (ss_hello ss)); cbn; auto.
Qed.

(** C27. The traffic totals account for every session.  At every instant, the server's
    byte totals plus what is counted for a session but not yet for the server equal,
    as 64-bit counters, the sums of the sessions' counters; in particular they are
    equal whenever no handler is between the two updates. *)
Theorem traffic_balanced `{IpNet} es cfg v6 tun now s :
  run es (start cfg v6 tun now) = Some s ->
  (Metrics.total_up (sv_metrics s) + up_pending s) mod 2 ^ 64 = up_sum s mod 2 ^ 64 /\
  (Metrics.total_down (sv_metrics s) + down_pending s) mod 2 ^ 64 = down_sum s mod 2 ^ 64 /\
  ((forall c k, sv_conns s !! c = Some k -> pending_up k = 0 /\ pending_down k = 0) ->
     Metrics.total_up (sv_metrics s) mod 2 ^ 64 = up_sum s mod 2 ^ 64 /\
     Metrics.total_down (sv_metrics s) mod 2 ^ 64 = down_sum s mod 2 ^ 64).
Proof.
  intros Hr%run_inv. destruct (inv_balanced _ Hr) as [Hu%eq64_mod Hd%eq64_mod].
  split_and!; [done..|]. intros Hq.
  unfold up_pending, down_pending in *.
  rewrite (sum_map_zero (fun _ k => pending_up k)) in Hu by (intros; by eapply Hq).
  rewrite (sum_map_zero (fun _ k => pending_down k)) in Hd by (intros; by eapply Hq).
  by rewrite !Z.add_0_r in *.
Qed.

(** C34. Memory stays bounded: in every reachable state no session queue holds more than
    1024 frames and no stream queue more than 256 chunks, whatever clients, remotes and
    the TUN send. *)
Theorem queues_bounded `{IpNet} es cfg v6 tun now s :
  run es (start cfg v6 tun now) = Some s ->
  (forall c q, sv_queues s !! c = Some q -> (length (items q) <= 1024)%nat) /\
  (forall x t, sv_tasks s !! x = Some t -> (length (items (t_rx t)) <= 256)%nat).
Proof.
  intros Hr%run_inv. destruct (inv_queues _ Hr) as [Hq Ht]. split.
  - intros c q [_ Hc]%Hq. unfold queue_len in Hc. lia.
  - intros x t [_ Hc]%Ht. unfold queue_len in Hc. lia.
Qed.

(** What a client is told first.  The frames the transport accepted for a connection
    are none; or a single [Reject], on a connection that was never in service; or they
    begin with a [Welcome] announcing exactly the addresses the session is routed by,
    whatever traffic the router queued for it in the meantime. *)
Theorem client_hears_welcome_first `{IpNet} es cfg v6 tun now s c k :
  run es (start cfg v6 tun now) = Some s -> sv_conns s !! c = Some k ->
  cn_log k = [] \/
  (exists r, cn_log k = [FReject r] /\ cn_phase k = Finished None) \/
  (exists w rest ss, cn_log k = FWelcome w :: rest /\ session_of (cn_phase k) = Some ss /\
     assigned_ip w = assigned ss /\ assigned_ip6 w = ss_ip6 ss).
Proof.
  intros Hr%run_inv Hk. pose proof (map_Forall_lookup_1 _ _ _ _ (inv_logs _ Hr) Hk) as Hl.
  cbv beta in Hl. unfold log_inv, silent, welcomed, agrees in Hl.
  destruct (cn_phase k) as [| | | | | | | | | | | |[]]; naive_solver.
Qed.

(** Derived IPv6 addresses are stable and never collide: they keep the first twelve
    octets of the network, carry the IPv4 address in the last four, and two peers with
    different IPv4 addresses get different IPv6 addresses. *)
Theorem derive_ipv6_injective `{IpNet} (net : Ipv6Net) (a b : Ipv4Addr) :
  v6_octets (derive_ipv6 net a) = take 12 (v6_octets (v6net_network net)) ++ v4_octets a /\
  (derive_ipv6 net a = derive_ipv6 net b -> a = b).
Proof.
  assert (forall x, v6_octets (derive_ipv6 net x) =
    take 12 (v6_octets (v6net_network net)) ++ v4_octets x) as Hd.
  { intros x. unfold derive_ipv6, embed_v4. rewrite be_split_u32_of_v4.
    by destruct (v6net_network net) as [[] [] [] []], x. }
  split; [apply Hd|]. intros E. apply (f_equal v6_octets) in E. rewrite !Hd in E.
  apply app_inv_head in E. rewrite <- (v4_of_octets_octets a), E. apply v4_of_octets_octets.
Qed.

(** ** Peer lists *)

Lemma NoDup_visible ss (l : list (Ipv4Addr * Online)) :
  NoDup (map fst l) -> NoDup (map peer_ip (visible_peers ss l)).
Proof.
  unfold visible_peers. rewrite map_map.
  induction l as [|[ip o] l IH]; cbn; [constructor|].
  intros [Hx Hnd]%NoDup_cons. case_match; cbn; [|by apply IH].
  constructor; [|by apply IH]. intros Hy%list_elem_of_In. apply Hx, list_elem_of_In.
  apply in_map_iff in Hy as (z & <- & [Hz _]%filter_In). by apply in_map.
Qed.

(** The answer to [GetPeers] lists the other VPN members and nobody else.  The next
    step of a session about to answer queues a [PeerList] with distinct addresses, never
    its own; a peer is listed exactly when the router has a member entry for it, and
    every peer listed is a connection in service under that address, with that name. *)
Theorem peer_list_spec `{IpNet} es cfg v6 tun now s c k ss rest s' rnd :
  run es (start cfg v6 tun now) = Some s -> sv_conns s !! c = Some k ->
  cn_phase k = Running ss (AGetPeers :: rest) -> step s (ETau c rnd) = Some s' ->
  exists ps, cn_phase <$> sv_conns s' !! c = Some (Running ss (ATrySend (FPeerList ps) :: rest)) /\
    NoDup (map peer_ip ps) /\
    (forall p, In p ps <-> peer_ip p <> assigned ss /\ exists e,
       Router.v4s (sv_router s) !! peer_ip p = Some e /\ on_member (e_info e) = true /\
       peer_name p = on_name (e_info e) /\ peer_ip6 p = on_ip6 (e_info e)) /\
    (forall p, In p ps -> exists d x ss', sv_conns s !! d = Some x /\
       holds4 (cn_phase x) = Some ss' /\ assigned ss' = peer_ip p /\ vpn_member ss' = true /\
       peer_name p = p_name (ss_peer ss') /\ peer_ip6 p = ss_ip6 ss').
Proof.
  intros Hr%run_inv Hk Hp Hs. cbn in Hs. rewrite Hk in Hs. cbn in Hs. unfold tau in Hs.
  rewrite Hp in Hs. injection Hs as <-. eexists. cbn. rewrite lookup_insert_eq. split; [reflexivity|].
  set (ps := visible_peers ss (Router.online (sv_router s))).
  assert (forall p, In p ps <-> peer_ip p <> assigned ss /\ exists e,
       Router.v4s (sv_router s) !! peer_ip p = Some e /\ on_member (e_info e) = true /\
       peer_name p = on_name (e_info e) /\ peer_ip6 p = on_ip6 (e_info e)) as Hin.
  { intros p. unfold ps, visible_peers, Router.online. rewrite in_map_iff. split.
    - intros ([ip o] & <- & [([jp e] & [= <- <-] & Hm%list_elem_of_In%elem_of_map_to_list)%in_map_iff Hf]%filter_In).
      cbn in *. apply andb_prop in Hf as [Hf1 Hf2]. split; [|eauto 6].
      intros Heq. by rewrite bool_decide_eq_true_2 in Hf1.
    - intros (Hne & e & He & Hm & Hn & H6). exists (peer_ip p, e_info e). cbn. split.
      { rewrite <- Hn, <- H6. by destruct p. }
      apply filter_In. cbn. rewrite Hm, bool_decide_eq_false_2 by done. split; [|done].
      apply in_map_iff. exists (peer_ip p, e). split; [done|].
      by apply list_elem_of_In, elem_of_map_to_list. }
  split_and!; [|exact Hin|].
  - apply NoDup_visible. unfold Router.online. rewrite map_map. apply NoDup_fst_map_to_list.
  - intros p (_ & e & He & Hm & Hn & H6)%Hin. destruct (inv_routed _ Hr) as [H4 _].
    destruct (H4 _ _ He) as (x & ss' & Hx & Hh & Ha & Hi & _).
    exists (e_tx e), x, ss'. rewrite Hi in Hm, Hn, H6. by split_and!.
Qed.

(** ** Progress of a connection's handler *)

Definition weight (a : action) : nat := match a with AGetPeers => 2 | _ => 1 end.
Definition load (l : list action) : nat := list_sum (map weight l).

Lemma do_action_phase c b ss a rest k s :
  exists k' p, sv_conns (do_action c b ss a rest k s) !! c = Some k' /\ cn_phase k' = Running ss p /\
    S (load p) = load (a :: rest).
Proof.
  destruct a; cbn; try (eexists _, _; rewrite lookup_insert_eq; split_and!; [reflexivity..|done]).
  destruct (cn_streams k !! id); cbn; eexists _, _; rewrite lookup_insert_eq; by split_and!.
Qed.

(** The handler of connection [c] moves: an action, or the end of its wait for the TUN. *)
Definition handles (c : cid) (e : event) : bool :=
  match e with ETau d _ | EDev d _ => bool_decide (d = c) | _ => false end.

Section Handler.
Context `{IpNet}.

Lemma handler_conns c r rnd b k s s' :
  received c r k s = Some s' \/ tau c rnd k s = Some s' \/ tun_wrote c b k s = Some s' \/ sent c b k s = Some s' ->
  exists k', sv_conns s' = <[c := k']> (sv_conns s).
Proof.
  intros [E|[E|[E|E]]].
  - revert E. unfold received. destruct (cn_phase k) as [| | | | | | |? []| | | | |]; try done; intros [= <-]; eauto.
  - revert E. unfold tau. destruct (cn_phase k) as [| | | | | | |ss [|a rest]| | | | |]; try done;
      try (try case_match; intros [= <-]; eauto; fail).
    destruct (awaits_dev s a); [done|]. intros [= <-].
    destruct (do_action_conn c false ss a rest k s) as (p & m & ->). eauto.
  - apply tun_wrote_Some in E as (ss & pkt & rest & _ & _ & ->).
    destruct (do_action_conn c b ss (ATun pkt) rest k s) as (p & m & ->). eauto.
  - revert E. unfold sent. destruct (cn_phase k); try done; intros [= <-]; eauto.
Qed.
Lemma writer_conns c b k s s' :
  writer_take c k s = Some s' \/ writer_sent c b k s = Some s' \/ writer_tau c k s = Some s' \/ writer_stop c k s = Some s' ->
  exists k', sv_conns s' = <[c := k']> (sv_conns s) /\ cn_phase k' = cn_phase k.
Proof.
  intros [E|[E|[E|E]]]; revert E; unfold writer_take, writer_sent, writer_tau, writer_stop;
    destruct (cn_writer k); try done; try (destruct (cn_stop k); try done); try (intros [= <-]; eexists; split; [reflexivity|by try destruct b]).
  all: destruct (sv_queues s !! c) as [q|]; [cbn|done]; destruct (pop q) as [[f q']|]; [intros [= <-]; eauto|].
  all: destruct (no_senders c k s); [intros [= <-]; eauto|done].
Qed.

Context (c : cid) (ss : Session).

(** A session's handler, in the middle of a frame. *)
Definition handling (todo : list action) (s : Server) : Prop :=
  exists k, sv_conns s !! c = Some k /\ cn_phase k = Running ss todo.
Lemma handling_same todo s s' : handling todo s -> sv_conns s' = sv_conns s -> handling todo s'.
Proof. intros (k & ? & ?) E. exists k. by rewrite E. Qed.
Lemma handling_conn todo d k k' s s' : handling todo s -> sv_conns s !! d = Some k ->
  sv_conns s' = <[d := k']> (sv_conns s) -> (d = c -> cn_phase k' = cn_phase k) -> handling todo s'.
Proof.
  intros (x & Hx & Hp) Hk E Hd. unfold handling. rewrite E. destruct (decide (d = c)) as [->|].
  - exists k'. rewrite lookup_insert_eq, Hd by done. split; congruence.
  - exists x. by rewrite lookup_insert_ne.
Qed.
Lemma handling_action todo b a rest k s s' : handling todo s -> sv_conns s !! c = Some k ->
  cn_phase k = Running ss (a :: rest) -> s' = do_action c b ss a rest k s ->
  exists todo', S (load todo') = load todo /\ handling todo' s'.
Proof.
  intros (x & Hx & Hp) Hk Ha ->. replace x with k in * by congruence. replace todo with (a :: rest) by congruence.
  destruct (do_action_phase c b ss a rest k s) as (k' & p & ? & ? & ?). exists p. split; [done|by exists k'].
Qed.

Lemma handling_step todo s e s' : ids_fresh s -> handling todo s -> step s e = Some s' -> (forall r, e <> ERecv c r) ->
  if handles c e then exists todo', S (load todo') = load todo /\ handling todo' s' else handling todo s'.
Proof.
  intros Hf Hh E Hr. destruct e; cbn [step handles] in *;
    try (injection E as <-; by apply (handling_same _ s)).
  - case_match; [injection E as <-|done]. by apply (handling_same _ s).
  - injection E as <-. destruct Hh as (k & Hk & Hp). exists k. split; [|done]. cbn.
    rewrite lookup_insert_ne; [done|]. intros <-. destruct (Hf (sv_next s)) as [? _]; [done|congruence].
  - apply bind_Some in E as (k & K & E). destruct (handler_conns c0 r 0 true k s s') as (k' & Ec); [auto|].
    eapply handling_conn; [done|exact K|exact Ec|]. intros ->. by destruct (Hr r).
  - apply bind_Some in E as (k & K & E). case_bool_decide as Hc.
    + subst c0. destruct Hh as (x & Hx & Hp). replace x with k in * by congruence.
      unfold tau in E. rewrite Hp in E. destruct todo as [|a rest]; [done|].
      destruct (awaits_dev s a); [done|]. injection E as <-. by eapply handling_action; [exists k| | |].
    + destruct (handler_conns c0 (Err Closed) rnd true k s s') as (k' & Ec); [auto|]. by eapply handling_conn.
  - apply bind_Some in E as (k & K & E). case_bool_decide as Hc.
    + subst c0. apply tun_wrote_Some in E as (ss' & pkt & rest & Hp & _ & ->).
      assert (ss' = ss) as -> by (destruct Hh as (x & Hx & Hp'); congruence). by eapply handling_action.
    + destruct (handler_conns c0 (Err Closed) 0 ok k s s') as (k' & Ec); [auto|]. by eapply handling_conn.
  - apply bind_Some in E as (k & K & E). destruct (handler_conns c0 (Err Closed) 0 ok k s s') as (k' & Ec); [auto|].
    eapply handling_conn; [done|exact K|exact Ec|]. intros ->. destruct Hh as (x & Hx & Hp).
    replace x with k in * by congruence. unfold sent in E. by rewrite Hp in E.
  - apply bind_Some in E as (k & K & E). destruct (writer_conns c0 true k s s') as (k' & Ec & ?); [auto|]. by eapply handling_conn.
  - apply bind_Some in E as (k & K & E). destruct (writer_conns c0 ok k s s') as (k' & Ec & ?); [auto|]. by eapply handling_conn.
  - apply bind_Some in E as (k & K & E). destruct (writer_conns c0 true k s s') as (k' & Ec & ?); [auto|]. by eapply handling_conn.
  - apply bind_Some in E as (k & K & E). destruct (writer_conns c0 true k s s') as (k' & Ec & ?); [auto 6|]. by eapply handling_conn.
  - case_match; [|done]. destruct r; injection E as <-; by apply (handling_same _ s).
  - apply bind_Some in E as (x & X & E). eapply handling_same; [done|]. eapply (task_step_keeps t r (Ok []) true); eauto 8.
  - apply bind_Some in E as (x & X & E). eapply handling_same; [done|]. eapply (task_step_keeps t (Ok tt) (Ok []) true); eauto 8.
  - apply bind_Some in E as (x & X & E). eapply handling_same; [done|]. eapply (task_step_keeps t (Ok tt) (Ok []) ok); eauto 8.
  - apply bind_Some in E as (x & X & E). eapply handling_same; [done|]. eapply (task_step_keeps t (Ok tt) r true); eauto 8.
  - apply bind_Some in E as (x & X & E). eapply handling_same; [done|]. eapply (task_step_keeps t (Ok tt) (Ok []) true); eauto 8.
  - apply bind_Some in E as (x & X & E). eapply handling_same; [done|]. eapply (task_step_keeps t (Ok tt) (Ok []) true); eauto 8.
Qed.
Lemma handling_run es s s' todo : inv s -> handling todo s -> run es s = Some s' -> (forall r, ERecv c r ∉ es) ->
  exists todo', (length (List.filter (handles c) es) + load todo' = load todo)%nat /\ handling todo' s'.
Proof.
  revert s todo. induction es as [|e es IH]; cbn [runs]; intros s todo Hi Hh Hr Hn.
  - injection Hr as <-. by exists todo.
  - apply bind_Some in Hr as (s1 & E & Hr). assert (forall r, e <> ERecv c r) as He.
    { intros r ->. apply (Hn r). set_solver. }
    assert (forall r, ERecv c r ∉ es) as Hn' by (intros r Hx; apply (Hn r); set_solver).
    pose proof (handling_step _ _ _ _ (inv_fresh _ Hi) Hh E He) as Hs.
    pose proof (inv_move _ _ Hi (step_moves _ _ _ E)) as Hi1. cbn [List.filter]. destruct (handles c e).
    + destruct Hs as (t1 & L & H1). destruct (IH _ _ Hi1 H1 Hr Hn') as (t2 & L2 & H2). exists t2. split; [cbn; lia|done].
    + by apply (IH _ _ Hi1).
Qed.
End Handler.

(** C36. Handling a frame terminates, and waits for nothing but the TUN.  From any reachable
    state in which a session has actions to perform, under any interleaving of the server's
    tasks and until the connection is read again, the handler has made exactly the steps
    its list has lost: it is back to reading after [load todo] of them, whatever each write
    to the TUN answers.  At every instant before that its next step is there to be taken,
    unless it awaits the device, in which case it goes on as soon as the device answers,
    with success or failure, and not before.  A frame takes at most three steps, and at
    most one of them is a write to the TUN. *)
Theorem handler_returns `{IpNet} es0 cfg v6 tun now s c k ss todo :
  run es0 (start cfg v6 tun now) = Some s ->
  sv_conns s !! c = Some k -> cn_phase k = Running ss todo ->
  (forall es s', run es s = Some s' -> (forall r, ERecv c r ∉ es) ->
     exists k' todo', sv_conns s' !! c = Some k' /\ cn_phase k' = Running ss todo' /\
       (length (List.filter (handles c) es) + load todo' = load todo)%nat /\
       match todo' with
       | [] => forall e, handles c e = true -> step s' e = None
       | a :: _ => if awaits_dev s' a
                   then step s' (ETau c 0) = None /\ forall b, is_Some (step s' (EDev c b))
                   else is_Some (step s' (ETau c 0))
       end) /\
  (forall f, (load (on_frame ss f) <= 3)%nat /\ (length (omap (fun a => match a with ATun p => Some p | _ => None end) (on_frame ss f)) <= 1)%nat).
Proof.
  intros Hr0%run_inv Hk Hp. split.
  - intros es s' Hr Hn. destruct (handling_run c ss es s s' todo) as (todo' & L & k' & Hk' & Hp'); [done|by exists k|done|done|].
    exists k', todo'. split_and!; [done..|]. destruct todo' as [|a rest].
    + intros e He. destruct e; try done; cbn in He |- *; apply bool_decide_eq_true in He as ->; rewrite Hk'; cbn;
        unfold tau, tun_wrote; by rewrite Hp'.
    + cbn [step]. rewrite Hk'. cbn. unfold tau, tun_wrote. rewrite Hp'. destruct (awaits_dev s' a); eauto.
  - intros f. destruct f; cbn; try lia; [destruct (packet_path ss)|destruct (allow_http_proxy _)]; cbn; lia.
Qed.

(** *** One step of a known schedule *)

Section Drive.
Context `{IpNet}.

Lemma run_step s e s1 es s' : step s e = Some s1 -> run es s1 = Some s' -> run (e :: es) s = Some s'.
Proof. intros E. cbn [runs]. by rewrite E. Qed.
Lemma step_recv s c r k s' :
  sv_conns s !! c = Some k -> received c r k s = Some s' -> step s (ERecv c r) = Some s'.
Proof. intros E. cbn. by rewrite E. Qed.
Lemma step_tau s c rnd k s' :
  sv_conns s !! c = Some k -> tau c rnd k s = Some s' -> step s (ETau c rnd) = Some s'.
Proof. intros E. cbn. by rewrite E. Qed.
Lemma step_sent s c b k s' :
  sv_conns s !! c = Some k -> sent c b k s = Some s' -> step s (ESent c b) = Some s'.
Proof. intros E. cbn. by rewrite E. Qed.
Lemma set_conn_lookup s c k : sv_conns (set_conn c k s) !! c = Some k.
Proof. apply lookup_insert_eq. Qed.

(** The values of one handler step, phase by phase. *)
Lemma tau_looking c rnd k s h : cn_phase k = Looking h ->
  tau c rnd k s = Some (set_conn c (in_phase k
    match admission (sv_cfg s) h with Ok p => Offering h p | Err r => Rejecting r end) s).
Proof. unfold tau. by intros ->. Qed.
Lemma tau_offering c rnd k s h p ss w : cn_phase k = Offering h p ->
  net_offer (sv_cfg s) (sv_ipv6 s) h p rnd = (ss, w) ->
  tau c rnd k s = Some (set_conn c (in_phase k (Register6 ss w))
      (set_counters (insert c (mkCounters 0 0)) (set_queues (insert c (mpsc_new 1024)) s))).
Proof. unfold tau. by intros -> ->. Qed.
End Drive.

Ltac drive E := eapply run_step;
  [first [eapply step_tau|eapply step_recv|eapply step_sent]; [first [eassumption|apply set_conn_lookup]|E]|].
Ltac by_phase := unfold tau, received, sent; cbn [cn_phase in_phase logged in_writer stop_writer];
  try match goal with P : cn_phase _ = _ |- _ => rewrite P end; reflexivity.

(** Handshake outcomes.  From a fresh connection, the hello decides: if admission
    grants a peer record, six steps of the handler alone establish the session, the
    [Welcome] of the offer sent, both routes in place, an empty queue of 1024 and zero
    counters; if it refuses, the client gets the reason in a [Reject], and router and
    queues are untouched. *)
Theorem handshake_outcome `{IpNet} s c k h sid :
  sv_conns s !! c = Some k -> cn_phase k = AwaitHello ->
  match admission (sv_cfg s) h with
  | Ok p =>
    let '(ss, w) := net_offer (sv_cfg s) (sv_ipv6 s) h p sid in
    exists s' k', run [ERecv c (Ok (FHello h)); ETau c 0; ETau c sid; ETau c 0; ETau c 0; ESent c true] s = Some s' /\
      sv_conns s' !! c = Some k' /\ cn_phase k' = Running ss [] /\ cn_writer k' = WIdle /\
      cn_log k' = cn_log k ++ [FWelcome w] /\
      Router.v4s (sv_router s') !! p_ip p = Some (mkEntry c (online_of k ss) (p_token p) c (sv_now s)) /\
      (forall a, ss_ip6 ss = Some a -> Router.v6s (sv_router s') !! a = Some c) /\
      sv_queues s' !! c = Some (mpsc_new 1024) /\ sv_counters s' !! c = Some (mkCounters 0 0)
  | Err r =>
    exists s' k', run [ERecv c (Ok (FHello h)); ETau c 0; ESent c true] s = Some s' /\
      sv_conns s' !! c = Some k' /\ cn_phase k' = Finished None /\ cn_log k' = cn_log k ++ [FReject r] /\
      sv_router s' = sv_router s /\ sv_queues s' = sv_queues s
  end.
Proof.
  intros Hk Hp. destruct (admission (sv_cfg s) h) as [p|r] eqn:Ha.
  - destruct (net_offer (sv_cfg s) (sv_ipv6 s) h p sid) as [ss w] eqn:Ho.
    pose proof (net_offer_eq _ _ _ _ _ _ _ Ho) as (Hss & _ & _).
    eexists _, _. split.
    { drive by_phase. drive ltac:(eapply tau_looking; reflexivity). cbn [sv_cfg set_conn set_conns]. rewrite Ha.
      drive ltac:(eapply tau_offering; [reflexivity|exact Ho]).
      drive by_phase. drive by_phase. drive by_phase. reflexivity. }
    split; [apply set_conn_lookup|]. cbn. rewrite !lookup_insert_eq.
    split_and!; try done.
    + unfold assigned. subst ss. cbn. by rewrite lookup_insert_eq.
    + intros a Hv. unfold Router.register6. rewrite Hv. cbn. by rewrite lookup_insert_eq.
  - eexists _, _. split.
    { drive by_phase. drive ltac:(eapply tau_looking; reflexivity). cbn [sv_cfg set_conn set_conns]. rewrite Ha.
      drive by_phase. reflexivity. }
    split; [apply set_conn_lookup|]. by split_and!.
Qed.

(** C30. A disconnect is always cleaned up.  When a session's read fails, five steps of
    its handler alone finish it: its addresses are gone from both routing tables, its
    writer is told to stop, its stream senders are dropped, and its byte counts are
    added once, as 64-bit counters, to the history of its token. *)
Theorem disconnect_cleans_up `{IpNet} s c k ss e ct :
  sv_conns s !! c = Some k -> cn_phase k = Running ss [] -> sv_counters s !! c = Some ct ->
  exists s' k', run [ERecv c (Err e); ETau c 0; ETau c 0; ETau c 0; ETau c 0] s = Some s' /\
    sv_conns s' !! c = Some k' /\ cn_phase k' = Finished (Some ss) /\ cn_stop k' = true /\
    cn_streams k' = ∅ /\
    sv_router s' = Router.unregister (assigned ss) (ss_ip6 ss) (sv_router s) /\
    Router.v4s (sv_router s') !! assigned ss = None /\
    (forall a, ss_ip6 ss = Some a -> Router.v6s (sv_router s') !! a = None) /\
    (exists g, Metrics.agg (sv_metrics s') !! p_token (ss_peer ss) = Some g /\
       let old f := from_option f 0 (Metrics.agg (sv_metrics s) !! p_token (ss_peer ss)) in
       a_up g = wrap_add64 (old a_up) (c_up ct) /\ a_down g = wrap_add64 (old a_down) (c_down ct)) /\
    Metrics.totals (sv_metrics s') = Metrics.totals (sv_metrics s).
Proof.
  intros Hk Hp Hct. eexists _, _. split.
  { drive by_phase. drive by_phase. drive by_phase. drive by_phase. drive by_phase. reflexivity. }
  split; [apply set_conn_lookup|]. cbn. rewrite Hct. cbn. split_and!; try done.
  - unfold Router.unregister6. destruct (ss_ip6 ss); cbn; by rewrite lookup_delete_eq.
  - intros a Hv. unfold Router.unregister6. rewrite Hv. cbn. by rewrite lookup_delete_eq.
  - eexists. split; [apply lookup_insert_eq|]. cbn.
    by destruct (Metrics.agg (sv_metrics s) !! p_token (ss_peer ss)).
Qed.

(** A second login with the same token is cut off when the first one ends.  Both
    sessions hold the same virtual address, the router keeps one entry for it, and
    [unregister] removes it by address: once the older connection disconnects, the
    newer session is still in service, but no packet for its address reaches it. *)
Theorem older_disconnect_unroutes_newer `{IpNet} s c1 c2 k1 k2 ss1 ss2 e :
  sv_conns s !! c1 = Some k1 -> sv_conns s !! c2 = Some k2 -> c1 <> c2 ->
  cn_phase k1 = Running ss1 [] -> cn_phase k2 = Running ss2 [] -> ss_peer ss1 = ss_peer ss2 ->
  exists s', run [ERecv c1 (Err e); ETau c1 0; ETau c1 0; ETau c1 0; ETau c1 0] s = Some s' /\
    sv_conns s' !! c2 = Some k2 /\
    Router.v4s (sv_router s') !! assigned ss2 = None /\
    (forall pkt, ip_version pkt = 4 -> dst4 pkt = assigned ss2 ->
       tun_route (sv_router s') pkt (sv_queues s') = sv_queues s').
Proof.
  intros H1 H2 Hne Hp1 Hp2 Heq. eexists. split.
  { drive by_phase. drive by_phase. drive by_phase. drive by_phase. drive by_phase. reflexivity. }
  cbn. split.
  { by repeat (rewrite lookup_insert_ne by done). }
  assert (forall r, Router.v4s (Router.unregister6 (ss_ip6 ss1) (Router.unregister4 (assigned ss1) r))
    !! assigned ss2 = None) as Hnone.
  { intros r. unfold assigned. rewrite <- Heq. unfold Router.unregister6.
    destruct (ss_ip6 ss1); cbn; apply lookup_delete_eq. }
  split; [apply Hnone|]. intros pkt Hv Hd. rewrite tun_route_target. unfold tun_target.
  rewrite Hv, Hd, Hnone. by destruct (20 <=? length pkt)%nat.
Qed.

(** ** A concrete server, and runs of it *)

Module Demo.
#[export] Instance net : IpNet := {|
  Ipv4Net := Z; Ipv6Net := Ipv6Addr;
  parse_v4net _ := Ok 24;
  parse_v6net s := match parse_ipv6 "fd66::" with Some a => Ok a | None => Err s end;
  v4net_prefix n := n; v6net_prefix _ := 64; v6net_network a := a |}.
Definition cfg : ServerConfig := template "psk" "admin" "tok".
Definition hello (m : SessionMode) : Hello := mkHello 2 "tok" m None None false.
Definition login (c : cid) (m : SessionMode) : list event :=
  [EAccept "203.0.113.7:4000"; ERecv c (Ok (FHello (hello m))); ETau c 0; ETau c 5; ETau c 0; ETau c 0; ESent c true].
Definition st : Server := start cfg true true 0.
Definition after (es : list event) : Server := default st (run es st).
Definition conn (es : list event) (c : cid) : Conn :=
  default (mkConn "" AwaitHello WNone false ∅ []) (sv_conns (after es) !! c).
Definition session (m : SessionMode) : Session := (net_offer cfg true (hello m) (mkPeer "example" "tok" (v4 10 66 0 2) true true true) 5).1.
(** An IPv4 packet of twenty bytes for 10.66.0.2. *)
Definition packet : bytes := Byte.x45 :: replicate 15 Byte.x00 ++ map byte_of_Z [10; 66; 0; 2].
Definition traffic : list event := login 0 Vpn ++
  [ERecv 0 (Ok (FPacket packet)); ETau 0 0; ETau 0 0; EDev 0 true; ETun (Ok packet); EWTake 0; EWSent 0 true; EWTau 0; EWTau 0].

(** A schedule runs; only a boolean is computed. *)
Definition possible (es : list event) : bool := match run es st with Some _ => true | None => false end.
Definition has (es : list event) (c : cid) : bool :=
  match sv_conns (after es) !! c with Some _ => true | None => false end.
Definition queued (es : list event) (c : cid) : nat :=
  match sv_queues (after es) !! c with Some q => length (items q) | None => 0%nat end.
Definition routed (es : list event) (ip : Ipv4Addr) : bool :=
  match Router.v4s (sv_router (after es)) !! ip with Some _ => true | None => false end.
Lemma after_run es : possible es = true -> run es st = Some (after es).
Proof. unfold possible, after. by destruct (run es st). Qed.
Lemma conn_at es c : has es c = true -> sv_conns (after es) !! c = Some (conn es c).
Proof. unfold has, conn. by destruct (sv_conns (after es) !! c). Qed.
Lemma after_goes_on es es' : possible es = true -> possible (es ++ es') = true -> run es' (after es) = Some (after (es ++ es')).
Proof. intros H1%after_run H2%after_run. by rewrite runs_app, H1 in H2. Qed.
Lemma after_step es e : possible es = true -> possible (es ++ [e]) = true ->
  step (after es) e = Some (after (es ++ [e])).
Proof.
  intros H1%after_run H2%after_run. rewrite runs_app, H1 in H2. cbn in H2.
  by destruct (step (after es) e) as [x|] eqn:E; cbn in H2; [injection H2 as ->|].
Qed.
End Demo.
Ltac demo := first
  [ apply Demo.after_run; vm_compute; reflexivity
  | apply Demo.conn_at; vm_compute; reflexivity
  | apply Demo.after_step; vm_compute; reflexivity
  | vm_compute; reflexivity ].
#[local] Existing Instance Demo.net.

Lemma sessions_authorised_witness :
  enabled (ss_peer (Demo.session Vpn)) = true.
Proof.
  destruct (sessions_authorised (Demo.login 0 Vpn) Demo.cfg true true 0 (Demo.after (Demo.login 0 Vpn)) 0
    (Demo.conn (Demo.login 0 Vpn) 0) (Demo.session Vpn)) as (_ & He & _);
    [demo..|exact He].
Defined.

Lemma tun_packet_isolated_witness : owns (Demo.after (Demo.login 0 Vpn)) 0 Demo.packet.
Proof.
  destruct (tun_packet_isolated (Demo.login 0 Vpn) Demo.cfg true true 0 (Demo.after (Demo.login 0 Vpn))
    (Demo.after (Demo.login 0 Vpn ++ [ETun (Ok Demo.packet)])) Demo.packet) as (_ & Hi & _);
    [demo..|]. apply Hi. intros Hq.
  assert (Demo.queued (Demo.login 0 Vpn ++ [ETun (Ok Demo.packet)]) 0 = Demo.queued (Demo.login 0 Vpn) 0) as E
    by (unfold Demo.queued; by rewrite Hq).
  assert (Demo.queued (Demo.login 0 Vpn ++ [ETun (Ok Demo.packet)]) 0 = 1%nat) as E1 by (vm_compute; reflexivity).
  assert (Demo.queued (Demo.login 0 Vpn) 0 = 0%nat) as E0 by (vm_compute; reflexivity).
  rewrite E1, E0 in E. discriminate E.
Defined.

Lemma routes_belong_to_sessions_witness :
  exists e k, Router.v4s (sv_router (Demo.after (Demo.login 0 Vpn))) !! v4 10 66 0 2 = Some e /\
    sv_conns (Demo.after (Demo.login 0 Vpn)) !! e_tx e = Some k.
Proof.
  destruct (Router.v4s (sv_router (Demo.after (Demo.login 0 Vpn))) !! v4 10 66 0 2) as [e|] eqn:He.
  - destruct (proj1 (routes_belong_to_sessions (Demo.login 0 Vpn) Demo.cfg true true 0
      (Demo.after (Demo.login 0 Vpn)) ltac:(demo)) _ _ He) as (k & _ & Hk & _). exists e, k. exact (conj eq_refl Hk).
  - exfalso. assert (Demo.routed (Demo.login 0 Vpn) (v4 10 66 0 2) = true) as Hr by (vm_compute; reflexivity).
    unfold Demo.routed in Hr. rewrite He in Hr. discriminate Hr.
Defined.

Lemma egress_permitted_witness :
  exists ss, serves (Demo.after Demo.traffic) 0 ss.
Proof.
  destruct (proj1 (egress_permitted Demo.traffic Demo.cfg true true 0 (Demo.after Demo.traffic)
    ltac:(demo)) 0%nat Demo.packet) as (ss & Hs & _); [vm_compute; auto|by exists ss].
Defined.

Lemma traffic_balanced_witness :
  Metrics.total_up (sv_metrics (Demo.after Demo.traffic)) = 20 /\
  (Metrics.total_up (sv_metrics (Demo.after Demo.traffic)) + up_pending (Demo.after Demo.traffic)) mod 2 ^ 64 =
    up_sum (Demo.after Demo.traffic) mod 2 ^ 64.
Proof.
  split; [vm_compute; reflexivity|].
  destruct (traffic_balanced Demo.traffic Demo.cfg true true 0 (Demo.after Demo.traffic)) as (Hu & _);
    [demo|exact Hu].
Defined.

Lemma queues_bounded_witness : (Demo.queued (Demo.login 0 Vpn ++ [ETun (Ok Demo.packet)]) 0 <= 1024)%nat.
Proof.
  destruct (queues_bounded (Demo.login 0 Vpn ++ [ETun (Ok Demo.packet)]) Demo.cfg true true 0
    (Demo.after (Demo.login 0 Vpn ++ [ETun (Ok Demo.packet)]))) as (Hq & _); [demo|].
  unfold Demo.queued. destruct (_ !! 0%nat) as [q|] eqn:E; [exact (Hq 0%nat q E)|lia].
Defined.

Lemma client_hears_welcome_first_witness :
  cn_log (Demo.conn Demo.traffic 0) = [] \/
  (exists r, cn_log (Demo.conn Demo.traffic 0) = [FReject r] /\ cn_phase (Demo.conn Demo.traffic 0) = Finished None) \/
  (exists w rest ss, cn_log (Demo.conn Demo.traffic 0) = FWelcome w :: rest /\
     session_of (cn_phase (Demo.conn Demo.traffic 0)) = Some ss /\
     assigned_ip w = assigned ss /\ assigned_ip6 w = ss_ip6 ss).
Proof.
  apply (client_hears_welcome_first Demo.traffic Demo.cfg true true 0 (Demo.after Demo.traffic) 0); demo.
Defined.

Lemma derive_ipv6_injective_witness :
  v6_octets (@derive_ipv6 Demo.net (v6_of_octets (map byte_of_Z [253; 102])) (v4 10 66 0 2)) =
    map byte_of_Z [253; 102; 0; 0; 0; 0; 0; 0; 0; 0; 0; 0; 10; 66; 0; 2].
Proof.
  rewrite (proj1 (@derive_ipv6_injective Demo.net (v6_of_octets (map byte_of_Z [253; 102])) (v4 10 66 0 2) (v4 10 66 0 2))).
  vm_compute. reflexivity.
Defined.

Lemma peer_list_spec_witness :
  let es := Demo.login 0 Vpn ++ [ERecv 0 (Ok FGetPeers)] in
  exists ps, cn_phase <$> sv_conns (Demo.after (es ++ [ETau 0 0])) !! 0%nat =
    Some (Running (Demo.session Vpn) (ATrySend (FPeerList ps) :: [])).
Proof.
  cbv zeta.
  destruct (peer_list_spec (Demo.login 0 Vpn ++ [ERecv 0 (Ok FGetPeers)]) Demo.cfg true true 0
    (Demo.after (Demo.login 0 Vpn ++ [ERecv 0 (Ok FGetPeers)])) 0
    (Demo.conn (Demo.login 0 Vpn ++ [ERecv 0 (Ok FGetPeers)]) 0) (Demo.session Vpn) []
    (Demo.after ((Demo.login 0 Vpn ++ [ERecv 0 (Ok FGetPeers)]) ++ [ETau 0 0])) 0)
    as (ps & Hps & _); [demo..|]. by exists ps.
Defined.

(** The device fails the write: the handler goes back to reading all the same. *)
Lemma handler_returns_witness :
  let es := Demo.login 0 Vpn ++ [ERecv 0 (Ok (FPacket Demo.packet))] in
  exists k', sv_conns (Demo.after (es ++ [ETau 0 0; ETau 0 0; EDev 0 false])) !! 0%nat = Some k' /\
    cn_phase k' = Running (Demo.session Vpn) [].
Proof.
  cbv zeta.
  destruct (handler_returns (Demo.login 0 Vpn ++ [ERecv 0 (Ok (FPacket Demo.packet))]) Demo.cfg true true 0
    (Demo.after (Demo.login 0 Vpn ++ [ERecv 0 (Ok (FPacket Demo.packet))])) 0
    (Demo.conn (Demo.login 0 Vpn ++ [ERecv 0 (Ok (FPacket Demo.packet))]) 0) (Demo.session Vpn)
    (on_frame (Demo.session Vpn) (FPacket Demo.packet))) as [Hh _]; [demo..|].
  destruct (Hh [ETau 0 0; ETau 0 0; EDev 0 false]
    (Demo.after ((Demo.login 0 Vpn ++ [ERecv 0 (Ok (FPacket Demo.packet))]) ++ [ETau 0 0; ETau 0 0; EDev 0 false])))
    as (k' & todo' & Hk & Hp & Hl & _).
  - apply Demo.after_goes_on; vm_compute; reflexivity.
  - intros r Hr. repeat (apply elem_of_cons in Hr as [Hr|Hr]; [done|]). by apply elem_of_nil in Hr.
  - exists k'. split; [exact Hk|]. rewrite Hp. destruct todo' as [|[] ?]; [done|vm_compute in Hl; lia..].
Defined.

Lemma handshake_outcome_witness :
  exists s' k', run [ERecv 0 (Ok (FHello (Demo.hello Vpn))); ETau 0 0; ETau 0 5; ETau 0 0; ETau 0 0; ESent 0 true]
      (Demo.after [EAccept "a"]) = Some s' /\
    sv_conns s' !! 0%nat = Some k' /\ cn_phase k' = Running (Demo.session Vpn) [].
Proof.
  destruct (handshake_outcome (Demo.after [EAccept "a"]) 0 (Demo.conn [EAccept "a"] 0) (Demo.hello Vpn) 5)
    as (s' & k' & Hr & Hk & Hp & _); [demo..|]. by exists s', k'.
Defined.

Lemma disconnect_cleans_up_witness :
  exists s', run [ERecv 0 (Err Closed); ETau 0 0; ETau 0 0; ETau 0 0; ETau 0 0] (Demo.after Demo.traffic) = Some s' /\
    Router.v4s (sv_router s') !! v4 10 66 0 2 = None.
Proof.
  destruct (disconnect_cleans_up (Demo.after Demo.traffic) 0 (Demo.conn Demo.traffic 0) (Demo.session Vpn) Closed
    (mkCounters 20 20)) as (s' & k' & Hr & _ & _ & _ & _ & _ & H4 & _); [demo..|].
  exists s'. exact (conj Hr H4).
Defined.

Lemma older_disconnect_unroutes_newer_witness :
  let es := Demo.login 0 Vpn ++ Demo.login 1 GlobalProxy in
  exists s', run [ERecv 0 (Err Closed); ETau 0 0; ETau 0 0; ETau 0 0; ETau 0 0] (Demo.after es) = Some s' /\
    sv_conns s' !! 1%nat = Some (Demo.conn es 1) /\
    Router.v4s (sv_router s') !! assigned (Demo.session GlobalProxy) = None.
Proof.
  cbv zeta.
  destruct (older_disconnect_unroutes_newer (Demo.after (Demo.login 0 Vpn ++ Demo.login 1 GlobalProxy)) 0 1
    (Demo.conn (Demo.login 0 Vpn ++ Demo.login 1 GlobalProxy) 0)
    (Demo.conn (Demo.login 0 Vpn ++ Demo.login 1 GlobalProxy) 1)
    (Demo.session Vpn) (Demo.session GlobalProxy) Closed) as (s' & Hr & Hk & H4 & _);
    [demo|demo|done|demo|demo|reflexivity|]. exists s'. exact (conj Hr (conj Hk H4)).
Defined.
