(* ===== verification/Uplink.v ===== *)
(** What becomes of the frames a client sends (server/src/session.rs): the packets handed to
    the TUN and the bytes written to the remotes of its streams, against the sequence of
    frames received on the connection. *)
From stdpp Require Import gmap.
From S2P Require Import Prelude Net Text Core Mpsc ServerConfig Router Session SessionInv SessionLaws ServerThms.

(** ** What was received, as events and as actions *)

Definition frames (c : cid) (es : list event) : list Frame :=
  omap (fun e => match e with ERecv d (Ok f) => if decide (d = c) then Some f else None | _ => None end) es.
(** The data for a stream up to its end, by a close or by a new opening under its id. *)
Fixpoint stream_data (id : Z) (fs : list Frame) : list bytes :=
  match fs with
  | [] => []
  | FStreamData i d :: r => if decide (i = id) then d :: stream_data id r else stream_data id r
  | FStreamOpen i _ :: r | FStreamClose i _ :: r => if decide (i = id) then [] else stream_data id r
  | _ :: r => stream_data id r
  end.

(** The actions that move data up, and what a list of them does. *)
Definition is_up (a : action) : bool :=
  match a with ATun _ | AOpen _ _ | AData _ _ | ARemove _ => true | _ => false end.
Definition ups : list action -> list action := List.filter is_up.
Definition tun_act (a : action) : option bytes := match a with ATun p => Some p | _ => None end.
Fixpoint offered (id : Z) (l : list action) : list bytes :=
  match l with
  | [] => []
  | AData i d :: r => if decide (i = id) then d :: offered id r else offered id r
  | AOpen i _ :: r | ARemove i :: r => if decide (i = id) then [] else offered id r
  | _ :: r => offered id r
  end.
Fixpoint unended (id : Z) (l : list action) : bool :=
  match l with
  | [] => true
  | AOpen i _ :: r | ARemove i :: r => if decide (i = id) then false else unended id r
  | _ :: r => unended id r
  end.
Definition data_for (id : Z) (a : action) : list bytes :=
  match a with AData i d => if decide (i = id) then [d] else [] | _ => [] end.
Definition ends (id : Z) (a : action) : bool :=
  match a with AOpen i _ | ARemove i => bool_decide (i = id) | _ => false end.

Lemma offered_snoc id l a : offered id (l ++ [a]) = offered id l ++ if unended id l then data_for id a else [].
Proof.
  induction l as [|b l IH]; [destruct a; cbn; try done; by case_decide|].
  destruct b; cbn; try exact IH; case_decide; cbn; try exact IH; try done. by rewrite IH.
Qed.
Lemma unended_snoc id l a : unended id (l ++ [a]) = unended id l && negb (ends id a).
Proof.
  induction l as [|b l IH]; [destruct a; cbn; try done; case_decide; case_bool_decide; done|].
  destruct b; cbn; try exact IH; case_decide; try exact IH; done.
Qed.
Lemma offered_app_prefix id l m : offered id l `prefix_of` offered id (l ++ m).
Proof.
  induction m as [|a m IH] using rev_ind; [by rewrite app_nil_r|]. rewrite app_assoc, offered_snoc.
  by apply prefix_app_r.
Qed.

(** ** The state of a stream's task against the actions done *)

Definition chunks_of (t : Task) : list bytes :=
  t_sent t ++ match t_up t with UWriting d => [d] | _ => [] end ++ items (t_rx t).
(** [l]: the actions done since the opening of the stream. *)
Record fed_by (l : list action) (t : Task) : Prop := {
  fd_sub : chunks_of t `sublist_of` offered (t_id t) l;
  fd_sent : (length (offered (t_id t) l) <= 256)%nat -> t_sent t `prefix_of` offered (t_id t) l;
  fd_all : (length (offered (t_id t) l) <= 256)%nat -> rx_open (t_rx t) = true -> chunks_of t = offered (t_id t) l;
  fd_closed : rx_open (t_rx t) = false -> chunks_of t = t_sent t;
  fd_cap : cap (t_rx t) = 256;
}.
(** [m]: the stream table, as long as the handler keeps it. *)
Definition fed (m : option (gmap Z tid)) (done : list action) (x : tid) (t : Task) : Prop :=
  exists pre post, done = pre ++ AOpen (t_id t) (t_target t) :: post /\ fed_by post t /\
    (forall m', m = Some m' -> (m' !! t_id t = Some x <-> unended (t_id t) post = true)).

(** A step of the task itself: nothing is offered; what is taken is written or given up. *)
Record works (t t' : Task) : Prop := {
  wk_same : t_conn t' = t_conn t /\ t_id t' = t_id t /\ t_target t' = t_target t /\ cap (t_rx t') = cap (t_rx t);
  wk_sub : chunks_of t' `sublist_of` chunks_of t;
  wk_sent : t_sent t' `prefix_of` chunks_of t /\ t_sent t `prefix_of` t_sent t';
  wk_open : rx_open (t_rx t') = true -> rx_open (t_rx t) = true /\ chunks_of t' = chunks_of t;
  wk_closed : (rx_open (t_rx t) = false -> chunks_of t = t_sent t) -> rx_open (t_rx t') = false -> chunks_of t' = t_sent t';
}.
Lemma works_refl t t' : t_conn t' = t_conn t -> t_id t' = t_id t -> t_target t' = t_target t -> t_rx t' = t_rx t ->
  t_up t' = t_up t -> t_sent t' = t_sent t -> works t t'.
Proof.
  intros E1 E2 E3 E4 E5 E6. assert (chunks_of t' = chunks_of t) as E by (unfold chunks_of; by rewrite E4, E5, E6).
  split; rewrite ?E, ?E4, ?E6; try done.
  split; [by apply prefix_app_r|done].
Qed.
Lemma works_end t t' : t_conn t' = t_conn t -> t_id t' = t_id t -> t_target t' = t_target t ->
  t_rx t' = close_rx (t_rx t) -> t_up t' = UEnded -> t_sent t' = t_sent t -> works t t'.
Proof.
  intros E1 E2 E3 E4 E5 E6. assert (chunks_of t' = t_sent t) as E.
  { unfold chunks_of. rewrite E4, E5, E6. cbn. by rewrite app_nil_r. }
  split; rewrite ?E, ?E4, ?E6; cbn; try done; [by apply sublist_inserts_r|].
  split; [by apply prefix_app_r|done].
Qed.
Lemma fed_works m done x t t' : works t t' -> fed m done x t -> fed m done x t'.
Proof.
  intros [(Ec & Ei & Et & Ek) Hsub [Hs1 Hs2] Ho Hc] (pre & post & -> & [F1 F2 F3 F4 F5] & Hm). exists pre, post.
  rewrite Et, Ei. split; [done|]. split; [|done]. split; rewrite ?Ei, ?Ek; try done.
  - by etrans.
  - intros Hl. destruct (rx_open (t_rx t)) eqn:E; [rewrite <- (F3 Hl eq_refl)|rewrite (F4 eq_refl) in Hs1]; [done|].
    etrans; [exact Hs1|by apply F2].
  - intros Hl Hr. destruct (Ho Hr) as [Hr' ->]. auto.
  - auto.
Qed.

(** *** An action of the handler *)

(** An action that gives the task nothing. *)
Lemma fed_idle (m m' : gmap Z tid) done x t a : fed (Some m) done x t ->
  (m !! t_id t = Some x -> data_for (t_id t) a = []) ->
  (m' !! t_id t = Some x <-> m !! t_id t = Some x /\ ends (t_id t) a = false) ->
  fed (Some m') (done ++ [a]) x t.
Proof.
  intros (pre & post & -> & [F1 F2 F3 F4 F5] & Hm) Hd Hm'. specialize (Hm m eq_refl).
  exists pre, (post ++ [a]). rewrite <- app_assoc. split; [done|].
  assert (offered (t_id t) (post ++ [a]) = offered (t_id t) post) as E.
  { rewrite offered_snoc. destruct (unended (t_id t) post); [rewrite Hd by (by apply Hm)|]; by rewrite app_nil_r. }
  split; [by split; rewrite ?E|]. intros ? [= <-]. rewrite Hm', unended_snoc, andb_true_iff, negb_true_iff, <- Hm. done.
Qed.
(** A chunk for the stream in the table: queued, or dropped when there is no room. *)
Lemma fed_data (m : gmap Z tid) done x t d : fed (Some m) done x t -> m !! t_id t = Some x ->
  fed (Some m) (done ++ [AData (t_id t) d]) x (task_rx t (try_send d (t_rx t)).1).
Proof.
  intros (pre & post & -> & [F1 F2 F3 F4 F5] & Hm) Hx. specialize (Hm m eq_refl).
  exists pre, (post ++ [AData (t_id t) d]). rewrite <- app_assoc. split; [done|].
  assert (offered (t_id t) (post ++ [AData (t_id t) d]) = offered (t_id t) post ++ [d]) as E.
  { rewrite offered_snoc. rewrite (proj1 Hm Hx). cbn. by rewrite decide_True. }
  split; [|intros ? [= <-]; rewrite unended_snoc; cbn [ends negb]; by rewrite andb_true_r].
  assert (chunks_of (task_rx t (try_send d (t_rx t)).1) =
    if (try_send d (t_rx t)).2 then chunks_of t ++ [d] else chunks_of t) as Ec.
  { unfold chunks_of, try_send. destruct (_ && _); [|done]. cbn. by rewrite !app_assoc. }
  assert (rx_open (try_send d (t_rx t)).1 = rx_open (t_rx t) /\ cap (try_send d (t_rx t)).1 = cap (t_rx t)) as [Er Ek].
  { unfold try_send. destruct (rx_open (t_rx t)) eqn:Eo, (_ <? _); cbn; by rewrite ?Eo. }
  split; cbn [t_rx t_sent task_rx t_id]; rewrite ?E, ?Ec, ?Er, ?Ek, ?length_app; cbn [length]; try done.
  - destruct (try_send d (t_rx t)).2; [by apply sublist_app|by apply sublist_inserts_r].
  - intros Hl. apply prefix_app_r, F2. lia.
  - intros Hl Ho. assert ((try_send d (t_rx t)).2 = true) as ->; [|by rewrite F3 by (done || lia)].
    unfold try_send. rewrite Ho, F5. assert (queue_len (t_rx t) < 256) as Hq; [|apply Z.ltb_lt in Hq; by rewrite Hq].
    assert (length (items (t_rx t)) <= length (offered (t_id t) post))%nat.
    { rewrite <- (F3 ltac:(lia) Ho). unfold chunks_of. rewrite !length_app. lia. }
    unfold queue_len. lia.
  - intros Ho. rewrite <- (F4 Ho). unfold try_send. by rewrite Ho.
Qed.
Lemma fed_new (m : gmap Z tid) done x c id tgt :
  fed (Some (<[id := x]> m)) (done ++ [AOpen id tgt]) x (new_task c id tgt).
Proof.
  exists done, []. split; [done|]. split; [by split|]. intros ? [= <-]. cbn. rewrite lookup_insert_eq. done.
Qed.
Lemma fed_forget m done x t : fed m done x t -> fed None done x t.
Proof. intros (pre & post & -> & F & _). by exists pre, post. Qed.

(** ** A connection *)

Definition tun_of (c : cid) (s : Server) : list bytes :=
  omap (fun p => if decide (p.1 = c) then Some p.2 else None) (sv_tun s).
Definition todo_of (p : Phase) : list action := match p with Running _ todo => todo | _ => [] end.
(** The stream table, until the handler gives it up. *)
Definition table (k : Conn) : option (gmap Z tid) :=
  match cn_phase k with Finished _ => None | _ => Some (cn_streams k) end.
Definition unheard (fs : list Frame) (p : Phase) : Prop :=
  match p with
  | AwaitHello => fs = []
  | Looking _ | Offering _ _ | Rejecting _ => exists h, fs = [FHello h]
  | _ => True
  end.
Definition up_conn (c : cid) (fs : list Frame) (k : Conn) (s : Server) : Prop :=
  match session_of (cn_phase k) with
  | Some ss => exists done, ups (flat_map (on_frame ss) fs) = done ++ ups (todo_of (cn_phase k)) /\
      tun_of c s = (if sv_has_tun s then omap tun_act done else []) /\
      (forall x t, sv_tasks s !! x = Some t -> t_conn t = c -> fed (table k) done x t)
  | None => unheard fs (cn_phase k) /\ tun_of c s = [] /\
      (forall x t, sv_tasks s !! x = Some t -> t_conn t <> c)
  end.
(** A step leaves every other connection alone. *)
Definition apart (c : cid) (s s' : Server) : Prop := sv_has_tun s' = sv_has_tun s /\
  forall d, d <> c -> sv_conns s' !! d = sv_conns s !! d /\ tun_of d s' = tun_of d s /\
    (forall x t, sv_tasks s' !! x = Some t -> t_conn t = d -> sv_tasks s !! x = Some t).
Lemma up_conn_apart c d fs k s s' : apart c s s' -> d <> c -> up_conn d fs k s -> up_conn d fs k s'.
Proof.
  intros [Ht Ha] Hd. destruct (Ha d Hd) as (_ & Eu & Hx). unfold up_conn. rewrite Ht, Eu.
  destruct (session_of (cn_phase k)) as [ss|].
  - intros (done & ? & ? & Hf). exists done. eauto.
  - intros (? & ? & Hf). split_and!; [done..|]. intros x t H1 H2. eapply Hf; eauto.
Qed.
Lemma apart_conn c k' s s' : sv_has_tun s' = sv_has_tun s -> sv_conns s' = <[c := k']> (sv_conns s) ->
  sv_tasks s' = sv_tasks s -> sv_tun s' = sv_tun s -> apart c s s'.
Proof.
  intros E1 E2 E3 E4. split; [done|]. intros d Hd. rewrite E2, E3. unfold tun_of. rewrite E4.
  split; [by rewrite lookup_insert_ne|]. done.
Qed.

(** A step of the connection that neither reads a frame nor performs an action. *)
Lemma up_conn_same c fs k k' s s' : sv_has_tun s' = sv_has_tun s -> sv_tasks s' = sv_tasks s -> sv_tun s' = sv_tun s ->
  session_of (cn_phase k') = session_of (cn_phase k) -> ups (todo_of (cn_phase k')) = ups (todo_of (cn_phase k)) ->
  (unheard fs (cn_phase k) -> unheard fs (cn_phase k')) -> table k' = table k \/ table k' = None ->
  up_conn c fs k s -> up_conn c fs k' s'.
Proof.
  intros E1 E2 E3 E4 E5 Hu Ht. unfold up_conn, tun_of. rewrite E1, E2, E3, E4, E5.
  destruct (session_of (cn_phase k)) as [ss|]; [|by intros (? & ? & ?); auto].
  intros (done & ? & ? & Hf). exists done. split_and!; [done..|]. intros x t H1 H2. specialize (Hf x t H1 H2).
  destruct Ht as [-> | ->]; [done|]. by eapply fed_forget.
Qed.

Lemma tun_of_log c d pkt b s : tun_of d (log_tun c pkt b s) = tun_of d s ++ if decide (c = d) then [pkt] else [].
Proof. unfold tun_of, sv_tun. cbn. rewrite map_app, omap_app. cbn. by case_decide. Qed.

(** An action that moves data up: what it does to the log and to the tasks. *)
Lemma action_up c ss a rest k k' s s' fs :
  cn_phase k = Running ss (a :: rest) -> is_up a = true -> cn_phase k' = Running ss rest -> up_conn c fs k s ->
  sv_has_tun s' = sv_has_tun s ->
  tun_of c s' = tun_of c s ++ (if sv_has_tun s then option_list (tun_act a) else []) ->
  (forall done x t', sv_tasks s' !! x = Some t' -> t_conn t' = c ->
     (forall y u, sv_tasks s !! y = Some u -> t_conn u = c -> fed (Some (cn_streams k)) done y u) ->
     fed (Some (cn_streams k')) (done ++ [a]) x t') ->
  up_conn c fs k' s'.
Proof.
  intros Hp Ha Hp'. unfold up_conn, table. rewrite Hp, Hp'. cbn [session_of todo_of].
  intros (done & E & Et & Hf) Hh Hu Hx. exists (done ++ [a]). split_and!.
  - rewrite E. unfold ups. cbn [List.filter]. rewrite Ha. by rewrite <- app_assoc.
  - rewrite Hu, Et, Hh. destruct (sv_has_tun s); [|done]. rewrite omap_app. cbn. by destruct (tun_act a).
  - intros x t H1 H2. eapply Hx; eauto.
Qed.
(** The tasks are those of before, one of this connection's changed or added. *)
Lemma apart_task c k' s s' : sv_has_tun s' = sv_has_tun s -> sv_conns s' = <[c := k']> (sv_conns s) ->
  (forall d, d <> c -> tun_of d s' = tun_of d s) ->
  (forall x t, sv_tasks s' !! x = Some t -> sv_tasks s !! x = Some t \/ t_conn t = c) -> apart c s s'.
Proof.
  intros E1 E2 E3 E4. split; [done|]. intros d Hd. rewrite E2. split_and!; [by rewrite lookup_insert_ne|auto|].
  intros x t Hx Hc. destruct (E4 x t Hx) as [|E]; [done|congruence].
Qed.

Section Steps.
Context (c : cid) (ss : Session) (rest : list action) (k : Conn) (s : Server) (fs : list Frame).
Hypothesis Hk : sv_conns s !! c = Some k.
Hypothesis Hfresh : ids_fresh s.
Hypothesis Hown : streams_own s.
Hypothesis Hu : up_conn c fs k s.

Definition steps_up (s' : Server) : Prop := exists k', sv_conns s' = <[c := k']> (sv_conns s) /\
  up_conn c fs k' s' /\ apart c s s'.

Lemma idle_up a todo s' : cn_phase k = Running ss (a :: rest) -> is_up a = false -> ups todo = ups rest ->
  sv_conns s' = <[c := in_phase k (Running ss todo)]> (sv_conns s) ->
  sv_has_tun s' = sv_has_tun s -> sv_tasks s' = sv_tasks s -> sv_tun s' = sv_tun s -> steps_up s'.
Proof.
  intros Hp Ha Et E1 E2 E3 E4. exists (in_phase k (Running ss todo)). split_and!; [done| |by eapply apart_conn].
  eapply up_conn_same; [..|exact Hu]; rewrite ?Hp; try done.
  - cbn. rewrite Et. unfold ups. cbn [List.filter]. by rewrite Ha.
  - left. unfold table. by rewrite Hp.
Qed.
Lemma tun_up b pkt : cn_phase k = Running ss (ATun pkt :: rest) -> steps_up (do_action c b ss (ATun pkt) rest k s).
Proof.
  intros Hp. assert (sv_has_tun (do_action c b ss (ATun pkt) rest k s) = sv_has_tun s) as Eh
    by (cbn; destruct (sv_has_tun s) eqn:E; cbn; by rewrite E).
  eexists. split; [cbn; by destruct (sv_has_tun s)|]. split.
  - eapply action_up; [exact Hp|done|done|exact Hu|exact Eh| |].
    + cbn. destruct (sv_has_tun s); cbn; [|by rewrite app_nil_r]. rewrite <- (decide_True (P := c = c) [pkt] []) by done.
      apply tun_of_log.
    + intros done x t Hx Hc Hf. assert (sv_tasks s !! x = Some t) as Hx' by (revert Hx; cbn; by destruct (sv_has_tun s)).
      apply (fed_idle (cn_streams k)); [by apply Hf|done|]. cbn. naive_solver.
  - eapply apart_task; [exact Eh|cbn; by destruct (sv_has_tun s)| |].
    + intros d Hd. cbn. destruct (sv_has_tun s); [|done]. etrans; [apply (tun_of_log c d pkt b s)|].
      rewrite decide_False by congruence. by rewrite app_nil_r.
    + intros x t Hx. left. revert Hx. cbn. by destruct (sv_has_tun s).
Qed.
Lemma open_up b id tgt : cn_phase k = Running ss (AOpen id tgt :: rest) -> steps_up (do_action c b ss (AOpen id tgt) rest k s).
Proof.
  intros Hp. eexists. split; [reflexivity|]. split.
  - eapply action_up; [exact Hp|done|done|exact Hu|done|cbn; by destruct (sv_has_tun s); rewrite app_nil_r|].
    intros done x t Hx Hc Hf. cbn in Hx. apply lookup_insert_Some in Hx as [[<- <-]|[Hne Hx]]; [apply fed_new|].
    apply (fed_idle (cn_streams k)); [by apply Hf|done|]. cbn. case_bool_decide as Hid.
    + subst id. rewrite lookup_insert_eq. naive_solver.
    + rewrite lookup_insert_ne by done. naive_solver.
  - eapply apart_task; [done|reflexivity|done|]. intros x t Hx. cbn in Hx.
    apply lookup_insert_Some in Hx as [[_ <-]|[_ Hx]]; [by right|by left].
Qed.
Lemma data_up b id d : cn_phase k = Running ss (AData id d :: rest) -> steps_up (do_action c b ss (AData id d) rest k s).
Proof.
  intros Hp. cbn [do_action]. destruct (cn_streams k !! id) as [y|] eqn:Hy.
  - destruct (Hown c k id y Hk Hy) as (u & Hyu & Huc & Hui). eexists. split; [reflexivity|]. split.
    + eapply action_up; [exact Hp|done|done|exact Hu|done|cbn; by destruct (sv_has_tun s); rewrite app_nil_r|].
      intros done x t Hx Hc Hf. cbn in Hx. apply lookup_alter_Some in Hx as [(<- & u' & Hyu' & ->)|[Hne Hx]].
      * rewrite Hyu in Hyu'. injection Hyu' as <-. rewrite <- Hui. apply fed_data; [by apply Hf|by rewrite Hui].
      * apply (fed_idle (cn_streams k)); [by apply Hf| |cbn; naive_solver].
        intros Hxt. cbn. rewrite decide_False; [done|]. intros ->. rewrite Hy in Hxt. congruence.
    + eapply apart_task; [done|reflexivity|done|]. intros x t Hx. cbn in Hx.
      apply lookup_alter_Some in Hx as [(<- & u' & Hyu' & ->)|[_ Hx]]; [right; cbn; congruence|by left].
  - eexists. split; [reflexivity|]. split; [|by eapply apart_conn].
    eapply action_up; [exact Hp|done|done|exact Hu|done|cbn; by destruct (sv_has_tun s); rewrite app_nil_r|].
    intros done x t Hx Hc Hf. apply (fed_idle (cn_streams k)); [by apply Hf| |cbn; naive_solver].
    intros Hxt. cbn. rewrite decide_False; [done|]. congruence.
Qed.
Lemma remove_up b id : cn_phase k = Running ss (ARemove id :: rest) -> steps_up (do_action c b ss (ARemove id) rest k s).
Proof.
  intros Hp. eexists. split; [reflexivity|]. split; [|by eapply apart_conn].
  eapply action_up; [exact Hp|done|done|exact Hu|done|cbn; by destruct (sv_has_tun s); rewrite app_nil_r|].
  intros done x t Hx Hc Hf. apply (fed_idle (cn_streams k)); [by apply Hf|done|]. cbn.
  case_bool_decide as Hid; [subst id; rewrite lookup_delete_eq|rewrite lookup_delete_ne by done]; naive_solver.
Qed.
Lemma do_action_up b a : cn_phase k = Running ss (a :: rest) -> steps_up (do_action c b ss a rest k s).
Proof.
  intros Hp. destruct a; [by eapply idle_up|by eapply idle_up|by apply tun_up|by eapply idle_up| |by apply open_up|by apply data_up|by apply remove_up].
  eapply (idle_up _ (ATrySend _ :: rest)); try done.
Qed.
End Steps.

(** ** Every step *)

Section Run.
Context `{IpNet}.

Definition heard_from (fs : list Frame) (c : cid) (s s' : Server) : Prop := exists k',
  sv_conns s' = <[c := k']> (sv_conns s) /\ up_conn c fs k' s' /\ apart c s s'.

Ltac by_same K P Hu := intros [= <-]; eexists; split; [reflexivity|]; split; [|by eapply apart_conn];
  eapply up_conn_same; [done|done|done|..|exact Hu]; unfold table; cbn; rewrite ?P; cbn; auto.

Lemma received_up c r k s s' fs : sv_conns s !! c = Some k -> up_conn c fs k s -> received c r k s = Some s' ->
  heard_from (fs ++ match r with Ok f => [f] | Err _ => [] end) c s s'.
Proof.
  intros Hk Hu. unfold received. destruct (cn_phase k) as [| | | | | | |ss [|]| | | | |] eqn:P; try done.
  - intros [= <-]. eexists. split; [reflexivity|]. split; [|by eapply apart_conn]. revert Hu.
    unfold up_conn. rewrite P. cbn. intros (-> & ? & ?). destruct r as [[]|]; cbn; try done.
    split_and!; [by eexists|done|done].
  - intros [= <-]. eexists. split; [reflexivity|]. split; [|by eapply apart_conn]. revert Hu.
    unfold up_conn, table. rewrite P. cbn. intros (done & E & ? & ?). destruct r as [f|e]; cbn.
    + exists done. split_and!; [|done|done]. unfold ups in *. by rewrite flat_map_app, List.filter_app, E, app_nil_r; cbn; rewrite app_nil_r.
    + rewrite app_nil_r. by exists done.
Qed.
Lemma tau_up c rnd k s s' fs : sv_conns s !! c = Some k -> ids_fresh s -> streams_own s -> up_conn c fs k s ->
  tau c rnd k s = Some s' -> heard_from fs c s s'.
Proof.
  intros Hk Hf Ho Hu. unfold tau.
  destruct (cn_phase k) as [|h| |h p|ss w|ss w| |ss [|a todo]|ss b|ss b|ss|ss|] eqn:P; try done.
  - intros [= <-]. eexists. split; [reflexivity|]. split; [|by eapply apart_conn].
    destruct (admission _ _); (eapply up_conn_same; [done|done|done|..|exact Hu]; unfold table; cbn; rewrite ?P; cbn; auto).
  - destruct (net_offer _ _ _ _ _) as [ss w] eqn:E. intros [= <-]. eexists. split; [reflexivity|].
    split; [|by eapply apart_conn]. revert Hu. unfold up_conn. rewrite P. cbn. intros ([h' ->] & Ht & Hx).
    exists []. split_and!; [done|etrans; [exact Ht|by destruct (sv_has_tun s)]|]. intros x t H1 H2. by destruct (Hx x t).
  - by_same Hk P Hu.
  - by_same Hk P Hu.
  - destruct (awaits_dev s a); [done|]. intros [= <-]. by eapply do_action_up.
  - by_same Hk P Hu.
  - destruct b; by_same Hk P Hu.
  - by_same Hk P Hu.
  - by_same Hk P Hu.
Qed.
Lemma tun_wrote_up c b k s s' fs : sv_conns s !! c = Some k -> ids_fresh s -> streams_own s -> up_conn c fs k s ->
  tun_wrote c b k s = Some s' -> heard_from fs c s s'.
Proof. intros Hk Hf Ho Hu (ss & pkt & rest & P & _ & ->)%tun_wrote_Some. by eapply do_action_up. Qed.
Lemma sent_up c b k s s' fs : sv_conns s !! c = Some k -> up_conn c fs k s -> sent c b k s = Some s' -> heard_from fs c s s'.
Proof. intros Hk Hu. unfold sent. destruct (cn_phase k) eqn:P; try done; destruct b; by_same Hk P Hu. Qed.
Lemma writer_up c b k s s' fs : sv_conns s !! c = Some k -> up_conn c fs k s ->
  (writer_take c k s = Some s' \/ writer_sent c b k s = Some s' \/ writer_tau c k s = Some s' \/ writer_stop c k s = Some s') ->
  heard_from fs c s s'.
Proof.
  intros Hk Hu [E|[E|[E|E]]]; revert E; unfold writer_take, writer_sent, writer_tau, writer_stop;
    destruct (cn_writer k) eqn:W; try done; try (destruct (cn_stop k); try done); try (destruct b);
    pose proof (eq_refl (cn_phase k)) as P; try (by_same Hk P Hu; fail).
  all: destruct (sv_queues s !! c) as [q|]; [cbn [mbind option_bind]|done]; destruct (pop q) as [[f q']|]; [by_same Hk P Hu|].
  all: destruct (no_senders c k s); [by_same Hk P Hu|done].
Qed.
Lemma task_up x t s s' r r' b : sv_tasks s !! x = Some t ->
  (dialed x r t s = Some s' \/ up_take x t s = Some s' \/ up_wrote x b t s = Some s' \/
   down_read x r' t s = Some s' \/ down_send x t s = Some s' \/ down_stop x t s = Some s') ->
  exists t', sv_tasks s' = <[x := t']> (sv_tasks s) /\ works t t' /\ sv_tun s' = sv_tun s /\
    sv_has_tun s' = sv_has_tun s /\ sv_conns s' = sv_conns s.
Proof.
  intros Ht [E|[E|[E|[E|[E|E]]]]]; revert E.
  - unfold dialed. destruct (t_phase t); try done. intros [= <-]. eexists. split; [reflexivity|]. split; [by apply works_refl|done].
  - unfold up_take. destruct (t_phase t); try done. destruct (t_up t) eqn:U; try done.
    destruct (pop (t_rx t)) as [[d m]|] eqn:Hp.
    + intros [= <-]. eexists. split; [reflexivity|]. split; [|done].
      unfold pop in Hp. destruct (items (t_rx t)) as [|y l] eqn:I; [done|]. injection Hp as <- <-.
      assert (chunks_of (task_up (task_rx t (mkMpsc l (cap (t_rx t)) (rx_open (t_rx t)))) (UWriting y)) = chunks_of t) as Ec
        by (unfold chunks_of; cbn; by rewrite U, I).
      split; rewrite ?Ec; cbn; try done. split; [by apply prefix_app_r|done].
    + destruct (sender_alive x t s); [done|]. intros [= <-]. eexists. split; [reflexivity|]. split; [by apply works_end|done].
  - unfold up_wrote. destruct (t_phase t); try done. destruct (t_up t) as [|d|] eqn:U; try done. intros [= <-]. destruct b.
    + eexists. split; [reflexivity|]. split; [|done].
      assert (chunks_of (task_up (task_sent t d) UIdle) = chunks_of t) as Ec by (unfold chunks_of; cbn; by rewrite U, <- app_assoc).
      split; rewrite ?Ec; cbn; try done.
      * split; [unfold chunks_of; rewrite U; rewrite app_assoc; by apply prefix_app_r|by apply prefix_app_r].
      * intros Hc Ho. specialize (Hc Ho). exfalso. unfold chunks_of in Hc. rewrite U in Hc.
        apply (f_equal length) in Hc. rewrite !length_app in Hc. cbn in Hc. lia.
    + eexists. split; [reflexivity|]. split; [by apply works_end|done].
  - unfold down_read. destruct (t_phase t); try done. destruct (t_down t); try done.
    assert (forall d, exists t', set_task x (task_down t d) s = set_task x t' s /\ works t t') as Hw
      by (intros d; eexists; split; [reflexivity|by apply works_refl]).
    destruct r' as [[|y d]|e]; [|destruct (_ <=? _)%nat; [|done]|]; intros [= <-];
      match goal with |- context [task_down t ?d] => destruct (Hw d) as (t' & E & W) end;
      exists t'; by rewrite E.
  - unfold down_send. destruct (t_phase t); try done; [|destruct (t_down t); try done];
      (destruct (session_send _ _ _) as [[p b']|] eqn:E; [cbn|done]);
      apply session_send_Some in E as (q & _ & _ & Ep); cbn in Ep; subst p; intros [= <-]; eexists; split; [reflexivity| |reflexivity|].
    + split; [by apply works_end|done].
    + split; [by apply works_refl|done].
  - unfold down_stop. destruct (t_stop t); [|done]. intros [= <-]. eexists. split; [reflexivity|]. split; [by apply works_refl|done].
Qed.

(** A step, seen by all connections. *)
Definition ups_ok (es : list event) (s : Server) : Prop :=
  (forall c k, sv_conns s !! c = Some k -> up_conn c (frames c es) k s) /\
  (forall c, sv_conns s !! c = None -> frames c es = []).
Definition heard (c : cid) (e : event) : list Frame :=
  match e with ERecv d (Ok f) => if decide (d = c) then [f] else [] | _ => [] end.
Lemma received_snoc c es e : frames c (es ++ [e]) = frames c es ++ heard c e.
Proof. unfold frames. rewrite omap_app. cbn. f_equal. destruct e; try done. cbn. destruct r; [|done]. by case_decide. Qed.

Lemma ups_ok_conn c es e s s' k fs : ups_ok es s -> sv_conns s !! c = Some k -> heard_from fs c s s' ->
  fs = frames c (es ++ [e]) -> (forall d, d <> c -> heard d e = []) -> ups_ok (es ++ [e]) s'.
Proof.
  intros [Hu Hn] Hk (k' & E & Hc & Ha) -> Hd. split; intros d.
  - intros kd. destruct (decide (d = c)) as [->|Hne].
    + rewrite E, lookup_insert_eq. by intros [= <-].
    + rewrite E, lookup_insert_ne by done. intros Hkd. rewrite received_snoc, Hd, app_nil_r by done.
      eapply up_conn_apart; eauto.
  - rewrite E, lookup_insert_None. intros [Hkd Hne]. rewrite received_snoc, Hd, app_nil_r by done. auto.
Qed.
Lemma ups_ok_same es e s s' : ups_ok es s -> sv_conns s' = sv_conns s -> sv_tasks s' = sv_tasks s -> sv_tun s' = sv_tun s ->
  sv_has_tun s' = sv_has_tun s -> (forall d, heard d e = []) -> ups_ok (es ++ [e]) s'.
Proof.
  intros [Hu Hn] E1 E2 E3 E4 Hd. split; intros d; rewrite E1, received_snoc, Hd, app_nil_r; [|apply Hn].
  intros k Hk. specialize (Hu d k Hk). revert Hu. unfold up_conn, tun_of. by rewrite E2, E3, E4.
Qed.
Lemma ups_ok_task es e x t t' s s' : ups_ok es s -> sv_tasks s !! x = Some t -> sv_tasks s' = <[x := t']> (sv_tasks s) ->
  works t t' -> sv_tun s' = sv_tun s -> sv_has_tun s' = sv_has_tun s -> sv_conns s' = sv_conns s ->
  (forall d, heard d e = []) -> ups_ok (es ++ [e]) s'.
Proof.
  intros [Hu Hn] Ht E2 Hw E3 E4 E1 Hd. split; intros d; rewrite E1, received_snoc, Hd, app_nil_r; [|apply Hn].
  intros k Hk. specialize (Hu d k Hk). revert Hu. unfold up_conn, tun_of. rewrite E2, E3, E4.
  pose proof (wk_same _ _ Hw) as (Ec & _).
  destruct (session_of (cn_phase k)) as [ss|].
  - intros (done & ? & ? & Hf). exists done. split_and!; [done..|]. intros y u [[<- <-]|[_ Hy]]%lookup_insert_Some Hc; [|auto].
    eapply fed_works; [exact Hw|]. apply Hf; congruence.
  - intros (? & ? & Hf). split_and!; [done..|]. intros y u [[<- <-]|[_ Hy]]%lookup_insert_Some; [|eauto].
    rewrite Ec. eauto.
Qed.
Lemma ups_ok_accept es s addr : inv s -> ups_ok es s ->
  ups_ok (es ++ [EAccept addr]) (set_conn (sv_next s) (mkConn addr AwaitHello WNone false ∅ [])
    (set_env (sv_cfg s) (sv_demux s) (sv_now s) (S (sv_next s)) s)).
Proof.
  intros Hi [Hu Hn]. destruct (inv_fresh _ Hi (sv_next s)) as [Hc _]; [lia|].
  split; intros d; rewrite received_snoc; cbn; rewrite app_nil_r.
  - intros k [[<- <-]|[Hne Hk]]%lookup_insert_Some; [|by apply Hu]. unfold up_conn. cbn. split_and!; [by apply Hn| |].
    + unfold tun_of. cbn. apply elem_of_nil_inv. intros p (q & Hq & E)%list_elem_of_omap. case_decide; [|done].
      destruct q as [c' pkt]. cbn in *. subst c'. apply list_elem_of_In in Hq.
      destruct (inv_tun _ Hi _ _ Hq) as (ss & (k & Hk & _) & _). congruence.
    + intros x t Hx E. destruct (inv_tasks _ Hi _ _ Hx) as (ss & (k & Hk & _) & _). congruence.
  - rewrite lookup_insert_None. intros [Hk _]. by apply Hn.
Qed.

Lemma step_ups es s e s' : inv s -> ups_ok es s -> step s e = Some s' -> ups_ok (es ++ [e]) s'.
Proof.
  intros Hi Hu E. destruct e; cbn [step] in E.
  1-3: repeat case_match; simplify_eq; by eapply ups_ok_same.
  1: { injection E as <-. by apply ups_ok_accept. }
  9: { repeat case_match; simplify_eq; by eapply ups_ok_same. }
  1-8: apply bind_Some in E as (k & K & E); pose proof (proj1 Hu _ _ K) as Hc.
  9-14: apply bind_Some in E as (x & X & E);
    edestruct (task_up t x s s') as (t' & Et & Hw & E1 & E2 & E3); [exact X|eauto 12|by eapply ups_ok_task].
  1: { eapply ups_ok_conn; [done|exact K|by eapply received_up|rewrite received_snoc; f_equal|].
       - cbn. destruct r; [by rewrite decide_True|done].
       - intros d Hd. cbn. destruct r; [by rewrite decide_False|done]. }
  all: eapply ups_ok_conn; [done|exact K| |rewrite received_snoc; cbn; by rewrite app_nil_r|done].
  - eapply tau_up; [done|by apply inv_fresh|by apply inv_streams|done|done].
  - eapply tun_wrote_up; [done|by apply inv_fresh|by apply inv_streams|done|done].
  - by eapply sent_up.
  - eapply writer_up; eauto.
  - eapply writer_up; eauto.
  - eapply writer_up; eauto.
  - eapply writer_up; eauto.
  Unshelve. all: first [exact (Err "")|exact true|exact (Ok [])|exact (Ok tt)].
Qed.
Lemma run_ups es cfg v6 tun now s : run es (start cfg v6 tun now) = Some s -> ups_ok es s.
Proof.
  revert s. induction es as [|e es IH] using rev_ind; intros s.
  - intros [= <-]. by split.
  - rewrite runs_app. intros (s1 & E & Hr)%bind_Some. cbn in Hr.
    destruct (step s1 e) as [s2|] eqn:E2; [|done]. injection Hr as <-. eapply step_ups; [by eapply run_inv|by apply IH|done].
Qed.
End Run.

(** ** Actions and frames *)

Lemma tun_acts ss fs : omap tun_act (ups (flat_map (on_frame ss) fs)) = if packet_path ss then packets fs else [].
Proof.
  induction fs as [|f fs IH]; cbn [flat_map]; [by destruct (packet_path ss)|].
  unfold ups in *. rewrite List.filter_app, omap_app, IH.
  destruct f; cbn; try (by destruct (packet_path ss)). by destruct (allow_http_proxy _), (packet_path ss).
Qed.
Lemma ups_cons ss f fs : ups (flat_map (on_frame ss) (f :: fs)) = ups (on_frame ss f) ++ ups (flat_map (on_frame ss) fs).
Proof. cbn [flat_map]. unfold ups. apply List.filter_app. Qed.
Lemma offered_frames ss fs id : allow_http_proxy (ss_peer ss) = true ->
  offered id (ups (flat_map (on_frame ss) fs)) = stream_data id fs.
Proof.
  intros Ha. induction fs as [|f fs IH]; [done|]. rewrite ups_cons.
  destruct f; cbn; rewrite ?Ha; cbn; try exact IH; try (case_decide; [done|exact IH]).
  - destruct (packet_path ss); exact IH.
  - case_decide; by rewrite IH.
Qed.
Lemma opened_frame ss fs pre post id tgt : ups (flat_map (on_frame ss) fs) = pre ++ AOpen id tgt :: post ->
  exists f1 f2, fs = f1 ++ FStreamOpen id tgt :: f2 /\ post = ups (flat_map (on_frame ss) f2).
Proof.
  revert pre. induction fs as [|f fs IH]; intros pre; [by destruct pre|]. rewrite ups_cons.
  destruct (ups (on_frame ss f)) as [|a [|b l]] eqn:E.
  - intros (f1 & f2 & -> & ?)%IH. by exists (f :: f1), f2.
  - destruct pre as [|a' pre]; intros [= -> Hl].
    + exists [], fs. split; [|done]. destruct f; cbn in E; try done; [by destruct (packet_path ss)|].
      destruct (allow_http_proxy _); [|done]. by injection E as -> ->.
    + apply IH in Hl as (f1 & f2 & -> & ?). by exists (f :: f1), f2.
  - exfalso. destruct f; cbn in E; try done; [by destruct (packet_path ss)|by destruct (allow_http_proxy _)].
Qed.

(** A task, the opening it serves, and what it was offered since. *)
Lemma task_fed `{IpNet} es cfg v6 tun now s x t : run es (start cfg v6 tun now) = Some s -> sv_tasks s !! x = Some t ->
  exists before rest acts, frames (t_conn t) es = before ++ FStreamOpen (t_id t) (t_target t) :: rest /\
    fed_by acts t /\ offered (t_id t) acts `prefix_of` stream_data (t_id t) rest.
Proof.
  intros Hr Hx. destruct (inv_tasks _ (run_inv _ _ _ _ _ _ Hr) _ _ Hx) as (ss & (k & Hk & Hs) & Ha).
  pose proof (proj1 (run_ups _ _ _ _ _ _ Hr) _ k Hk) as Hu.
  unfold up_conn in Hu. rewrite Hs in Hu. destruct Hu as (done & E & _ & Hf).
  destruct (Hf x t Hx eq_refl) as (pre & post & -> & F & _).
  rewrite <- app_assoc in E. cbn in E. destruct (opened_frame _ _ _ _ _ _ E) as (f1 & f2 & Ef & Ep).
  exists f1, f2, post. split_and!; [done|done|]. rewrite <- (offered_frames ss) by done. rewrite <- Ep.
  apply offered_app_prefix.
Qed.

(** Two tasks of one stream id serve two openings. *)
Definition opened_twice (id : Z) (fs : list Frame) : Prop :=
  exists f1 t1 f2 t2 f3, fs = f1 ++ FStreamOpen id t1 :: f2 ++ FStreamOpen id t2 :: f3.
Lemma opened_twice_app id fs gs : opened_twice id fs -> opened_twice id (fs ++ gs).
Proof.
  intros (f1 & t1 & f2 & t2 & f3 & ->). exists f1, t1, f2, t2, (f3 ++ gs). by rewrite <- app_assoc; cbn; rewrite <- app_assoc.
Qed.
Lemma reopened `{IpNet} es s c k ss id tgt rest y u : ups_ok es s -> sv_conns s !! c = Some k ->
  cn_phase k = Running ss (AOpen id tgt :: rest) -> sv_tasks s !! y = Some u -> t_conn u = c -> t_id u = id ->
  opened_twice id (frames c es).
Proof.
  intros [Hups _] Hk Hp Hu Hc Hid. pose proof (Hups c k Hk) as Hup. unfold up_conn in Hup. rewrite Hp in Hup. cbn in Hup.
  destruct Hup as (done & E & _ & Hf). destruct (Hf y u Hu Hc) as (pre & post & -> & _). rewrite Hid in E.
  rewrite <- app_assoc in E. cbn in E. destruct (opened_frame _ _ _ _ _ _ E) as (f1 & f2 & -> & Ep).
  destruct (opened_frame ss f2 post _ id tgt (eq_sym Ep)) as (f3 & f4 & -> & _). by exists f1, (t_target u), f3, tgt, f4.
Qed.
Lemma two_tasks `{IpNet} es cfg v6 tun now s x y t u : run es (start cfg v6 tun now) = Some s ->
  sv_tasks s !! x = Some t -> sv_tasks s !! y = Some u -> t_conn u = t_conn t -> t_id u = t_id t -> x <> y ->
  opened_twice (t_id t) (frames (t_conn t) es).
Proof.
  revert s t u. induction es as [|e es IH] using rev_ind; intros s t u Hr Ht Hu Hc Hid Hne; [by injection Hr as <-|].
  rewrite runs_app in Hr. apply bind_Some in Hr as (s1 & E & Hr). cbn in Hr.
  destruct (step s1 e) as [s2|] eqn:E2; [|done]. injection Hr as <-. pose proof (step_moves _ _ _ E2) as Hm.
  rewrite received_snoc. apply opened_twice_app.
  destruct (move_task_from _ _ _ _ Hm Ht) as [(t0 & Ht0 & Ec & Ei)|(-> & k & ss & tgt & rest & Hk & Hp)];
    destruct (move_task_from _ _ _ _ Hm Hu) as [(u0 & Hu0 & Fc & Fi)|(-> & k' & ss' & tgt' & rest' & Hk' & Hp')]; try done.
  - rewrite Ec, Ei. eapply IH; [done|done|exact Hu0|congruence..|done].
  - rewrite <- Hc, <- Hid. eapply (reopened es s1); [by eapply run_ups|done|exact Hp'|exact Ht0|congruence..].
  - eapply (reopened es s1); [by eapply run_ups|done|exact Hp|exact Hu0|congruence..].
Qed.

(** ** Properties *)

(** The server puts a client's packets on its TUN in order, each once, and no others.  In
    every run, what a connection in service has had put on the TUN is a prefix of the
    packets received on it, and all of them whenever its handler waits for the next
    frame; of a session outside the packet path, and of a server without a TUN, it is
    nothing. *)
Theorem packets_reach_tun `{IpNet} es cfg v6 tun now s c k ss :
  run es (start cfg v6 tun now) = Some s -> sv_conns s !! c = Some k -> session_of (cn_phase k) = Some ss ->
  let arrived := if sv_has_tun s && packet_path ss then packets (frames c es) else [] in
  tun_of c s `prefix_of` arrived /\ (todo_of (cn_phase k) = [] -> tun_of c s = arrived).
Proof.
  intros Hr Hk Hs. cbv zeta. pose proof (proj1 (run_ups _ _ _ _ _ _ Hr) c k Hk) as Hu.
  unfold up_conn in Hu. rewrite Hs in Hu. destruct Hu as (done & E & Et & _).
  assert ((if sv_has_tun s && packet_path ss then packets (frames c es) else []) =
    if sv_has_tun s then omap tun_act (done ++ ups (todo_of (cn_phase k))) else []) as ->
    by (rewrite <- E, tun_acts; by destruct (sv_has_tun s)).
  rewrite Et. destruct (sv_has_tun s); [|done]. rewrite omap_app. split; [by apply prefix_app_r|].
  intros ->. cbn. by rewrite app_nil_r.
Qed.

(** C6. What reaches the remote of a stream.  A remote-dialing task serves an opening the
    client sent; what it has written to its remote is, in order and without repetition,
    from the data the client sent for that stream after the opening and before its close
    or reopening; and as long as that is at most 256 chunks, nothing is missing in
    between: what was written is a prefix of it. *)
Theorem streams_reach_remotes `{IpNet} es cfg v6 tun now s x t :
  run es (start cfg v6 tun now) = Some s -> sv_tasks s !! x = Some t ->
  exists before rest, frames (t_conn t) es = before ++ FStreamOpen (t_id t) (t_target t) :: rest /\
    t_sent t `sublist_of` stream_data (t_id t) rest /\
    ((length (stream_data (t_id t) rest) <= 256)%nat -> t_sent t `prefix_of` stream_data (t_id t) rest).
Proof.
  intros Hr Hx. destruct (task_fed _ _ _ _ _ _ _ _ Hr Hx) as (before & rest & acts & E & [F1 F2 _ _ _] & [m Ed]).
  exists before, rest. split; [done|]. rewrite Ed. split.
  - apply sublist_inserts_r. etrans; [|exact F1]. unfold chunks_of. by apply sublist_inserts_r.
  - rewrite length_app. intros Hl. apply prefix_app_r, F2. lia.
Qed.

(** ** A congested stream *)

#[local] Existing Instance Demo.net.
Module UplinkDemo.
Definition target : TargetAddr := TDomain "example.org" 443.
Definition chunk (n : nat) : bytes := be_split 2 (Z.of_nat n).
Definition read (f : Frame) : list event := [ERecv 0 (Ok f); ETau 0 0; ETau 0 0; ETau 0 0].
(** The client opens a stream and sends 257 chunks while the remote is being dialed, then,
    when the task has taken one of them, another. *)
Definition burst : list event := flat_map (fun n => read (FStreamData 1 (chunk n))) (seq 0 257).
Definition upload : list event := Demo.login 0 HttpProxy ++ [ERecv 0 (Ok (FStreamOpen 1 target)); ETau 0 0] ++ burst ++
  [EDialed 1 (Ok tt); EUpTake 1; EUpWrote 1 true] ++ read (FStreamData 1 (chunk 257)) ++
  flat_map (fun _ => [EUpTake 1; EUpWrote 1 true]) (seq 0 256).
Definition final : Server := Demo.after upload.
Definition task : Task := default (new_task 0 0 target) (sv_tasks final !! 1%nat).
Definition has_task : bool := match sv_tasks final !! 1%nat with Some _ => true | None => false end.
Lemma task_at : has_task = true -> sv_tasks final !! 1%nat = Some task.
Proof. unfold has_task, task. by destruct (sv_tasks final !! 1%nat). Qed.
End UplinkDemo.
(** C40. A congested stream loses bytes, and nobody is told.  There is a run in which a client
    uploads 258 chunks on one stream, the remote gets the first 256 and the last one, the
    257th being dropped, and the stream stays open: its task is writing, it is in the
    stream table, and no frame was sent or queued for the client after the welcome. *)
Theorem congested_stream_loses : exists s k t,
  run UplinkDemo.upload (start Demo.cfg true true 0) = Some s /\ sv_conns s !! 0%nat = Some k /\ sv_tasks s !! 1%nat = Some t /\
  frames 0 UplinkDemo.upload = [FHello (Demo.hello HttpProxy); FStreamOpen 1 UplinkDemo.target] ++
    map (fun n => FStreamData 1 (UplinkDemo.chunk n)) (seq 0 258) /\
  t_sent t = map UplinkDemo.chunk (seq 0 256 ++ [257%nat]) /\
  t_phase t = Open /\ rx_open (t_rx t) = true /\ cn_streams k !! 1 = Some 1%nat /\
  length (cn_log k) = 1%nat /\ items <$> sv_queues s !! 0%nat = Some [].
Proof.
  exists UplinkDemo.final, (Demo.conn UplinkDemo.upload 0), UplinkDemo.task.
  split; [demo|]. split; [demo|]. split; [apply UplinkDemo.task_at; vm_compute; reflexivity|].
  split_and!; vm_compute; reflexivity.
Qed.

(** ** Witnesses *)

Lemma packets_reach_tun_witness : tun_of 0 (Demo.after Demo.traffic) = [Demo.packet].
Proof.
  destruct (packets_reach_tun Demo.traffic Demo.cfg true true 0 (Demo.after Demo.traffic) 0 (Demo.conn Demo.traffic 0)
    (Demo.session Vpn)) as (_ & E); [demo|demo|demo|]. rewrite E; vm_compute; reflexivity.
Defined.
Lemma streams_reach_remotes_witness : exists before rest,
  frames 0 UplinkDemo.upload = before ++ FStreamOpen 1 UplinkDemo.target :: rest /\
  t_sent UplinkDemo.task `sublist_of` stream_data 1 rest.
Proof.
  destruct (streams_reach_remotes UplinkDemo.upload Demo.cfg true true 0 UplinkDemo.final 1 UplinkDemo.task)
    as (before & rest & E & Hs & _); [demo|apply UplinkDemo.task_at; vm_compute; reflexivity|].
  exists before, rest. split; [exact E|exact Hs].
Defined.
