(* ===== verification/Downlink.v ===== *)
(** What a client is sent (server/src/session.rs): the frames queued for a session, the one
    its writer has in hand and those the transport took are one sequence that only grows
    at its end, until the writer stops. *)
From stdpp Require Import gmap.
From S2P Require Import Prelude Net Text Core Mpsc ServerConfig Router Session SessionInv SessionLaws ServerThms.

Definition working (w : WPhase) : bool :=
  match w with WIdle | WSending _ | WCount _ | WMetric _ => true | _ => false end.
Definition in_hand (w : WPhase) : list Frame := match w with WSending f => [f] | _ => [] end.
Definition queued (c : cid) (s : Server) : list Frame :=
  match sv_queues s !! c with Some q => items q | None => [] end.
Definition outgoing (c : cid) (k : Conn) (s : Server) : list Frame :=
  cn_log k ++ in_hand (cn_writer k) ++ queued c s.

Section Down.
Context `{IpNet}.

(** Sending to some session: what is queued for this one stays in front. *)
Lemma send_on_queued c d f qs : 
  match qs !! c with Some q => items q | None => [] end `prefix_of`
  match (Router.send_on d f qs).1 !! c with Some q => items q | None => [] end.
Proof.
  destruct (Router.send_on d f qs) as [qs' b] eqn:E. destruct (send_on_spec _ _ _ _ _ E) as (Ho & Hf & Hs). cbn [fst].
  destruct (decide (c = d)) as [->|Hne]; [|by rewrite Ho].
  destruct b; [|by rewrite Hf]. destruct (Hs eq_refl) as (q & Hq & _ & _ & ->). rewrite Hq, lookup_insert_eq. cbn. by exists [f].
Qed.
Lemma tun_route_queued c r pkt qs :
  match qs !! c with Some q => items q | None => [] end `prefix_of`
  match tun_route r pkt qs !! c with Some q => items q | None => [] end.
Proof. rewrite tun_route_target. destruct (tun_target r pkt); [apply send_on_queued|done]. Qed.
Lemma do_action_queued c d b ss a rest k s : queued c s `prefix_of` queued c (do_action d b ss a rest k s).
Proof.
  unfold queued. destruct a; cbn; try done; [by destruct (sv_has_tun s)|apply send_on_queued|by destruct (cn_streams k !! id)].
Qed.

(** A connection whose writer has started. *)
Definition follows (c : cid) (k : Conn) (s : Server) (k' : Conn) (s' : Server) : Prop :=
  cn_writer k' <> WNone /\ (working (cn_writer k') = true ->
    working (cn_writer k) = true /\ outgoing c k s `prefix_of` outgoing c k' s') /\
  (working (cn_writer k') = false -> cn_log k' = cn_log k).
Lemma follows_same c k k' s s' : cn_writer k <> WNone -> cn_writer k' = cn_writer k -> cn_log k' = cn_log k ->
  queued c s `prefix_of` queued c s' -> follows c k s k' s'.
Proof. intros Hw E1 E2 Hq. unfold follows, outgoing. rewrite E1, E2. split_and!; [done| |done]. intros Hk. split; [done|]. by do 2 apply prefix_app. Qed.

(** A session whose welcome was lost never had a writer. *)
Definition lost_ok (s : Server) : Prop := map_Forall (fun _ k =>
  match cn_phase k with Unreg4 _ false | Unreg6 _ false => cn_writer k = WNone | _ => True end) (sv_conns s).
Lemma lost_ok_move s s' : inv s -> lost_ok s -> move s s' -> lost_ok s'.
Proof.
  intros Hi Hl Hm. unfold lost_ok in *. destruct Hm; cbn; try done.
  all: try (apply insert_Forall; [done|]; try conn_inv Hl; cbn; phase_rw; try done).
  all: try (destruct (cn_phase k) as [| | | | | | | |? []|? []| | |]; try done; cbn in *; congruence).
  - pose proof (map_Forall_lookup_1 _ _ _ _ (inv_logs _ Hi) H0) as Hlog. cbv beta in Hlog. unfold log_inv in Hlog.
    rewrite H1 in Hlog. by destruct Hlog as [[_ ?] _].
  - destruct (do_action_conn c b ss a rest k s) as (p & m & ->). by apply insert_Forall.
  - by rewrite H1 in H2.
  - destruct H1 as [E|[_ [E|[f E]]]]; destruct (cn_phase k) as [| | | | | | | |? []|? []| | |]; try done; cbn in *; congruence.
Qed.
Lemma run_lost es c v6 tun now s : run es (start c v6 tun now) = Some s -> lost_ok s.
Proof.
  intros Hr. eapply (run_moves (fun s => inv s /\ lost_ok s)) in Hr; [by destruct Hr| |].
  - intros t t' [? ?] Hm. split; [by eapply inv_move|by eapply lost_ok_move].
  - split; [apply inv_start|apply map_Forall_empty].
Qed.

(** The receiver lives while the writer works, and before it starts. *)
Definition listens (k : Conn) : bool :=
  working (cn_writer k) || match cn_phase k with Register6 _ _ | Register4 _ _ | Welcoming _ _ => true | _ => false end.
Definition open_at (c : cid) (qs : Queues) : Prop := exists q, qs !! c = Some q /\ rx_open q = true.
Definition open_ok (s : Server) : Prop := map_Forall (fun c k => listens k = true -> open_at c (sv_queues s)) (sv_conns s).
Lemma send_on_open c d f qs : open_at c qs -> open_at c (Router.send_on d f qs).1.
Proof.
  destruct (Router.send_on d f qs) as [qs' b] eqn:E. destruct (send_on_spec _ _ _ _ _ E) as (Ho & Hf & Hs). cbn [fst].
  intros Hq. destruct b; [|by rewrite Hf]. destruct (Hs eq_refl) as (q & _ & _ & _ & ->).
  destruct (decide (c = d)) as [->|Hne]; unfold open_at; [rewrite lookup_insert_eq; eauto|by rewrite lookup_insert_ne].
Qed.
Lemma open_ok_queues s s' : (forall c, open_at c (sv_queues s) -> open_at c (sv_queues s')) -> sv_conns s' = sv_conns s ->
  open_ok s -> open_ok s'.
Proof. intros Hq E Ho. unfold open_ok. rewrite E. intros c k Hk Hl. apply Hq. by apply (Ho c k). Qed.
Lemma open_ok_conn s s' c k k' : open_ok s -> sv_conns s !! c = Some k -> sv_conns s' = <[c := k']> (sv_conns s) ->
  (forall d, d <> c -> open_at d (sv_queues s) -> open_at d (sv_queues s')) ->
  (listens k' = true -> (listens k = true -> open_at c (sv_queues s)) -> open_at c (sv_queues s')) -> open_ok s'.
Proof.
  intros Ho Hk E Hd Hc. unfold open_ok. rewrite E. intros d x [[<- <-]|[Hne Hx]]%lookup_insert_Some Hl.
  - apply Hc; [done|]. by apply (Ho c k).
  - apply Hd; [done|]. by apply (Ho d x).
Qed.

Lemma open_at_insert c d q qs : d <> c -> open_at d qs -> open_at d (<[c := q]> qs).
Proof. intros Hne (x & ? & ?). exists x. by rewrite lookup_insert_ne. Qed.
Lemma open_at_close c d qs : d <> c -> open_at d qs -> open_at d (alter close_rx c qs).
Proof. intros Hne (x & ? & ?). exists x. by rewrite lookup_alter_ne. Qed.
Lemma do_action_open d c b ss a rest k s : open_at d (sv_queues s) -> open_at d (sv_queues (do_action c b ss a rest k s)).
Proof. destruct a; cbn; try done; [by destruct (sv_has_tun s)|apply send_on_open|by destruct (cn_streams k !! id)]. Qed.
Lemma open_ok_move s s' : inv s -> lost_ok s -> open_ok s -> move s s' -> open_ok s'.
Proof.
  intros Hi Hlo Ho Hm. destruct Hm; try done.
  all: try (eapply open_ok_conn; [done|eassumption|reflexivity|done|];
    unfold listens; cbn; repeat match goal with
      | P : cn_phase _ = _ |- _ => rewrite P; clear P
      | P : cn_writer _ = _ |- _ => rewrite P; clear P end; cbn; rewrite ?orb_false_r, ?orb_true_r; auto; fail).
  - by apply insert_Forall.
  - eapply open_ok_conn; [done|eassumption|reflexivity|intros ? ?; by apply open_at_insert|]. intros _ _.
    exists (mpsc_new 1024). cbn. by rewrite lookup_insert_eq.
  - destruct (do_action_conn c b ss a rest k s) as (p & m & E).
    eapply open_ok_conn; [done|eassumption|exact E|intros ? ?; apply do_action_open|]. unfold listens. rewrite H1. cbn.
    intros Hl Hk. apply do_action_open. auto.
  - eapply open_ok_conn; [done|eassumption|reflexivity|intros ? ?; by apply open_at_close|].
    conn_inv Hlo. rewrite H1 in H2. unfold listens. cbn. by rewrite H2.
  - eapply open_ok_conn; [done|eassumption|reflexivity|intros ? ?; by apply open_at_insert|]. intros _ Hk.
    destruct Hk as (x & Hx & Hop); [unfold listens; by rewrite H1|].
    exists q'. cbn. rewrite lookup_insert_eq. split; [done|]. rewrite H2 in Hx. injection Hx as <-.
    destruct q as [[|] ? ?]; [done|]. by injection H3 as <- <-.
  - eapply open_ok_conn; [done|eassumption|reflexivity|intros ? ?; by apply open_at_close|]. unfold listens. cbn.
    pose proof (map_Forall_lookup_1 _ _ _ _ (inv_logs _ Hi) H0) as Hl. cbv beta in Hl. unfold log_inv, silent in Hl.
    assert (cn_writer k <> WNone) by (by destruct H1 as [->|[_ [->|[? ->]]]]).
    destruct (cn_phase k); cbn; try done; by destruct Hl as [[_ ?] _].
  - apply (open_ok_queues s); [|reflexivity|done]. intros d. cbn. rewrite tun_route_target.
    destruct (tun_target _ _); [apply send_on_open|exact id].
  - apply (open_ok_queues s); [|reflexivity|done]. intros d. apply send_on_open.
Qed.
Lemma run_open es c v6 tun now s : run es (start c v6 tun now) = Some s -> open_ok s.
Proof.
  intros Hr. eapply (run_moves (fun s => inv s /\ lost_ok s /\ open_ok s)) in Hr; [tauto| |].
  - intros t t' (? & ? & ?) Hm. split_and!; [by eapply inv_move|by eapply lost_ok_move|by eapply open_ok_move].
  - split_and!; [apply inv_start|apply map_Forall_empty..].
Qed.

Lemma move_follows c k s s' : inv s -> lost_ok s -> move s s' -> sv_conns s !! c = Some k -> cn_writer k <> WNone ->
  exists k', sv_conns s' !! c = Some k' /\ follows c k s k' s'.
Proof.
  intros Hi Hlo Hm Hk Hw. destruct (move_evolves s s' c k (inv_fresh _ Hi) Hm Hk) as (k' & Hk' & _).
  exists k'. split; [done|]. revert Hk'.
  pose proof (map_Forall_lookup_1 _ _ _ _ (inv_logs _ Hi) Hk) as Hl. cbv beta in Hl.
  pose proof (map_Forall_lookup_1 _ _ _ _ Hlo Hk) as Hlost. cbv beta in Hlost.
  destruct Hm; cbn.
  all: try (rewrite Hk; intros [= <-]; apply follows_same; try done; unfold queued; cbn; try apply tun_route_queued; try apply send_on_queued; fail).
  all: try (rewrite lookup_insert_Some; intros [[<- <-]|[Hne E]];
    [try (assert (k0 = k) as -> by congruence)|rewrite Hk in E; injection E as <-; apply follows_same; try done;
       unfold queued; cbn; rewrite ?lookup_insert_ne, ?lookup_alter_ne by done; done]).
  all: try (apply follows_same; done).
  all: try (unfold log_inv, silent in Hl; match goal with P : cn_phase _ = _ |- _ => rewrite P in Hl end; tauto).
  - by rewrite (proj1 (inv_fresh _ Hi _ (le_n _))) in Hk.
  - destruct (do_action_conn c0 b ss a rest k0 s) as (p & m & ->). rewrite lookup_insert_Some.
    intros [[-> <-]|[_ E]]; [assert (k0 = k) as -> by congruence|assert (k' = k) as -> by congruence];
      apply follows_same; try done; apply do_action_queued.
  - match goal with P : cn_phase _ = _ |- _ => by rewrite P in Hlost end.
  - split_and!; [done| |done]. intros _. split; [by match goal with P : cn_writer _ = _ |- _ => rewrite P end|].
    unfold outgoing, queued. cbn. rewrite lookup_insert_eq.
    match goal with P : cn_writer _ = _, Q : sv_queues _ !! _ = _, R : pop ?q = _ |- _ =>
      rewrite P, Q; destruct q as [[|] ? ?]; [done|]; injection R as <- <- end. done.
  - by split.
  - unfold follows, outgoing. cbn. match goal with P : cn_writer _ = _ |- _ => rewrite P end.
    destruct (0 <? payload_len f); (split_and!; [done| |done]); intros _; (split; [done|]); cbn; by rewrite <- app_assoc.
  - by split.
  - unfold follows, outgoing. cbn. by match goal with P : cn_writer _ = _ |- _ => rewrite P end.
  - unfold follows, outgoing. cbn. by match goal with P : cn_writer _ = _ |- _ => rewrite P end.
  - by split.
Qed.

(** What a connection is sent from some state on: every frame in [outgoing] there, then
    what is queued later. *)
Definition extends (base : list Frame) (c : cid) (k : Conn) (s : Server) : Prop :=
  cn_writer k <> WNone /\ exists sent, base `prefix_of` sent /\ cn_log k `prefix_of` sent /\
    (working (cn_writer k) = true -> outgoing c k s = sent).
Lemma extends_refl c k s : cn_writer k <> WNone -> extends (outgoing c k s) c k s.
Proof. intros Hw. split; [done|]. exists (outgoing c k s). split_and!; [done|by apply prefix_app_r|done]. Qed.
Lemma extends_follows base c k s k' s' : extends base c k s -> follows c k s k' s' -> extends base c k' s'.
Proof.
  intros (_ & sent & Hb & Hl & Ho) (Hw & Hon & Hoff). split; [done|].
  destruct (working (cn_writer k')) eqn:E.
  - destruct (Hon eq_refl) as [Hk Hp]. rewrite (Ho Hk) in Hp. exists (outgoing c k' s').
    split_and!; [by etrans|by apply prefix_app_r|done].
  - rewrite (Hoff eq_refl). by exists sent.
Qed.
Lemma run_extends base es c s s' k : inv s -> lost_ok s -> run es s = Some s' ->
  sv_conns s !! c = Some k -> extends base c k s -> exists k', sv_conns s' !! c = Some k' /\ extends base c k' s'.
Proof.
  intros Hi Hlo Hr Hk He.
  enough (inv s' /\ lost_ok s' /\ exists k', sv_conns s' !! c = Some k' /\ extends base c k' s') as (_ & _ & ?) by done.
  apply (run_moves (fun t => inv t /\ lost_ok t /\ exists kt, sv_conns t !! c = Some kt /\ extends base c kt t)) in Hr;
    [done| |eauto].
  intros t t' (Hit & Hlt & kt & Hkt & Het) Hm.
  split; [by eapply inv_move|]. split; [by eapply lost_ok_move|].
  destruct (move_follows c kt t t' Hit Hlt Hm Hkt (proj1 Het)) as (k' & ? & ?). eauto using extends_follows.
Qed.
End Down.

(** ** Properties *)

(** A client is sent what is queued for it, in the order it was queued.  Take any two
    moments of a run between which the session's writer task exists: the frames the
    transport took later are, up to where they stop, those that had been sent at the
    first moment, then the one in the writer's hand, then its queue, with nothing left
    out, repeated or put in between; and while the writer works, all of these are still
    sent, in hand or queued. *)
Theorem downlink_in_order `{IpNet} es es' cfg v6 tun now s s' c k k' :
  run es (start cfg v6 tun now) = Some s -> run es' s = Some s' ->
  sv_conns s !! c = Some k -> sv_conns s' !! c = Some k' -> cn_writer k <> WNone ->
  (cn_log k' `prefix_of` outgoing c k s \/ outgoing c k s `prefix_of` cn_log k') /\
  (working (cn_writer k') = true -> outgoing c k s `prefix_of` outgoing c k' s').
Proof.
  intros Hr Hr' Hk Hk' Hw.
  destruct (run_extends _ _ _ _ _ _ (run_inv _ _ _ _ _ _ Hr) (run_lost _ _ _ _ _ _ Hr) Hr' Hk (extends_refl c k s Hw))
    as (k2 & E & _ & sent & Hb & Hl & Ho).
  rewrite Hk' in E. injection E as <-. split.
  - destruct (prefix_weak_total _ _ _ Hl Hb); auto.
  - by intros ->%Ho.
Qed.

(** C5. A packet off the TUN reaches the client that owns its destination.  If its session's
    writer works and fewer than 1024 frames are queued, the packet joins the frames for
    that client at their end; what the transport took later is those frames, then the
    packet, then others, or a beginning of that; so once as many frames more went out,
    the client has been sent the packet, unchanged and once. *)
Theorem packet_reaches_client `{IpNet} es es' cfg v6 tun now s s1 s' pkt c k k' q :
  run es (start cfg v6 tun now) = Some s -> step s (ETun (Ok pkt)) = Some s1 -> run es' s1 = Some s' ->
  tun_target (sv_router s) pkt = Some c -> sv_queues s !! c = Some q -> queue_len q < 1024 ->
  sv_conns s !! c = Some k -> working (cn_writer k) = true -> sv_conns s' !! c = Some k' ->
  outgoing c k s1 = outgoing c k s ++ [FPacket pkt] /\
  (cn_log k' `prefix_of` outgoing c k s ++ [FPacket pkt] \/
   exists later, cn_log k' = outgoing c k s ++ [FPacket pkt] ++ later).
Proof.
  intros Hr Hst Hr' Ht Hq Hlen Hk Hw Hk'.
  assert (run (es ++ [ETun (Ok pkt)]) (start cfg v6 tun now) = Some s1) as Hr1.
  { rewrite runs_app, Hr. cbn [mbind option_bind runs]. by rewrite Hst. }
  pose proof (proj1 (inv_queues _ (run_inv _ _ _ _ _ _ Hr)) _ _ Hq) as [Hc _].
  assert (rx_open q = true) as Ho.
  { destruct (run_open _ _ _ _ _ _ Hr c k Hk) as (x & Hx & ?); [unfold listens; by rewrite Hw|]. congruence. }
  cbn in Hst. destruct (sv_has_tun s && sv_demux s); [|done]. injection Hst as <-.
  assert (outgoing c k (set_queues (tun_route (sv_router s) pkt) s) = outgoing c k s ++ [FPacket pkt]) as E.
  { unfold outgoing, queued. cbn. rewrite tun_route_target, Ht, Hq. unfold Router.send_on. rewrite Hq.
    unfold try_send. rewrite Ho, Hc, (proj2 (Z.ltb_lt _ _) Hlen). cbn. rewrite lookup_insert_eq. cbn.
    by rewrite !app_assoc. }
  split; [done|].
  assert (cn_writer k <> WNone) as Hn by (by intros E0; rewrite E0 in Hw).
  destruct (run_extends (outgoing c k s ++ [FPacket pkt]) es' c _ s' k (run_inv _ _ _ _ _ _ Hr1) (run_lost _ _ _ _ _ _ Hr1)
    Hr' Hk) as (k2 & E2 & _ & sent & Hb & Hl & _); [rewrite <- E; by apply extends_refl|].
  rewrite Hk' in E2. injection E2 as <-. destruct (prefix_weak_total _ _ _ Hl Hb) as [?|[later ?]]; [auto|].
  right. exists later. by rewrite app_assoc.
Qed.

(** ** Witnesses *)

#[local] Existing Instance Demo.net.
Module DownlinkDemo.
(** A session is up and has a pong in its queue; a packet comes; the writer sends both. *)
Definition first : list event := Demo.login 0 Vpn ++ [ERecv 0 (Ok FPing); ETau 0 0].
Definition later : list event := [EWTake 0; EWSent 0 true; EWTake 0; EWSent 0 true; EWTau 0; EWTau 0].
Definition all : list event := (first ++ [ETun (Ok Demo.packet)]) ++ later.
Definition queue : mpsc Frame := mkMpsc [FPong] 1024 true.
Lemma rest es es' : Demo.possible es = true -> Demo.possible (es ++ es') = true ->
  run es' (Demo.after es) = Some (Demo.after (es ++ es')).
Proof. intros H1%Demo.after_run H2%Demo.after_run. rewrite runs_app, H1 in H2. exact H2. Qed.
End DownlinkDemo.
Lemma downlink_in_order_witness :
  outgoing 0 (Demo.conn DownlinkDemo.first 0) (Demo.after DownlinkDemo.first) `prefix_of`
  outgoing 0 (Demo.conn DownlinkDemo.all 0) (Demo.after DownlinkDemo.all).
Proof.
  destruct (downlink_in_order DownlinkDemo.first ([ETun (Ok Demo.packet)] ++ DownlinkDemo.later) Demo.cfg true true 0
    (Demo.after DownlinkDemo.first) (Demo.after DownlinkDemo.all) 0 (Demo.conn DownlinkDemo.first 0) (Demo.conn DownlinkDemo.all 0))
    as [_ Hp]; [demo| |demo|demo|by vm_compute|by apply Hp; vm_compute].
  unfold DownlinkDemo.all. rewrite <- app_assoc. by apply DownlinkDemo.rest; vm_compute.
Defined.
Lemma packet_reaches_client_witness :
  cn_log (Demo.conn DownlinkDemo.all 0) = outgoing 0 (Demo.conn DownlinkDemo.first 0) (Demo.after DownlinkDemo.first) ++ [FPacket Demo.packet].
Proof.
  destruct (packet_reaches_client DownlinkDemo.first DownlinkDemo.later Demo.cfg true true 0 (Demo.after DownlinkDemo.first)
    (Demo.after (DownlinkDemo.first ++ [ETun (Ok Demo.packet)])) (Demo.after DownlinkDemo.all) Demo.packet 0
    (Demo.conn DownlinkDemo.first 0) (Demo.conn DownlinkDemo.all 0) DownlinkDemo.queue)
    as [_ [Hp|[later Hp]]]; [demo|demo|by apply DownlinkDemo.rest; vm_compute|demo..| |].
  - apply prefix_length_eq; [exact Hp|vm_compute; lia].
  - destruct later as [|f later]; [rewrite app_nil_r in Hp; exact Hp|].
    apply (f_equal (@length _)) in Hp. vm_compute in Hp. discriminate Hp.
Defined.
