(* ===== verification/Remotes.v ===== *)
(** What the remotes of a client's streams send back (server/src/session.rs,
    open_remote_stream): the chunks a task read from its remote, against the data frames
    queued for and sent to the client. *)
From stdpp Require Import gmap.
From S2P Require Import Prelude Net Text Core Mpsc ServerConfig Router Session SessionInv SessionLaws ServerThms Downlink.

(** A frame that carries no stream data. *)
Definition quiet (f : Frame) : Prop := match f with FStreamData _ _ => False | _ => True end.
Definition act_quiet (a : action) : Prop := match a with ATrySend f => quiet f | _ => True end.
Lemma quiet_data id fs : Forall quiet fs -> data_of id fs = [].
Proof. induction 1 as [|f fs Hf _ IH]; [done|]. destruct f; try done. Qed.
Lemma on_frame_quiet ss f : Forall act_quiet (on_frame ss f).
Proof. destruct f; cbn; repeat case_match; repeat constructor. Qed.

(** Only the task of a stream queues data; before its writer starts a connection has
    neither tasks nor data. *)
Definition handler_quiet (k : Conn) : Prop :=
  match cn_phase k with Running _ todo => Forall act_quiet todo /\ cn_writer k <> WNone | _ => True end.
Record quiet_inv (s : Server) : Prop := {
  qt_conns : map_Forall (fun c k => handler_quiet k /\
    (cn_writer k = WNone -> Forall quiet (cn_log k) /\ Forall quiet (queued c s))) (sv_conns s);
  qt_tasks : map_Forall (fun _ u => exists k, sv_conns s !! t_conn u = Some k /\ cn_writer k <> WNone) (sv_tasks s);
  qt_known : forall c, is_Some (sv_queues s !! c) -> is_Some (sv_conns s !! c);
}.

Section Quiet.
Context `{IpNet}.

Lemma send_on_queue c d f qs : 
  match (Router.send_on d f qs).1 !! c with Some q => items q | None => [] end =
    match qs !! c with Some q => items q | None => [] end \/
  d = c /\ match (Router.send_on d f qs).1 !! c with Some q => items q | None => [] end =
    match qs !! c with Some q => items q | None => [] end ++ [f].
Proof.
  destruct (Router.send_on d f qs) as [qs' b] eqn:E. destruct (send_on_spec _ _ _ _ _ E) as (Ho & Hf & Hs). cbn [fst].
  destruct (decide (c = d)) as [->|Hne]; [|left; by rewrite Ho].
  destruct b; [|left; by rewrite Hf]. right. split; [done|]. destruct (Hs eq_refl) as (q & Hq & _ & _ & ->).
  by rewrite Hq, lookup_insert_eq.
Qed.
Lemma queued_send c d f s : queued c (set_queues (fun qs => (Router.send_on d f qs).1) s) = queued c s \/
  d = c /\ queued c (set_queues (fun qs => (Router.send_on d f qs).1) s) = queued c s ++ [f].
Proof. apply send_on_queue. Qed.
Lemma send_on_dom c d f qs : is_Some ((Router.send_on d f qs).1 !! c) -> is_Some (qs !! c).
Proof.
  destruct (Router.send_on d f qs) as [qs' b] eqn:E. destruct (send_on_spec _ _ _ _ _ E) as (Ho & Hf & Hs). cbn [fst].
  destruct (decide (c = d)) as [->|Hne]; [|by rewrite Ho].
  destruct b; [|by rewrite Hf]. destruct (Hs eq_refl) as (q & -> & _). by eexists.
Qed.
Lemma tun_route_queue c r pkt s : exists new, Forall quiet new /\ queued c (set_queues (tun_route r pkt) s) = queued c s ++ new.
Proof.
  unfold queued. cbn. rewrite tun_route_target. destruct (tun_target r pkt) as [d|]; [|exists []; by rewrite app_nil_r].
  destruct (send_on_queue c d (FPacket pkt) (sv_queues s)) as [-> |[_ ->]]; [exists []; by rewrite app_nil_r|].
  exists [FPacket pkt]. by repeat constructor.
Qed.
Lemma do_action_queue c d b ss a rest k s : act_quiet a ->
  exists new, Forall quiet new /\ queued c (do_action d b ss a rest k s) = queued c s ++ new.
Proof.
  intros Ha. destruct a; try (exists []; rewrite app_nil_r; split; [done|]; done).
  - exists []. rewrite app_nil_r. split; [done|]. cbn. by destruct (sv_has_tun s).
  - destruct (send_on_queue c d f (sv_queues s)) as [E|[_ E]]; [exists []; rewrite app_nil_r|exists [f]]; (split; [|exact E]); by repeat constructor.
  - exists []. rewrite app_nil_r. split; [done|]. cbn. by destruct (cn_streams k !! id).
Qed.

Lemma do_action_todo c b ss a rest k s p m : Forall act_quiet rest ->
  sv_conns (do_action c b ss a rest k s) = <[c := with_streams (in_phase k (Running ss p)) m]> (sv_conns s) -> Forall act_quiet p.
Proof.
  intros Hr E. apply (f_equal (fun cs => cn_phase <$> cs !! c)) in E. rewrite lookup_insert_eq in E. cbn in E.
  destruct a; cbn in E; try (destruct (sv_has_tun s)); try (destruct (cn_streams k !! id)); cbn in E;
    rewrite lookup_insert_eq in E; cbn in E; injection E as <-; by try constructor.
Qed.
Lemma do_action_other d c b ss a rest k s : d <> c -> sv_queues (do_action c b ss a rest k s) !! d = sv_queues s !! d.
Proof.
  intros Hne. destruct a; cbn; try done; [by destruct (sv_has_tun s)| |by destruct (cn_streams k !! id)].
  destruct (Router.send_on c f (sv_queues s)) as [qs ok] eqn:E. by apply send_on_spec in E as (-> & _).
Qed.

(** A step of one connection, by what it does to the log and to the queue. *)
Lemma quiet_conn s s' d k k' : quiet_inv s -> sv_conns s !! d = Some k -> sv_conns s' = <[d := k']> (sv_conns s) ->
  map_Forall (fun _ u => exists k, sv_conns s' !! t_conn u = Some k /\ cn_writer k <> WNone) (sv_tasks s') ->
  (forall c, c <> d -> queued c s' = queued c s) ->
  (forall c, c <> d -> is_Some (sv_queues s' !! c) -> is_Some (sv_queues s !! c)) ->
  (handler_quiet k -> handler_quiet k') ->
  (cn_writer k' = WNone -> cn_writer k = WNone /\ (Forall quiet (cn_log k) -> Forall quiet (cn_log k')) /\
    (Forall quiet (queued d s) -> Forall quiet (queued d s'))) -> quiet_inv s'.
Proof.
  intros [Hc _ Hkn] Hk E Ht Hq Hd Hh Hw. split; [|done|].
  - rewrite E. intros c x [[<- <-]|[Hne Hx]]%lookup_insert_Some.
    + destruct (Hc _ _ Hk) as [H1 H2]. split; [by apply Hh|]. intros Hn. destruct (Hw Hn) as (H3 & H4 & H5).
      destruct (H2 H3). auto.
    + rewrite Hq by done. by apply Hc.
  - intros c Hx. rewrite E, lookup_insert_is_Some'. destruct (decide (c = d)) as [->|]; auto.
Qed.
Lemma quiet_queues s s' : quiet_inv s -> sv_conns s' = sv_conns s ->
  map_Forall (fun _ u => exists k, sv_conns s' !! t_conn u = Some k /\ cn_writer k <> WNone) (sv_tasks s') ->
  (forall c, is_Some (sv_queues s' !! c) -> is_Some (sv_queues s !! c)) ->
  (forall c k, sv_conns s !! c = Some k -> cn_writer k = WNone -> exists new, Forall quiet new /\ queued c s' = queued c s ++ new) ->
  quiet_inv s'.
Proof.
  intros [Hc _ Hkn] E Ht Hd Hq. split; [|done|rewrite E; auto]. rewrite E. intros c k Hk.
  destruct (Hc _ _ Hk) as [H1 H2]. split; [done|]. intros Hn. destruct (H2 Hn) as [H3 H4]. split; [done|].
  destruct (Hq _ _ Hk Hn) as (new & Hnew & ->). by apply Forall_app.
Qed.

Lemma quiet_accept s addr : ids_fresh s -> quiet_inv s ->
  map_Forall (fun _ u => exists k, sv_conns (set_conn (sv_next s) (mkConn addr AwaitHello WNone false ∅ [])
      (set_env (sv_cfg s) (sv_demux s) (sv_now s) (S (sv_next s)) s)) !! t_conn u = Some k /\ cn_writer k <> WNone) (sv_tasks s) ->
  quiet_inv (set_conn (sv_next s) (mkConn addr AwaitHello WNone false ∅ [])
    (set_env (sv_cfg s) (sv_demux s) (sv_now s) (S (sv_next s)) s)).
Proof.
  intros Hf [Hc _ Hkn] Ht'. split; [|done|].
  - intros c k. cbn. rewrite lookup_insert_Some. intros [[<- <-]|[_ Hk]]; [|by apply Hc]. split; [done|]. intros _. split; [done|].
    unfold queued. cbn. destruct (sv_queues s !! sv_next s) eqn:E; [|done].
    destruct (Hkn (sv_next s)) as [x Hx]; [by eexists|]. by rewrite (proj1 (Hf _ (le_n _))) in Hx.
  - intros c Hx%Hkn. cbn. rewrite lookup_insert_is_Some'. auto.
Qed.

Lemma quiet_move s s' : inv s -> lost_ok s -> quiet_inv s -> move s s' -> quiet_inv s'.
Proof.
  intros Hi Hlo Hq Hm. pose proof Hq as [Hc Ht Hkn].
  assert (map_Forall (fun _ u => exists k, sv_conns s' !! t_conn u = Some k /\ cn_writer k <> WNone) (sv_tasks s')) as Ht'.
  { intros y u Hy. destruct (move_task_from _ _ _ _ Hm Hy) as [(u0 & Hu0 & -> & _)|(_ & k & ss & tgt & rest & Hk & Hp)].
    - destruct (Ht _ _ Hu0) as (k & Hk & Hw). destruct (move_follows _ _ _ _ Hi Hlo Hm Hk Hw) as (k' & Hk' & Hw' & _). eauto.
    - destruct (Hc _ _ Hk) as [Hh _]. unfold handler_quiet in Hh. rewrite Hp in Hh. destruct Hh as [_ Hw].
      destruct (move_follows _ _ _ _ Hi Hlo Hm Hk Hw) as (k' & Hk' & Hw' & _). eauto. }
  destruct Hm; try (by split).
  all: try (eapply quiet_conn; [done|eassumption|reflexivity|exact Ht'|done|done| |]; unfold handler_quiet; cbn;
    repeat match goal with P : cn_phase _ = _ |- _ => rewrite P; clear P | P : cn_writer _ = _ |- _ => rewrite P; clear P end;
    cbn; try done; try tauto; fail).
  all: try (eapply quiet_conn; [done|eassumption|reflexivity|exact Ht'|
      intros c' Hne; unfold queued; cbn; rewrite ?lookup_insert_ne, ?lookup_alter_ne by done; done|
      intros c' Hne; cbn; rewrite ?lookup_insert_ne, ?lookup_alter_ne by done; done| |];
    unfold handler_quiet; cbn; [destruct (cn_phase k); try done; intros [? _]; split; [done|]; try done; by destruct (0 <? payload_len f)
      |try done; by destruct (0 <? payload_len f)]; fail).
  - exact (quiet_accept s addr (inv_fresh _ Hi) Hq Ht').
  - eapply quiet_conn; [done|eassumption|reflexivity|exact Ht'|done|done|done|]. cbn. intros Hn. split_and!; [done| |done].
    intros Hl. apply Forall_app. by repeat constructor.
  - eapply quiet_conn; [done|eassumption|reflexivity|exact Ht'|..]; try done;
      try (intros c' Hne; unfold queued; cbn; by rewrite lookup_insert_ne by done).
    intros Hn. split_and!; [done|done|]. intros _. unfold queued. cbn. by rewrite lookup_insert_eq.
  - eapply quiet_conn; [done|eassumption|reflexivity|exact Ht'|done|done| |done].
    unfold handler_quiet. rewrite H1. intros [_ ?]. split; [apply on_frame_quiet|done].
  - destruct (Hc _ _ H0) as [Hh _]. unfold handler_quiet in Hh. rewrite H1 in Hh. destruct Hh as [[Ha Hr]%Forall_cons Hw].
    destruct (do_action_conn c b ss a rest k s) as (p & m & E).
    eapply quiet_conn; [done|eassumption|exact E|exact Ht'|..].
    + intros d Hne. unfold queued. by rewrite do_action_other.
    + intros d Hne. by rewrite do_action_other.
    + intros _. split; [by eapply do_action_todo|done].
    + done.
  - eapply quiet_conn; [done|eassumption|reflexivity|exact Ht'|..]; try done;
      try (intros c' Hne; unfold queued; cbn; by rewrite lookup_alter_ne by done).
    intros Hn. split_and!; [done|done|]. intros _. unfold queued. cbn. rewrite lookup_alter_eq. by destruct (sv_queues s !! c).
  - eapply quiet_queues; [done|done|exact Ht'| |].
    + intros d. cbn. rewrite tun_route_target. destruct (tun_target _ _); [apply send_on_dom|exact id].
    + intros d k Hk Hn. apply tun_route_queue.
  - eapply quiet_queues; [done|done|exact Ht'|intros d; apply send_on_dom|].
    intros d k Hk Hn. exists []. split; [done|]. rewrite app_nil_r.
    destruct (queued_send d (t_conn t) f s) as [E|[<- _]]; [exact E|].
    destruct (Ht _ _ H0) as (k' & Hk' & Hw). congruence.
Qed.
Lemma run_quiet es c v6 tun now s : run es (start c v6 tun now) = Some s -> quiet_inv s.
Proof.
  intros Hr. eapply (run_moves (fun s => inv s /\ lost_ok s /\ quiet_inv s)) in Hr; [tauto| |].
  - intros t t' (? & ? & ?) Hm. split_and!; [by eapply inv_move|by eapply lost_ok_move|by eapply quiet_move].
  - split_and!; [apply inv_start|apply map_Forall_empty|]. split; [apply map_Forall_empty..|]. by intros d [? ?].
Qed.
End Quiet.

(** ** Data queued by one step *)

(** What a step adds to the data of a stream among the frames for a client. *)
Definition data_step (id : Z) (c : cid) (new : list bytes) (k : Conn) (s : Server) (k' : Conn) (s' : Server) : Prop :=
  (working (cn_writer k') = true ->
     cn_writer k = WNone /\ data_of id (outgoing c k' s') = [] \/
     working (cn_writer k) = true /\ data_of id (outgoing c k' s') = data_of id (outgoing c k s) ++ new) /\
  (working (cn_writer k') = false -> cn_writer k' = WNone \/ cn_writer k <> WNone /\ cn_log k' = cn_log k).
Lemma ds_none id c new k s k' s' : cn_writer k' = WNone -> data_step id c new k s k' s'.
Proof. intros E. split; rewrite E; [done|auto]. Qed.
Lemma ds_quiet id c k s k' s' fs : cn_writer k' = cn_writer k -> cn_log k' = cn_log k -> Forall quiet fs ->
  queued c s' = queued c s ++ fs -> data_step id c [] k s k' s'.
Proof.
  intros E1 E2 Hf Eq. split; rewrite E1.
  - intros Hw. right. split; [done|]. unfold outgoing. rewrite E1, E2, Eq, !data_app, (quiet_data _ _ Hf). by rewrite !app_nil_r.
  - intros Hw. rewrite E2. destruct (cn_writer k); auto.
Qed.
Lemma ds_same id c k s k' s' : cn_writer k' = cn_writer k -> cn_log k' = cn_log k ->
  queued c s' = queued c s -> data_step id c [] k s k' s'.
Proof. intros E1 E2 E3. apply (ds_quiet id c k s k' s' []); [done|done|done|]. by rewrite E3, app_nil_r. Qed.
Lemma ds_stop id c new k s k' s' : cn_writer k <> WNone -> working (cn_writer k') = false -> cn_log k' = cn_log k ->
  data_step id c new k s k' s'.
Proof. intros Hw Hn Hl. split; [congruence|]. auto. Qed.
Lemma ds_writer id c k s k' s' : working (cn_writer k) = true -> outgoing c k' s' = outgoing c k s ->
  working (cn_writer k') = true -> data_step id c [] k s k' s'.
Proof. intros Hw E Hn. split; [|congruence]. intros _. right. by rewrite E, app_nil_r. Qed.

Section DataStep.
Context `{IpNet}.
Context (id : Z) (c : cid) (k : Conn) (s : Server).
Hypothesis Hk : sv_conns s !! c = Some k.
Hypothesis Hi : inv s.
Hypothesis Hlo : lost_ok s.
Hypothesis Hq : quiet_inv s.

(** A step of connection [d], and what becomes of [c]. *)
Definition conn_step (d : cid) (s' : Server) : Prop := forall k', sv_conns s' !! c = Some k' -> data_step id c [] k s k' s'.
Lemma cs_other d x s' : d <> c -> sv_conns s' = <[d := x]> (sv_conns s) -> sv_queues s' !! c = sv_queues s !! c ->
  conn_step d s'.
Proof.
  intros Hne E Eq k'. rewrite E, lookup_insert_ne, Hk by done. intros [= <-]. apply ds_same; [done|done|].
  unfold queued. by rewrite Eq.
Qed.
Lemma cs_this d x s' kd : sv_conns s !! d = Some kd -> sv_conns s' = <[d := x]> (sv_conns s) ->
  (d <> c -> sv_queues s' !! c = sv_queues s !! c) -> (d = c -> kd = k -> data_step id c [] k s x s') -> conn_step d s'.
Proof.
  intros Hd E Eq Hc. destruct (decide (d = c)) as [->|Hne]; [|by eapply cs_other; eauto].
  intros k'. rewrite E, lookup_insert_eq. intros [= <-]. apply Hc; congruence.
Qed.

Lemma log_facts : log_inv k.
Proof. exact (map_Forall_lookup_1 _ _ _ _ (inv_logs _ Hi) Hk). Qed.

Lemma received_cs d r kd s' : sv_conns s !! d = Some kd -> received d r kd s = Some s' -> conn_step d s'.
Proof.
  intros Hd. unfold received. destruct (cn_phase kd) as [| | | | | | |? []| | | | |]; try done; intros [= <-];
    (eapply cs_this; [done|reflexivity|done|]); intros -> ->; by apply ds_same.
Qed.
Lemma sent_cs d b kd s' : sv_conns s !! d = Some kd -> sent d b kd s = Some s' -> conn_step d s'.
Proof.
  intros Hd. unfold sent. destruct (cn_phase kd) as [| |r| | | |ss w| | | | | |] eqn:P; try done; intros [= <-];
    (eapply cs_this; [done|reflexivity|done|]); intros -> ->; pose proof log_facts as Hl; unfold log_inv in Hl; rewrite P in Hl.
  - apply ds_none. destruct Hl as [_ Hw]. by destruct b.
  - destruct Hl as [[Hl Hw] _]. destruct b; [|by apply ds_same]. split; [|done]. intros _. left. split; [done|].
    destruct (qt_conns _ Hq _ _ Hk) as [_ Hn]. destruct (Hn Hw) as [_ Hqq]. unfold outgoing. cbn. rewrite Hl. cbn.
    change (data_of id (FWelcome w :: queued c s) = []). by apply quiet_data; constructor.
Qed.
Lemma action_cs d b kd ss a todo : sv_conns s !! d = Some kd -> cn_phase kd = Running ss (a :: todo) ->
  conn_step d (do_action d b ss a todo kd s).
Proof.
  intros Hd P. destruct (do_action_conn d b ss a todo kd s) as (p & m & E).
  eapply cs_this; [done|exact E|intros Hne; apply do_action_other; congruence|]. intros -> ->.
  destruct (qt_conns _ Hq _ _ Hk) as [Hh _]. unfold handler_quiet in Hh. rewrite P in Hh.
  destruct Hh as [[Ha _]%Forall_cons _]. destruct (do_action_queue c c b ss a todo k s Ha) as (new & Hn & Eq).
  by eapply ds_quiet.
Qed.
Lemma tun_cs d b kd s' : sv_conns s !! d = Some kd -> tun_wrote d b kd s = Some s' -> conn_step d s'.
Proof. intros Hd (ss & pkt & todo & P & _ & ->)%tun_wrote_Some. by eapply action_cs. Qed.
Lemma tau_cs d rnd kd s' : sv_conns s !! d = Some kd -> tau d rnd kd s = Some s' -> conn_step d s'.
Proof.
  intros Hd. unfold tau. pose proof (map_Forall_lookup_1 _ _ _ _ (inv_logs _ Hi) Hd) as Hl. cbv beta in Hl. unfold log_inv in Hl.
  destruct (cn_phase kd) as [| | |h p| | | |ss [|a todo]|ss b|ss [|]| | |] eqn:P; try done.
  1, 3, 4, 6, 7, 9, 10: intros [= <-]; (eapply cs_this; [done|reflexivity|done|]); intros -> ->; by apply ds_same.
  - destruct (net_offer _ _ _ _ _) as [ss w]. intros [= <-]. eapply cs_this; [done|reflexivity| |].
    + intros Hne. cbn. by rewrite lookup_insert_ne.
    + intros _ _. apply ds_none, Hl.
  - destruct (awaits_dev s a); [done|]. intros [= <-]. by eapply action_cs.
  - intros [= <-]. eapply cs_this; [done|reflexivity| |].
    + intros Hne. cbn. by rewrite lookup_alter_ne.
    + intros _ _. apply ds_none. pose proof (map_Forall_lookup_1 _ _ _ _ Hlo Hd) as Hx. cbv beta in Hx. by rewrite P in Hx.
Qed.
Lemma writer_cs d kd s' : sv_conns s !! d = Some kd -> writer_take d kd s = Some s' \/ (exists b, writer_sent d b kd s = Some s') \/
  writer_tau d kd s = Some s' \/ writer_stop d kd s = Some s' -> conn_step d s'.
Proof.
  intros Hd [E|[[b E]|[E|E]]]; revert E.
  - unfold writer_take. destruct (cn_writer kd) eqn:W; try done. intros (q & Q & E)%bind_Some.
    destruct (pop q) as [[f q']|] eqn:P; [injection E as <-|destruct (no_senders d kd s); [injection E as <-|done]].
    + eapply cs_this; [done|reflexivity|intros Hne; cbn; by rewrite lookup_insert_ne|]. intros -> ->.
      apply ds_writer; [by rewrite W| |done]. unfold outgoing, queued. cbn. rewrite lookup_insert_eq, W, Q.
      destruct q as [[|] ? ?]; [done|]. by injection P as <- <-.
    + eapply cs_this; [done|reflexivity|done|]. intros -> ->. apply ds_stop; by rewrite ?W.
  - unfold writer_sent. destruct (cn_writer kd) as [| |f| | | |] eqn:W; try done. intros [= <-].
    eapply cs_this; [done|reflexivity|done|]. intros -> ->. destruct b; [|apply ds_stop; by rewrite ?W].
    apply ds_writer; [by rewrite W| |by destruct (0 <? payload_len f)].
    unfold outgoing. cbn. rewrite W, <- app_assoc. by destruct (0 <? payload_len f).
  - unfold writer_tau. destruct (cn_writer kd) eqn:W; try done; intros [= <-];
      (eapply cs_this; [done|reflexivity|intros Hne; cbn; by rewrite ?lookup_alter_ne|]); intros -> ->.
    + apply ds_writer; [by rewrite W| |done]. unfold outgoing. cbn. by rewrite W.
    + apply ds_writer; [by rewrite W| |done]. unfold outgoing. cbn. by rewrite W.
    + apply ds_stop; by rewrite ?W.
  - unfold writer_stop. destruct (cn_stop kd), (cn_writer kd) eqn:W; try done; intros [= <-];
      (eapply cs_this; [done|reflexivity|intros Hne; cbn; by rewrite ?lookup_alter_ne|]); intros -> ->; apply ds_stop; by rewrite ?W.
Qed.
End DataStep.

(** ** The tasks *)

Definition pending (u : Task) : list bytes := match t_down u with DSending (FStreamData _ d) => [d] | _ => [] end.
(** What a send of the task queues. *)
Definition moved (u : Task) : list bytes := match t_phase u with Open => pending u | _ => [] end.
Definition queued_data (id : Z) (c : cid) (e : event) (s : Server) : list bytes :=
  match e with
  | EDownSend y =>
    match sv_tasks s !! y with
    | Some u => if decide (t_conn u = c /\ t_id u = id) then moved u else []
    | None => []
    end
  | _ => []
  end.
(** The frames a task sends: data of its own stream, and closes. *)
Definition task_ok (u : Task) : Prop :=
  match t_phase u with DialFailed f => quiet f | _ => True end /\
  match t_down u with DSending f => quiet f \/ exists d, f = FStreamData (t_id u) d | _ => True end.

Section TaskStep.
Context `{IpNet}.

Lemma down_send_data id c y u k s s' : sv_conns s !! c = Some k -> open_ok s -> sv_tasks s !! y = Some u -> task_ok u ->
  down_send y u s = Some s' -> data_step id c (queued_data id c (EDownSend y) s) k s k s'.
Proof.
  intros Hk Ho Hu [Hp Hd]. unfold queued_data, moved. rewrite Hu. unfold down_send.
  destruct (t_phase u) as [|f| |] eqn:P; try done.
  - intros (p & Hs & E)%bind_Some. apply session_send_Some in Hs as (q & _ & _ & Hs). injection E as <-.
    assert ((if decide (t_conn u = c /\ t_id u = id) then [] else []) = @nil bytes) as -> by by case_decide.
    rewrite Hs. destruct (queued_send c (t_conn u) f s) as [E|[_ E]]; [by apply ds_same|]. eapply (ds_quiet _ _ _ _ _ _ [f]); try done. by repeat constructor.
  - destruct (t_down u) as [|f|] eqn:D; try done. intros ([p b] & Hs & E)%bind_Some.
    apply session_send_Some in Hs as (q & Hq & Hr & Hs). cbn in Hs. subst p. injection E as <-.
    destruct (queued_send c (t_conn u) f s) as [E|[Ec E]].
    + (* nothing joined the frames for c: f is for another, or c's receiver is gone *)
      destruct (decide (t_conn u = c /\ t_id u = id)) as [[<- _]|_]; [|by apply ds_same].
      split; [|intros Hw; destruct (cn_writer k); auto]. intros Hw. exfalso.
      destruct (Ho _ _ Hk) as (q' & Hq' & Hop); [unfold listens; by rewrite Hw|]. rewrite Hq in Hq'. injection Hq' as <-.
      revert E. unfold queued. cbn. unfold Router.send_on. rewrite Hq. unfold send_ready in Hr. unfold try_send.
      rewrite Hop in *. cbn in Hr. rewrite Hr. cbn. rewrite lookup_insert_eq. cbn. intros E%(f_equal length).
      rewrite length_app in E. cbn in E. lia.
    + assert (data_of id [f] = if decide (t_conn u = c /\ t_id u = id) then pending u else []) as <-.
      { unfold pending. rewrite D. destruct Hd as [Hf|[d ->]].
        - rewrite (quiet_data id [f]) by (by constructor). by destruct f; try done; case_decide.
        - cbn. repeat case_decide; naive_solver. }
      split; [|intros Hw; destruct (cn_writer k); auto]. intros Hw. right. split; [done|].
      unfold outgoing. change (queued c (set_task _ _ ?x)) with (queued c x). rewrite E. by rewrite !data_app, <- !app_assoc.
Qed.

Lemma task_still x t s s' : (exists r, dialed x r t s = Some s') \/ up_take x t s = Some s' \/
  (exists b, up_wrote x b t s = Some s') \/ (exists r, down_read x r t s = Some s') \/ down_stop x t s = Some s' ->
  sv_conns s' = sv_conns s /\ sv_queues s' = sv_queues s.
Proof.
  intros [[r E]|[E|[[b E]|[[r E]|E]]]]; revert E.
  - unfold dialed. destruct (t_phase t); try done. by intros [= <-].
  - unfold up_take. destruct (t_phase t), (t_up t); try done. destruct (pop _) as [[]|]; [by intros [= <-]|].
    destruct (sender_alive _ _ _); [done|by intros [= <-]].
  - unfold up_wrote. destruct (t_phase t), (t_up t); try done. by intros [= <-].
  - unfold down_read. destruct (t_phase t), (t_down t); try done. destruct r as [[|y d]|]; try by intros [= <-].
    destruct (_ <=? _)%nat; [by intros [= <-]|done].
  - unfold down_stop. destruct (t_stop t); [by intros [= <-]|done].
Qed.
Lemma still_data id c k s s' k' : sv_conns s' = sv_conns s /\ sv_queues s' = sv_queues s -> sv_conns s !! c = Some k ->
  sv_conns s' !! c = Some k' -> data_step id c [] k s k' s'.
Proof. intros [E1 E2] Hk. rewrite E1, Hk. intros [= <-]. apply ds_same; [done|done|]. unfold queued. by rewrite E2. Qed.

Lemma step_data id c e k s s' k' : inv s -> lost_ok s -> open_ok s -> quiet_inv s -> map_Forall (fun _ => task_ok) (sv_tasks s) ->
  step s e = Some s' -> sv_conns s !! c = Some k -> sv_conns s' !! c = Some k' ->
  data_step id c (queued_data id c e s) k s k' s'.
Proof.
  intros Hi Hlo Ho Hq Ht E Hk. destruct e; cbn [step] in E; cbn [queued_data];
    try (injection E as <-); try (cbn; rewrite Hk; intros [= <-]; by apply ds_same).
  all: try (apply bind_Some in E as (u & Hu & E); apply still_data; [|done]; eapply task_still; eauto 6; fail).
  - case_match; [|done]. injection E as <-. cbn. rewrite Hk. intros [= <-]. by apply ds_same.
  - cbn. rewrite lookup_insert_ne, Hk; [intros [= <-]; by apply ds_same|]. intros <-.
    by rewrite (proj1 (inv_fresh _ Hi _ (le_n _))) in Hk.
  - apply bind_Some in E as (kd & Hd & E). intros Hk'. eapply (received_cs id c k s); try exact E; done.
  - apply bind_Some in E as (kd & Hd & E). intros Hk'. eapply (tau_cs id c k s); try exact E; done.
  - apply bind_Some in E as (kd & Hd & E). intros Hk'. eapply (tun_cs id c k s); try exact E; done.
  - apply bind_Some in E as (kd & Hd & E). intros Hk'. eapply (sent_cs id c k s); try exact E; done.
  - apply bind_Some in E as (kd & Hd & E). intros Hk'. eapply (writer_cs id c k s); [done|exact Hd|eauto|done].
  - apply bind_Some in E as (kd & Hd & E). intros Hk'. eapply (writer_cs id c k s); [done|exact Hd|eauto|done].
  - apply bind_Some in E as (kd & Hd & E). intros Hk'. eapply (writer_cs id c k s); [done|exact Hd|eauto|done].
  - apply bind_Some in E as (kd & Hd & E). intros Hk'. eapply (writer_cs id c k s); [done|exact Hd|eauto|done].
  - case_match; [|done]. destruct r as [pkt|]; injection E as <-; cbn; rewrite Hk; intros [= <-]; [|by apply ds_same].
    destruct (tun_route_queue c (sv_router s) pkt s) as (new & Hn & Eq). by eapply ds_quiet.
  - apply bind_Some in E as (u & Hu & E).
    pose proof (down_send_data id c _ u k s s' Hk Ho Hu (map_Forall_lookup_1 _ _ _ _ Ht Hu) E) as Hd.
    assert (sv_conns s' = sv_conns s) as ->; [|rewrite Hk; by intros [= <-]].
    revert E. unfold down_send. destruct (t_phase u), (t_down u); try done.
    all: intros (p & P & E)%bind_Some; apply session_send_Some in P as (q & _ & _ & P).
    all: try (injection E as <-; cbn; by rewrite P).
    all: destruct p; cbn in P; subst; by injection E as <-.
Qed.
End TaskStep.

(** *** What a task has read, and where it is *)

Definition read_by (x : tid) (e : event) : list bytes :=
  match e with EDownRead y (Ok (b :: d)) => if decide (y = x) then [b :: d] else [] | _ => [] end.
Definition reads (x : tid) (es : list event) : list bytes := flat_map (read_by x) es.
Definition moved_by (x : tid) (e : event) (s : Server) : list bytes :=
  match e with
  | EDownSend y => if decide (y = x) then match sv_tasks s !! y with Some u => moved u | None => [] end else []
  | _ => []
  end.

(** A step of the system, seen by a task: what was pending or read is sent, or is
    pending, or (when the task is over) given up. *)
Definition progress (x : tid) (e : event) (s : Server) (u u' : Task) : Prop :=
  t_conn u' = t_conn u /\ t_id u' = t_id u /\ (task_ok u -> task_ok u') /\
  (t_down u' <> DEnded -> t_down u <> DEnded) /\
  exists rest, pending u ++ read_by x e = moved_by x e s ++ rest /\ (t_down u' <> DEnded -> rest = pending u').
Lemma pr_same x e s u u' : t_conn u' = t_conn u -> t_id u' = t_id u -> t_phase u' = t_phase u -> t_down u' = t_down u ->
  read_by x e = [] -> moved_by x e s = [] -> progress x e s u u'.
Proof.
  intros E1 E2 E3 E4 Hr Hm. unfold progress, task_ok, pending. rewrite E1, E2, E3, E4, Hr, Hm, app_nil_r. eauto 8.
Qed.
Definition task_evolves (x : tid) (e : event) (s s' : Server) : Prop := forall u', sv_tasks s' !! x = Some u' ->
  (exists u, sv_tasks s !! x = Some u /\ progress x e s u u') \/
  (sv_tasks s !! x = None /\ task_ok u' /\ pending u' = [] /\ t_down u' <> DEnded /\ read_by x e = []).
Lemma ev_same x e s s' : sv_tasks s' = sv_tasks s -> read_by x e = [] -> moved_by x e s = [] -> task_evolves x e s s'.
Proof. intros E Hr Hm u'. rewrite E. intros Hu. left. exists u'. split; [done|]. by apply pr_same. Qed.
Lemma ev_task x y e s s' t t' : sv_tasks s !! y = Some t -> sv_tasks s' = <[y := t']> (sv_tasks s) ->
  (y <> x -> read_by x e = [] /\ moved_by x e s = []) -> (y = x -> progress x e s t t') -> task_evolves x e s s'.
Proof.
  intros Ht E Hne Heq u'. rewrite E. intros [[-> <-]|[Hd Hu]]%lookup_insert_Some; left; [eauto|].
  exists u'. split; [done|]. destruct (Hne Hd). by apply pr_same.
Qed.

Section Evolve.
Context `{IpNet}.

Lemma do_action_ev x c b ss a rest k s e : ids_fresh s -> read_by x e = [] -> moved_by x e s = [] ->
  task_evolves x e s (do_action c b ss a rest k s).
Proof.
  intros Hf Hr Hm. destruct a; try (by apply ev_same).
  - apply ev_same; [|done..]. cbn. by destruct (sv_has_tun s).
  - intros u'. cbn. intros [[<- <-]|[Hd Hu]]%lookup_insert_Some; [|left; exists u'; split; [done|]; by apply pr_same].
    right. by rewrite (proj2 (Hf _ (le_n _))).
  - cbn. destruct (cn_streams k !! id) as [y|]; [|by apply ev_same]. intros u'. cbn.
    intros [(<- & u & Hu & ->)|[Hd Hu]]%lookup_alter_Some; left; [exists u|exists u']; (split; [done|]); by apply pr_same.
Qed.
Lemma down_read_ev x y r k s s' : sv_tasks s !! y = Some k -> down_read y r k s = Some s' -> task_evolves x (EDownRead y r) s s'.
Proof.
  intros Hk E.
  revert E. unfold down_read. destruct (t_phase k) eqn:P, (t_down k) eqn:D; try done.
  assert (forall f, quiet f \/ (exists d, f = FStreamData (t_id k) d) -> task_ok (task_down k (DSending f))) as Hok.
  { intros f Hfr. unfold task_ok. cbn. by rewrite P. }
  destruct r as [[|b d]|]; [| |]; try (destruct (_ <=? _)%nat; [|done]); intros [= <-];
    (eapply ev_task; [exact Hk|reflexivity|intros Hne; cbn; by try rewrite decide_False|]); intros ->;
    unfold progress, pending; cbn; rewrite D; (split_and!; [done|done|intros _; apply Hok; eauto|done|]);
    cbn; try rewrite decide_True by done; eauto.
Qed.
Lemma down_send_ev x y k s s' : sv_tasks s !! y = Some k -> down_send y k s = Some s' -> task_evolves x (EDownSend y) s s'.
Proof.
  intros Hk E.
  assert (y <> x -> moved_by x (EDownSend y) s = []) as Hm by (intros Hne; cbn; by rewrite decide_False).
  revert E. unfold down_send. destruct (t_phase k) as [|f| |] eqn:P; try done.
  - intros (p & Hs & E)%bind_Some. apply session_send_Some in Hs as (q & _ & _ & Hs). injection E as <-.
    eapply ev_task; [exact Hk|cbn; by rewrite Hs|auto|]. intros ->. unfold progress, pending, task_ok. cbn.
    rewrite decide_True, Hk by done. unfold moved. rewrite P, app_nil_r. cbn.
    split_and!; [done..|]. eexists. by split.
  - destruct (t_down k) as [|f|] eqn:D; try done. intros ([p b] & Hs & E)%bind_Some.
    apply session_send_Some in Hs as (q & _ & _ & Hs). cbn in Hs. subst p. injection E as <-.
    eapply ev_task; [exact Hk|reflexivity|auto|]. intros ->. unfold progress. cbn. rewrite decide_True, Hk by done.
    unfold moved, pending, task_ok. cbn. rewrite P, D, app_nil_r.
    split_and!; [done|done| |done|]; [intros _; destruct f, b; cbn; auto|].
    exists []. rewrite app_nil_r. split; [done|]. by destruct f, b.
Qed.
Lemma step_evolves x s e s' : ids_fresh s -> step s e = Some s' -> task_evolves x e s s'.
Proof.
  intros Hf E. destruct e; cbn [step] in E; try (injection E as <-; by apply ev_same);
    try (apply bind_Some in E as (k & Hk & E)).
  - case_match; [|done]. injection E as <-. by apply ev_same.
  - apply ev_same; [|done..]. revert E. unfold received. destruct (cn_phase k) as [| | | | | | |? []| | | | |]; try done; by intros [= <-].
  - revert E. unfold tau. destruct (cn_phase k) as [| | | | | | |ss [|a todo]| | | | |]; try done;
      try (by try case_match; intros [= <-]; apply ev_same).
    destruct (awaits_dev s a); [done|]. intros [= <-]. by apply do_action_ev.
  - apply tun_wrote_Some in E as (ss & pkt & rest & _ & _ & ->). by apply do_action_ev.
  - apply ev_same; [|done..]. revert E. unfold sent. destruct (cn_phase k); try done; by intros [= <-].
  - apply ev_same; [|done..]. revert E. unfold writer_take. destruct (cn_writer k); try done. intros (q & Q & E)%bind_Some.
    destruct (pop q) as [[]|]; [by injection E as <-|]. destruct (no_senders _ _ _); [by injection E as <-|done].
  - apply ev_same; [|done..]. revert E. unfold writer_sent. destruct (cn_writer k); try done; by intros [= <-].
  - apply ev_same; [|done..]. revert E. unfold writer_tau. destruct (cn_writer k); try done; by intros [= <-].
  - apply ev_same; [|done..]. revert E. unfold writer_stop. destruct (cn_stop k), (cn_writer k); try done; by intros [= <-].
  - case_match; [|done]. destruct r; injection E as <-; by apply ev_same.
  - revert E. unfold dialed. destruct (t_phase k) eqn:P; try done. intros [= <-].
    eapply ev_task; [exact Hk|reflexivity|done|]. intros ->. unfold progress, pending. cbn. rewrite app_nil_r.
    split_and!; [done|done| |done|eauto]. unfold task_ok. cbn. intros [_ ?]. split; [|done]. by destruct r.
  - revert E. unfold up_take. destruct (t_phase k), (t_up k); try done.
    destruct (pop _) as [[]|]; [|destruct (sender_alive _ _ _); [done|]]; intros [= <-];
      (eapply ev_task; [exact Hk|reflexivity|done|]); intros ->; by apply pr_same.
  - revert E. unfold up_wrote. destruct (t_phase k), (t_up k); try done. intros [= <-].
    eapply ev_task; [exact Hk|reflexivity|done|]. intros ->. by destruct ok; apply pr_same.
  - by eapply down_read_ev.
  - by eapply down_send_ev.
  - revert E. unfold down_stop. destruct (t_stop k); [|done]. intros [= <-].
    eapply ev_task; [exact Hk|reflexivity|done|]. intros ->. unfold progress, task_ok. cbn. rewrite app_nil_r.
    split_and!; [done|done|tauto|done|]. eexists. by split.
Qed.
End Evolve.

(** ** The invariant *)

(** [x] is the only task of its stream; or the stream has none. *)
Definition sole (x : tid) (u : Task) (s : Server) : Prop := forall y v, sv_tasks s !! y = Some v ->
  t_conn v = t_conn u -> t_id v = t_id u -> y = x.
Definition unserved (c : cid) (id : Z) (s : Server) : Prop := forall y v, sv_tasks s !! y = Some v ->
  t_conn v = c -> t_id v = id -> False.

Record sent_back (es : list event) (s : Server) : Prop := {
  sb_ok : map_Forall (fun _ => task_ok) (sv_tasks s);
  sb_none : forall x, sv_tasks s !! x = None -> reads x es = [];
  sb_idle : forall c k id, sv_conns s !! c = Some k -> unserved c id s ->
    data_of id (cn_log k) = [] /\ (working (cn_writer k) = true -> data_of id (outgoing c k s) = []);
  sb_task : forall x u k, sv_tasks s !! x = Some u -> sole x u s -> sv_conns s !! t_conn u = Some k ->
    data_of (t_id u) (cn_log k) `prefix_of` reads x es /\
    (working (cn_writer k) = true -> exists rest, reads x es = data_of (t_id u) (outgoing (t_conn u) k s) ++ rest /\
       (t_down u <> DEnded -> rest = pending u));
}.

Lemma data_prefix id a b : a `prefix_of` b -> data_of id a `prefix_of` data_of id b.
Proof. intros [r ->]. rewrite data_app. by apply prefix_app_r. Qed.
Lemma log_outgoing c k s : cn_log k `prefix_of` outgoing c k s.
Proof. by apply prefix_app_r. Qed.
Lemma reads_snoc x es e : reads x (es ++ [e]) = reads x es ++ read_by x e.
Proof. unfold reads. rewrite flat_map_app. cbn. by rewrite app_nil_r. Qed.
Lemma moved_by_none x e s u : sv_tasks s !! x = Some u -> pending u = [] -> moved_by x e s = [].
Proof.
  intros Hu Hp. unfold moved_by, moved. destruct e; try done. case_decide; [subst t|done]. rewrite Hu, Hp.
  by destruct (t_phase u).
Qed.
Lemma queued_moved x u e s : sv_tasks s !! x = Some u -> sole x u s -> queued_data (t_id u) (t_conn u) e s = moved_by x e s.
Proof.
  intros Hu Hs. unfold queued_data, moved_by. destruct e; try done. destruct (sv_tasks s !! t) as [v|] eqn:Hv; [|by case_decide].
  case_decide as Hc; case_decide as Hx; try done; [destruct Hc; exfalso; eauto|].
  subst t. rewrite Hu in Hv. injection Hv as <-. by destruct Hc.
Qed.
Lemma queued_unserved c id e s : unserved c id s -> queued_data id c e s = [].
Proof.
  intros Hn. unfold queued_data. destruct e; try done. destruct (sv_tasks s !! t) as [v|] eqn:Hv; [|done].
  case_decide as Hc; [|done]. destruct Hc. exfalso. eauto.
Qed.

Section Back.
Context `{IpNet}.

Lemma fresh_conn s s' c k' : move s s' -> sv_conns s !! c = None -> sv_conns s' !! c = Some k' ->
  cn_log k' = [] /\ cn_writer k' = WNone.
Proof.
  intros Hm Hn. destruct Hm; cbn; try (by rewrite Hn);
    try (rewrite lookup_insert_Some; intros [[<- <-]|[_ ?]]; [first [done|congruence]|congruence]).
  destruct (do_action_conn c0 b ss a rest k s) as (p & m & ->). rewrite lookup_insert_Some. intros [[<- <-]|[_ ?]]; congruence.
Qed.
Lemma no_read s e s' x : step s e = Some s' -> sv_tasks s !! x = None -> read_by x e = [].
Proof.
  intros E Hx. unfold read_by. destruct e; try done. destruct r as [[|b d]|]; try done. case_decide; [subst t|done].
  cbn in E. by rewrite Hx in E.
Qed.
Lemma unserved_back s s' c id : ids_fresh s -> move s s' -> unserved c id s' -> unserved c id s.
Proof. intros Hf Hm Hu y v Hv E1 E2. destruct (move_task _ _ _ _ Hf Hm Hv) as (v' & Hv' & F1 & F2). eapply Hu; [exact Hv'|congruence..]. Qed.
Lemma sole_back s s' x u u' : ids_fresh s -> move s s' -> t_conn u' = t_conn u -> t_id u' = t_id u -> sole x u' s' -> sole x u s.
Proof.
  intros Hf Hm E1 E2 Hu y v Hv G1 G2. destruct (move_task _ _ _ _ Hf Hm Hv) as (v' & Hv' & F1 & F2).
  eapply Hu; [exact Hv'|congruence..].
Qed.

(** A stream without a task stays without data. *)
Lemma idle_step es s e s' c k' id : inv s -> lost_ok s -> open_ok s -> quiet_inv s -> quiet_inv s' -> sent_back es s ->
  step s e = Some s' -> unserved c id s -> sv_conns s' !! c = Some k' ->
  data_of id (cn_log k') = [] /\ (working (cn_writer k') = true -> data_of id (outgoing c k' s') = []).
Proof.
  intros Hi Hlo Ho Hq Hq' [Hok _ Hid _] E Hu Hk'. destruct (sv_conns s !! c) as [k|] eqn:Hk.
  - destruct (step_data id c e k s s' k' Hi Hlo Ho Hq Hok E Hk Hk') as [Hw Hn]. rewrite queued_unserved in Hw by done.
    destruct (Hid _ _ _ Hk Hu) as [Hl Hout].
    assert (working (cn_writer k') = true -> data_of id (outgoing c k' s') = []) as Hout'.
    { intros W. destruct (Hw W) as [[_ ?]|[? ->]]; [done|]. by rewrite Hout. }
    split; [|done]. destruct (working (cn_writer k')) eqn:W.
    + apply prefix_nil_inv. rewrite <- Hout' by done. apply data_prefix, log_outgoing.
    + destruct (Hn eq_refl) as [Hw'|[_ ->]]; [|done].
      destruct (qt_conns _ Hq' _ _ Hk') as [_ Hc]. by apply quiet_data, Hc.
  - destruct (fresh_conn _ _ _ _ (step_moves _ _ _ E) Hk Hk') as [-> Hw]. by rewrite Hw.
Qed.

(** A step of a stream whose task was there before. *)
Lemma task_step es s e s' x u u' k' : inv s -> lost_ok s -> open_ok s -> quiet_inv s -> quiet_inv s' -> sent_back es s ->
  step s e = Some s' -> sv_tasks s !! x = Some u -> progress x e s u u' -> sole x u s ->
  sv_conns s' !! t_conn u = Some k' ->
  data_of (t_id u) (cn_log k') `prefix_of` reads x (es ++ [e]) /\
  (working (cn_writer k') = true -> exists rest, reads x (es ++ [e]) = data_of (t_id u) (outgoing (t_conn u) k' s') ++ rest /\
     (t_down u' <> DEnded -> rest = pending u')).
Proof.
  intros Hi Hlo Ho Hq Hq' [Hok _ _ Htk] E Hu (_ & _ & _ & Hd & rest' & Hp & Hr') Hs Hk'. rewrite reads_snoc.
  destruct (qt_tasks _ Hq _ _ Hu) as (k & Hk & Hwk). destruct (Htk _ _ _ Hu Hs Hk) as [Hl Hout].
  destruct (step_data (t_id u) (t_conn u) e k s s' k' Hi Hlo Ho Hq Hok E Hk Hk') as [Hw Hn].
  rewrite (queued_moved x u e s Hu Hs) in Hw.
  assert (working (cn_writer k') = true -> exists rest, reads x es ++ read_by x e =
    data_of (t_id u) (outgoing (t_conn u) k' s') ++ rest /\ (t_down u' <> DEnded -> rest = pending u')) as Hout'.
  { intros W. destruct (Hw W) as [[? _]|[Wk ->]]; [done|]. destruct (Hout Wk) as (rest & -> & Hrest).
    destruct (t_down u) as [|f|] eqn:D.
    - exists rest'. split; [|done]. by rewrite Hrest, <- !app_assoc, Hp.
    - exists rest'. split; [|done]. by rewrite Hrest, <- !app_assoc, Hp.
    - rewrite (moved_by_none x e s u Hu) by (unfold pending; by rewrite D). rewrite app_nil_r, <- app_assoc.
      eexists. split; [done|]. intros Hne. by destruct (Hd Hne). }
  split; [|done]. destruct (working (cn_writer k')) eqn:W.
  - destruct (Hout' eq_refl) as (rest & -> & _). apply prefix_app_r, data_prefix, log_outgoing.
  - destruct (Hn eq_refl) as [Hw'|[_ ->]]; [|by apply prefix_app_r].
    destruct (qt_conns _ Hq' _ _ Hk') as [_ Hc]. rewrite quiet_data by (by apply Hc). apply prefix_nil.
Qed.
Lemma sent_back_step es s e s' : inv s -> lost_ok s -> open_ok s -> quiet_inv s -> quiet_inv s' -> sent_back es s ->
  step s e = Some s' -> sent_back (es ++ [e]) s'.
Proof.
  intros Hi Hlo Ho Hq Hq' Hb E. pose proof (step_moves _ _ _ E) as Hm. pose proof (inv_fresh _ Hi) as Hf. split.
  - intros x u' Hu'. destruct (step_evolves x _ _ _ Hf E u' Hu') as [(u & Hu & _ & _ & Hok & _)|(_ & ? & _)]; [|done].
    apply Hok. exact (sb_ok _ _ Hb x u Hu).
  - intros x Hx. assert (sv_tasks s !! x = None) as Hx0.
    { destruct (sv_tasks s !! x) as [u|] eqn:Hu; [|done]. destruct (move_task _ _ _ _ Hf Hm Hu) as (u' & Hu' & _). congruence. }
    by rewrite reads_snoc, (sb_none _ _ Hb), (no_read _ _ _ _ E).
  - intros c k id Hk Hu. eapply idle_step; eauto using unserved_back.
  - intros x u' k' Hu' Hs Hk'. destruct (step_evolves x _ _ _ Hf E u' Hu') as [(u & Hu & Hp)|(Hn & _ & Hp & _ & Hr)].
    + pose proof Hp as (E1 & E2 & _). rewrite E1 in *. rewrite E2. eapply task_step; eauto. by eapply sole_back.
    + rewrite reads_snoc, (sb_none _ _ Hb _ Hn), Hr. cbn.
      assert (unserved (t_conn u') (t_id u') s) as Hun.
      { intros y v Hv F1 F2. destruct (move_task _ _ _ _ Hf Hm Hv) as (v' & Hv' & G1 & G2).
        assert (y = x) as -> by (eapply Hs; [exact Hv'|congruence..]). congruence. }
      destruct (idle_step _ _ _ _ _ _ _ Hi Hlo Ho Hq Hq' Hb E Hun Hk') as [-> Hout]. split; [done|].
      intros W. exists []. by rewrite Hout, Hp.
Qed.
Lemma run_back es cfg v6 tun now s : run es (start cfg v6 tun now) = Some s -> sent_back es s.
Proof.
  revert s. induction es as [|e es IH] using rev_ind; intros s Hr.
  - injection Hr as <-. split; [apply map_Forall_empty|done|done|done].
  - pose proof Hr as Hr'. rewrite runs_app in Hr. apply bind_Some in Hr as (s1 & E & Hr). cbn in Hr.
    destruct (step s1 e) as [s2|] eqn:E2; [|done]. injection Hr as <-.
    pose proof (IH _ E) as Hb. apply (sent_back_step es s1 e s2); try done;
      [by eapply run_inv|by eapply run_lost|by eapply run_open|by eapply run_quiet|by eapply run_quiet].
Qed.
End Back.

(** ** Property *)


#[local] Existing Instance Demo.net.
Module RemotesDemo.
(** A client opens a stream; its remote sends two chunks, of which one was taken by the
    writer and the other is about to be queued. *)
Definition history : list event := Demo.login 0 HttpProxy ++
  [ERecv 0 (Ok (FStreamOpen 1 (TDomain "example.org" 443))); ETau 0 0; EDialed 1 (Ok tt);
   EDownRead 1 (Ok [Byte.x01]); EDownSend 1; EWTake 0; EDownRead 1 (Ok [Byte.x02])].
Definition task : Task := default (new_task 0 0 (TDomain "" 0)) (sv_tasks (Demo.after history) !! 1%nat).
Definition was_dialed : bool := match sv_tasks (Demo.after history) !! 1%nat with Some _ => true | None => false end.
Lemma task_there : was_dialed = true -> sv_tasks (Demo.after history) !! 1%nat = Some task.
Proof. unfold was_dialed, task. by destruct (sv_tasks (Demo.after history) !! 1%nat). Qed.
Definition tasks : list tid := map fst (map_to_list (sv_tasks (Demo.after history))).
Lemma only_task u : tasks = [1%nat] -> sole 1 u (Demo.after history).
Proof.
  intros Ht y v Hy _ _. assert (y ∈ tasks) as Hin.
  { apply list_elem_of_fmap. exists (y, v). split; [done|]. by apply elem_of_map_to_list. }
  rewrite Ht in Hin. by apply list_elem_of_singleton in Hin.
Qed.
End RemotesDemo.
