(* ===== verification/Web.v ===== *)
(** The web admin panel (server/src/web.rs): authorisation, the two read-only views and
    the two requests that edit the peer list and persist it. *)
From stdpp Require Import gmap.
From S2P Require Import Prelude Net Text Core Mpsc ServerConfig Router.

(** HTTP status codes the handlers answer with. *)
Inductive Status := UNAUTHORIZED | CONFLICT | NOT_FOUND | INTERNAL_SERVER_ERROR | CREATED | NO_CONTENT.

(** A request's credentials: the [token] query parameter, [""] when absent, and the
    text of the [authorization] header, when there is one and it is printable. *)
Record Creds := mkCreds { q_token : string; auth_header : option string }.

(** What the handlers see of the server: [AppState], and the disk the configuration is
    saved to.  A handler runs under the configuration's lock. *)
Record Admin := mkAdmin {
  ad_cfg : ServerConfig;
  ad_path : string;
  ad_disk : Disk;
  ad_router : Router.t;
  ad_counters : CounterStore;
  ad_metrics : Metrics.t;
  ad_now : Z;
}.
Definition with_cfg (c : ServerConfig) (a : Admin) : Admin :=
  mkAdmin c (ad_path a) (ad_disk a) (ad_router a) (ad_counters a) (ad_metrics a) (ad_now a).
Definition with_disk (d : Disk) (a : Admin) : Admin :=
  mkAdmin (ad_cfg a) (ad_path a) d (ad_router a) (ad_counters a) (ad_metrics a) (ad_now a).
Definition with_peers (ps : list PeerConfig) (c : ServerConfig) : ServerConfig :=
  mkConfig (listeners c) (network c) (security c) (web c) ps.

Definition bearer : string := "Bearer ".
Definition strip_bearer (v : string) : option string :=
  if String.prefix bearer v then Some (String.substring 7 (String.length v - 7) v) else None.

Definition authorized (a : Admin) (q : Creds) : bool :=
  let expected := admin_token (web (ad_cfg a)) in
  if negb (String.eqb (q_token q) "") && String.eqb (q_token q) expected then true
  else match v ← auth_header q; strip_bearer v with
       | Some t => String.eqb t expected
       | None => false
       end.

Record ListenerView := mkListenerView { v_transport : string; v_bind : string; v_tls : bool }.
Record PeerView := mkPeerView {
  v_name : string;
  v_token : string;
  v_ip : string;
  v_enabled : bool;
  v_allow_global : bool;
  v_allow_http_proxy : bool;
  v_online : bool;
  v_mode : option string;
  v_addr : option string;
}.
Record StatusResp := mkStatusResp {
  r_listeners : list ListenerView;
  r_subnet : string;
  r_gateway : string;
  r_mtu : Z;
  r_noise_psk : string;
  r_peers : list PeerView;
}.

Definition peer_view (online : gmap Ipv4Addr Online) (p : PeerConfig) : PeerView :=
  let o := online !! p_ip p in
  mkPeerView (p_name p) (p_token p) (show_v4 (p_ip p)) (enabled p) (allow_global p) (allow_http_proxy p)
    (match o with Some _ => true | None => false end)
    ((fun x => show_mode (on_mode x)) <$> o) (on_addr <$> o).

Definition status (a : Admin) (q : Creds) : result Status StatusResp :=
  if negb (authorized a q) then Err UNAUTHORIZED
  else
    let online := list_to_map (Router.online (ad_router a)) in
    let c := ad_cfg a in
    Ok (mkStatusResp
      (map (fun l => mkListenerView (show_transport (l_transport l)) (l_bind l) (l_tls l)) (listeners c))
      (subnet (network c)) (show_v4 (net_gateway (network c))) (net_mtu (network c))
      (noise_psk (security c)) (map (peer_view online) (peers c))).

Record StatsResp := mkStatsResp {
  r_uptime : Z;
  r_total_up : Z;
  r_total_down : Z;
  r_online : Z;
  r_timeline : list TrafficSample;
  r_stats : list PeerStat;
}.
Definition stats (a : Admin) (q : Creds) : result Status StatsResp :=
  if negb (authorized a q) then Err UNAUTHORIZED
  else
    let live := Router.live (ad_router a) (ad_counters a) (ad_now a) in
    let m := ad_metrics a in
    let (u, d) := Metrics.totals m in
    Ok (mkStatsResp (Metrics.uptime_secs (ad_now a) m) u d (Z.of_nat (length live))
      (Metrics.timeline m) (Metrics.peer_stats m live)).

Section Requests.
Context `{ServerToml}.

Definition persist : eff Admin Status unit := fun a =>
  let (d, r) := save (ad_path a) (ad_cfg a) (ad_disk a) in
  (with_disk d a, map_err (fun _ => INTERNAL_SERVER_ERROR) r).

Definition add_peer (q : Creds) (peer : PeerConfig) : eff Admin Status Status := fun a =>
  if negb (authorized a q) then (a, Err UNAUTHORIZED)
  else if existsb (fun p => String.eqb (p_token p) (p_token peer) || bool_decide (p_ip p = p_ip peer))
            (peers (ad_cfg a))
  then (a, Err CONFLICT)
  else (persist;; mret CREATED)
         (with_cfg (with_peers (peers (ad_cfg a) ++ [peer]) (ad_cfg a)) a).

Definition del_peer (q : Creds) (token : string) : eff Admin Status Status := fun a =>
  if negb (authorized a q) then (a, Err UNAUTHORIZED)
  else
    let kept := List.filter (fun p => negb (String.eqb (p_token p) token)) (peers (ad_cfg a)) in
    let a' := with_cfg (with_peers kept (ad_cfg a)) a in
    if (length kept =? length (peers (ad_cfg a)))%nat then (a', Err NOT_FOUND)
    else (persist;; mret NO_CONTENT) a'.

Inductive request := RAdd (q : Creds) (p : PeerConfig) | RDel (q : Creds) (token : string).
Definition serve_edit (r : request) : Admin -> Admin * result Status Status :=
  match r with RAdd q p => add_peer q p | RDel q t => del_peer q t end.
Fixpoint serve_edits (rs : list request) (a : Admin) : Admin :=
  match rs with [] => a | r :: rest => serve_edits rest (serve_edit r a).1 end.

(** ** Lemmas *)

Lemma persist_cfg a a' r : persist a = (a', r) -> ad_cfg a' = ad_cfg a /\ ad_path a' = ad_path a.
Proof. unfold persist. destruct (save _ _ _). by intros [= <- _]. Qed.

Lemma persist_err a a' e : persist a = (a', Err e) -> e = INTERNAL_SERVER_ERROR.
Proof. unfold persist. destruct (save _ _ _) as [d [u|x]]; cbn; congruence. Qed.

Lemma persist_then_cfg a (v : Status) :
  ad_cfg ((persist;; (mret v : eff Admin Status Status)) a).1 = ad_cfg a.
Proof.
  unfold mbind, eff_bind. destruct (persist a) as [a' [u|e]] eqn:E; apply persist_cfg in E as [E _]; done.
Qed.

Lemma persist_reload `{!ServerTomlLaws} a a' :
  persist a = (a', Ok tt) -> load (ad_path a) (ad_disk a') = Ok (ad_cfg a).
Proof.
  unfold persist, save, lift_result, with_err, mbind, eff_bind.
  destruct (toml_print (ad_cfg a)) as [t|e] eqn:Et; cbn; [|done].
  destruct (write_file (ad_path a) t (ad_disk a)) as [d [[]|e]] eqn:Ew; cbn; [|done].
  intros [= <-]. cbn. unfold load. rewrite (read_write_file _ _ _ _ Ew). cbn.
  by rewrite (toml_round_trip _ _ Et).
Qed.

Lemma existsb_conflict ps peer :
  existsb (fun p => String.eqb (p_token p) (p_token peer) || bool_decide (p_ip p = p_ip peer)) ps = false <->
  ~ In (p_token peer) (map p_token ps) /\ ~ In (p_ip peer) (map p_ip ps).
Proof.
  induction ps as [|p ps IH]; cbn; [naive_solver|].
  rewrite orb_false_iff, orb_false_iff, IH, String.eqb_neq, bool_decide_eq_false. tauto.
Qed.

Lemma peers_wf_snoc c peer :
  peers_wf c -> ~ In (p_token peer) (map p_token (peers c)) -> ~ In (p_ip peer) (map p_ip (peers c)) ->
  peers_wf (with_peers (peers c ++ [peer]) c).
Proof.
  intros [Ht Hi] Hnt Hni. split; cbn; rewrite map_app; apply NoDup_app; split_and!; try done.
  - intros x Hx ->%list_elem_of_singleton. by apply Hnt, list_elem_of_In.
  - apply NoDup_singleton.
  - intros x Hx ->%list_elem_of_singleton. by apply Hni, list_elem_of_In.
  - apply NoDup_singleton.
Qed.

Lemma NoDup_map_filter {A B} (f : A -> B) (P : A -> bool) l :
  NoDup (map f l) -> NoDup (map f (List.filter P l)).
Proof.
  induction l as [|x l IH]; cbn; [done|]. intros [Hx Hl]%NoDup_cons.
  destruct (P x); cbn; [|auto]. apply NoDup_cons. split; [|auto].
  intros Hin. apply Hx. apply list_elem_of_In in Hin. apply list_elem_of_In.
  apply in_map_iff in Hin as (y & <- & [Hy _]%filter_In). by apply in_map.
Qed.

Lemma add_peer_cfg q peer a :
  ad_cfg (add_peer q peer a).1 = ad_cfg a \/
  (~ In (p_token peer) (map p_token (peers (ad_cfg a))) /\ ~ In (p_ip peer) (map p_ip (peers (ad_cfg a))) /\
   ad_cfg (add_peer q peer a).1 = with_peers (peers (ad_cfg a) ++ [peer]) (ad_cfg a)).
Proof.
  unfold add_peer. destruct (authorized a q); cbn [negb]; [|by left].
  destruct (existsb _ _) eqn:E; [by left|]. apply existsb_conflict in E as [? ?].
  right. split_and!; [done..|]. apply persist_then_cfg.
Qed.
Lemma del_peer_cfg q t a :
  ad_cfg (del_peer q t a).1 = ad_cfg a \/
  ad_cfg (del_peer q t a).1 =
    with_peers (List.filter (fun p => negb (String.eqb (p_token p) t)) (peers (ad_cfg a))) (ad_cfg a).
Proof.
  unfold del_peer. destruct (authorized a q); cbn [negb]; [|by left]. right.
  destruct (_ =? _)%nat; [done|]. by rewrite persist_then_cfg.
Qed.

Lemma filter_length_all {A} (P : A -> bool) l :
  length (List.filter P l) = length l <-> List.filter P l = l.
Proof.
  split; [|congruence]. induction l as [|x l IH]; cbn; [done|].
  destruct (P x); cbn.
  - intros [= H']. by rewrite IH.
  - intros Hl. pose proof (List.filter_length_le P l). lia.
Qed.
Lemma filter_find_other c t t' : t' <> t ->
  find_peer (with_peers (List.filter (fun p => negb (String.eqb (p_token p) t)) (peers c)) c) t' = find_peer c t'.
Proof.
  intros Hne. unfold find_peer. cbn. induction (peers c) as [|p l IH]; cbn; [done|].
  destruct (String.eqb_spec (p_token p) t) as [->|]; cbn.
  - destruct (String.eqb_spec t t'); [congruence|done].
  - by destruct (String.eqb (p_token p) t').
Qed.
Lemma filter_find_same c t :
  find_peer (with_peers (List.filter (fun p => negb (String.eqb (p_token p) t)) (peers c)) c) t = None.
Proof.
  apply find_peer_None, Forall_forall. cbn. intros p [_ Hp]%list_elem_of_In%filter_In.
  by destruct (String.eqb_spec (p_token p) t).
Qed.
Lemma find_peer_snoc c p t :
  find_peer (with_peers (peers c ++ [p]) c) t =
    match find_peer c t with Some q => Some q | None => if String.eqb (p_token p) t then Some p else None end.
Proof.
  unfold find_peer. cbn. induction (peers c) as [|x l IH]; cbn; [done|].
  by destruct (String.eqb (p_token x) t).
Qed.
End Requests.

Lemma online_lookup (m : gmap Ipv4Addr Entry) ip :
  (list_to_map (map (fun p => (p.1, e_info p.2)) (map_to_list m)) : gmap Ipv4Addr Online) !! ip =
  e_info <$> m !! ip.
Proof.
  transitivity ((list_to_map (prod_map id e_info <$> map_to_list m) : gmap Ipv4Addr Online) !! ip).
  { f_equal. }
  by rewrite list_to_map_fmap, list_to_map_to_list, lookup_fmap.
Qed.

(** ** Properties *)

(** The admin API keeps the peer table well formed: if tokens and virtual addresses
    are pairwise distinct, they remain so after any sequence of additions and
    deletions, authorised or not and whether or not saving succeeds. *)
Theorem edits_keep_peers_wf `{ServerToml} (rs : list request) (a : Admin) :
  peers_wf (ad_cfg a) -> peers_wf (ad_cfg (serve_edits rs a)).
Proof.
  revert a. induction rs as [|r rs IH]; intros a Hwf; cbn; [done|]. apply IH.
  destruct r as [q p|q t]; cbn.
  - destruct (add_peer_cfg q p a) as [->|(? & ? & ->)]; [done|]. by apply peers_wf_snoc.
  - destruct (del_peer_cfg q t a) as [->| ->]; [done|]. destruct Hwf as [Ht Hi].
    split; cbn; by apply NoDup_map_filter.
Qed.

(** Nothing without the admin token: a request is authorised exactly when its query
    token is non-empty and equal to the configured one, or its authorization header is
    [Bearer ] followed by it; every other request, of any kind, is answered 401 and
    changes neither the configuration nor the disk. *)
Theorem admin_authorisation `{ServerToml} (a : Admin) (q : Creds) :
  let expected := admin_token (web (ad_cfg a)) in
  (authorized a q = true <->
     (q_token q <> "" /\ q_token q = expected) \/
     exists v, auth_header q = Some v /\ strip_bearer v = Some expected) /\
  (authorized a q = false ->
     status a q = Err UNAUTHORIZED /\ stats a q = Err UNAUTHORIZED /\
     (forall p, add_peer q p a = (a, Err UNAUTHORIZED)) /\
     (forall t, del_peer q t a = (a, Err UNAUTHORIZED))).
Proof.
  cbv zeta. split.
  - unfold authorized. destruct (String.eqb_spec (q_token q) "") as [E|E]; cbn.
    + destruct (auth_header q) as [v|]; cbn; [|naive_solver].
      destruct (strip_bearer v) as [t|] eqn:Ev; [|naive_solver].
      rewrite String.eqb_eq. naive_solver.
    + destruct (String.eqb_spec (q_token q) (admin_token (web (ad_cfg a)))) as [E'|E'].
      { split; [|done]. auto. }
      destruct (auth_header q) as [v|]; cbn; [|naive_solver].
      destruct (strip_bearer v) as [t|] eqn:Ev; [|naive_solver].
      rewrite String.eqb_eq. naive_solver.
  - intros E. unfold status, stats, add_peer, del_peer. by rewrite E.
Qed.

(** Adding a peer, branch by branch, for an authorised request: a token or address
    already in use is a conflict and changes nothing; otherwise the peer is in memory,
    found under its token while every other lookup is unchanged, and the answer tells
    whether it was saved: 201 means the file now loads back to exactly the new
    configuration, 500 that saving failed, the peer being active all the same. *)
Theorem add_peer_spec `{ServerTomlLaws} (a a' : Admin) (q : Creds) (p : PeerConfig) r :
  authorized a q = true -> add_peer q p a = (a', r) ->
  (r = Err CONFLICT /\ a' = a /\
     exists x, In x (peers (ad_cfg a)) /\ (p_token x = p_token p \/ p_ip x = p_ip p)) \/
  ((r = Ok CREATED /\ load (ad_path a) (ad_disk a') = Ok (ad_cfg a') \/ r = Err INTERNAL_SERVER_ERROR) /\
   (forall x, In x (peers (ad_cfg a)) -> p_token x <> p_token p /\ p_ip x <> p_ip p) /\
   find_peer (ad_cfg a') (p_token p) = Some p /\
   (forall t, t <> p_token p -> find_peer (ad_cfg a') t = find_peer (ad_cfg a) t)).
Proof.
  intros Ha. unfold add_peer. rewrite Ha. cbn [negb]. destruct (existsb _ _) eqn:E.
  { intros [= <- <-]. left. split_and!; [done..|]. apply existsb_exists in E as (x & Hx & Hc).
    exists x. split; [done|]. apply orb_true_iff in Hc as [?%String.eqb_eq|?%bool_decide_eq_true]; auto. }
  intros Hr. right. apply existsb_conflict in E as [Ht Hi].
  assert (ad_cfg a' = with_peers (peers (ad_cfg a) ++ [p]) (ad_cfg a)) as Hcfg.
  { pose proof (persist_then_cfg (with_cfg (with_peers (peers (ad_cfg a) ++ [p]) (ad_cfg a)) a) CREATED) as Hp.
    by rewrite Hr in Hp. }
  split_and!.
  - unfold mbind, eff_bind in Hr. destruct (persist _) as [b [[]|e]] eqn:Ep in Hr; injection Hr as <- <-.
    + left. split; [done|]. pose proof (persist_reload _ _ Ep) as Hl. cbn in Hl.
      change (ad_path a) with (ad_path (with_cfg (with_peers (peers (ad_cfg a) ++ [p]) (ad_cfg a)) a)).
      by rewrite Hcfg.
    + right. by rewrite (persist_err _ _ _ Ep).
  - intros x Hx. split; intros E; [apply Ht|apply Hi]; rewrite <- E; by apply in_map.
  - rewrite Hcfg, find_peer_snoc, String.eqb_refl.
    destruct (find_peer (ad_cfg a) (p_token p)) as [y|] eqn:Ey; [|done].
    apply find_peer_Some in Ey as [Hy E]. destruct Ht. rewrite <- E. by apply in_map.
  - intros t Hne. rewrite Hcfg, find_peer_snoc. destruct (String.eqb_spec (p_token p) t); [congruence|].
    by destruct (find_peer (ad_cfg a) t).
Qed.

(** Deleting a peer, for an authorised request: 404 exactly when no peer has the
    token, and then the configuration is what it was; otherwise the token is unknown
    afterwards, every other lookup is unchanged, and 204 means the file now loads back
    to exactly the new configuration. *)
Theorem del_peer_spec `{ServerTomlLaws} (a a' : Admin) (q : Creds) (t : string) r :
  authorized a q = true -> del_peer q t a = (a', r) ->
  (r = Err NOT_FOUND <-> find_peer (ad_cfg a) t = None) /\
  (r = Err NOT_FOUND -> peers (ad_cfg a') = peers (ad_cfg a) /\ ad_disk a' = ad_disk a) /\
  (r = Ok NO_CONTENT -> load (ad_path a) (ad_disk a') = Ok (ad_cfg a')) /\
  find_peer (ad_cfg a') t = None /\
  (forall t', t' <> t -> find_peer (ad_cfg a') t' = find_peer (ad_cfg a) t').
Proof.
  intros Ha. unfold del_peer. rewrite Ha. cbn [negb].
  set (kept := List.filter _ _). set (b := with_cfg _ a).
  assert (find_peer (ad_cfg a) t = None <-> length kept = length (peers (ad_cfg a))) as Hnone.
  { unfold kept. rewrite filter_length_all, find_peer_None. split.
    - intros HF. apply List.forallb_filter_id, forallb_forall. intros x Hx.
      rewrite Forall_forall in HF. specialize (HF x ltac:(by apply list_elem_of_In)).
      by destruct (String.eqb_spec (p_token x) t).
    - intros <-. apply Forall_forall. intros x [_ Hx]%list_elem_of_In%filter_In.
      by destruct (String.eqb_spec (p_token x) t). }
  assert (find_peer (ad_cfg b) t = None) as Hgone by apply filter_find_same.
  assert (forall t', t' <> t -> find_peer (ad_cfg b) t' = find_peer (ad_cfg a) t') as Hother.
  { intros t' Hne. by apply filter_find_other. }
  destruct (Nat.eqb_spec (length kept) (length (peers (ad_cfg a)))) as [El|El].
  - intros [= <- <-]. split_and!; try done; [by rewrite Hnone|].
    intros _. split; [|done]. cbn. unfold kept in *. by apply filter_length_all.
  - intros Hr. assert (ad_cfg a' = ad_cfg b) as Hcfg.
    { pose proof (persist_then_cfg b NO_CONTENT) as Hp. by rewrite Hr in Hp. }
    rewrite Hcfg. unfold mbind, eff_bind in Hr.
    destruct (persist b) as [d [[]|e]] eqn:Ep; injection Hr as <- <-.
    + split_and!; try done; [by rewrite Hnone|]. intros _. apply (persist_reload _ _ Ep).
    + assert (e = INTERNAL_SERVER_ERROR) as ->.
      { by apply persist_err in Ep. }
      split_and!; try done. by rewrite Hnone.
Qed.

(** The status view shows, for each configured peer in order, whether a session is
    routed under its address, and the mode and origin of that session. *)
Theorem status_spec (a : Admin) (q : Creds) r :
  status a q = Ok r ->
  length (r_peers r) = length (peers (ad_cfg a)) /\
  forall i p, peers (ad_cfg a) !! i = Some p -> exists v, r_peers r !! i = Some v /\
    v_token v = p_token p /\ v_ip v = show_v4 (p_ip p) /\
    v_online v = bool_decide (is_Some (Router.v4s (ad_router a) !! p_ip p)) /\
    v_mode v = (fun e => show_mode (on_mode (e_info e))) <$> Router.v4s (ad_router a) !! p_ip p /\
    v_addr v = (fun e => on_addr (e_info e)) <$> Router.v4s (ad_router a) !! p_ip p.
Proof.
  unfold status. destruct (authorized a q); [|done]. cbn [negb]. intros [= <-]. cbn.
  split; [apply length_map|]. intros i p Hp. eexists. rewrite list_lookup_fmap, Hp. split; [done|].
  cbn. unfold Router.online. rewrite online_lookup.
  by destruct (Router.v4s (ad_router a) !! p_ip p).
Qed.

(** ** Witnesses *)

(** A concrete server; its file format knows three configurations and refuses others. *)
Module WebDemo.
Definition base : ServerConfig := template "psk" "admin" "tok".
Definition peer2 : PeerConfig := mkPeer "p2" "tok2" (v4 10 66 0 3) true false true.
Definition grown : ServerConfig := with_peers (peers base ++ [peer2]) base.
Definition emptied : ServerConfig := with_peers [] base.
Definition print (c : ServerConfig) : result string bytes :=
  if decide (c = base) then Ok [Byte.x00]
  else if decide (c = grown) then Ok [Byte.x01]
  else if decide (c = emptied) then Ok [Byte.x02]
  else Err "unsupported".
Definition parse (t : bytes) : result string ServerConfig :=
  match t with
  | [Byte.x00] => Ok base
  | [Byte.x01] => Ok grown
  | [Byte.x02] => Ok emptied
  | _ => Err "unsupported"
  end.
#[export] Instance toml : ServerToml := {| toml_parse := parse; toml_print := print |}.
#[export] Instance toml_laws : ServerTomlLaws.
Proof.
  split. intros c t. cbn. unfold print.
  repeat (case_decide; [subst; by intros [= <-]|]). done.
Qed.
Definition admin : Admin := mkAdmin base "server.toml" (mkDisk ∅ ∅) Router.new ∅ (Metrics.new 0) 0.
Definition good : Creds := mkCreds "admin" None.
Definition by_header : Creds := mkCreds "" (Some "Bearer admin").
End WebDemo.
#[local] Existing Instance WebDemo.toml.
#[local] Existing Instance WebDemo.toml_laws.

Lemma edits_keep_peers_wf_witness :
  peers_wf (ad_cfg (serve_edits [RAdd WebDemo.good WebDemo.peer2; RDel WebDemo.by_header "tok"] WebDemo.admin)).
Proof.
  apply edits_keep_peers_wf. split; cbn; apply NoDup_singleton.
Defined.

Lemma admin_authorisation_witness :
  authorized WebDemo.admin WebDemo.by_header = true /\ status WebDemo.admin (mkCreds "" None) = Err UNAUTHORIZED.
Proof.
  split.
  - apply (proj1 (admin_authorisation WebDemo.admin WebDemo.by_header)). right.
    exists "Bearer admin". split; reflexivity.
  - apply (proj2 (admin_authorisation WebDemo.admin (mkCreds "" None))). reflexivity.
Defined.

Lemma add_peer_spec_witness :
  find_peer (ad_cfg (add_peer WebDemo.good WebDemo.peer2 WebDemo.admin).1) "tok2" = Some WebDemo.peer2.
Proof.
  destruct (add_peer_spec WebDemo.admin (add_peer WebDemo.good WebDemo.peer2 WebDemo.admin).1
    WebDemo.good WebDemo.peer2 (Ok CREATED)) as [(E & _)|(_ & _ & Hf & _)];
    [reflexivity|vm_compute; reflexivity|discriminate E|exact Hf].
Defined.

Lemma del_peer_spec_witness :
  load "server.toml" (ad_disk (del_peer WebDemo.good "tok" WebDemo.admin).1) =
    Ok (ad_cfg (del_peer WebDemo.good "tok" WebDemo.admin).1).
Proof.
  destruct (del_peer_spec WebDemo.admin (del_peer WebDemo.good "tok" WebDemo.admin).1
    WebDemo.good "tok" (Ok NO_CONTENT)) as (_ & _ & Hl & _);
    [reflexivity|vm_compute; reflexivity|exact (Hl eq_refl)].
Defined.

Lemma status_spec_witness :
  length (r_peers (match status WebDemo.admin WebDemo.good with Ok r => r
    | Err _ => mkStatusResp [] "" "" 0 "" [] end)) = 1%nat.
Proof.
  apply (status_spec WebDemo.admin WebDemo.good). reflexivity.
Defined.
