(* ===== verification/WebSteps.v ===== *)
(** Concurrent requests to the web admin (server/src/web.rs): the two editing handlers as
    steps, one per lock taken, so that every interleaving of requests is a run; the
    handlers of Web.v are the uninterrupted runs. *)
From stdpp Require Import gmap.
From S2P Require Import Prelude Net Text Core Mpsc ServerConfig Router Web.

(** Where a request stands: before reading the admin token, before taking the
    configuration's lock to edit it, or edited, with the answer it will give once the
    file is written. *)
Inductive Phase := Asks (r : request) | Edits (r : request) | Persists (answer : Status).

Definition creds (r : request) : Creds := match r with RAdd q _ => q | RDel q _ => q end.

Section Steps.
Context `{ServerToml}.

(** The section under the write lock, of either handler. *)
Definition edit (r : request) (a : Admin) : Admin * (Phase + result Status Status) :=
  match r with
  | RAdd _ peer =>
    if existsb (fun p => String.eqb (p_token p) (p_token peer) || bool_decide (p_ip p = p_ip peer)) (peers (ad_cfg a))
    then (a, inr (Err CONFLICT))
    else (with_cfg (with_peers (peers (ad_cfg a) ++ [peer]) (ad_cfg a)) a, inl (Persists CREATED))
  | RDel _ token =>
    let kept := List.filter (fun p => negb (String.eqb (p_token p) token)) (peers (ad_cfg a)) in
    let a' := with_cfg (with_peers kept (ad_cfg a)) a in
    if (length kept =? length (peers (ad_cfg a)))%nat then (a', inr (Err NOT_FOUND))
    else (a', inl (Persists NO_CONTENT))
  end.
(** Saving, and the answer of a request that edited. *)
Definition respond (v : Status) : eff Admin Status Status := persist;; mret v.
Definition phase_step (p : Phase) (a : Admin) : Admin * (Phase + result Status Status) :=
  match p with
  | Asks r => (a, if authorized a (creds r) then inl (Edits r) else inr (Err UNAUTHORIZED))
  | Edits r => edit r a
  | Persists v => let (a', r) := respond v a in (a', inr r)
  end.

(** The server, its requests under way and the answers given, and what can happen: a
    request arrives, one takes its next step, or the disk starts or stops failing. *)
Record Panel := mkPanel { pn_admin : Admin; pn_tasks : gmap nat Phase; pn_answers : list (nat * result Status Status) }.
Inductive pevent := Arrives (id : nat) (r : request) | Steps (id : nat) | Faults (f : gmap string (IoError * option nat)).
Definition panel_start (a : Admin) : Panel := mkPanel a ∅ [].
Definition panel_step (s : Panel) (e : pevent) : option Panel :=
  match e with
  | Arrives id r =>
    match pn_tasks s !! id with
    | Some _ => None
    | None => Some (mkPanel (pn_admin s) (<[id := Asks r]> (pn_tasks s)) (pn_answers s))
    end
  | Steps id =>
    p ← pn_tasks s !! id;
    let (a, n) := phase_step p (pn_admin s) in
    Some (match n with
          | inl p' => mkPanel a (<[id := p']> (pn_tasks s)) (pn_answers s)
          | inr r => mkPanel a (delete id (pn_tasks s)) (pn_answers s ++ [(id, r)])
          end)
  | Faults f =>
    let a := pn_admin s in
    Some (mkPanel (with_disk (mkDisk (files (ad_disk a)) f) a) (pn_tasks s) (pn_answers s))
  end.
Abbreviation panel_run := (runs panel_step).

(** ** The handlers are the uninterrupted runs *)

Lemma step_alone id p a l :
  panel_step (mkPanel a {[id := p]} l) (Steps id) = Some (match phase_step p a with
    | (a', inl p') => mkPanel a' {[id := p']} l
    | (a', inr r) => mkPanel a' ∅ (l ++ [(id, r)])
    end).
Proof.
  unfold panel_step. cbn [pn_tasks pn_admin pn_answers]. rewrite lookup_singleton_eq. cbn [mbind option_bind].
  destruct (phase_step p a) as [a' [p'|r]]; [by rewrite insert_singleton_eq|by rewrite delete_singleton_eq].
Qed.
Lemma serve_edit_phases r a : serve_edit r a =
  if authorized a (creds r) then
    match edit r a with
    | (a', inl (Persists v)) => respond v a'
    | (a', inl _) => (a', Err UNAUTHORIZED)
    | (a', inr x) => (a', x)
    end
  else (a, Err UNAUTHORIZED).
Proof.
  destruct r as [q p|q t]; cbn [serve_edit creds edit]; [unfold add_peer|unfold del_peer]; destruct (authorized a q); cbn [negb]; try done.
  - by destruct (existsb _ _).
  - by destruct (_ =? _)%nat.
Qed.
Lemma edit_persists r a a' p : edit r a = (a', inl p) -> exists v, p = Persists v.
Proof. destruct r; cbn [edit]; [destruct (existsb _ _)|destruct (_ =? _)%nat]; intros [= _ <-]; eauto. Qed.

(** A request that is not interleaved with another gives the answer and the state of its
    handler, within three steps. *)
Theorem handler_alone (r : request) (a : Admin) (id : nat) :
  exists n, (1 <= n <= 3)%nat /\
    panel_run (Arrives id r :: replicate n (Steps id)) (panel_start a) =
      Some (mkPanel (serve_edit r a).1 ∅ [(id, (serve_edit r a).2)]).
Proof.
  assert (forall n, panel_run (Arrives id r :: replicate n (Steps id)) (panel_start a) =
    panel_run (replicate n (Steps id)) (mkPanel a {[id := Asks r]} [])) as Hs by done.
  rewrite serve_edit_phases. destruct (authorized a (creds r)) eqn:Ea.
  2:{ exists 1%nat. split; [lia|]. rewrite Hs. cbn [replicate runs]. rewrite step_alone. cbn [phase_step]. by rewrite Ea. }
  destruct (edit r a) as [a' [p|x]] eqn:Ee.
  - destruct (edit_persists _ _ _ _ Ee) as [v ->]. exists 3%nat. split; [lia|]. rewrite Hs. cbn [replicate runs].
    rewrite step_alone. cbn [phase_step]. rewrite Ea. cbn [mbind option_bind]. rewrite step_alone. cbn [phase_step].
    rewrite Ee. cbn [mbind option_bind]. rewrite step_alone. cbn [phase_step]. by destruct (respond v a').
  - exists 2%nat. split; [lia|]. rewrite Hs. cbn [replicate runs].
    rewrite step_alone. cbn [phase_step]. rewrite Ea. cbn [mbind option_bind]. rewrite step_alone. cbn [phase_step]. by rewrite Ee.
Qed.

(** ** What the file holds *)

(** Some request that edited has not written yet, or some request could not. *)
Definition unsaved (s : Panel) : Prop :=
  (exists id v, pn_tasks s !! id = Some (Persists v)) \/ (exists id, (id, Err INTERNAL_SERVER_ERROR) ∈ pn_answers s).
Definition in_file (a : Admin) : Prop := load (ad_path a) (ad_disk a) = Ok (ad_cfg a).
Record panel_inv (s : Panel) : Prop := {
  pv_wf : peers_wf (ad_cfg (pn_admin s));
  pv_file : in_file (pn_admin s) \/ unsaved s;
}.

Lemma in_file_same a a' : ad_path a' = ad_path a -> files (ad_disk a') = files (ad_disk a) -> ad_cfg a' = ad_cfg a ->
  in_file a -> in_file a'.
Proof. unfold in_file, load, read_file. by intros -> -> ->. Qed.
Lemma persist_outcome `{!ServerTomlLaws} v a a' r : respond v a = (a', r) ->
  ad_cfg a' = ad_cfg a /\ ((r = Ok v /\ in_file a') \/ r = Err INTERNAL_SERVER_ERROR).
Proof.
  unfold respond, mbind, eff_bind. destruct (persist a) as [b x] eqn:E. pose proof (persist_cfg _ _ _ E) as [Hc Hp].
  destruct x as [[]|e]; intros [= <- <-]; (split; [done|]).
  - left. split; [done|]. unfold in_file. rewrite Hc, Hp. by apply persist_reload.
  - right. by rewrite (persist_err _ _ _ E).
Qed.
Lemma edit_keeps r a : peers_wf (ad_cfg a) -> peers_wf (ad_cfg (edit r a).1).
Proof.
  intros Hw. destruct r as [q p|q t]; cbn.
  - destruct (existsb _ _) eqn:E; [done|]. apply existsb_conflict in E as [? ?]. by apply peers_wf_snoc.
  - destruct Hw as [Ht Hi]. destruct (_ =? _)%nat; split; cbn; by apply NoDup_map_filter.
Qed.
Lemma edit_refused r a a' x : edit r a = (a', inr x) -> ad_cfg a' = ad_cfg a /\ ad_path a' = ad_path a /\ ad_disk a' = ad_disk a.
Proof.
  destruct r as [q p|q t]; cbn.
  - destruct (existsb _ _); [|done]. by intros [= <- _].
  - destruct (Nat.eqb_spec (length (List.filter (fun p => negb (String.eqb (p_token p) t)) (peers (ad_cfg a)))) (length (peers (ad_cfg a)))) as [El|]; [|done].
    intros [= <- _]. cbn. apply filter_length_all in El. rewrite El. split_and!; [|done..]. by destruct a as [[] ? ? ? ? ? ?].
Qed.

Lemma unsaved_tasks a1 a2 ts l id p r : (forall v, ts !! id <> Some (Persists v)) ->
  unsaved (mkPanel a1 ts l) -> unsaved (mkPanel a2 (<[id := p]> ts) l) /\ unsaved (mkPanel a2 (delete id ts) (l ++ [(id, r)])).
Proof.
  unfold unsaved. cbn. intros Hp [(i & v & Hi)|(i & Hi)].
  - assert (i <> id) by (intros ->; by eapply Hp). split; left; exists i, v; [by rewrite lookup_insert_ne|by rewrite lookup_delete_ne].
  - split; right; exists i; set_solver.
Qed.

Lemma panel_step_inv `{!ServerTomlLaws} s e s' : panel_inv s -> panel_step s e = Some s' -> panel_inv s'.
Proof.
  intros [Hw Hf] Hs. destruct s as [a ts l], e as [id r|id|f]; cbn [panel_step pn_tasks pn_admin pn_answers] in *.
  - destruct (ts !! id) as [|] eqn:E; [done|]. injection Hs as <-. split; cbn; [done|].
    destruct Hf as [|Hu]; [by left|right]. apply (unsaved_tasks a a ts l id (Asks r) (Err CONFLICT)); [congruence|done].
  - apply bind_Some in Hs as (p & Ep & Hs). destruct p as [r|r|v]; cbn [phase_step] in Hs.
    + assert (forall v, ts !! id <> Some (Persists v)) as Hn by congruence.
      destruct (authorized a (creds r)); injection Hs as <-; (split; cbn; [done|]); (destruct Hf as [|Hu]; [by left|right]);
        by apply (unsaved_tasks a a ts l id (Edits r) (Err UNAUTHORIZED)).
    + assert (forall v, ts !! id <> Some (Persists v)) as Hn by congruence.
      pose proof (edit_keeps r a Hw) as Hw'. destruct (edit r a) as [a' [p|x]] eqn:Ee; injection Hs as <-; (split; cbn; [done|]).
      * destruct (edit_persists _ _ _ _ Ee) as [v ->]. right. left. exists id, v. cbn. by rewrite lookup_insert_eq.
      * destruct (edit_refused _ _ _ _ Ee) as (Ec & Epa & Ed). destruct Hf as [Hf|Hu].
        { left. eapply in_file_same; [..|exact Hf]; congruence. }
        right. by apply (unsaved_tasks a a' ts l id (Edits r) x).
    + destruct (respond v a) as [a' x] eqn:E. injection Hs as <-. destruct (persist_outcome _ _ _ _ E) as [Ec Ho].
      split; cbn; [by rewrite Ec|]. destruct Ho as [[-> Hi]| ->]; [by left|right]. right. exists id. cbn. set_solver.
  - injection Hs as <-. split; cbn; [done|]. destruct Hf as [Hf|Hu]; [left; by eapply in_file_same; [..|exact Hf]|by right].
Qed.
Lemma panel_run_inv `{!ServerTomlLaws} es s s' : panel_inv s -> panel_run es s = Some s' -> panel_inv s'.
Proof. apply (runs_inv panel_step panel_inv), panel_step_inv. Qed.

(** C32. The panel's answers are true whatever requests overlap and whenever the disk fails.
    Started with the configuration in its file and distinct tokens and addresses: they
    stay distinct; a request that answers that it created or deleted a peer does so with
    the file loading back to exactly the configuration in memory; and when no request is
    between its edit and its write, the two can differ only if some request answered
    that saving failed. *)
Theorem panel_saves `{!ServerTomlLaws} (es : list pevent) (a : Admin) (s : Panel) :
  peers_wf (ad_cfg a) -> load (ad_path a) (ad_disk a) = Ok (ad_cfg a) -> panel_run es (panel_start a) = Some s ->
  peers_wf (ad_cfg (pn_admin s)) /\
  (forall id v s', pn_tasks s !! id = Some (Persists v) -> panel_step s (Steps id) = Some s' ->
     pn_answers s' = pn_answers s ++ [(id, Err INTERNAL_SERVER_ERROR)] \/
     (pn_answers s' = pn_answers s ++ [(id, Ok v)] /\
      load (ad_path (pn_admin s')) (ad_disk (pn_admin s')) = Ok (ad_cfg (pn_admin s')))) /\
  (map_Forall (fun _ p => forall v, p <> Persists v) (pn_tasks s) ->
   load (ad_path (pn_admin s)) (ad_disk (pn_admin s)) = Ok (ad_cfg (pn_admin s)) \/
   exists id, (id, Err INTERNAL_SERVER_ERROR) ∈ pn_answers s).
Proof.
  intros Hw Hl Hr. assert (panel_inv s) as [Hw' Hf].
  { eapply panel_run_inv; [|exact Hr]. split; [done|by left]. }
  split_and!; [done| |].
  - intros id v s' Ep Hs. unfold panel_step in Hs. rewrite Ep in Hs. cbn [mbind option_bind phase_step] in Hs.
    destruct (respond v (pn_admin s)) as [a' x] eqn:E. injection Hs as <-. cbn.
    destruct (persist_outcome _ _ _ _ E) as [_ [[-> Hi]| ->]]; [by right|by left].
  - intros Hn. destruct Hf as [Hf|[(id & v & Hi)|He]]; [by left| |by right].
    by destruct (Hn id _ Hi v).
Qed.
End Steps.
Abbreviation panel_run := (runs panel_step).

(** Two requests that overlap, on the server of [WebDemo]. *)
Module PanelDemo.
Definition saved : Admin := mkAdmin WebDemo.base "server.toml" (mkDisk {["server.toml" := [Byte.x00]]} ∅) Router.new ∅ (Metrics.new 0) 0.
Definition overlap : list pevent :=
  [Arrives 0 (RAdd WebDemo.good WebDemo.peer2); Arrives 1 (RAdd WebDemo.by_header WebDemo.peer2);
   Steps 0; Steps 1; Steps 0; Steps 1; Steps 0].
End PanelDemo.
#[local] Existing Instance WebDemo.toml.
#[local] Existing Instance WebDemo.toml_laws.
Lemma panel_saves_witness : exists s,
  panel_run PanelDemo.overlap (panel_start PanelDemo.saved) = Some s /\
  pn_answers s = [(1%nat, Err CONFLICT); (0%nat, Ok CREATED)] /\ peers_wf (ad_cfg (pn_admin s)).
Proof.
  destruct (panel_run PanelDemo.overlap (panel_start PanelDemo.saved)) as [s|] eqn:E; [|vm_compute in E; discriminate E].
  exists s. split; [done|]. split; [vm_compute in E; by injection E as <-|].
  destruct (panel_saves PanelDemo.overlap PanelDemo.saved s) as [Hw _]; [split; apply NoDup_singleton|reflexivity|exact E|exact Hw].
Defined.
