(* ===== verification/ClientConfig.v ===== *)
(** The client configuration (core/client-core/src/config.rs): server entries, profiles,
    connection settings, the composed configuration the engine runs, portable links
    and TOML imports.  [serde_json] and [toml] are parameters; text is bytes where it
    is parsed, strings elsewhere. *)
From S2P Require Import Prelude Net Text Core Mpsc.

Record ServerEntry := mkServerEntry {
  se_name : string;
  host : string;
  port : Z;
  transport : TransportKind;
  token : string;
  se_psk : string;
  tls_skip_verify : bool;
  server_name : option string;
}.
Definition sni (s : ServerEntry) : string := default (host s) (server_name s).

Record RouteRule := mkRule { target : string; via : string; rule_gateway : option Ipv4Addr }.
Inductive SplitMode := Blacklist | Whitelist.
#[export] Instance split_mode_eq_dec : EqDecision SplitMode.
Proof. solve_decision. Defined.

Definition default_tun_name : string := "et0".
Definition default_http_listen : string := "127.0.0.1:7890".
Definition default_transport : TransportKind := Tcp.

Record ClientConfig := mkClientConfig {
  cc_name : string;
  cc_selected : option string;
  cc_mode : SessionMode;
  cc_requested_ip : option Ipv4Addr;
  cc_client_name : option string;
  cc_tun_name : string;
  cc_http_listen : string;
  cc_join_vpn : bool;
  server_host : string;
  server_port : Z;
  cc_transport : TransportKind;
  cc_token : string;
  cc_psk : string;
  cc_tls_skip : bool;
  cc_server_name : option string;
  servers : list ServerEntry;
  routes : list RouteRule;
  split_mode : SplitMode;
  chain : list string;
  ipv6_killswitch : bool;
}.

Record Profile := mkProfile {
  pr_name : string;
  pr_selected : option string;
  pr_servers : list ServerEntry;
}.

Record ConnectionSettings := mkSettings {
  s_mode : SessionMode;
  s_requested_ip : option Ipv4Addr;
  s_client_name : option string;
  s_tun_name : string;
  s_http_listen : string;
  s_join_vpn : bool;
  s_routes : list RouteRule;
  s_split_mode : SplitMode;
  s_chain : list string;
  s_ipv6_killswitch : bool;
}.
Definition default_settings : ConnectionSettings :=
  mkSettings GlobalProxy None None default_tun_name default_http_listen false [] Blacklist [] true.

#[export] Instance server_entry_eq_dec : EqDecision ServerEntry.
Proof. solve_decision. Defined.
#[export] Instance rule_eq_dec : EqDecision RouteRule.
Proof. solve_decision. Defined.
#[export] Instance profile_eq_dec : EqDecision Profile.
Proof. solve_decision. Defined.
#[export] Instance client_config_eq_dec : EqDecision ClientConfig.
Proof. solve_decision. Defined.

(** ** Text formats *)

Class ClientFormats := {
  json_print : Profile -> result string bytes;
  json_parse : bytes -> result string Profile;
  config_print : ClientConfig -> result string bytes;
  config_parse : bytes -> result string ClientConfig;
  bundle_print : list Profile -> result string bytes;
  bundle_parse : bytes -> result string (list Profile);
}.
(** Documented behaviour of [serde]: what is printed parses back, and a printed client
    configuration, which has no [profiles] key, parses as an empty bundle. *)
Class ClientFormatsLaws `{ClientFormats} := {
  json_round_trip : forall p t, json_print p = Ok t -> json_parse t = Ok p;
  config_round_trip : forall c t, config_print c = Ok t -> config_parse t = Ok c;
  bundle_round_trip : forall b t, bundle_print b = Ok t -> bundle_parse t = Ok b;
  config_no_bundle : forall c t, config_print c = Ok t -> bundle_parse t = Ok [];
}.

(** ** The active server *)

(** The entry a selection names, else the first. *)
Definition pick (sel : option string) (l : list ServerEntry) (first : ServerEntry) : ServerEntry :=
  match sel with
  | Some n => default first (List.find (fun s => String.eqb (se_name s) n) l)
  | None => first
  end.

Definition active_server (c : ClientConfig) : Result ServerEntry :=
  match servers c with
  | first :: _ => Ok (pick (cc_selected c) (servers c) first)
  | [] =>
    if String.eqb (server_host c) "" then Err (Config "no servers configured")
    else Ok (mkServerEntry "default" (server_host c) (server_port c) (cc_transport c) (cc_token c)
               (cc_psk c) (cc_tls_skip c) (cc_server_name c))
  end.
Definition server_names (c : ClientConfig) : list string :=
  match servers c with [] => ["default"] | l => map se_name l end.

Definition profile_active_server (p : Profile) : Result ServerEntry :=
  match pr_servers p with
  | [] => Err (Config "profile has no servers")
  | first :: _ => Ok (pick (pr_selected p) (pr_servers p) first)
  end.
Definition profile_server_names (p : Profile) : list string := map se_name (pr_servers p).

Definition compose (p : Profile) (s : ConnectionSettings) : ClientConfig :=
  mkClientConfig (pr_name p) (pr_selected p) (s_mode s) (s_requested_ip s) (s_client_name s)
    (s_tun_name s) (s_http_listen s) (s_join_vpn s) "" 0 default_transport "" "" false None
    (pr_servers p) (s_routes s) (s_split_mode s) (s_chain s) (s_ipv6_killswitch s).

(** ** Links and imports *)

Definition LINK_SCHEME : bytes := to_b "entro://".

Section Formats.
Context `{ClientFormats} `{Base64}.

Definition load_config (path : string) (d : Disk) : Result ClientConfig :=
  match read_file path d with
  | Err e => Err (Io e)
  | Ok text => map_err (fun e => Config ("parse " +:+ path +:+ ": " +:+ e)) (config_parse text)
  end.
Definition to_toml (c : ClientConfig) : Result bytes :=
  map_err (fun e => Config ("serialize: " +:+ e)) (config_print c).
Definition save_config (path : string) (c : ClientConfig) : eff Disk Error unit :=
  text ← lift_result (to_toml c); with_err Io (write_file path text).

Definition encode_link (p : Profile) : bytes :=
  let json := match json_print p with Ok t => t | Err _ => [] end in
  LINK_SCHEME ++ b64_encode json.

(** [or_else]: the next decoder runs only when the previous one failed. *)
Definition or_else {A} (r s : result string A) : result string A :=
  match r with Ok a => Ok a | Err _ => s end.
Definition decode_link (s : bytes) : Result Profile :=
  let body := trim s in
  let body := trim (default body (strip_prefix LINK_SCHEME body)) in
  match or_else (b64_decode body) (or_else (b64_decode_url body) (b64_decode_url_nopad body)) with
  | Err e => Err (Config ("invalid config link (base64): " +:+ e))
  | Ok bs => map_err (fun e => Config ("invalid config link (json): " +:+ e)) (json_parse bs)
  end.

Definition bundle_to_toml (b : list Profile) : Result bytes :=
  map_err (fun e => Config ("serialize: " +:+ e)) (bundle_print b).
Definition bundle_from_toml (t : bytes) : Result (list Profile) :=
  map_err (fun e => Config ("parse profiles TOML: " +:+ e)) (bundle_parse t).

Definition profiles_from_toml (text : bytes) : Result (list Profile) :=
  let single :=
    match config_parse text with
    | Err e => Err (Config ("not a profile bundle or client.toml: " +:+ e))
    | Ok cfg =>
      match servers cfg with
      | [] => Err (Config "TOML has no profiles and no [[servers]] to import")
      | _ => Ok [mkProfile (if String.eqb (cc_name cfg) "" then "imported" else cc_name cfg)
                   (cc_selected cfg) (servers cfg)]
      end
    end in
  match bundle_parse text with
  | Ok (p :: b) => Ok (p :: b)
  | _ => single
  end.
End Formats.

(** ** Lemmas *)

Lemma pick_spec sel l first : In first l ->
  In (pick sel l first) l /\
  (forall n, sel = Some n -> In n (map se_name l) -> se_name (pick sel l first) = n) /\
  (forall n, sel = Some n -> ~ In n (map se_name l) -> pick sel l first = first) /\
  (sel = None -> pick sel l first = first).
Proof.
  intros Hf. destruct sel as [n|]; cbn; [|by split_and!].
  destruct (List.find _ l) as [s|] eqn:E; cbn.
  - apply List.find_some in E as [Hs Hn%String.eqb_eq]. split_and!; [done| | |done].
    + by intros ? [= <-].
    + intros ? [= <-] Hni. destruct Hni. rewrite <- Hn. by apply in_map.
  - split_and!; [done| |done|done]. intros ? [= <-] (s & <- & Hs)%in_map_iff.
    apply List.find_none with (x := s) in E; [|done]. by rewrite String.eqb_refl in E.
Qed.

Lemma link_scheme_chars : Forall (fun c => link_char c = true) LINK_SCHEME.
Proof. by repeat constructor. Qed.
Lemma strip_scheme s : strip_prefix LINK_SCHEME (LINK_SCHEME ++ s) = Some s.
Proof. reflexivity. Qed.
(** Base64 text never starts with the scheme: the colon is outside its alphabet. *)
Lemma strip_scheme_b64 s : Forall (fun c => b64_char c = true) s -> strip_prefix LINK_SCHEME s = None.
Proof.
  intros H. destruct (strip_prefix LINK_SCHEME s) as [r|] eqn:E; [|done].
  apply strip_prefix_Some in E as ->. apply Forall_app in H as [H _].
  cbv in H. repeat match goal with X : Forall _ (_ :: _) |- _ => apply Forall_cons in X as [? ?] end.
  discriminate.
Qed.

(** ** Properties *)

(** C37. A profile survives its link: decoding the link of a profile, or its base64 body
    alone, gives back exactly the profile. *)
Theorem link_round_trip `{ClientFormatsLaws} `{Base64Laws} (p : Profile) t :
  json_print p = Ok t ->
  decode_link (encode_link p) = Ok p /\ decode_link (b64_encode t) = Ok p.
Proof.
  intros Ht. pose proof (b64_alphabet t) as Ha.
  assert (forall body, trim body = b64_encode t -> forall s, trim s = body \/ trim s = LINK_SCHEME ++ body ->
    (trim s = body -> strip_prefix LINK_SCHEME body = None) -> decode_link s = Ok p) as Hd.
  { intros body Hb s Hs Hn. unfold decode_link.
    assert (trim (default (trim s) (strip_prefix LINK_SCHEME (trim s))) = b64_encode t) as ->.
    { destruct Hs as [E|E]; rewrite E; [rewrite (Hn E)|rewrite strip_scheme]; exact Hb. }
    rewrite b64_decode_encode. cbn. by rewrite (json_round_trip _ _ Ht). }
  split; apply (Hd (b64_encode t)); try (by apply trim_b64).
  - right. unfold encode_link. rewrite Ht. apply trim_link, Forall_app.
    split; [apply link_scheme_chars|by apply b64_link].
  - intros _. by apply strip_scheme_b64.
  - left. by apply trim_b64.
  - intros _. by apply strip_scheme_b64.
Qed.

(** Which server is active: with servers configured, the choice is one of them, the
    one the selection names if it exists, and the first one otherwise (no selection,
    or a stale one); without, the legacy fields are used, and with no host either the
    configuration is an error. *)
Theorem active_server_spec (c : ClientConfig) :
  match servers c with
  | first :: rest => exists e, active_server c = Ok e /\ In e (servers c) /\
      (forall n, cc_selected c = Some n -> In n (server_names c) -> se_name e = n) /\
      (forall n, cc_selected c = Some n -> ~ In n (server_names c) -> e = first) /\
      (cc_selected c = None -> e = first)
  | [] => (server_host c = "" /\ active_server c = Err (Config "no servers configured")) \/
      (server_host c <> "" /\ exists e, active_server c = Ok e /\
         host e = server_host c /\ port e = server_port c /\ server_names c = [se_name e])
  end.
Proof.
  unfold active_server, server_names. destruct (servers c) as [|first rest] eqn:E.
  - destruct (String.eqb_spec (server_host c) "") as [Eh|Eh]; [by left|]. right. eauto 8.
  - eexists. split; [reflexivity|]. apply pick_spec. by left.
Qed.

(** Composing a profile with local settings selects the same server the profile
    itself resolves to, never the legacy fields, and takes everything but the servers
    from the settings. *)
Theorem compose_spec (p : Profile) (s : ConnectionSettings) :
  (forall e, active_server (compose p s) = Ok e <-> profile_active_server p = Ok e) /\
  (is_ok (active_server (compose p s)) = false <-> pr_servers p = []) /\
  cc_mode (compose p s) = s_mode s /\ routes (compose p s) = s_routes s /\
  chain (compose p s) = s_chain s /\ split_mode (compose p s) = s_split_mode s /\
  cc_join_vpn (compose p s) = s_join_vpn s /\ ipv6_killswitch (compose p s) = s_ipv6_killswitch s.
Proof.
  unfold active_server, profile_active_server. cbn.
  destruct (pr_servers p) as [|first rest]; by split_and!.
Qed.

(** Imports accept what exports produce: a non-empty bundle comes back as it was, and
    the exported configuration of a profile with servers comes back as that profile,
    named "imported" if it had no name. *)
Theorem import_export `{ClientFormatsLaws} :
  (forall b t, b <> [] -> bundle_to_toml b = Ok t -> profiles_from_toml t = Ok b) /\
  (forall p s t, pr_servers p <> [] -> to_toml (compose p s) = Ok t ->
     profiles_from_toml t =
       Ok [mkProfile (if String.eqb (pr_name p) "" then "imported" else pr_name p) (pr_selected p) (pr_servers p)]).
Proof.
  split.
  - intros b t Hb. unfold bundle_to_toml. destruct (bundle_print b) as [u|] eqn:E; [|done].
    intros [= <-]. unfold profiles_from_toml. rewrite (bundle_round_trip _ _ E). by destruct b.
  - intros p s t Hp. unfold to_toml. destruct (config_print (compose p s)) as [u|] eqn:E; [|done].
    intros [= <-]. unfold profiles_from_toml.
    rewrite (config_no_bundle _ _ E), (config_round_trip _ _ E). cbn.
    by destruct (pr_servers p).
Qed.

(** ** Witnesses: a format that knows one profile *)

Module FormatDemo.
Definition entry : ServerEntry := mkServerEntry "hk" "198.51.100.9" 443 Quic "tok" "psk" false None.
Definition p0 : Profile := mkProfile "home" (Some "hk") [entry].
Definition c0 : ClientConfig := compose p0 default_settings.
#[export] Instance formats : ClientFormats := {|
  json_print p := if decide (p = p0) then Ok [Byte.x01] else Err "unsupported";
  json_parse t := if decide (t = [Byte.x01]) then Ok p0 else Err "unsupported";
  config_print c := if decide (c = c0) then Ok [Byte.x02] else Err "unsupported";
  config_parse t := if decide (t = [Byte.x02]) then Ok c0 else Err "unsupported";
  bundle_print b := if decide (b = [p0]) then Ok [Byte.x03] else Err "unsupported";
  bundle_parse t := if decide (t = [Byte.x03]) then Ok [p0] else Ok [];
|}.
#[export] Instance formats_laws : ClientFormatsLaws.
Proof.
  split; cbn; intros ? ?; case_decide; try done; subst; by intros [= <-].
Qed.
End FormatDemo.

Lemma link_round_trip_witness :
  @decode_link FormatDemo.formats NibbleCodec.codec
    (@encode_link FormatDemo.formats NibbleCodec.codec FormatDemo.p0) = Ok FormatDemo.p0.
Proof.
  apply (@link_round_trip FormatDemo.formats FormatDemo.formats_laws NibbleCodec.codec NibbleCodec.laws
    FormatDemo.p0 [Byte.x01]). vm_compute. reflexivity.
Defined.

Lemma import_export_witness :
  @profiles_from_toml FormatDemo.formats [Byte.x02] = Ok [FormatDemo.p0].
Proof.
  apply (proj2 (@import_export FormatDemo.formats FormatDemo.formats_laws) FormatDemo.p0 default_settings [Byte.x02]);
    [discriminate|vm_compute; reflexivity].
Defined.
