(* ===== verification/HttpHead.v ===== *)
(** The request head of the local HTTP proxy (core/client-core/src/proxy.rs): reading it
    from the socket, finding its end, and the target it names. *)
From S2P Require Import Prelude Net Text Core.

Definition find_sub (hay needle : bytes) : option nat := find_sub_from 0 needle hay.

Definition split_host_port (s : bytes) (dflt : Z) : bytes * Z :=
  match rsplit_once Byte.x3a s with
  | Some (h, p) => match parse_u16 p with Some n => (h, n) | None => (s, dflt) end
  | None => (s, dflt)
  end.

Definition crlf : bytes := [Byte.x0d; Byte.x0a].
Definition head_end : bytes := crlf ++ crlf.
Definition CONNECT : bytes := to_b "CONNECT".
Definition http_scheme : bytes := to_b "http://".

(** [or_else] and [find_map]. *)
Definition or_opt {A} (a b : option A) : option A := match a with Some x => Some x | None => b end.
Fixpoint find_map {A B} (f : A -> option B) (l : list A) : option B :=
  match l with [] => None | x :: l => or_opt (f x) (find_map f l) end.

Definition host_line (l : bytes) : option bytes :=
  let l := trim l in
  trim <$> or_opt (strip_prefix (to_b "Host:") l) (strip_prefix (to_b "host:") l).

Section Parse.
(** Rust's [{:?}] rendering of a string, used in one error message. *)
Variable debug : bytes -> string.

Definition parse_request_line (head : bytes) : Result (TargetAddr * bool) :=
  let text := from_utf8_lossy head in
  let first := default [] (List.hd_error (lines text)) in
  let words := split_whitespace first in
  let method := default [] (List.hd_error words) in
  let uri := default [] (List.hd_error (tail words)) in
  if eq_ignore_ascii_case method CONNECT then
    let (h, p) := split_host_port uri 443 in Ok (TDomain (str h) p, true)
  else
    let host_port :=
      match strip_prefix http_scheme uri with
      | Some rest => default [] (List.hd_error (split_byte Byte.x2f rest))
      | None => default [] (find_map host_line (lines text))
      end in
    match host_port with
    | [] => Err (Protocol ("cannot parse proxy target: " +:+ debug first))
    | _ => let (h, p) := split_host_port host_port 80 in Ok (TDomain (str h) p, false)
    end.

(** What the reads of the socket return, one per round of the loop: [None] is a head
    that is not complete yet. An empty read is the end of the stream. *)
Fixpoint parse_http_head (buf : bytes) (reads : list (result IoError bytes))
    : option (Result (TargetAddr * bool * bytes)) :=
  match reads with
  | [] => None
  | Err e :: _ => Some (Err (Io e))
  | Ok [] :: _ => Some (Err (Protocol "eof before request head"))
  | Ok tmp :: reads =>
    let buf := buf ++ tmp in
    match find_sub buf head_end with
    | Some pos =>
      Some (match parse_request_line (take (pos + 4) buf) with
            | Err e => Err e
            | Ok (t, is_connect) => Ok (t, is_connect, if is_connect : bool then [] else buf)
            end)
    | None =>
      if (length buf <=? Z.to_nat 65536)%nat then parse_http_head buf reads
      else Some (Err (Protocol "request head too large"))
    end
  end.
End Parse.

(** The reads [parse_http_head] has made of a list of answers when it returns. *)
Fixpoint head_reads (buf : bytes) (reads : list (result IoError bytes)) : list bytes :=
  match reads with
  | Ok ((_ :: _) as tmp) :: reads =>
    let buf := buf ++ tmp in
    tmp :: match find_sub buf head_end with
           | Some _ => []
           | None => if (length buf <=? Z.to_nat 65536)%nat then head_reads buf reads else []
           end
  | _ => []
  end.

(** ** Lemmas *)

(** What is forwarded is nothing, for a CONNECT, or all that was read; later answers do
    not matter. *)
Lemma head_forward debug reads t c fwd : forall buf,
  parse_http_head debug buf reads = Some (Ok (t, c, fwd)) ->
  fwd = (if c then [] else buf ++ concat (head_reads buf reads)) /\
  parse_http_head debug buf (map Ok (head_reads buf reads)) = Some (Ok (t, c, fwd)).
Proof.
  induction reads as [|[[|x tmp]|] reads IH]; intros buf; cbn [parse_http_head head_reads]; try done.
  cbn [concat map parse_http_head]. destruct (find_sub (buf ++ x :: tmp) head_end) as [pos|].
  - cbn [concat map]. rewrite app_nil_r.
    destruct (parse_request_line _ _) as [[t' c']|] eqn:E; intros [= <- <- <-]. by split.
  - destruct (_ <=? _)%nat; [|done]. intros [-> Hp]%IH. split; [|done]. by rewrite <- app_assoc.
Qed.

Definition digits (s : bytes) : Prop := Forall (fun c => in_range 48 57 c = true) s.

Lemma digits_no_colon s : digits s -> Byte.x3a ∉ s.
Proof. unfold digits. intros H Hin. rewrite Forall_forall in H. by apply H in Hin. Qed.

Lemma split_host_port_app h p d n :
  digits p -> parse_u16 p = Some n -> split_host_port (h ++ Byte.x3a :: p) d = (h, n).
Proof.
  intros Hd Hp. unfold split_host_port. rewrite rsplit_once_app by by apply digits_no_colon.
  by rewrite Hp.
Qed.

(** Bytes of a URL: printable ASCII without blanks. *)
Definition url_char (c : byte) : bool := in_range 33 126 c.
Definition url (s : bytes) : Prop := Forall (fun c => url_char c = true) s.

Lemma url_strip_ws c s : url_char c = true -> strip_ws (c :: s) = None.
Proof. destruct c; try (by intros [=]); intros _; reflexivity. Qed.
Lemma url_ascii s : url s -> is_ascii s.
Proof.
  intros H. eapply Forall_impl; [exact H|]. intros c. unfold url_char, in_range. cbv beta.
  rewrite !andb_true_iff, !Z.leb_le. lia.
Qed.
Lemma url_no_lf s : url s -> Byte.x0a ∉ s.
Proof. unfold url. intros H Hin. rewrite Forall_forall in H. by apply H in Hin. Qed.

(** A word of URL bytes before a space is the first word, the rest is split further. *)
Lemma split_ws_word w r acc f : url w -> acc <> [] \/ w <> [] ->
  (length (w ++ Byte.x20 :: r) < f)%nat ->
  split_ws_fuel f acc (w ++ Byte.x20 :: r) =
    (rev acc ++ w) :: split_ws_fuel (f - length w - 1) [] r.
Proof.
  revert acc f. induction w as [|c w IH]; intros acc f Hw Hne Hf.
  - destruct f as [|f]; [cbn in Hf; lia|]. cbn [app split_ws_fuel].
    change (strip_ws (Byte.x20 :: r)) with (Some r). cbn [length].
    replace (S f - 0 - 1)%nat with f by lia.
    destruct acc; [naive_solver|]. by rewrite app_nil_r.
  - apply Forall_cons in Hw as [Hc Hw]. destruct f as [|f]; [cbn in Hf; lia|].
    change ((c :: w) ++ Byte.x20 :: r) with (c :: (w ++ Byte.x20 :: r)) in *.
    cbn [split_ws_fuel]. rewrite url_strip_ws by done. rewrite IH; [|done|by left|cbn in Hf; lia].
    cbn [rev length]. rewrite <- app_assoc. done.
Qed.

Lemma split_byte_line l r : Byte.x0a ∉ l -> split_byte Byte.x0a (l ++ Byte.x0a :: r) = l :: split_byte Byte.x0a r.
Proof.
  induction l as [|c l IH]; intros Hn; cbn [app split_byte]; [done|].
  rewrite IH by set_solver. rewrite decide_False; [done|set_solver].
Qed.
Lemma chop_cr_snoc l : chop_cr (l ++ [Byte.x0d]) = l.
Proof. unfold chop_cr. rewrite rev_app_distr. cbn. apply rev_involutive. Qed.
Lemma split_byte_cons c s : exists p ps, split_byte c s = p :: ps.
Proof. destruct s as [|d s]; cbn; [eauto|]. case_decide; [eauto|]. destruct (split_byte c s); eauto. Qed.

(** The first line of a text that starts with a CRLF-terminated line. *)
Lemma first_line l r : Byte.x0a ∉ l -> List.hd_error (lines (l ++ crlf ++ r)) = Some l.
Proof.
  intros Hl. unfold lines, crlf.
  change (l ++ [Byte.x0d; Byte.x0a] ++ r) with (l ++ [Byte.x0d] ++ Byte.x0a :: r).
  rewrite app_assoc, split_byte_line by set_solver.
  destruct (split_byte_cons Byte.x0a r) as (p & ps & ->). cbn [terminated]. by rewrite chop_cr_snoc.
Qed.

(** *** Where the head ends does not depend on how much follows *)

Lemma starts_with_app n l r : starts_with n l = true -> starts_with n (l ++ r) = true.
Proof.
  unfold starts_with. destruct (strip_prefix n l) as [x|] eqn:E; [|done].
  apply strip_prefix_Some in E as ->. by rewrite <- app_assoc, (proj2 (strip_prefix_Some _ _ _) eq_refl).
Qed.
Lemma starts_with_shorter n l r :
  starts_with n (l ++ r) = true -> (length n <= length l)%nat -> starts_with n l = true.
Proof.
  unfold starts_with. destruct (strip_prefix n (l ++ r)) as [x|] eqn:E; [|done].
  apply strip_prefix_Some in E. intros _ Hl.
  assert (l = n ++ drop (length n) l) as Hd.
  { rewrite <- (take_drop (length n) l) at 1. f_equal.
    rewrite <- (take_app_le l r (length n)), E by done. by rewrite take_app_length. }
  by rewrite Hd, (proj2 (strip_prefix_Some _ _ _) eq_refl).
Qed.
Lemma starts_with_length n l : starts_with n l = true -> (length n <= length l)%nat.
Proof.
  unfold starts_with. destruct (strip_prefix n l) as [x|] eqn:E; [|done].
  apply strip_prefix_Some in E as ->. intros _. rewrite length_app. lia.
Qed.

Lemma find_sub_prefix n l r i p : n <> [] ->
  find_sub_from i n (l ++ r) = Some p ->
  find_sub_from i n l = if (p - i + length n <=? length l)%nat then Some p else None.
Proof.
  intros Hn. revert i. induction l as [|c l IH]; intros i Hf.
  - assert (starts_with n [] = false) as E.
    { destruct n; [done|reflexivity]. }
    cbn [find_sub_from]. rewrite E. destruct (Nat.leb_spec (p - i + length n) (length (@nil byte))) as [H|H]; [|done].
    cbn in H. destruct n; cbn in H; [done|lia].
  - cbn [app find_sub_from] in *. destruct (starts_with n (c :: l ++ r)) eqn:E.
    + injection Hf as <-. replace (i - i + length n)%nat with (length n) by lia.
      destruct (Nat.leb_spec (length n) (length (c :: l))) as [Hl|Hl].
      * by rewrite (starts_with_shorter n (c :: l) r E Hl).
      * destruct (starts_with n (c :: l)) eqn:E'; [apply starts_with_length in E'; lia|].
        pose proof (find_sub_from_Some (S i) n l) as Hs.
        destruct (find_sub_from (S i) n l) as [q|] eqn:Eq; [|done].
        destruct (Hs q eq_refl) as (_ & a & b & -> & _). rewrite ?length_app in Hl. cbn in Hl.
        rewrite !length_app in Hl. lia.
    + destruct (starts_with n (c :: l)) eqn:E'.
      { apply (starts_with_app n (c :: l) r) in E'. cbn in E'. congruence. }
      rewrite (IH (S i) Hf). pose proof (find_sub_from_Some _ _ _ _ Hf) as [Hle _].
      replace (p - S i + length n <=? length l)%nat with (p - i + length n <=? length (c :: l))%nat; [done|].
      apply eq_true_iff_eq. rewrite !Nat.leb_le. cbn [length]. lia.
Qed.

(** How many chunks are read until [n] bytes are there. *)
Fixpoint chunks_for (n : nat) (cs : list bytes) : nat :=
  match cs with
  | [] => 0
  | c :: r => if (n <=? length c)%nat then 1 else S (chunks_for (n - length c) r)
  end.

Lemma head_loop debug pos : forall cs buf,
  Forall (fun c => c <> []) cs -> find_sub (buf ++ concat cs) head_end = Some pos ->
  (length buf < pos + 4 <= Z.to_nat 65536)%nat ->
  let k := chunks_for (pos + 4 - length buf) cs in
  parse_http_head debug buf (map Ok cs) =
    Some (match parse_request_line debug (take (pos + 4) (buf ++ concat cs)) with
          | Err e => Err e
          | Ok (t, c) => Ok (t, c, if c : bool then [] else buf ++ concat (take k cs))
          end).
Proof.
  intros cs. induction cs as [|c cs IH]; intros buf Hne Hf Hl.
  - cbn [concat] in Hf. rewrite app_nil_r in Hf. unfold find_sub in Hf.
    apply find_sub_from_Some in Hf as (_ & a & b & E & Ha). apply (f_equal length) in E.
    rewrite !length_app in E. change (length head_end) with 4%nat in E. lia.
  - apply Forall_cons in Hne as [Hc Hne]. cbn [concat] in *. rewrite app_assoc in Hf.
    cbn [map parse_http_head]. destruct c as [|x c]; [done|]. set (ch := x :: c) in *.
    pose proof (find_sub_prefix head_end _ _ 0 pos ltac:(done) Hf) as Hp.
    rewrite Nat.sub_0_r in Hp. change (length head_end) with 4%nat in Hp.
    unfold find_sub. rewrite Hp. cbn [chunks_for]. rewrite length_app.
    destruct (Nat.leb_spec (pos + 4) (length buf + length ch)) as [Hle|Hgt].
    + replace (pos + 4 - length buf <=? length ch)%nat with true by (symmetry; apply Nat.leb_le; lia).
      rewrite app_assoc, (take_app_le (buf ++ ch) (concat cs)) by (rewrite length_app; lia).
      change (take 1 (ch :: cs)) with [ch]. cbn [concat]. by rewrite app_nil_r.
    + replace (pos + 4 - length buf <=? length ch)%nat with false by (symmetry; apply Nat.leb_gt; lia).
      replace (length buf + length ch <=? Z.to_nat 65536)%nat with true
        by (symmetry; apply Nat.leb_le; lia).
      rewrite (IH (buf ++ ch) Hne Hf) by (rewrite length_app; lia).
      rewrite <- app_assoc, length_app. cbn [take concat].
      replace (pos + 4 - (length buf + length ch))%nat with (pos + 4 - length buf - length ch)%nat by lia.
      destruct (parse_request_line _ _) as [[t [|]]|]; [done| |done]. by rewrite <- app_assoc.
Qed.

Lemma two_words m u v : url m -> url u -> m <> [] -> u <> [] ->
  exists ws, split_whitespace (m ++ Byte.x20 :: u ++ Byte.x20 :: v) = m :: u :: ws.
Proof.
  intros Hm Hu Hm0 Hu0. unfold split_whitespace.
  rewrite (split_ws_word m); [|done|by right|lia].
  rewrite (split_ws_word u); [by eexists|done|by right|].
  cbn [length]. rewrite !length_app. cbn [length]. rewrite length_app. cbn [length]. lia.
Qed.

(** The method and the URI of a head that starts with a well-formed request line. *)
Lemma head_words m u v rest : url m -> url u -> url v -> m <> [] -> u <> [] -> is_ascii rest ->
  let head := m ++ Byte.x20 :: u ++ Byte.x20 :: v ++ crlf ++ rest in
  from_utf8_lossy head = head /\ exists ws,
  split_whitespace (default [] (List.hd_error (lines head))) = m :: u :: ws.
Proof.
  intros Hm Hu Hv Hm0 Hu0 Hr. cbv zeta.
  assert (m ++ Byte.x20 :: u ++ Byte.x20 :: v ++ crlf ++ rest =
    (m ++ Byte.x20 :: u ++ Byte.x20 :: v) ++ crlf ++ rest) as E.
  { by rewrite <- !app_assoc, <- !app_comm_cons, <- app_assoc. }
  split.
  - apply from_utf8_lossy_ascii. unfold is_ascii.
    repeat first [apply Forall_app; split|apply Forall_cons; split]; try done; try by apply url_ascii.
  - rewrite E, first_line; [by apply two_words|].
    rewrite !elem_of_app, !elem_of_cons, !elem_of_app, !elem_of_cons.
    pose proof (url_no_lf _ Hm). pose proof (url_no_lf _ Hu). pose proof (url_no_lf _ Hv). naive_solver.
Qed.

Lemma split_byte_hd c l r : c ∉ l -> List.hd_error (split_byte c (l ++ c :: r)) = Some l.
Proof.
  induction l as [|d l IH]; intros Hc; cbn [app split_byte].
  - by rewrite decide_True.
  - rewrite decide_False by set_solver.
    specialize (IH ltac:(set_solver)). destruct (split_byte c (l ++ c :: r)); [done|].
    cbn in *. by injection IH as ->.
Qed.
Lemma digits_url p : digits p -> url p.
Proof.
  intros H. eapply Forall_impl; [exact H|]. intros c. unfold url_char, in_range. cbv beta.
  rewrite !andb_true_iff, !Z.leb_le. lia.
Qed.

(** ** Properties *)

(** A request target is found as written.  A CONNECT line for a host and a decimal
    port, in any letter case, yields exactly that host and port as a tunnel; an
    absolute-form line of any other method yields the authority's host and port as a
    plain request, whatever headers and body bytes (ASCII) follow. *)
Theorem request_target (debug : bytes -> string) (m h p v rest : bytes) (n : Z) :
  url m -> url h -> url v -> m <> [] -> h <> [] -> digits p -> parse_u16 p = Some n -> is_ascii rest ->
  (eq_ignore_ascii_case m CONNECT = true ->
   parse_request_line debug (m ++ Byte.x20 :: h ++ Byte.x3a :: p ++ Byte.x20 :: v ++ crlf ++ rest) =
     Ok (TDomain (str h) n, true)) /\
  (forall path, eq_ignore_ascii_case m CONNECT = false -> Byte.x2f ∉ h -> url path ->
   parse_request_line debug
     (m ++ Byte.x20 :: http_scheme ++ h ++ Byte.x3a :: p ++ Byte.x2f :: path ++ Byte.x20 :: v ++ crlf ++ rest) =
     Ok (TDomain (str h) n, false)).
Proof.
  intros Hm Hh Hv Hm0 Hh0 Hp Hn Hr.
  assert (url (h ++ Byte.x3a :: p)) as Hhp.
  { apply Forall_app. split; [done|]. apply Forall_cons. split; [done|by apply digits_url]. }
  split.
  - intros Hc. pose proof (head_words m (h ++ Byte.x3a :: p) v rest Hm Hhp Hv Hm0 ltac:(by destruct h) Hr) as [Ht [ws Hw]].
    rewrite <- app_assoc, <- app_comm_cons in Ht, Hw.
    unfold parse_request_line. rewrite Ht, Hw. cbn -[CONNECT http_scheme strip_prefix eq_ignore_ascii_case split_host_port].
    rewrite Hc. by rewrite (split_host_port_app h p 443 n).
  - intros path Hc Hs Hpath.
    assert (url (http_scheme ++ h ++ Byte.x3a :: p ++ Byte.x2f :: path)) as Hu.
    { repeat first [apply Forall_app; split|apply Forall_cons; split]; try done; by apply digits_url. }
    pose proof (head_words m _ v rest Hm Hu Hv Hm0 ltac:(done) Hr) as [Ht [ws Hw]].
    rewrite <- !app_assoc, <- !app_comm_cons, <- !app_assoc, <- !app_comm_cons in Ht, Hw.
    unfold parse_request_line. rewrite Ht, Hw. cbn -[CONNECT http_scheme strip_prefix eq_ignore_ascii_case split_host_port].
    rewrite Hc, (proj2 (strip_prefix_Some _ _ _) eq_refl).
    rewrite app_comm_cons, app_assoc, split_byte_hd.
    + cbn -[split_host_port]. destruct (h ++ Byte.x3a :: p) eqn:E; [by destruct h|]. rewrite <- E.
      by rewrite (split_host_port_app h p 80 n).
    + rewrite elem_of_app, elem_of_cons. intros [?|[?|Hin]]; [done|done|].
      unfold digits in Hp. rewrite Forall_forall in Hp. by apply Hp in Hin.
Qed.

(** C38. Reading a request head is insensitive to how TCP segments it.  For every split of
    the client's bytes into non-empty reads in which a head ends within 64 KiB, the loop
    stops at the read that completes the head, parses exactly the head, and forwards all
    bytes read so far for a plain request, none for a CONNECT: bytes of the tunnel that
    arrive in the same read as the end of a CONNECT head are dropped. *)
Theorem head_segmentation (debug : bytes -> string) (reads : list bytes) (pos : nat) :
  Forall (fun c => c <> []) reads -> find_sub (concat reads) head_end = Some pos ->
  (pos + 4 <= Z.to_nat 65536)%nat ->
  let k := chunks_for (pos + 4) reads in
  parse_http_head debug [] (map Ok reads) =
    Some (match parse_request_line debug (take (pos + 4) (concat reads)) with
          | Err e => Err e
          | Ok (t, is_connect) => Ok (t, is_connect, if is_connect : bool then [] else concat (take k reads))
          end) /\
  (pos + 4 <= length (concat (take k reads)))%nat /\
  (length (concat (take (k - 1) reads)) < pos + 4)%nat.
Proof.
  intros Hne Hf Hl. cbv zeta. split.
  - pose proof (head_loop debug pos reads [] Hne Hf) as Hh. cbn [length app] in Hh.
    rewrite Nat.sub_0_r in Hh. apply Hh. lia.
  - assert (pos + 4 <= length (concat reads))%nat as Hb.
    { apply find_sub_from_Some in Hf as (_ & a & b & E & Ha). rewrite E, !length_app.
      change (length head_end) with 4%nat. lia. }
    assert (1 <= pos + 4)%nat as Hn by lia. revert Hb Hn. generalize (pos + 4)%nat as n. clear.
    induction reads as [|c cs IH]; intros n Hb Hn; cbn in Hb; [lia|].
    cbn [chunks_for]. rewrite length_app in Hb.
    destruct (Nat.leb_spec n (length c)) as [H|H].
    + cbn [take concat Nat.sub length]. rewrite app_nil_r. lia.
    + destruct (IH (n - length c)%nat) as [H1 H2]; [lia..|].
      cbn [take concat]. rewrite length_app. split; [lia|].
      replace (S (chunks_for (n - length c) cs) - 1)%nat with (chunks_for (n - length c) cs) by lia.
      destruct (chunks_for (n - length c) cs) as [|j]; [cbn; lia|].
      cbn [take concat]. rewrite length_app. replace (S j - 1)%nat with j in H2 by lia. lia.
Qed.

(** The loop is bounded: however the client sends, as long as no head ends in what it
    sent, the loop either still waits with at most 64 KiB buffered, or has returned an
    error; in particular more than 64 KiB without a head is always an error. *)
Theorem head_read_bounded (debug : bytes -> string) (reads : list bytes) :
  Forall (fun c => c <> []) reads -> find_sub (concat reads) head_end = None ->
  parse_http_head debug [] (map Ok reads) =
    if (length (concat reads) <=? Z.to_nat 65536)%nat then None
    else Some (Err (Protocol "request head too large")).
Proof.
  intros Hne Hf. change (concat reads) with ([] ++ concat reads) in *.
  assert (length (@nil byte) <= Z.to_nat 65536)%nat as Hb by (cbn; lia). revert Hb Hf.
  generalize (@nil byte) as buf. induction Hne as [|c cs Hc Hne IH]; intros buf Hb Hf; cbn [concat map parse_http_head].
  - rewrite app_nil_r. by rewrite (proj2 (Nat.leb_le _ _) Hb).
  - cbn [concat] in Hf. rewrite app_assoc in *. destruct c as [|x c]; [done|]. set (ch := x :: c) in *.
    assert (find_sub (buf ++ ch) head_end = None) as ->.
    { destruct (find_sub (buf ++ ch) head_end) as [p|] eqn:E; [|done]. unfold find_sub in E.
      apply find_sub_from_Some in E as (_ & a & b & E & _). unfold find_sub in Hf.
      rewrite E, <- !app_assoc in Hf. destruct (find_sub_from_complete 0 head_end a (b ++ concat cs)) as [y Hy].
      congruence. }
    destruct (Nat.leb_spec (length (buf ++ ch)) (Z.to_nat 65536)) as [Hle|Hgt]; [by apply IH|].
    rewrite (proj2 (Nat.leb_gt _ _)); [done|]. rewrite length_app. lia.
Qed.

(** ** Witnesses *)

Module HeadDemo.
Definition debug (s : bytes) : string := "".
End HeadDemo.

Lemma request_target_witness :
  parse_request_line HeadDemo.debug (to_b "connect" ++ Byte.x20 :: to_b "example.org" ++ Byte.x3a :: to_b "8443"
    ++ Byte.x20 :: to_b "HTTP/1.1" ++ crlf ++ crlf) = Ok (TDomain (str (to_b "example.org")) 8443, true).
Proof.
  refine (proj1 (request_target HeadDemo.debug (to_b "connect") (to_b "example.org") (to_b "8443") (to_b "HTTP/1.1")
    crlf 8443 _ _ _ _ _ _ _ _) _); first [discriminate|reflexivity|by repeat constructor].
Defined.

Lemma head_segmentation_witness :
  let reads := [to_b "CONNECT h:443 HTTP/1.1" ++ crlf ++ [Byte.x0d]; [Byte.x0a] ++ to_b "early"] in
  parse_http_head HeadDemo.debug [] (map Ok reads) = Some (Ok (TDomain "h" 443, true, [])).
Proof.
  cbv zeta.
  destruct (head_segmentation HeadDemo.debug
    [to_b "CONNECT h:443 HTTP/1.1" ++ crlf ++ [Byte.x0d]; [Byte.x0a] ++ to_b "early"] 22) as [E _];
    [repeat (constructor; [discriminate|]); constructor|reflexivity|lia|].
  rewrite E. vm_compute. reflexivity.
Defined.

Lemma head_read_bounded_witness :
  parse_http_head HeadDemo.debug [] (map Ok [to_b "GET / HTTP/1.1"; crlf]) = None.
Proof.
  rewrite (head_read_bounded HeadDemo.debug [to_b "GET / HTTP/1.1"; crlf]);
    [vm_compute; reflexivity|by repeat constructor|reflexivity].
Defined.
