(* ===== verification/Chain.v ===== *)
(** Proxy chains (core/client-core/src/chain.rs): resolving the hop list, one hop's
    handshake, and building the chain hop by hop.

    The outside world is an environment that answers each call as it likes, knowing
    every call made before; a computation runs over the list of calls it has made. *)
From S2P Require Import Prelude Calls Net Text Core ClientConfig.
From S2P Require Channel.

(** Calls to the outside: the resolver, the dialers, the carrier over the current hop,
    and frames on the channel to the hop reached so far. *)
Inductive call :=
  | CLookup (host : string) (port : Z)
  | CConnect (ep : Channel.Endpoint) (sec : Channel.ClientSecurity)
  | COpenCarrier (target : TargetAddr)
  | CConnectOver (ep : Channel.Endpoint) (sec : Channel.ClientSecurity)
  | CSend (f : Frame)
  | CRecv.
Abbreviation trace := (list call).

Class World := {
  w_lookup : trace -> string -> Z -> result IoError (list SocketAddr);
  w_transports : trace -> Channel.Transports unit unit;
  w_open : trace -> TargetAddr -> Result unit;
  w_send : trace -> Frame -> Result unit;
  w_recv : trace -> Result Frame;
}.

Definition endpoint_of (s : ServerEntry) : Channel.Endpoint :=
  Channel.mkEndpoint (host s) (port s) (transport s) "/et" (sni s).

Section Chain.
Context `{World} `{Base64}.
(** Rust's [{:?}] rendering of a frame, used in one error message. *)
Context (debug : Frame -> string).

Definition security_of (s : ServerEntry) : Result Channel.ClientSecurity :=
  match parse_psk (to_b (se_psk s)) with
  | Ok k => Ok (Channel.mkSecurity k (tls_skip_verify s) None)
  | Err e => Err e
  end.

Definition target_of (s : ServerEntry) : TargetAddr :=
  match parse_ip (host s) with
  | Some ip => TIp (SockAddr ip (port s))
  | None => TDomain (host s) (port s)
  end.

Definition resolve (host : string) (port : Z) : eff trace Error IpAddr :=
  match parse_ip host with
  | Some ip => mret ip
  | None =>
    l ← ask (CLookup host port) (fun h => map_err Io (w_lookup h host port));
    match l with
    | a :: _ => mret (sa_ip a)
    | [] => throw (Config ("cannot resolve host " +:+ host))
    end
  end.

Definition dial (ep : Channel.Endpoint) (sec : Channel.ClientSecurity) : eff trace Error unit :=
  ask (CConnect ep sec) (fun h => Channel.connect (w_transports h) ep sec).
Definition dial_over (ep : Channel.Endpoint) (sec : Channel.ClientSecurity) : eff trace Error unit :=
  ask (CConnectOver ep sec) (fun h => Channel.connect_over (w_transports h) tt ep sec).
Definition open_carrier (t : TargetAddr) : eff trace Error unit := ask (COpenCarrier t) (fun h => w_open h t).
Definition send (f : Frame) : eff trace Error unit := ask (CSend f) (fun h => w_send h f).
Definition recv : eff trace Error Frame := ask CRecv w_recv.

(** What the client sends first on a hop, and what it accepts back. *)
Definition hop_hello (s : ServerEntry) (mode : SessionMode) (rip : option Ipv4Addr) (name : option string) : Hello :=
  mkHello PROTOCOL_VERSION (token s) (wire mode) rip name false.
Definition await_welcome : eff trace Error Welcome :=
  f ← recv;
  match f with
  | FWelcome w => mret w
  | FReject r => throw (Auth r)
  | other => throw (Protocol ("expected Welcome, got " +:+ debug other))
  end.
Definition handshake (s : ServerEntry) (mode : SessionMode) (rip : option Ipv4Addr) (name : option string)
    : eff trace Error Welcome :=
  send (FHello (hop_hello s mode rip name));; await_welcome.

(** The later hops; the last one runs the chosen mode, the others relay streams. *)
Definition hop_mode (rest : list ServerEntry) (final : SessionMode) : SessionMode :=
  match rest with [] => final | _ => HttpProxy end.
Definition hop_ip (rest : list ServerEntry) (rip : option Ipv4Addr) : option Ipv4Addr :=
  match rest with [] => rip | _ => None end.

Fixpoint extend (hops : list ServerEntry) (final : SessionMode) (rip : option Ipv4Addr)
    (name : option string) (welcome : Welcome) : eff trace Error Welcome :=
  match hops with
  | [] => mret welcome
  | s :: rest =>
    open_carrier (target_of s);;
    sec ← lift_result (security_of s);
    dial_over (endpoint_of s) sec;;
    w ← handshake s (hop_mode rest final) (hop_ip rest rip) name;
    extend rest final rip name w
  end.

Definition connect_chain (hops : list ServerEntry) (final : SessionMode) (rip : option Ipv4Addr)
    (name : option string) : eff trace Error (Welcome * IpAddr) :=
  match hops with
  | [] => throw (Config "proxy chain is empty")
  | s :: rest =>
    ip ← resolve (host s) (port s);
    sec ← lift_result (security_of s);
    dial (endpoint_of s) sec;;
    w ← handshake s (hop_mode rest final) (hop_ip rest rip) name;
    w' ← extend rest final rip name w;
    mret (w', ip)
  end.

(** ** The calls of a chain, written down directly *)

Definition hop_security (s : ServerEntry) : Channel.ClientSecurity :=
  match security_of s with Ok c => c | Err _ => Channel.mkSecurity [] false None end.
Definition hop_calls (s : ServerEntry) (rest : list ServerEntry) (final : SessionMode)
    (rip : option Ipv4Addr) (name : option string) : trace :=
  [CSend (FHello match rest with
    | [] => mkHello PROTOCOL_VERSION (token s) (wire final) rip name false
    | _ => mkHello PROTOCOL_VERSION (token s) HttpProxy None name false
    end); CRecv].
Fixpoint later_calls (hops : list ServerEntry) (final : SessionMode) (rip : option Ipv4Addr)
    (name : option string) : trace :=
  match hops with
  | [] => []
  | s :: rest => [COpenCarrier (target_of s); CConnectOver (endpoint_of s) (hop_security s)] ++
      hop_calls s rest final rip name ++ later_calls rest final rip name
  end.
Definition resolve_calls (s : ServerEntry) : trace :=
  match parse_ip (host s) with Some _ => [] | None => [CLookup (host s) (port s)] end.
Definition chain_calls (hops : list ServerEntry) (final : SessionMode) (rip : option Ipv4Addr)
    (name : option string) : trace :=
  match hops with
  | [] => []
  | s :: rest => resolve_calls s ++ [CConnect (endpoint_of s) (hop_security s)] ++
      hop_calls s rest final rip name ++ later_calls rest final rip name
  end.

Lemma performs_await : performs await_welcome [CRecv].
Proof.
  unfold await_welcome. rewrite <- (app_nil_r [CRecv]). apply performs_bind; [apply performs_ask|].
  intros []; try apply performs_throw. apply performs_ret.
Qed.
Lemma performs_handshake s rest final rip name :
  performs (handshake s (hop_mode rest final) (hop_ip rest rip) name) (hop_calls s rest final rip name).
Proof.
  assert (hop_calls s rest final rip name =
    [CSend (FHello (hop_hello s (hop_mode rest final) (hop_ip rest rip) name))] ++ [CRecv]) as ->
    by (by destruct rest).
  apply performs_bind; [apply performs_ask|intros _; apply performs_await].
Qed.
Lemma performs_resolve s : performs (resolve (host s) (port s)) (resolve_calls s).
Proof.
  unfold resolve, resolve_calls. destruct (parse_ip (host s)); [apply performs_ret|].
  rewrite <- (app_nil_r [_]). apply performs_bind; [apply performs_ask|].
  intros [|a l]; [apply performs_throw|apply performs_ret].
Qed.
Lemma performs_extend hops final rip name w : performs (extend hops final rip name w) (later_calls hops final rip name).
Proof.
  revert w. induction hops as [|s rest IH]; intros w; cbn [extend later_calls]; [apply performs_ret|].
  change ([?a; ?b] ++ ?c) with ([a] ++ ([b] ++ c)). apply performs_bind; [apply performs_ask|]. intros _.
  apply performs_bind_ok. intros sec Hsec. unfold hop_security. rewrite Hsec.
  apply performs_bind; [apply performs_ask|]. intros _.
  apply performs_bind; [apply performs_handshake|]. intros w'. apply IH.
Qed.
Lemma performs_chain hops final rip name :
  performs (connect_chain hops final rip name) (chain_calls hops final rip name).
Proof.
  destruct hops as [|s rest]; cbn [connect_chain chain_calls]; [apply performs_throw|].
  apply performs_bind; [apply performs_resolve|]. intros ip.
  apply performs_bind_ok. intros sec Hsec. unfold hop_security. rewrite Hsec.
  apply performs_bind; [apply performs_ask|]. intros _.
  apply performs_bind; [apply performs_handshake|]. intros w.
  rewrite <- (app_nil_r (later_calls _ _ _ _)).
  apply performs_bind; [apply performs_extend|]. intros w'. apply performs_ret.
Qed.

(** A successful dial over a carrier never was for QUIC. *)
Lemma dial_over_ok ep sec h h' : dial_over ep sec h = (h', Ok tt) -> Channel.ep_kind ep <> Quic.
Proof. intros [= _ E] Hk. unfold Channel.connect_over in E. by rewrite Hk in E. Qed.
Lemma extend_kinds hops final rip name w h h' w' :
  extend hops final rip name w h = (h', Ok w') -> Forall (fun s => transport s <> Quic) hops.
Proof.
  revert w h. induction hops as [|s rest IH]; intros w h; cbn [extend]; [done|].
  intros (h1 & [] & _ & E)%eff_bind_ok. apply eff_bind_ok in E as (h2 & sec & _ & E).
  apply eff_bind_ok in E as (h3 & [] & Hd & E). apply eff_bind_ok in E as (h4 & w1 & _ & E).
  apply dial_over_ok in Hd. constructor; [exact Hd|eauto].
Qed.
End Chain.

(** [resolve_hops]: known names, in order; the others are skipped. *)
Fixpoint resolve_hops (chain : list string) (servers : list ServerEntry) : list ServerEntry :=
  match chain with
  | [] => []
  | name :: rest =>
    match List.find (fun s => String.eqb (se_name s) name) servers with
    | Some s => s :: resolve_hops rest servers
    | None => resolve_hops rest servers
    end
  end.

(** ** Properties *)


(** QUIC can only be the first hop: a chain that was built has no QUIC hop after the
    first, and an empty chain is an error before anything is dialed. *)
Theorem quic_only_first `{World} `{Base64} debug hops final rip name h :
  (forall h' r, connect_chain debug hops final rip name h = (h', Ok r) ->
     hops <> [] /\ Forall (fun s => transport s <> Quic) (tail hops)) /\
  (hops = [] -> connect_chain debug hops final rip name h = (h, Err (Config "proxy chain is empty"))).
Proof.
  split; [|by intros ->]. intros h' r. destruct hops as [|s rest]; [done|]. cbn [connect_chain tail].
  intros E. split; [done|]. apply eff_bind_ok in E as (h1 & ip & _ & E).
  apply eff_bind_ok in E as (h2 & sec & _ & E). apply eff_bind_ok in E as (h3 & [] & _ & E).
  apply eff_bind_ok in E as (h4 & w & _ & E). apply eff_bind_ok in E as (h5 & w' & Hx & _).
  by eapply extend_kinds.
Qed.

(** Hop lists resolve by name: the names of the result are the names of the chain
    that some server has, in the chain's order (repetitions included), and every hop is
    one of the profile's servers. *)
Theorem resolve_hops_spec (chain : list string) (servers : list ServerEntry) :
  map se_name (resolve_hops chain servers) =
    List.filter (fun n => existsb (fun s => String.eqb (se_name s) n) servers) chain /\
  Forall (fun s => In s servers) (resolve_hops chain servers).
Proof.
  induction chain as [|n rest [IH1 IH2]]; cbn; [by split|].
  destruct (List.find _ servers) as [s|] eqn:E.
  - apply List.find_some in E as [Hs Hn]. rewrite (proj2 (existsb_exists _ _)) by eauto.
    apply String.eqb_eq in Hn as <-. cbn. rewrite IH1. split; [done|]. by constructor.
  - destruct (existsb _ servers) eqn:Ex; [|done]. apply existsb_exists in Ex as (s & Hs & Hn).
    apply List.find_none with (x := s) in E; [congruence|done].
Qed.

(** ** A world where everything succeeds *)

Module ChainDemo.
Definition welcome : Welcome :=
  mkWelcome 7 (v4_of_octets [Byte.x0a; Byte.x42; Byte.x00; Byte.x02]) 24 (v4_of_octets [Byte.x0a]) 1380 [] None 0 None [].
Definition transports : Channel.Transports unit unit :=
  Channel.mkTransports unit unit true true true (fun _ _ => Ok tt) (fun _ _ => Ok tt) (fun _ _ => Ok tt)
    (fun _ _ => Ok tt) (fun _ _ _ => Ok tt).
#[export] Instance world : World := {|
  w_lookup _ _ p := Ok [SockAddr (V4 (v4_of_octets [Byte.xc6; Byte.x33; Byte.x64; Byte.x09])) p];
  w_transports _ := transports; w_open _ _ := Ok tt; w_send _ _ := Ok tt; w_recv _ := Ok (FWelcome welcome) |}.
Definition psk : string := str (@generate_psk NibbleCodec.codec (replicate 32 Byte.x2a)).
Definition hop (n : string) : ServerEntry := mkServerEntry n (n +:+ ".example") 8443 Tcp ("tok-" +:+ n) psk false None.
Definition run := connect_chain (H0 := NibbleCodec.codec) (fun _ => "") [hop "a"; hop "b"] GlobalProxy None None [].
End ChainDemo.


Lemma quic_only_first_witness :
  connect_chain (H := ChainDemo.world) (H0 := NibbleCodec.codec) (fun _ => "") [] GlobalProxy None None [] =
    ([], Err (Config "proxy chain is empty")).
Proof. exact (proj2 (quic_only_first (H := ChainDemo.world) (H0 := NibbleCodec.codec) (fun _ => "") [] GlobalProxy None None []) eq_refl). Defined.
