(* ===== verification/Engine.v ===== *)
(** The client engine (core/client-core/src/engine.rs): the live status, how a session is
    set up and which mode it runs, and the packet path with its reconnecting loop. *)
From S2P Require Import Prelude Net Text Core Mpsc ClientConfig Chain.
From S2P Require Channel.

Definition PEER_REFRESH_SECS : Z := 5.
Definition RECONNECT_ATTEMPTS : Z := 3.
Definition OUT_BUFFER_PACKETS : Z := 8192.
Definition SEND_TIMEOUT_SECS : Z := 8.
Definition STALL_SILENT_SECS : Z := 1.

(** ** Live status *)

Record LiveStatus := mkLive {
  ls_ip : option Ipv4Addr;
  ls_peers : list PeerInfo;
  up_bytes : Z;
  down_bytes : Z;
}.
Definition no_status : LiveStatus := mkLive None [] 0 0.
Definition add_traffic_up (n : Z) (s : LiveStatus) : LiveStatus :=
  if n =? 0 then s else mkLive (ls_ip s) (ls_peers s) (sat_add64 (up_bytes s) n) (down_bytes s).
Definition add_traffic_down (n : Z) (s : LiveStatus) : LiveStatus :=
  if n =? 0 then s else mkLive (ls_ip s) (ls_peers s) (up_bytes s) (sat_add64 (down_bytes s) n).
Definition traffic_counters (s : LiveStatus) : Z * Z := (up_bytes s, down_bytes s).
Definition show_peers (ps : list PeerInfo) (s : LiveStatus) : LiveStatus :=
  mkLive (ls_ip s) ps (up_bytes s) (down_bytes s).
Definition show_assigned (ip : Ipv4Addr) (s : LiveStatus) : LiveStatus :=
  mkLive (Some ip) (ls_peers s) (up_bytes s) (down_bytes s).

(** ** Setting up a session *)

(** How a packet session dials again: the same server by address, or the whole chain. *)
Inductive Redial :=
  | RServer (ep : Channel.Endpoint) (sec : Channel.ClientSecurity) (tok : string) (mode : SessionMode)
      (name : option string) (join : bool)
  | RChain (hops : list ServerEntry) (name : option string).
Inductive Launch :=
  | LPacket (cfg : ClientConfig) (w : Welcome) (server_ip : IpAddr) (member : bool) (re : Redial)
  | LHttp (sysproxy : bool) (cfg : ClientConfig) (w : Welcome) (member : bool).
(** What a session set-up ends in: the address shown, a separate LAN session spawned
    beside it, and the mode that runs. *)
Record Plan := mkPlan { pl_shown : option Ipv4Addr; pl_lan : option ClientConfig; pl_launch : Launch }.

Definition lan_config (cfg : ClientConfig) (hop0 : ServerEntry) : ClientConfig :=
  mkClientConfig (cc_name cfg) (Some (se_name hop0)) Vpn (cc_requested_ip cfg) (cc_client_name cfg)
    (cc_tun_name cfg +:+ "v") (cc_http_listen cfg) false (server_host cfg) (server_port cfg)
    (cc_transport cfg) (cc_token cfg) (cc_psk cfg) (cc_tls_skip cfg) (cc_server_name cfg)
    (servers cfg) (routes cfg) (split_mode cfg) [] (ipv6_killswitch cfg).
(** The configuration a chained [Vpn] session falls back to: the first hop, no chain. *)
Definition first_hop_config (cfg : ClientConfig) (hop0 : ServerEntry) : ClientConfig :=
  mkClientConfig (cc_name cfg) (Some (se_name hop0)) (cc_mode cfg) (cc_requested_ip cfg) (cc_client_name cfg)
    (cc_tun_name cfg) (cc_http_listen cfg) (cc_join_vpn cfg) (server_host cfg) (server_port cfg)
    (cc_transport cfg) (cc_token cfg) (cc_psk cfg) (cc_tls_skip cfg) (cc_server_name cfg)
    (servers cfg) (routes cfg) (split_mode cfg) [] (ipv6_killswitch cfg).

Section Setup.
Context `{World} `{Base64}.
Context (debug : Frame -> string).

Definition session_hello (cfg : ClientConfig) (s : ServerEntry) : Hello :=
  mkHello PROTOCOL_VERSION (token s) (wire (cc_mode cfg)) (cc_requested_ip cfg) (cc_client_name cfg) (cc_join_vpn cfg).
Definition is_member (cfg : ClientConfig) : bool := bool_decide (cc_mode cfg = Vpn) || cc_join_vpn cfg.

(** The endpoint a reconnect dials: the resolved address, the original server name. *)
Definition redial_endpoint (s : ServerEntry) (ip : IpAddr) : Channel.Endpoint :=
  Channel.mkEndpoint (show_ip ip) (port s) (transport s) "/et" (sni s).

Definition run_direct (cfg : ClientConfig) : eff trace Error Plan :=
  s ← lift_result (active_server cfg);
  ip ← resolve (host s) (port s);
  sec ← lift_result (security_of s);
  dial (endpoint_of s) sec;;
  send (FHello (session_hello cfg s));;
  w ← await_welcome debug;
  let member := is_member cfg in
  mret (mkPlan (Some (assigned_ip w)) None
    match cc_mode cfg with
    | GlobalProxy | Vpn =>
      LPacket cfg w ip member
        (RServer (redial_endpoint s ip) sec (token s) (wire (cc_mode cfg)) (cc_client_name cfg) (cc_join_vpn cfg))
    | HttpProxy => LHttp false cfg w member
    | SystemProxy => LHttp true cfg w member
    end).

(** The first hop dialed by address, its host name kept as the server name. *)
Definition pin_hop (s : ServerEntry) (ip : IpAddr) : ServerEntry :=
  mkServerEntry (se_name s) (show_ip ip) (port s) (transport s) (token s) (se_psk s) (tls_skip_verify s)
    (match server_name s, parse_ip (host s) with
     | None, None => Some (host s)
     | n, _ => n
     end).
Definition pre_resolve (hops : list ServerEntry) : eff trace Error (list ServerEntry) :=
  match hops with
  | [] => mret []
  | s :: rest =>
    r ← try_eff (resolve (host s) (port s));
    mret match r with Ok ip => pin_hop s ip :: rest | Err _ => hops end
  end.

Definition run_chain (cfg : ClientConfig) (hops : list ServerEntry) : eff trace Error Plan :=
  hops ← pre_resolve hops;
  p ← connect_chain debug hops (cc_mode cfg) (cc_requested_ip cfg) (cc_client_name cfg);
  let (w, ip) := p : Welcome * IpAddr in
  let lan := if cc_join_vpn cfg then lan_config cfg <$> List.hd_error hops else None in
  let shown := if cc_join_vpn cfg then None else Some (assigned_ip w) in
  match cc_mode cfg with
  | GlobalProxy => mret (mkPlan shown lan (LPacket cfg w ip false (RChain hops (cc_client_name cfg))))
  | HttpProxy => mret (mkPlan shown lan (LHttp false cfg w false))
  | SystemProxy => mret (mkPlan shown lan (LHttp true cfg w false))
  | Vpn => throw (Protocol "unreachable")
  end.

(** [run_session] and [run_chain_session]; the recursive call of the latter is on a
    configuration without a chain, which goes straight to [run_direct]. *)
Definition run_session (cfg : ClientConfig) : eff trace Error Plan :=
  match chain cfg, resolve_hops (chain cfg) (servers cfg) with
  | _ :: _, h0 :: h1 :: rest =>
    match cc_mode cfg with
    | Vpn => run_direct (first_hop_config cfg h0)
    | _ => run_chain cfg (h0 :: h1 :: rest)
    end
  | _, _ => run_direct cfg
  end.

Definition redial (re : Redial) (req : Ipv4Addr) : eff trace Error Welcome :=
  match re with
  | RServer ep sec tok mode name join =>
    dial ep sec;;
    send (FHello (mkHello PROTOCOL_VERSION tok mode (Some req) name join));;
    await_welcome debug
  | RChain hops name =>
    p ← connect_chain debug hops GlobalProxy (Some req) name;
    mret p.1
  end.
End Setup.

(** ** The stall monitor

    One sample of the counters per second; it ends at the first second in which a
    direction has been silent, with the other one active, for the set time. *)
Fixpoint monitor (last : Z * Z) (silent : Z) (i : nat) (samples : list (Z * Z)) : option nat :=
  match samples with
  | [] => None
  | (up, down) :: r =>
    let up_moved := last.1 <? up in
    let down_moved := last.2 <? down in
    if negb (Bool.eqb up_moved down_moved) then
      let silent := silent + 1 in
      if STALL_SILENT_SECS <=? silent then Some i else monitor (up, down) silent (S i) r
    else monitor (up, down) 0 (S i) r
  end.

(** ** The packet path *)

Inductive UpState := Idle | Sending (f : Frame).
(** The downlink: awaiting a frame, or the TUN to take a packet. *)
Inductive DownState := Receiving | Writing (b : bytes).
(** The connection loop: bridging, the attempt about to be made, or over. *)
Inductive LinkState := Bridging | Redialing (attempt : Z) | Over.

Record Path := mkPath {
  pa_status : LiveStatus;
  pa_member : bool;
  pa_re : Redial;
  pa_ip : Ipv4Addr;
  pa_buf : mpsc bytes;
  pa_hold : option bytes;
  pa_reader : bool;
  pa_up : UpState;
  pa_down : DownState;
  pa_link : LinkState;
  pa_cancel : bool;
  pa_wire : list Frame;
  pa_writes : list (bool * bytes);
  pa_read : list bytes;
  pa_done : list (bool * bytes);
  pa_losses : nat;
}.
(** [pa_wire] is what the transports accepted, over all connections; [pa_writes] the
    packets the downlink is done with, and whether the TUN took them.  [pa_read],
    [pa_done] and [pa_losses] record the history: the packets read off the TUN, those
    taken from the buffer with whether they were sent, and the number of connections
    lost. *)
Definition pa_tun (p : Path) : list bytes := map snd (List.filter fst (pa_writes p)).

Inductive pevent :=
  | PTun (r : result string bytes)
  | PPush
  | PReaderStop
  | PKeepalive
  | PPeers
  | PTake
  | PDrained
  | PSent (ok : bool)
  | PRecv (r : Result Frame)
  | PWrote (ok : bool)
  | PStall
  | PCancel
  | PCancelled
  | PRedialed (r : Result Welcome).

Definition set_up (u : UpState) (p : Path) : Path :=
  mkPath (pa_status p) (pa_member p) (pa_re p) (pa_ip p) (pa_buf p) (pa_hold p) (pa_reader p) u
    (pa_down p) (pa_link p) (pa_cancel p) (pa_wire p) (pa_writes p) (pa_read p) (pa_done p) (pa_losses p).
Definition set_link (l : LinkState) (p : Path) : Path :=
  mkPath (pa_status p) (pa_member p) (pa_re p) (pa_ip p) (pa_buf p) (pa_hold p) (pa_reader p) (pa_up p)
    (pa_down p) l (pa_cancel p) (pa_wire p) (pa_writes p) (pa_read p) (pa_done p) (pa_losses p).
Definition set_status (f : LiveStatus -> LiveStatus) (p : Path) : Path :=
  mkPath (f (pa_status p)) (pa_member p) (pa_re p) (pa_ip p) (pa_buf p) (pa_hold p) (pa_reader p) (pa_up p)
    (pa_down p) (pa_link p) (pa_cancel p) (pa_wire p) (pa_writes p) (pa_read p) (pa_done p) (pa_losses p).
Definition set_reader (h : option bytes) (alive : bool) (read : list bytes) (p : Path) : Path :=
  mkPath (pa_status p) (pa_member p) (pa_re p) (pa_ip p) (pa_buf p) h alive (pa_up p)
    (pa_down p) (pa_link p) (pa_cancel p) (pa_wire p) (pa_writes p) read (pa_done p) (pa_losses p).
Definition set_buf (m : mpsc bytes) (p : Path) : Path :=
  mkPath (pa_status p) (pa_member p) (pa_re p) (pa_ip p) m (pa_hold p) (pa_reader p) (pa_up p)
    (pa_down p) (pa_link p) (pa_cancel p) (pa_wire p) (pa_writes p) (pa_read p) (pa_done p) (pa_losses p).
Definition set_cancel (p : Path) : Path :=
  mkPath (pa_status p) (pa_member p) (pa_re p) (pa_ip p) (pa_buf p) (pa_hold p) (pa_reader p) (pa_up p)
    (pa_down p) (pa_link p) true (pa_wire p) (pa_writes p) (pa_read p) (pa_done p) (pa_losses p).
Definition log_wire (f : Frame) (p : Path) : Path :=
  mkPath (pa_status p) (pa_member p) (pa_re p) (pa_ip p) (pa_buf p) (pa_hold p) (pa_reader p) (pa_up p)
    (pa_down p) (pa_link p) (pa_cancel p) (pa_wire p ++ [f]) (pa_writes p) (pa_read p) (pa_done p) (pa_losses p).
Definition set_down (d : DownState) (p : Path) : Path :=
  mkPath (pa_status p) (pa_member p) (pa_re p) (pa_ip p) (pa_buf p) (pa_hold p) (pa_reader p) (pa_up p)
    d (pa_link p) (pa_cancel p) (pa_wire p) (pa_writes p) (pa_read p) (pa_done p) (pa_losses p).
(** The packet of a finished or abandoned write to the TUN. *)
Definition wrote_tun (ok : bool) (p : Path) : Path :=
  match pa_down p with
  | Writing b =>
    mkPath (pa_status p) (pa_member p) (pa_re p) (pa_ip p) (pa_buf p) (pa_hold p) (pa_reader p) (pa_up p)
      Receiving (pa_link p) (pa_cancel p) (pa_wire p) (pa_writes p ++ [(ok, b)]) (pa_read p) (pa_done p) (pa_losses p)
  | Receiving => p
  end.
(** The packet of a finished or abandoned send. *)
Definition settle (sent : bool) (p : Path) : Path :=
  match pa_up p with
  | Sending (FPacket b) =>
    mkPath (pa_status p) (pa_member p) (pa_re p) (pa_ip p) (pa_buf p) (pa_hold p) (pa_reader p) Idle
      (pa_down p) (pa_link p) (pa_cancel p) (pa_wire p) (pa_writes p) (pa_read p) (pa_done p ++ [(sent, b)]) (pa_losses p)
  | _ => set_up Idle p
  end.
Definition count_loss (p : Path) : Path :=
  mkPath (pa_status p) (pa_member p) (pa_re p) (pa_ip p) (pa_buf p) (pa_hold p) (pa_reader p) (pa_up p)
    (pa_down p) (pa_link p) (pa_cancel p) (pa_wire p) (pa_writes p) (pa_read p) (pa_done p) (S (pa_losses p)).

(** After the loop: cancel everything; the buffer is dropped with what it holds. *)
Definition finish (p : Path) : Path :=
  set_cancel (set_link Over (set_buf (close_rx (pa_buf p)) (set_reader None false (pa_read p) p))).
(** The bridge's futures are dropped, an unfinished send and an unfinished write with them. *)
Definition abandon (p : Path) : Path := wrote_tun false (settle false p).
(** [ConnEnd::Lost]. *)
Definition lost (p : Path) : Path :=
  let p := count_loss (abandon p) in
  if pa_cancel p then finish p else set_link (Redialing 1) p.
Definition ended (p : Path) : Path := finish (abandon p).

(** An attempt to dial again ends: the bridge resumes, or the next attempt starts, or the
    last one has failed. *)
Definition redialed (r : Result Welcome) (p : Path) : option Path :=
  match pa_link p with
  | Redialing n =>
    match r with
    | Ok w => Some (if pa_cancel p then finish (set_status (show_assigned (assigned_ip w)) p)
                    else set_link Bridging (set_status (show_assigned (assigned_ip w)) p))
    | Err _ => Some (if (n <? RECONNECT_ATTEMPTS) then set_link (Redialing (n + 1)) p else finish p)
    end
  | _ => None
  end.
Definition pstep (p : Path) (e : pevent) : option Path :=
  match e with
  | PTun r =>
    if pa_reader p then
      match pa_hold p, r with
      | None, Ok [] => Some p
      | None, Ok b => Some (set_reader (Some b) true (pa_read p ++ [b]) p)
      | None, Err _ => Some (set_reader None false (pa_read p) p)
      | Some _, _ => None
      end
    else None
  | PPush =>
    match pa_hold p with
    | Some b =>
      if send_ready (pa_buf p)
      then let (m, ok) := try_send b (pa_buf p) in
           Some (set_buf m (set_reader None (pa_reader p && ok) (pa_read p) p))
      else None
    | None => None
    end
  | PReaderStop => if pa_cancel p then Some (set_reader None false (pa_read p) p) else None
  | PKeepalive =>
    match pa_link p, pa_up p with Bridging, Idle => Some (set_up (Sending FPing) p) | _, _ => None end
  | PPeers =>
    match pa_link p, pa_up p with
    | Bridging, Idle => if pa_member p then Some (set_up (Sending FGetPeers) p) else None
    | _, _ => None
    end
  | PTake =>
    match pa_link p, pa_up p, pop (pa_buf p) with
    | Bridging, Idle, Some (b, m) => Some (set_buf m (set_up (Sending (FPacket b)) p))
    | _, _, _ => None
    end
  | PDrained =>
    match pa_link p, pa_up p, pop (pa_buf p) with
    | Bridging, Idle, None => if pa_reader p then None else Some (ended p)
    | _, _, _ => None
    end
  | PSent ok =>
    match pa_link p, pa_up p with
    | Bridging, Sending f =>
      if ok then Some (log_wire f (set_status (add_traffic_up
             (match f with FPacket b => Z.of_nat (length b) | _ => 0 end)) (settle true p)))
      else Some (lost p)
    | _, _ => None
    end
  | PRecv r =>
    match pa_link p, pa_down p with
    | Bridging, Receiving =>
      match r with
      | Ok (FPacket b) => Some (set_down (Writing b) p)
      | Ok (FPeerList ps) => Some (set_status (show_peers ps) p)
      | Ok _ => Some p
      | Err _ => Some (lost p)
      end
    | _, _ => None
    end
  | PWrote ok =>
    match pa_link p, pa_down p with
    | Bridging, Writing b => Some (set_status (add_traffic_down (Z.of_nat (length b))) (wrote_tun ok p))
    | _, _ => None
    end
  | PStall => match pa_link p with Bridging => Some (lost p) | _ => None end
  | PCancel => Some (set_cancel p)
  | PCancelled =>
    if pa_cancel p then
      match pa_link p with Over => None | _ => Some (ended p) end
    else None
  | PRedialed r => redialed r p
  end.

Abbreviation prun := (runs pstep).

Definition path_start (w : Welcome) (member : bool) (re : Redial) (s : LiveStatus) : Path :=
  mkPath s member re (assigned_ip w) (mpsc_new OUT_BUFFER_PACKETS) None true Idle Receiving Bridging false [] [] [] [] 0.
