(* ===== verification/EngineThms.v ===== *)
(** Theorems about the client engine: what a session set-up does and decides, dialing
    without DNS, the stall monitor, and the packet path across reconnects. *)
From S2P Require Import Prelude Calls Net Text Core Mpsc ClientConfig Chain Engine.
From S2P Require Channel.

(** ** Session set-up *)

Section Setup.
Context `{World} `{Base64} (debug : Frame -> string).

Definition direct_calls (cfg : ClientConfig) : trace :=
  match active_server cfg with
  | Ok s => resolve_calls s ++ [CConnect (endpoint_of s) (hop_security s); CSend (FHello (session_hello cfg s)); CRecv]
  | Err _ => []
  end.

Lemma performs_direct cfg : performs (run_direct debug cfg) (direct_calls cfg).
Proof.
  unfold run_direct, direct_calls. apply performs_bind_ok. intros s ->.
  apply performs_bind; [apply performs_resolve|]. intros ip.
  apply performs_bind_ok. intros sec Hsec. unfold hop_security. rewrite Hsec.
  change [?a; ?b; CRecv] with ([a] ++ [b] ++ [CRecv]).
  apply performs_bind; [apply performs_ask|]. intros _.
  apply performs_bind; [apply performs_ask|]. intros _.
  rewrite <- (app_nil_r [CRecv]). apply performs_bind; [apply performs_await|]. intros w. apply performs_ret.
Qed.

(** A call on the wire that respects the protocol: a greeting in a wire mode. *)
Definition wire_call (c : call) : Prop :=
  match c with
  | CSend (FHello h) => hello_version h = PROTOCOL_VERSION /\ hello_mode h <> SystemProxy
  | CSend _ => False
  | _ => True
  end.
Lemma wire_not_system m : wire m <> SystemProxy.
Proof. by destruct m. Qed.

Lemma resolve_calls_wire s : Forall wire_call (resolve_calls s).
Proof. unfold resolve_calls. destruct (parse_ip (host s)); by repeat constructor. Qed.
Lemma direct_calls_wire cfg : Forall wire_call (direct_calls cfg).
Proof.
  unfold direct_calls. destruct (active_server cfg) as [s|]; [|constructor].
  apply Forall_app. split; [apply resolve_calls_wire|].
  repeat constructor; cbn. apply wire_not_system.
Qed.
Lemma hop_calls_wire s rest final rip name : Forall wire_call (hop_calls s rest final rip name).
Proof. destruct rest; repeat constructor; cbn; try done. apply wire_not_system. Qed.
Lemma later_calls_wire hops final rip name : Forall wire_call (later_calls hops final rip name).
Proof.
  induction hops as [|s rest IH]; cbn [later_calls]; [constructor|].
  apply Forall_app. split; [by repeat constructor|]. apply Forall_app. split; [apply hop_calls_wire|exact IH].
Qed.
Lemma chain_calls_wire hops final rip name : Forall wire_call (chain_calls hops final rip name).
Proof.
  destruct hops as [|s rest]; cbn [chain_calls]; [constructor|].
  repeat (apply Forall_app; split); [apply resolve_calls_wire|by repeat constructor|apply hop_calls_wire|apply later_calls_wire].
Qed.

Lemma performs_wire {A} (m : eff trace Error A) cs h h' r :
  performs m cs -> Forall wire_call cs -> m h = (h', r) -> exists l, h' = h ++ l /\ Forall wire_call l.
Proof.
  intros Hm Hc E. destruct (Hm _ _ _ E) as (l & -> & [k ->] & _). apply Forall_app in Hc as [Hl _]. eauto.
Qed.

Lemma pre_resolve_wire hops h h' r : pre_resolve hops h = (h', r) ->
  exists l, h' = h ++ l /\ Forall wire_call l.
Proof.
  destruct hops as [|s rest]; cbn [pre_resolve].
  - intros [= <- <-]. exists []. by rewrite app_nil_r.
  - unfold try_eff, mbind, eff_bind. destruct (resolve (host s) (port s) h) as [h1 x] eqn:E.
    intros [= <- <-]. eapply performs_wire; [apply performs_resolve|apply resolve_calls_wire|exact E].
Qed.

Lemma run_chain_wire cfg hops h h' r : run_chain debug cfg hops h = (h', r) ->
  exists l, h' = h ++ l /\ Forall wire_call l.
Proof.
  unfold run_chain, mbind, eff_bind. destruct (pre_resolve hops h) as [h1 [hs|e]] eqn:E1;
    apply pre_resolve_wire in E1 as (l1 & -> & H1); [|intros [= <- <-]; eauto].
  destruct (connect_chain debug hs _ _ _ _) as [h2 [[w ip]|e]] eqn:E2;
    (eapply performs_wire in E2 as (l2 & -> & H2); [|apply performs_chain|apply chain_calls_wire]);
    [|intros [= <- <-]; exists (l1 ++ l2); rewrite app_assoc; split; [done|by apply Forall_app]].
  intros E3. exists (l1 ++ l2). rewrite app_assoc. split; [|by apply Forall_app].
  destruct (cc_mode cfg); by injection E3 as <- <-.
Qed.

(** Whether a session goes through a chain. *)
Definition chained (cfg : ClientConfig) : bool :=
  match chain cfg, resolve_hops (chain cfg) (servers cfg) with
  | _ :: _, _ :: _ :: _ => negb (bool_decide (cc_mode cfg = Vpn))
  | _, _ => false
  end.

Definition launches_packets (pl : Plan) : bool := match pl_launch pl with LPacket _ _ _ _ _ => true | _ => false end.
Definition flips_proxy (pl : Plan) : bool := match pl_launch pl with LHttp b _ _ _ => b | _ => false end.
Definition plan_member (pl : Plan) : bool :=
  match pl_launch pl with LPacket _ _ _ m _ => m | LHttp _ _ _ m => m end.

Definition plan_ok (cfg : ClientConfig) (via_chain : bool) (pl : Plan) : Prop :=
  launches_packets pl = bool_decide (cc_mode cfg = GlobalProxy) || bool_decide (cc_mode cfg = Vpn) /\
  flips_proxy pl = bool_decide (cc_mode cfg = SystemProxy) /\
  plan_member pl = negb via_chain && is_member cfg /\
  (is_Some (pl_lan pl) <-> via_chain = true /\ cc_join_vpn cfg = true) /\
  (pl_shown pl = None <-> is_Some (pl_lan pl)) /\
  (forall c, pl_lan pl = Some c -> cc_mode c = Vpn /\ chain c = [] /\ cc_join_vpn c = false /\
     cc_tun_name c = cc_tun_name cfg +:+ "v").

Lemma run_direct_plan cfg h h' pl : run_direct debug cfg h = (h', Ok pl) -> plan_ok cfg false pl.
Proof.
  unfold run_direct. intros E. repeat (apply eff_bind_ok in E as (? & ? & _ & E)).
  injection E as _ <-. unfold plan_ok, launches_packets, flips_proxy, plan_member. cbn.
  destruct (cc_mode cfg); cbn; (split_and!; [done..| | |done]); split; try done; try (by intros [? ?]); naive_solver.
Qed.

Lemma run_chain_plan cfg hops h h' pl : hops <> [] ->
  run_chain debug cfg hops h = (h', Ok pl) -> cc_mode cfg <> Vpn -> plan_ok cfg true pl.
Proof.
  unfold run_chain. intros Hne E Hv. apply eff_bind_ok in E as (h1 & hs & E1 & E).
  apply eff_bind_ok in E as (h2 & [w ip] & _ & E).
  assert (exists s, List.hd_error hs = Some s) as [s Hs].
  { destruct hops as [|s rest]; [done|]. cbn in E1. unfold try_eff, mbind, eff_bind in E1.
    destruct (resolve (host s) (port s) h) as [h3 [x|x]]; injection E1 as _ <-; cbn; eauto. }
  rewrite Hs in E. cbn in E. destruct (cc_join_vpn cfg) eqn:Hj.
  - destruct (cc_mode cfg) eqn:Hm; try done; injection E as _ <-;
      unfold plan_ok, launches_packets, flips_proxy, plan_member; cbn; rewrite Hm, Hj;
      (split_and!; [done..|by eauto|by eauto|by intros ? [= <-]]).
  - destruct (cc_mode cfg) eqn:Hm; try done; injection E as _ <-;
      unfold plan_ok, launches_packets, flips_proxy, plan_member; cbn; rewrite Hm, Hj;
      (split_and!; [done..| | |done]); split; try done; try (by intros [? ?]); naive_solver.
Qed.
End Setup.

(** Setting up a session sends greetings only, in wire modes only (the system proxy
    is never mentioned), and decides what runs: a packet path for the global proxy and
    the VPN, a local proxy otherwise, flipping the system proxy only in that mode; the
    session itself joins the peer LAN exactly when it is not chained and is a member;
    a separate LAN session, direct, unchained and on its own TUN name, is spawned
    exactly for a chained session that wants to join, and owns the address shown. *)
Theorem session_setup `{World} `{Base64} debug (cfg : ClientConfig) h h' r :
  run_session debug cfg h = (h', r) ->
  (exists l, h' = h ++ l /\ Forall wire_call l) /\
  (forall pl, r = Ok pl -> plan_ok cfg (chained cfg) pl).
Proof.
  unfold run_session, chained. intros E.
  assert (forall c, run_direct debug c h = (h', r) -> exists l, h' = h ++ l /\ Forall wire_call l) as Hdirect.
  { intros c Ec. eapply performs_wire; [apply performs_direct|apply direct_calls_wire|exact Ec]. }
  destruct (chain cfg) as [|n ns]; [split; [eauto|]; intros pl ->; by apply run_direct_plan in E|].
  destruct (resolve_hops (n :: ns) (servers cfg)) as [|h0 [|h1 rest]];
    try (split; [eauto|]; intros pl ->; by apply run_direct_plan in E).
  destruct (decide (cc_mode cfg = Vpn)) as [Hm|Hm].
  - rewrite Hm in E. split; [eauto|]. intros pl ->. rewrite bool_decide_true by done.
    apply run_direct_plan in E as (E1 & E2 & E3 & E4 & E5 & E6).
    unfold plan_ok, is_member in *. cbn in *. by split_and!.
  - assert (run_chain debug cfg (h0 :: h1 :: rest) h = (h', r)) as E' by (by destruct (cc_mode cfg)).
    rewrite bool_decide_false by done.
    split; [by eapply run_chain_wire|]. intros pl ->. by eapply run_chain_plan in E'.
Qed.

(** Reconnecting needs no DNS.  Once a server was resolved to an IPv4 address, the
    endpoint of a reconnect names that address and keeps the original server name; a
    chain whose first hop was pinned to an IPv4 address dials it by that address, with
    the original server name, and neither kind of redial ever calls the resolver. *)
Theorem redial_without_dns `{World} `{Base64} debug (s : ServerEntry) (a : Ipv4Addr) rest sec name req h h' r :
  (server_name s <> None \/ parse_ip (host s) = None) ->
  parse_ip (Channel.ep_host (redial_endpoint s (V4 a))) = Some (V4 a) /\
  Channel.ep_server_name (redial_endpoint s (V4 a)) = sni s /\
  parse_ip (host (pin_hop s (V4 a))) = Some (V4 a) /\ sni (pin_hop s (V4 a)) = sni s /\
  (forall re, re = RServer (redial_endpoint s (V4 a)) sec (token s) GlobalProxy name false \/
     re = RChain (pin_hop s (V4 a) :: rest) name ->
   redial debug re req h = (h', r) ->
   exists l, h' = h ++ l /\ Forall (fun c => match c with CLookup _ _ => False | _ => True end) l).
Proof.
  intros Hs. assert (parse_ip (show_ip (V4 a)) = Some (V4 a)) as Hp by apply parse_ip_show_v4.
  assert (sni (pin_hop s (V4 a)) = sni s) as Hsni.
  { unfold sni, pin_hop. cbn. destruct (server_name s), (parse_ip (host s)); naive_solver. }
  split_and!; try done.
  intros re Hre E. set (P := fun c => match c with CLookup _ _ => False | _ => True end).
  assert (exists cs, performs (redial debug re req) cs /\ Forall P cs) as (cs & Hm & Hc).
  { destruct Hre as [->| ->]; cbn [redial].
    - eexists. split.
      + apply performs_bind; [apply performs_ask|]. intros _.
        apply performs_bind; [apply performs_ask|]. intros _. apply performs_await.
      + by repeat constructor.
    - eexists. split.
      + apply performs_bind; [apply performs_chain|]. intros p. apply performs_ret.
      + rewrite app_nil_r. cbn [chain_calls]. unfold resolve_calls.
        change (host (pin_hop s (V4 a))) with (show_ip (V4 a)). rewrite Hp.
        cbn [app]. constructor; [done|]. apply Forall_app. split; [by repeat constructor|].
        generalize (req) as q. intros q. clear. generalize (Some q) as o. intros o.
        induction rest as [|x rest IH]; cbn; [constructor|]. repeat (constructor; [done|]). exact IH. }
  destruct (Hm _ _ _ E) as (l & -> & [k ->] & _). apply Forall_app in Hc as [Hl _]. eauto.
Qed.

(** ** The stall monitor *)

Definition moved (a b : Z * Z) : bool * bool := (a.1 <? b.1, a.2 <? b.2).
Definition one_way (a b : Z * Z) : bool := negb (Bool.eqb (moved a b).1 (moved a b).2).

(** The stall monitor ends at the first second in which exactly one direction moved:
    never while both directions are idle or both are moving, and always when a second
    of one-way traffic comes. *)
Theorem monitor_spec (last : Z * Z) (samples : list (Z * Z)) :
  match monitor last 0 0 samples with
  | Some i => exists a b, (last :: samples) !! i = Some a /\ samples !! i = Some b /\ one_way a b = true /\
      forall j a b, (j < i)%nat -> (last :: samples) !! j = Some a -> samples !! j = Some b -> one_way a b = false
  | None => forall j a b, (last :: samples) !! j = Some a -> samples !! j = Some b -> one_way a b = false
  end.
Proof.
  assert (forall samples last k, match monitor last 0 k samples with
    | Some i => exists n a b, i = (k + n)%nat /\ (last :: samples) !! n = Some a /\ samples !! n = Some b /\
        one_way a b = true /\
        forall j a b, (j < n)%nat -> (last :: samples) !! j = Some a -> samples !! j = Some b -> one_way a b = false
    | None => forall j a b, (last :: samples) !! j = Some a -> samples !! j = Some b -> one_way a b = false
    end) as Hg.
  { clear. intros samples. induction samples as [|[u d] r IH]; intros last k; cbn [monitor].
    - intros [|j]; done.
    - change (negb (Bool.eqb (last.1 <? u) (last.2 <? d))) with (one_way last (u, d)).
      destruct (one_way last (u, d)) eqn:Ho.
      + exists 0%nat, last, (u, d). split_and!; [lia|done..|]. intros; lia.
      + specialize (IH (u, d) (S k)). destruct (monitor (u, d) 0 (S k) r) as [i|].
        * destruct IH as (n & a & b & -> & Ha & Hb & Hab & Hlt). exists (S n), a, b.
          split_and!; [lia|done..|]. intros [|j] x y Hj Hx Hy.
          -- by injection Hx as <-; injection Hy as <-.
          -- eapply (Hlt j); [lia|done..].
        * intros [|j] x y Hx Hy; [by injection Hx as <-; injection Hy as <-|]. by eapply IH. }
  specialize (Hg samples last 0%nat). destruct (monitor last 0 0 samples) as [i|]; [|done].
  destruct Hg as (n & a & b & -> & ?). exists a, b. done.
Qed.

(** ** The packet path *)

Definition flight (p : Path) : list bytes := match pa_up p with Sending (FPacket b) => [b] | _ => [] end.
Definition held (p : Path) : list bytes := match pa_hold p with Some b => [b] | None => [] end.
Definition sent_of (d : list (bool * bytes)) : list bytes :=
  omap (fun x => if x.1 : bool then Some x.2 else None) d.
Definition unsent (d : list (bool * bytes)) : nat :=
  length (List.filter (fun x => negb x.1) d).
#[local] Arguments unsent : simpl never.
#[local] Arguments sent_of : simpl never.
#[local] Arguments packets : simpl never.

Lemma sent_of_app a b : sent_of (a ++ b) = sent_of a ++ sent_of b.
Proof. apply omap_app. Qed.
Lemma unsent_app a b : unsent (a ++ b) = (unsent a + unsent b)%nat.
Proof. unfold unsent. by rewrite List.filter_app, length_app. Qed.

(** The queue of packets of a path, from the first taken to the last read. *)
Definition fifo (p : Path) (tail : list bytes) : Prop :=
  pa_read p = map snd (pa_done p) ++ flight p ++ items (pa_buf p) ++ held p ++ tail.

(** What a step of the bridge may assume and must show: the part of the invariant that
    does not depend on the state of the connection loop. *)
Record core_inv (p : Path) (slack : nat) : Prop := {
  ci_fifo : exists tail, fifo p tail /\ (pa_reader p = true -> tail = []) /\ (pa_hold p <> None -> pa_reader p = true);
  ci_buf : mpsc_ok OUT_BUFFER_PACKETS (pa_buf p);
  ci_wire : packets (pa_wire p) = sent_of (pa_done p);
  ci_lost : (unsent (pa_done p) <= pa_losses p + slack)%nat;
}.

Definition link_inv (p : Path) : Prop :=
  match pa_link p with
  | Bridging => rx_open (pa_buf p) = true
  | Redialing n => 1 <= n <= RECONNECT_ATTEMPTS /\ pa_up p = Idle /\ rx_open (pa_buf p) = true
  | Over => pa_reader p = false /\ pa_cancel p = true /\ pa_up p = Idle
  end.
Definition over_slack (p : Path) : nat := match pa_link p with Over => 1 | _ => 0 end.
Definition path_ok (p : Path) : Prop := core_inv p (over_slack p) /\ link_inv p.

Lemma core_slack p n m : (n <= m)%nat -> core_inv p n -> core_inv p m.
Proof. intros Hn [H1 H2 H3 H4]. split; try done. lia. Qed.

(** A finished or abandoned send moves its packet from the flight to the history. *)
Lemma settle_cases b p :
  (exists x, pa_up p = Sending (FPacket x) /\ settle b p =
     mkPath (pa_status p) (pa_member p) (pa_re p) (pa_ip p) (pa_buf p) (pa_hold p) (pa_reader p) Idle
      (pa_down p) (pa_link p) (pa_cancel p) (pa_wire p) (pa_writes p) (pa_read p) (pa_done p ++ [(b, x)]) (pa_losses p)) \/
  (flight p = [] /\ settle b p = set_up Idle p).
Proof. unfold settle, flight. destruct (pa_up p) as [|[]] eqn:Hu; eauto. Qed.

(** An abandoned send, and one of a frame that is no packet, log nothing. *)
Lemma settle_core p n : core_inv p n -> core_inv (settle false p) (n + 1) /\ pa_up (settle false p) = Idle.
Proof.
  intros [(t & Hf & Ht) Hb Hw Hl]. destruct (settle_cases false p) as [(x & Hu & ->)|[Hu ->]]; (split; [|done]);
    unfold fifo, flight in *; rewrite Hu in *; split; cbn; try done; try lia.
  - exists t. split; [|done]. unfold fifo, flight. cbn. by rewrite map_app, <- app_assoc.
  - by rewrite sent_of_app, app_nil_r.
  - rewrite unsent_app. cbv [unsent List.filter negb length fst] in *. lia.
  - by exists t.
Qed.
Lemma settle_sent p n f : core_inv p n -> pa_up p = Sending f -> core_inv (log_wire f (settle true p)) n.
Proof.
  intros [(t & Hf & Ht) Hb Hw Hl] Hs. unfold settle, fifo, flight in *. rewrite Hs in *.
  destruct f; split; cbn; try done; try (by rewrite packets_app, app_nil_r);
    try (by exists t; unfold fifo, flight; cbn in *).
  - exists t. split; [|done]. unfold fifo, flight. cbn. by rewrite map_app, <- app_assoc.
  - by rewrite packets_app, sent_of_app, Hw.
  - rewrite unsent_app. cbv [unsent List.filter negb length fst] in *. lia.
Qed.
Lemma settle_same p b : pa_link (settle b p) = pa_link p /\ pa_buf (settle b p) = pa_buf p /\
  pa_cancel (settle b p) = pa_cancel p /\ pa_losses (settle b p) = pa_losses p.
Proof. unfold settle. by destruct (pa_up p) as [|[]]. Qed.

(** The write to the TUN concerns no packet on its way up. *)
Lemma wrote_core p b n : core_inv p n -> core_inv (wrote_tun b p) n.
Proof. unfold wrote_tun. destruct (pa_down p); [done|by intros []]. Qed.
Lemma wrote_same p b : pa_up (wrote_tun b p) = pa_up p /\ pa_link (wrote_tun b p) = pa_link p /\
  pa_buf (wrote_tun b p) = pa_buf p /\ pa_cancel (wrote_tun b p) = pa_cancel p /\
  pa_reader (wrote_tun b p) = pa_reader p.
Proof. unfold wrote_tun. by destruct (pa_down p). Qed.
Lemma abandon_core p n : core_inv p n -> core_inv (abandon p) (n + 1) /\ pa_up (abandon p) = Idle.
Proof.
  intros [H Hu]%settle_core. split; [by apply wrote_core|]. unfold abandon.
  by destruct (wrote_same (settle false p) false) as [-> _].
Qed.
Lemma abandon_same p : pa_link (abandon p) = pa_link p /\ pa_buf (abandon p) = pa_buf p /\
  pa_cancel (abandon p) = pa_cancel p.
Proof.
  unfold abandon. destruct (wrote_same (settle false p) false) as (_ & -> & -> & -> & _).
  by destruct (settle_same p false) as (-> & -> & -> & _).
Qed.

Lemma status_core f p n : core_inv p n -> core_inv (set_status f p) n.
Proof. by intros []. Qed.
Lemma finish_ok p n : core_inv p n -> pa_up p = Idle -> (n <= 1)%nat -> path_ok (finish p).
Proof.
  intros [(t & Hf & Ht) Hb Hw Hl] Hu Hn. split; [|done]. split; cbn; try done; [|by apply close_rx_ok|lia].
  exists (items (pa_buf p) ++ held p ++ t). split; [|done]. unfold fifo, flight in *. cbn. rewrite Hu in *. done.
Qed.
Lemma lost_ok p : core_inv p 0 -> rx_open (pa_buf p) = true -> path_ok (lost p).
Proof.
  intros H Ho. apply abandon_core in H as [H Hu]. pose proof (abandon_same p) as (Hl & Hb & Hc).
  assert (core_inv (count_loss (abandon p)) 0) as H'.
  { destruct H as [H1 H2 H3 H4]. split; try done. cbn in *. lia. }
  unfold lost. destruct (pa_cancel _); [by eapply finish_ok; [exact H'| |lia]|].
  split; [by destruct H'|]. cbn. rewrite Hb. by split_and!.
Qed.
Lemma ended_ok p : core_inv p 0 -> path_ok (ended p).
Proof. intros [H Hu]%abandon_core. by eapply finish_ok; [exact H| |lia]. Qed.

(** A step that changes neither the loop's state nor the sender's keeps the invariant
    when it keeps the counting part. *)
Lemma path_ok_keep p p' : core_inv p (over_slack p) -> link_inv p ->
  pa_link p' = pa_link p -> pa_up p' = pa_up p -> rx_open (pa_buf p') = rx_open (pa_buf p) ->
  (pa_reader p = false -> pa_reader p' = false) -> (pa_cancel p = true -> pa_cancel p' = true) ->
  core_inv p' (over_slack p) -> path_ok p'.
Proof.
  intros H Hl Hk Hu Ho Hr Hc H'. unfold path_ok, over_slack, link_inv in *. rewrite Hk, ?Hu, ?Ho.
  split; [done|]. destruct (pa_link p); naive_solver.
Qed.

Lemma path_ok_reader p h alive read :
  path_ok p ->
  (pa_reader p = false -> alive = false) -> (h <> None -> alive = true) ->
  (exists tail, read = map snd (pa_done p) ++ flight p ++ items (pa_buf p) ++
     match h with Some b => [b] | None => [] end ++ tail /\ (alive = true -> tail = [])) ->
  path_ok (set_reader h alive read p).
Proof.
  intros [H Hl] Ha Hh (t & Hr & Ht). eapply path_ok_keep; try done. destruct H as [_ Hb Hw Hk].
  split; try done. exists t. split_and!; [exact Hr|exact Ht|exact Hh].
Qed.

Lemma tun_step_ok p r p' : path_ok p -> pstep p (PTun r) = Some p' -> path_ok p'.
Proof.
  intros H E. pose proof H as [[(t & Hf & Ht & Hh) _ _ _] _]. cbn in E. unfold fifo, held in Hf.
  destruct (pa_reader p) eqn:Ha, (pa_hold p), r as [[|x b]|]; try done; injection E as <-; try done;
    (apply path_ok_reader; [done|congruence|done|]).
  - exists []. split; [|done]. rewrite (Ht eq_refl) in Hf. cbn in Hf. rewrite Hf, !app_nil_r. by rewrite !app_assoc.
  - exists t. by split.
Qed.
Lemma push_step_ok p p' : path_ok p -> pstep p PPush = Some p' -> path_ok p'.
Proof.
  intros H E. pose proof H as [[(t & Hf & Ht & Hh) Hb Hw Hk] Hl]. cbn in E. unfold fifo, held in Hf.
  destruct (pa_hold p) as [b|] eqn:Hhold; [|done]. destruct (send_ready _); [|done].
  assert (pa_reader p = true) as Hr by by apply Hh. rewrite (Ht Hr) in Hf. rewrite Hr in E.
  unfold try_send in E. destruct (rx_open (pa_buf p) && _) eqn:Hs; injection E as <-.
  - eapply path_ok_keep; [apply H|apply H|done|done|cbn; by apply andb_true_iff in Hs as [-> _]|cbn; congruence|done|].
    split; cbn; try done.
    + exists []. split; [|done]. unfold fifo, held, flight in *. cbn. rewrite Hf, !app_nil_r. by rewrite <- ?app_assoc.
    + apply andb_true_iff in Hs as [_ Hs]. apply Z.ltb_lt in Hs. destruct Hb as [Hc Hq].
      split; [done|]. unfold queue_len in *. cbn. rewrite length_app. cbn. lia.
  - eapply path_ok_keep; [apply H|apply H|done..|]. split; cbn; try done.
    exists [b]. split; [|done]. unfold fifo, held, flight in *. cbn. by rewrite Hf, app_nil_r.
Qed.
Lemma take_step_ok p p' : path_ok p -> pstep p PTake = Some p' -> path_ok p'.
Proof.
  intros H E. pose proof H as [[(t & Hf & Ht & Hh) Hb Hw Hk] Hl]. cbn in E.
  destruct (pa_link p) eqn:HL, (pa_up p) eqn:Hu, (pop (pa_buf p)) as [[b m]|] eqn:Hp; try done. injection E as <-.
  unfold path_ok, over_slack, link_inv in *. cbn. rewrite HL in *. split.
  - split; cbn; try done; [|by eapply pop_ok].
    exists t. split; [|done]. unfold fifo, flight, held in *. cbn. rewrite Hu in Hf. unfold pop in Hp.
    destruct (items (pa_buf p)); [done|]. by injection Hp as -> <-.
  - unfold pop in Hp. destruct (items (pa_buf p)); [done|]. by injection Hp as _ <-.
Qed.
Lemma send_start_ok p f : path_ok p -> pa_link p = Bridging -> pa_up p = Idle ->
  packets [f] = [] -> path_ok (set_up (Sending f) p).
Proof.
  intros [H Hl] HL Hu Hf. unfold path_ok, over_slack, link_inv in *. cbn. rewrite HL in *. split; [|done].
  destruct H as [(t & Hq & Ht) ? ? ?]. split; try done. exists t. split; [|done].
  unfold fifo, flight in *. cbn. rewrite Hu in Hq. by destruct f.
Qed.
Lemma status_step_ok f p : path_ok p -> path_ok (set_status f p).
Proof. intros [H Hl]. split; [by apply status_core|done]. Qed.

Lemma bridging_core p : path_ok p -> pa_link p = Bridging -> core_inv p 0 /\ rx_open (pa_buf p) = true.
Proof. intros [H Hl] HL. unfold over_slack, link_inv in *. by rewrite HL in *. Qed.

Lemma redialed_ok r p p' : path_ok p -> redialed r p = Some p' -> path_ok p'.
Proof.
  intros H E. unfold redialed in E.
  destruct (pa_link p) as [|n|] eqn:HL; try done. destruct H as [H Hl].
  unfold over_slack, link_inv in *. rewrite HL in *. destruct Hl as (Hn & Hu & Ho).
  destruct r as [w|e]; injection E as <-.
  - destruct (pa_cancel p); [by apply (finish_ok _ 0); [apply status_core| |lia]|].
    split; [|done]. by apply (status_core (show_assigned (assigned_ip w))) in H as [].
  - destruct (Z.ltb_spec n RECONNECT_ATTEMPTS); [|by apply (finish_ok _ 0); [| |lia]].
    split; [by destruct H|]. cbn. split_and!; try done; lia.
Qed.
Lemma pstep_ok p e p' : path_ok p -> pstep p e = Some p' -> path_ok p'.
Proof.
  intros H E. destruct e as [r| | | | | | |ok|r|ok| | | |r];
    [by eapply tun_step_ok|by eapply push_step_ok| | | |by eapply take_step_ok| | | | | | | | ]; cbn in E.
  - destruct (pa_cancel p); [|done]. injection E as <-. pose proof H as [[(t & Hf & Ht & Hh) _ _ _] _].
    apply path_ok_reader; try done. exists (held p ++ t). by split.
  - destruct (pa_link p) eqn:HL, (pa_up p) eqn:Hu; try done. injection E as <-. by apply send_start_ok.
  - destruct (pa_link p) eqn:HL, (pa_up p) eqn:Hu; try done. destruct (pa_member p); [|done].
    injection E as <-. by apply send_start_ok.
  - destruct (pa_link p) eqn:HL, (pa_up p), (pop (pa_buf p)) as [[]|]; try done.
    destruct (pa_reader p); [done|]. injection E as <-. apply ended_ok. by apply bridging_core.
  - destruct (pa_link p) eqn:HL, (pa_up p) as [|f] eqn:Hu; try done.
    apply bridging_core in H as [H Ho]; [|done]. destruct ok; injection E as <-; [|by apply lost_ok].
    pose proof (settle_same p true) as (Hl & Hb & Hc & _).
    unfold path_ok, over_slack, link_inv. cbn. rewrite Hl, HL, Hb. split; [|done].
    apply (settle_sent p 0 f) in H; [|done]. by destruct H.
  - destruct (pa_link p) eqn:HL, (pa_down p); try done. apply bridging_core in H as Hc; [|done]. destruct Hc as [Hc Ho].
    destruct r as [[]|]; injection E as <-; try done; [| |by apply lost_ok].
    + eapply path_ok_keep; try apply H; try done. by destruct H as [[] _].
    + by apply status_step_ok.
  - destruct (pa_link p) eqn:HL, (pa_down p); try done. injection E as <-. apply status_step_ok.
    pose proof (wrote_same p ok) as (Hu & Hl & Hb & Hc & Hr).
    eapply path_ok_keep; [apply H|apply H|done|done|by rewrite Hb|by rewrite Hr|by rewrite Hc|]. apply wrote_core, H.
  - destruct (pa_link p) eqn:HL; try done. apply bridging_core in H as [Hc Ho]; [|done].
    injection E as <-. by apply lost_ok.
  - injection E as <-. eapply path_ok_keep; try apply H; try done. by destruct H as [[] _].
  - destruct (pa_cancel p) eqn:Hc; [|done]. unfold path_ok, over_slack in H.
    destruct (pa_link p) eqn:HL; try done; injection E as <-; apply ended_ok; apply H.
  - by eapply redialed_ok.
Qed.
Lemma prun_ok es p p' : path_ok p -> prun es p = Some p' -> path_ok p'.
Proof. apply (runs_inv pstep path_ok). intros ? ? ?. apply pstep_ok. Qed.
Lemma path_start_ok w m re s : path_ok (path_start w m re s).
Proof. split; [split; cbn; try done; exists []; by split_and!|done]. Qed.

(** C13. The packet path loses nothing silently and reorders nothing.  Over any run, with
    any number of reconnects: the packets read off the TUN are, in order, those already
    handled, the one being sent, those in the buffer and the one waiting for room (what
    remains was read before the reader stopped); the packets the transports accepted
    are exactly the handled ones marked sent, in order, once each; at most one packet is
    abandoned per lost connection, and one more when the session ends; the buffer never
    holds more than 8192 packets, and it is only dropped when the session is over. *)
Theorem packets_in_order (es : list pevent) w member re s p :
  prun es (path_start w member re s) = Some p ->
  (exists tail, pa_read p = map snd (pa_done p) ++ flight p ++ items (pa_buf p) ++ held p ++ tail /\
     (pa_reader p = true -> tail = [])) /\
  packets (pa_wire p) = sent_of (pa_done p) /\
  (unsent (pa_done p) <= pa_losses p + match pa_link p with Over => 1 | _ => 0 end)%nat /\
  queue_len (pa_buf p) <= OUT_BUFFER_PACKETS /\
  (pa_link p <> Over -> rx_open (pa_buf p) = true) /\
  (pa_link p = Over -> pa_cancel p = true /\ pa_reader p = false).
Proof.
  intros E. apply prun_ok in E; [|apply path_start_ok].
  destruct E as [[(t & Hf & Ht & _) [_ Hb] Hw Hk] Hl]. unfold link_inv, over_slack in *.
  split_and!; try done.
  - by exists t.
  - intros HL. destruct (pa_link p); naive_solver.
  - intros HL. rewrite HL in Hl. naive_solver.
Qed.

Definition attempts (rs : list (Result Welcome)) : list pevent := map PRedialed rs.

(** C17. A lost connection is redialed at most three times.  While nobody cancels, three
    failures in a row end the session, cancelled, the buffer gone; a success at the
    first, second or third attempt resumes the bridge with every buffered packet, the
    held one and the history untouched, and shows the new address; a cancelled session
    is never redialed. *)
Theorem redial_gives_up (p : Path) (e : pevent) (errs : list Error) (w : Welcome) :
  path_ok p -> pa_link p = Bridging -> e = PStall \/
    (pa_down p = Receiving /\ exists x, e = PRecv (Err x)) \/ (e = PSent false /\ pa_up p <> Idle) ->
  (pa_cancel p = true -> exists q, pstep p e = Some q /\ pa_link q = Over) /\
  (pa_cancel p = false -> length errs = 3%nat ->
   exists q, prun (e :: attempts (map Err errs)) p = Some q /\ pa_link q = Over /\ pa_cancel q = true /\
     rx_open (pa_buf q) = false) /\
  (pa_cancel p = false -> (length errs < 3)%nat ->
   exists q, prun (e :: attempts (map Err errs ++ [Ok w])) p = Some q /\ pa_link q = Bridging /\
     pa_buf q = pa_buf p /\ pa_hold q = pa_hold p /\ pa_read q = pa_read p /\ pa_wire q = pa_wire p /\
     pa_up q = Idle /\ pa_done q = pa_done p ++ map (pair false) (flight p) /\
     ls_ip (pa_status q) = Some (assigned_ip w)).
Proof.
  intros Hok HL He.
  assert (pstep p e = Some (lost p)) as Hstep.
  { destruct He as [->|[[Hd [x ->]]|[-> Hu]]]; cbn; rewrite HL; try done; [by rewrite Hd|by destruct (pa_up p)]. }
  pose proof (abandon_same p) as (Hl & Hb & Hc).
  assert (pa_done (abandon p) = pa_done p ++ map (pair false) (flight p) /\
    pa_up (abandon p) = Idle /\ pa_hold (abandon p) = pa_hold p /\ pa_read (abandon p) = pa_read p /\
    pa_wire (abandon p) = pa_wire p) as (Hd & Hu & Hh & Hr & Hw).
  { unfold abandon, wrote_tun, settle, flight. destruct (pa_up p) as [|[]] eqn:U, (pa_down p) eqn:D; cbn; by rewrite ?D; cbn; rewrite ?app_nil_r. }
  unfold attempts. cbn [runs]. rewrite Hstep. unfold lost. clear Hstep He.
  generalize dependent (abandon p). intros q Hl Hb Hc Hd Hu Hh Hr Hw.
  change (pa_cancel (count_loss q)) with (pa_cancel q). rewrite Hc.
  split_and!; intros Hcan; rewrite Hcan.
  - by eexists.
  - destruct errs as [|e1 [|e2 [|e3 [|]]]]; try done. intros _. by eexists.
  - intros Hlen. destruct errs as [|e1 [|e2 [|e3 r]]]; cbn in Hlen; try lia;
      cbn; change (1 <? RECONNECT_ATTEMPTS) with true; change (1 + 1 <? RECONNECT_ATTEMPTS) with true;
      cbn; rewrite Hc, Hcan; eexists; (split; [reflexivity|]); cbn; by split_and!.
Qed.

(** ** Witnesses *)

Module EngineDemo.
#[local] Existing Instance NibbleCodec.codec.
Definition cfg (mode : SessionMode) (via : list string) : ClientConfig :=
  mkClientConfig "p" None mode None None "entro0" "127.0.0.1:7890" true "" 0 Tcp "" "" false None
    [ChainDemo.hop "a"; ChainDemo.hop "b"] [] Blacklist via false.
Definition setup (mode : SessionMode) (via : list string) :=
  run_session (H := ChainDemo.world) (fun _ => "") (cfg mode via) [].
Definition a4 : Ipv4Addr := v4_of_octets [Byte.xc6; Byte.x33; Byte.x64; Byte.x09].
Definition redial_run :=
  redial (H := ChainDemo.world) (fun _ => "")
    (RChain (pin_hop (ChainDemo.hop "a") (V4 a4) :: [ChainDemo.hop "b"]) None) a4 [].
Definition start : Path := path_start ChainDemo.welcome true (RChain [] None) no_status.
(** A packet sent, one abandoned when the link drops, one buffered over the reconnect. *)
Definition history : list pevent :=
  [PTun (Ok [Byte.x01]); PPush; PTake; PSent true; PTun (Ok [Byte.x02]); PPush; PTake; PSent false;
   PTun (Ok [Byte.x03]); PPush; PRedialed (Err (Protocol "refused")); PRedialed (Ok ChainDemo.welcome); PTake; PSent true].
Definition final : option Path := prun history start.
End EngineDemo.

Lemma session_setup_witness :
  (exists l, (EngineDemo.setup GlobalProxy ["a"; "b"]).1 = l /\ Forall wire_call l) /\
  exists pl, (EngineDemo.setup GlobalProxy ["a"; "b"]).2 = Ok pl /\ plan_ok (EngineDemo.cfg GlobalProxy ["a"; "b"]) true pl.
Proof.
  destruct (session_setup (H := ChainDemo.world) (H0 := NibbleCodec.codec) (fun _ => "")
    (EngineDemo.cfg GlobalProxy ["a"; "b"]) [] (EngineDemo.setup GlobalProxy ["a"; "b"]).1
    (EngineDemo.setup GlobalProxy ["a"; "b"]).2) as [Hw Hp]; [exact (surjective_pairing (EngineDemo.setup GlobalProxy ["a"; "b"]))|].
  split; [exact Hw|].
  destruct ((EngineDemo.setup GlobalProxy ["a"; "b"]).2) as [pl|e] eqn:E.
  - exists pl. split; [reflexivity|]. change true with (chained (EngineDemo.cfg GlobalProxy ["a"; "b"])).
    exact (Hp pl eq_refl).
  - exfalso. assert (match (EngineDemo.setup GlobalProxy ["a"; "b"]).2 with Ok _ => True | Err _ => False end) as Hok
      by (vm_compute; exact I).
    rewrite E in Hok. exact Hok.
Defined.

Lemma redial_without_dns_witness :
  exists l, EngineDemo.redial_run.1 = l /\ Forall (fun c => match c with CLookup _ _ => False | _ => True end) l.
Proof.
  destruct (redial_without_dns (H := ChainDemo.world) (H0 := NibbleCodec.codec) (fun _ => "") (ChainDemo.hop "a")
    EngineDemo.a4 [ChainDemo.hop "b"] (Channel.mkSecurity [] false None) None EngineDemo.a4 [] EngineDemo.redial_run.1
    EngineDemo.redial_run.2) as (_ & _ & _ & _ & Hre); [right; vm_compute; reflexivity|].
  destruct (Hre _ (or_intror eq_refl)) as (l & El & Hl).
  - exact (surjective_pairing EngineDemo.redial_run).
  - exists l. split; [exact El|exact Hl].
Defined.

Lemma packets_in_order_witness : exists p, EngineDemo.final = Some p /\
  pa_read p = [[Byte.x01]; [Byte.x02]; [Byte.x03]] /\ packets (pa_wire p) = [[Byte.x01]; [Byte.x03]] /\
  packets (pa_wire p) = sent_of (pa_done p) /\ (unsent (pa_done p) <= pa_losses p + 0)%nat.
Proof.
  eexists. split; [vm_compute; reflexivity|]. split; [reflexivity|]. split; [reflexivity|].
  destruct (packets_in_order EngineDemo.history ChainDemo.welcome true (RChain [] None) no_status _
    ltac:(vm_compute; reflexivity)) as (_ & Hw & Hl & _).
  split; [exact Hw|exact Hl].
Defined.

Lemma redial_gives_up_witness :
  path_ok EngineDemo.start /\ exists q, prun (PStall :: attempts (map Err [Protocol "a"; Protocol "b"; Protocol "c"])) EngineDemo.start = Some q /\
  pa_link q = Over /\ pa_cancel q = true /\ rx_open (pa_buf q) = false.
Proof.
  split; [apply path_start_ok|].
  destruct (redial_gives_up EngineDemo.start PStall [Protocol "a"; Protocol "b"; Protocol "c"] ChainDemo.welcome)
    as (_ & Hf & _); [apply path_start_ok|reflexivity|by left|].
  exact (Hf eq_refl eq_refl).
Defined.
