(* ===== verification/Carrier.v ===== *)
(** The carrier of a chain hop (core/client-core/src/chain.rs, [open_carrier]): the byte
    stream the next hop's transport runs over, and the three tasks that move it through
    the previous hop's tunnel, as one transition system with a step per completed await. *)
From S2P Require Import Prelude Net Text Core Mpsc.

Definition CARRIER_ID : Z := 1.
(** The capacity of each direction of the duplex stream, and of one read of it. *)
Definition DUPLEX : Z := 65536.
Definition CARRIER_READ : Z := 32768.

(** Where each task stands: at its [select!], or at the await of the branch it took. *)
(** A number of bytes fits the rest of a direction of the duplex stream. *)
Definition fits (n : nat) (buf : bytes) : bool := Z.of_nat (length buf) + Z.of_nat n <=? DUPLEX.

Inductive CWriter := CWIdle | CWSending (f : Frame) | CWClosing | CWDone.
Inductive CUp := CUReading | CUSending (d : bytes) | CUClosing | CUDone.
Inductive CDown := CDRecving | CDWriting (d : bytes) | CDPonging | CDDone.
#[export] Instance cwriter_eq_dec : EqDecision CWriter.
Proof. solve_decision. Defined.
#[export] Instance cup_eq_dec : EqDecision CUp.
Proof. solve_decision. Defined.
#[export] Instance cdown_eq_dec : EqDecision CDown.
Proof. solve_decision. Defined.

Record Carrier := mkCarrier {
  c_out : mpsc Frame;
  c_writer : CWriter;
  c_up : CUp;
  c_down : CDown;
  c_tx : bytes;
  c_rx : bytes;
  c_near : bool;
  c_cancel : bool;
  c_wire : list Frame;
  c_recvd : list Frame;
  c_wrote : bytes;
  c_given : bytes;
  c_shut : bool;
}.
(** [c_tx] and [c_rx] are the bytes inside the duplex stream, towards and from the
    tunnel; [c_near] says whether the next hop's transport still holds its end, [c_shut]
    whether it has shut down the writing half of it.  The four fields before that are the
    history: the frames the tunnel accepted and those it delivered,
    the bytes the transport wrote and those it read. *)

Definition set_cwriter (w : CWriter) (m : mpsc Frame) (c : Carrier) : Carrier :=
  mkCarrier m w (c_up c) (c_down c) (c_tx c) (c_rx c) (c_near c) (c_cancel c)
    (c_wire c) (c_recvd c) (c_wrote c) (c_given c) (c_shut c).
Definition log_wire (f : Frame) (c : Carrier) : Carrier :=
  mkCarrier (c_out c) (c_writer c) (c_up c) (c_down c) (c_tx c) (c_rx c) (c_near c) (c_cancel c)
    (c_wire c ++ [f]) (c_recvd c) (c_wrote c) (c_given c) (c_shut c).
Definition set_cup (u : CUp) (m : mpsc Frame) (tx : bytes) (c : Carrier) : Carrier :=
  mkCarrier m (c_writer c) u (c_down c) tx (c_rx c) (c_near c) (c_cancel c)
    (c_wire c) (c_recvd c) (c_wrote c) (c_given c) (c_shut c).
Definition set_cdown (d : CDown) (m : mpsc Frame) (rx : bytes) (recvd : list Frame) (c : Carrier) : Carrier :=
  mkCarrier m (c_writer c) (c_up c) d (c_tx c) rx (c_near c) (c_cancel c)
    (c_wire c) recvd (c_wrote c) (c_given c) (c_shut c).
Definition set_near (near cancel : bool) (tx rx wrote given : bytes) (c : Carrier) : Carrier :=
  mkCarrier (c_out c) (c_writer c) (c_up c) (c_down c) tx rx near cancel
    (c_wire c) (c_recvd c) wrote given (c_shut c).
Definition set_shut (c : Carrier) : Carrier :=
  mkCarrier (c_out c) (c_writer c) (c_up c) (c_down c) (c_tx c) (c_rx c) (c_near c) (c_cancel c)
    (c_wire c) (c_recvd c) (c_wrote c) (c_given c) true.

(** The queue after [StreamOpen] was put into it; the tasks have just been spawned. *)
Definition carrier_start (target : TargetAddr) : Carrier :=
  mkCarrier (try_send (FStreamOpen CARRIER_ID target) (mpsc_new 1024)).1 CWIdle CUReading CDRecving
    [] [] true false [] [] [] [] false.

(** What the transport does with its end, the cancellation, and the awaits of the tasks. *)
Inductive cevent :=
  | CNearWrite (d : bytes)
  | CNearRead (n : nat)
  | CNearShut
  | CNearDrop
  | CCancel
  | CTake
  | CSent (ok : bool)
  | CWStop
  | CWClosed
  | CRead (n : nat)
  | CEof
  | CUStop
  | CPush
  | CRecv (r : Result Frame)
  | CDStop
  | CWrote (n : nat)
  | CPong.

(** The writer pump: the queue is dropped after the channel was closed.  A queue whose
    senders are gone yields [None] once it is empty. *)
Definition cwriter_step (e : cevent) (c : Carrier) : option Carrier :=
  match e, c_writer c with
  | CTake, CWIdle =>
    match pop (c_out c) with
    | Some (f, m) => Some (set_cwriter (CWSending f) m c)
    | None =>
      if decide (c_up c = CUDone /\ c_down c = CDDone)
      then Some (set_cwriter CWClosing (c_out c) c) else None
    end
  | CSent ok, CWSending f =>
    Some (if ok : bool then log_wire f (set_cwriter CWIdle (c_out c) c)
          else set_cwriter CWClosing (c_out c) c)
  | CWStop, CWIdle => if c_cancel c then Some (set_cwriter CWClosing (c_out c) c) else None
  | CWClosed, CWClosing => Some (set_cwriter CWDone (close_rx (c_out c)) c)
  | _, _ => None
  end.

(** A send on the queue completes once there is room or the writer pump is gone. *)
Definition cpush (f : Frame) (c : Carrier) : option (mpsc Frame * bool) :=
  if send_ready (c_out c) then Some (try_send f (c_out c)) else None.

(** The uplink task. *)
Definition cup_step (e : cevent) (c : Carrier) : option Carrier :=
  match e, c_up c with
  | CRead n, CUReading =>
    if decide ((0 < n <= length (c_tx c))%nat /\ Z.of_nat n <= CARRIER_READ)
    then Some (set_cup (CUSending (take n (c_tx c))) (c_out c) (drop n (c_tx c)) c) else None
  | CEof, CUReading =>
    if decide (c_tx c = [] /\ (c_near c = false \/ c_shut c = true))
    then Some (set_cup CUClosing (c_out c) (c_tx c) c) else None
  | CUStop, CUReading => if c_cancel c then Some (set_cup CUClosing (c_out c) (c_tx c) c) else None
  | CPush, CUSending d =>
    p ← cpush (FStreamData CARRIER_ID d) c;
    Some (set_cup (if p.2 : bool then CUReading else CUClosing) p.1 (c_tx c) c)
  | CPush, CUClosing =>
    p ← cpush (FStreamClose CARRIER_ID None) c;
    Some (set_cup CUDone p.1 (c_tx c) c)
  | _, _ => None
  end.

(** [write_all] of what is left returns at once when nothing is. *)
Definition writing (d : bytes) : CDown := match d with [] => CDRecving | _ => CDWriting d end.

(** The downlink task. *)
Definition cdown_step (e : cevent) (c : Carrier) : option Carrier :=
  match e, c_down c with
  | CRecv r, CDRecving =>
    Some match r with
    | Err _ => set_cdown CDDone (c_out c) (c_rx c) (c_recvd c) c
    | Ok f =>
      set_cdown
        match f with
        | FStreamData id d => if id =? CARRIER_ID then writing d else CDRecving
        | FStreamClose id _ => if id =? CARRIER_ID then CDDone else CDRecving
        | FPing => CDPonging
        | _ => CDRecving
        end (c_out c) (c_rx c) (c_recvd c ++ [f]) c
    end
  | CDStop, CDRecving => if c_cancel c then Some (set_cdown CDDone (c_out c) (c_rx c) (c_recvd c) c) else None
  | CWrote n, CDWriting d =>
    if c_near c then
      if decide ((0 < n <= length d)%nat /\ fits n (c_rx c) = true)
      then Some (set_cdown (writing (drop n d)) (c_out c) (c_rx c ++ take n d) (c_recvd c) c) else None
    else Some (set_cdown CDDone (c_out c) (c_rx c) (c_recvd c) c)
  | CPong, CDPonging => p ← cpush FPong c; Some (set_cdown CDRecving p.1 (c_rx c) (c_recvd c) c)
  | _, _ => None
  end.

(** Both halves of the far end are gone: so is the end itself. *)
Definition far_gone (c : Carrier) : bool := bool_decide (c_up c = CUDone /\ c_down c = CDDone).

(** The transport's end, and the cancellation. *)
Definition near_step (e : cevent) (c : Carrier) : option Carrier :=
  match e with
  | CNearWrite d =>
    if decide (c_near c = true /\ c_shut c = false /\ far_gone c = false /\ d <> [] /\
               fits (length d) (c_tx c) = true)
    then Some (set_near true (c_cancel c) (c_tx c ++ d) (c_rx c) (c_wrote c ++ d) (c_given c) c) else None
  | CNearRead n =>
    if decide (c_near c = true /\ 0 < n <= length (c_rx c))%nat
    then Some (set_near true (c_cancel c) (c_tx c) (drop n (c_rx c)) (c_wrote c)
                 (c_given c ++ take n (c_rx c)) c) else None
  | CNearShut => if c_near c then Some (set_shut c) else None
  | CNearDrop =>
    if c_near c then Some (set_near false (c_cancel c) (c_tx c) (c_rx c) (c_wrote c) (c_given c) c) else None
  | CCancel => Some (set_near (c_near c) true (c_tx c) (c_rx c) (c_wrote c) (c_given c) c)
  | _ => None
  end.

Definition cstep (c : Carrier) (e : cevent) : option Carrier :=
  match e with
  | CNearWrite _ | CNearRead _ | CNearShut | CNearDrop | CCancel => near_step e c
  | CTake | CSent _ | CWStop | CWClosed => cwriter_step e c
  | CRead _ | CEof | CUStop | CPush => cup_step e c
  | CRecv _ | CDStop | CWrote _ | CPong => cdown_step e c
  end.
Abbreviation crun := (runs cstep).

(** What a read of the transport's end finds.  [half_closes] says whether dropping the
    writing half of a split stream alone ends it for the reader of the other side. *)
Inductive NearView := NearBytes (d : bytes) | NearEof | NearPending.
Definition near_view (half_closes : bool) (c : Carrier) : NearView :=
  match c_rx c with
  | [] => if far_gone c || half_closes && bool_decide (c_down c = CDDone) then NearEof else NearPending
  | d => NearBytes d
  end.
