(* ===== verification/CarrierThms.v ===== *)
(** Theorems about the carrier of a chain hop: both directions are relayed in order and
    complete, the tasks wind down after a cancellation, and a refused hop is not noticed. *)
From S2P Require Import Prelude Net Text Core Mpsc Carrier.

(** ** What the frames of a tunnel say *)

(** The bytes the frames carry towards the next hop. *)
Fixpoint up_bytes (fs : list Frame) : bytes :=
  match fs with
  | [] => []
  | FStreamData _ d :: r => d ++ up_bytes r
  | _ :: r => up_bytes r
  end.
(** The bytes of the carrier's stream that frames bring back, up to its close. *)
Fixpoint down_bytes (fs : list Frame) : bytes :=
  match fs with
  | [] => []
  | FStreamData id d :: r => (if id =? CARRIER_ID then d else []) ++ down_bytes r
  | FStreamClose id _ :: r => if id =? CARRIER_ID then [] else down_bytes r
  | _ :: r => down_bytes r
  end.
Definition is_close (f : Frame) : bool :=
  match f with FStreamClose id _ => id =? CARRIER_ID | _ => false end.
Definition closed (fs : list Frame) : bool := existsb is_close fs.
#[local] Arguments closed : simpl never.
Definition count (p : Frame -> bool) (fs : list Frame) : nat := length (List.filter p fs).
#[local] Arguments count : simpl never.
Definition is_ping (f : Frame) : bool := match f with FPing => true | _ => false end.
Definition is_pong (f : Frame) : bool := match f with FPong => true | _ => false end.

(** What may follow the request: data until the one close, and pongs at any time. *)
Definition may_follow (open : bool) (f : Frame) : bool :=
  match f with
  | FPong => true
  | FStreamData id (_ :: _) => open && (id =? CARRIER_ID)
  | FStreamClose id None => open && (id =? CARRIER_ID)
  | _ => false
  end.
Fixpoint body_ok (open : bool) (fs : list Frame) : bool :=
  match fs with
  | [] => true
  | f :: r => may_follow open f && body_ok (open && negb (is_close f)) r
  end.
Definition wire_ok (target : TargetAddr) (fs : list Frame) : bool :=
  match fs with
  | [] => true
  | f :: r => bool_decide (f = FStreamOpen CARRIER_ID target) && body_ok true r
  end.

Lemma up_bytes_app fs gs : up_bytes (fs ++ gs) = up_bytes fs ++ up_bytes gs.
Proof. induction fs as [|[] fs IH]; cbn; rewrite ?IH; try done. by rewrite app_assoc. Qed.
Lemma down_bytes_snoc fs f : closed fs = false -> down_bytes (fs ++ [f]) = down_bytes fs ++ down_bytes [f].
Proof.
  induction fs as [|g fs IH]; [done|]. unfold closed. cbn. intros [Hg Hf]%orb_false_iff.
  specialize (IH Hf). destruct g; cbn in *; rewrite ?IH; try done; [by rewrite app_assoc|].
  by rewrite Hg.
Qed.
Lemma closed_snoc fs f : closed (fs ++ [f]) = closed fs || is_close f.
Proof. unfold closed. rewrite existsb_app. cbn. by rewrite orb_false_r. Qed.
Lemma count_snoc p fs f : count p (fs ++ [f]) = (count p fs + if p f then 1 else 0)%nat.
Proof. unfold count. rewrite List.filter_app, length_app. cbn. by destruct (p f). Qed.
Lemma count_prefix p fs gs : fs `prefix_of` gs -> (count p fs <= count p gs)%nat.
Proof. intros [k ->]. unfold count. rewrite List.filter_app, length_app. lia. Qed.
Lemma up_bytes_prefix fs gs : fs `prefix_of` gs -> up_bytes fs `prefix_of` up_bytes gs.
Proof. intros [k ->]. rewrite up_bytes_app. by apply prefix_app_r. Qed.
Lemma body_ok_app o fs gs : body_ok o (fs ++ gs) = body_ok o fs && body_ok (o && negb (closed fs)) gs.
Proof.
  revert o. induction fs as [|f fs IH]; intros o; cbn; [by rewrite andb_true_r|].
  rewrite IH. unfold closed. cbn. by rewrite negb_orb, !andb_assoc.
Qed.
Lemma wire_ok_prefix t fs gs : fs `prefix_of` gs -> wire_ok t gs = true -> wire_ok t fs = true.
Proof.
  intros [k ->]. destruct fs as [|f fs]; [done|]. cbn. rewrite body_ok_app.
  intros [-> [-> _]%andb_true_iff]%andb_true_iff. done.
Qed.
Lemma wire_ok_snoc t fs f :
  fs <> [] -> wire_ok t fs = true -> may_follow (negb (closed fs)) f = true -> wire_ok t (fs ++ [f]) = true.
Proof.
  destruct fs as [|g fs]; [done|]. cbn. intros _ [Hg Hb]%andb_true_iff Hf.
  rewrite body_ok_app, Hg, Hb. apply bool_decide_eq_true in Hg as ->.
  change (closed (_ :: fs)) with (closed fs) in Hf. cbn. by rewrite Hf.
Qed.

(** ** The invariant *)

Definition flight (w : CWriter) : list Frame := match w with CWSending f => [f] | _ => [] end.

(** [pushed] is what was put into the queue so far. *)
Definition queue_part (c : Carrier) (pushed : list Frame) : Prop :=
  match c_writer c with
  | CWIdle | CWSending _ =>
    rx_open (c_out c) = true /\ c_wire c ++ flight (c_writer c) ++ items (c_out c) = pushed
  | CWClosing => rx_open (c_out c) = true /\ c_wire c `prefix_of` pushed
  | CWDone => rx_open (c_out c) = false /\ c_wire c `prefix_of` pushed
  end.
(** The transport writes no more: its end is gone, or its writing half shut down. *)
Definition ended (c : Carrier) : Prop := c_near c = false \/ c_shut c = true.
Definition up_over (c : Carrier) (pushed : list Frame) : Prop :=
  up_bytes pushed `prefix_of` c_wrote c /\
  (rx_open (c_out c) = true -> c_cancel c = false -> ended c /\ up_bytes pushed = c_wrote c).
Definition up_part (c : Carrier) (pushed : list Frame) : Prop :=
  match c_up c with
  | CUReading => closed pushed = false /\ up_bytes pushed ++ c_tx c = c_wrote c
  | CUSending d => d <> [] /\ closed pushed = false /\ up_bytes pushed ++ d ++ c_tx c = c_wrote c
  | CUClosing => closed pushed = false /\ up_over c pushed
  | CUDone => (rx_open (c_out c) = true -> closed pushed = true) /\ up_over c pushed
  end.
Definition down_part (c : Carrier) : Prop :=
  match c_down c with
  | CDRecving | CDPonging => closed (c_recvd c) = false /\ c_given c ++ c_rx c = down_bytes (c_recvd c)
  | CDWriting d => closed (c_recvd c) = false /\ c_given c ++ c_rx c ++ d = down_bytes (c_recvd c)
  | CDDone => c_given c ++ c_rx c `prefix_of` down_bytes (c_recvd c)
  end.
Definition ponging (d : CDown) : nat := match d with CDPonging => 1 | _ => 0 end.

Record carrier_inv (t : TargetAddr) (c : Carrier) (pushed : list Frame) : Prop := {
  ci_queue : queue_part c pushed;
  ci_some : pushed <> [];
  ci_ok : wire_ok t pushed = true;
  ci_up : up_part c pushed;
  ci_down : down_part c;
  ci_pongs : (count is_pong pushed + ponging (c_down c) <= count is_ping (c_recvd c))%nat;
  ci_bounds : mpsc_ok 1024 (c_out c) /\ fits 0 (c_tx c) = true /\ fits 0 (c_rx c) = true;
}.

Lemma fits_drop n (d : bytes) : fits 0 d = true -> fits 0 (drop n d) = true.
Proof. unfold fits. rewrite !Z.leb_le, length_drop. lia. Qed.
Lemma fits_app (d e : bytes) : fits (length e) d = true -> fits 0 (d ++ e) = true.
Proof. unfold fits. rewrite !Z.leb_le, length_app. lia. Qed.
#[local] Arguments fits : simpl never.

Lemma carrier_start_inv t : carrier_inv t (carrier_start t) [FStreamOpen CARRIER_ID t].
Proof.
  constructor; cbn; try done.
  - by rewrite bool_decide_eq_true_2.
Qed.

(** ** Every step keeps it *)

Lemma cpush_spec f c m ok : cpush f c = Some (m, ok) ->
  (ok = true /\ rx_open (c_out c) = true /\ m = mkMpsc (items (c_out c) ++ [f]) (cap (c_out c)) true /\
   queue_len (c_out c) < cap (c_out c)) \/
  (ok = false /\ rx_open (c_out c) = false /\ m = c_out c).
Proof.
  unfold cpush, send_ready, try_send. destruct (rx_open (c_out c)) eqn:Ho; cbn [negb orb andb].
  - destruct (Z.ltb_spec (queue_len (c_out c)) (cap (c_out c))); [|done]. intros [= <- <-]. by left.
  - intros [= <- <-]. by right.
Qed.

(** Opens one step into its cases. *)
Ltac carrier_cases H :=
  repeat match type of H with
  | context [cpush ?f ?c ≫= _] =>
      let q := fresh "m" in let ok := fresh "ok" in let E := fresh "E" in
      destruct (cpush f c) as [[q ok]|] eqn:E; [|discriminate H];
      apply cpush_spec in E as [(-> & ? & -> & ?)|(-> & ? & ->)]; cbn in H
  | context [match ?x with _ => _ end] => destruct x eqn:?; try discriminate H; cbn in H
  end; try (injection H as <-).

(** More bytes of the transport, read by nobody once the uplink is over. *)
Lemma up_over_write c d pushed :
  c_near c = true -> c_shut c = false -> up_over c pushed ->
  up_over (set_near true (c_cancel c) (c_tx c ++ d) (c_rx c) (c_wrote c ++ d) (c_given c) c) pushed.
Proof.
  intros Hn Hsh [Hp He]. split; cbn; [by apply prefix_app_r|]. intros Ho Hc. destruct (He Ho Hc) as [[?|?] _]; congruence.
Qed.
Lemma up_part_write c d pushed :
  c_near c = true -> c_shut c = false -> up_part c pushed ->
  up_part (set_near true (c_cancel c) (c_tx c ++ d) (c_rx c) (c_wrote c ++ d) (c_given c) c) pushed.
Proof.
  intros Hn Hsh. pose proof (up_over_write c d pushed Hn Hsh). unfold up_part. cbn. destruct (c_up c).
  - intros [? <-]. split; [done|]. by rewrite app_assoc.
  - intros (? & ? & <-). split_and!; try done. by rewrite !app_assoc.
  - intros []; auto.
  - intros []; auto.
Qed.
(** Neither a cancellation nor the end of the transport takes anything back. *)
Lemma up_part_mono c n k rx given pushed :
  (n = true -> c_near c = true) -> (k = false -> c_cancel c = false) -> up_part c pushed ->
  up_part (set_near n k (c_tx c) rx (c_wrote c) given c) pushed.
Proof.
  intros Hn Hk. unfold up_part, up_over, ended. cbn.
  assert (rx_open (c_out c) = true -> c_cancel c = false -> (c_near c = false \/ c_shut c = true) /\ up_bytes pushed = c_wrote c ->
    (n = false \/ c_shut c = true) /\ up_bytes pushed = c_wrote c) by (intros _ _ [? ?]; destruct n; [naive_solver congruence|auto]).
  destruct (c_up c); naive_solver.
Qed.
Lemma up_part_shut c pushed : up_part c pushed -> up_part (set_shut c) pushed.
Proof. unfold up_part, up_over, ended. cbn. destruct (c_up c); naive_solver. Qed.

Lemma near_inv t c e c' pushed :
  carrier_inv t c pushed -> near_step e c = Some c' -> carrier_inv t c' pushed.
Proof.
  intros [Hq Hs Ho Hu Hd Hp (Hb & Hbt & Hbr)] H. unfold near_step in H.
  destruct e; carrier_cases H; destruct_and?; constructor; try done; cbn;
    try (by split_and!); try (by apply up_part_mono); try (by apply up_part_shut).
  - by apply up_part_write.
  - split_and!; try done. by apply fits_app.
  - unfold down_part in *. cbn. pose proof (take_drop n (c_rx c)) as E.
    destruct (c_down c); rewrite <- E in Hd at 1; rewrite <- !app_assoc in *; cbn; done.
  - split_and!; try done. by apply fits_drop.
Qed.

(** The writer pump changes the queue and the wire only. *)
Lemma up_part_queue c w m f pushed :
  (rx_open m = true -> rx_open (c_out c) = true) -> up_part c pushed -> up_part (set_cwriter w m c) pushed /\
    up_part (log_wire f (set_cwriter w m c)) pushed.
Proof.
  intros Hm Hu. assert (up_part (set_cwriter w m c) pushed); [|by split].
  revert Hu. unfold up_part, up_over. cbn. destruct (c_up c); naive_solver.
Qed.

Lemma pop_items {A} x (m m' : mpsc A) :
  pop m = Some (x, m') -> x :: items m' = items m /\ rx_open m' = rx_open m.
Proof. destruct m as [[|y r] k o]; [done|]. by intros [= <- <-]. Qed.

Lemma cwriter_inv t c e c' pushed :
  carrier_inv t c pushed -> cwriter_step e c = Some c' -> carrier_inv t c' pushed.
Proof.
  intros [Hq Hs Ho Hu Hd Hp (Hb & Hbt & Hbr)] H. unfold cwriter_step, queue_part in *.
  destruct e; try done; carrier_cases H; destruct_and?; constructor; try done; unfold queue_part; cbn in *;
    try (by split_and!); try (by apply up_part_queue; cbn).
  - destruct (pop_items _ _ _ Heqo) as [Hi Hr]. rewrite Hr, Hi. by split.
  - split_and!; try done. by eapply pop_ok.
  - split; [done|]. subst. by apply prefix_app_r.
  - rewrite <- app_assoc. by split.
  - split; [done|]. subst. by apply prefix_app_r.
  - split; [done|]. subst. by apply prefix_app_r.
  - apply up_part_queue; [exact FPing|done|done].
  - split_and!; try done. by apply close_rx_ok.
Qed.

(** A frame put into the queue. *)
Definition queued (f : Frame) (m : mpsc Frame) : mpsc Frame := mkMpsc (items m ++ [f]) (cap m) true.

Lemma queued_ok f m : mpsc_ok 1024 m -> queue_len m < cap m -> mpsc_ok 1024 (queued f m).
Proof. intros [? ?] ?. split; [done|]. unfold queue_len in *. cbn. rewrite length_app. cbn. lia. Qed.
Lemma queue_part_up c u f tx pushed :
  rx_open (c_out c) = true -> queue_part c pushed ->
  queue_part (set_cup u (queued f (c_out c)) tx c) (pushed ++ [f]).
Proof.
  unfold queue_part. cbn. intros Ho Hq. destruct (c_writer c); destruct_and!; split; try congruence; subst.
  - by rewrite !app_assoc.
  - by rewrite !app_assoc.
  - by apply prefix_app_r.
Qed.
Lemma queue_part_down c d f rx recvd pushed :
  rx_open (c_out c) = true -> queue_part c pushed ->
  queue_part (set_cdown d (queued f (c_out c)) rx recvd c) (pushed ++ [f]).
Proof. apply (queue_part_up c CUDone f []). Qed.

(** A step of the uplink task without and with a frame. *)
Lemma inv_cup t c u tx pushed :
  carrier_inv t c pushed -> up_part (set_cup u (c_out c) tx c) pushed -> fits 0 tx = true ->
  carrier_inv t (set_cup u (c_out c) tx c) pushed.
Proof. intros [Hq Hs Ho Hu Hd Hp (Hb & Hbt & Hbr)] Hu' Ht. by constructor. Qed.
Lemma inv_cup_push t c u f tx pushed :
  carrier_inv t c pushed -> rx_open (c_out c) = true -> queue_len (c_out c) < cap (c_out c) ->
  may_follow (negb (closed pushed)) f = true -> is_pong f = false ->
  up_part (set_cup u (queued f (c_out c)) tx c) (pushed ++ [f]) -> fits 0 tx = true ->
  carrier_inv t (set_cup u (queued f (c_out c)) tx c) (pushed ++ [f]).
Proof.
  intros [Hq Hs Ho Hu Hd Hp (Hb & Hbt & Hbr)] Hr Hl Hf Hpong Hu' Ht. constructor; try done.
  - by apply queue_part_up.
  - by destruct pushed.
  - by apply wire_ok_snoc.
  - rewrite count_snoc, Hpong. cbn. lia.
  - split_and!; try done. by apply queued_ok.
Qed.

Ltac by_wrote := match goal with E : _ = c_wrote _ |- _ => rewrite <- E end; by apply prefix_app_r.

Ltac still_open := match goal with E : closed _ = false |- _ => rewrite E end.

Lemma cup_inv t c e c' pushed :
  carrier_inv t c pushed -> cup_step e c = Some c' -> exists pushed', carrier_inv t c' pushed'.
Proof.
  intros Hi H. pose proof (ci_up _ _ _ Hi) as Hu. pose proof (ci_bounds _ _ _ Hi) as (_ & Hbt & _).
  unfold cup_step in H.
  destruct e; try done; carrier_cases H; unfold up_part in Hu; repeat match goal with E : c_up c = _ |- _ => rewrite E in Hu end; destruct_and?.
  - exists pushed. apply inv_cup; [done| |by apply fits_drop]. unfold up_part. cbn.
    rewrite take_drop. split_and!; try done. intros E%(f_equal length). rewrite length_take in E. cbn in E. lia.
  - exists pushed. apply inv_cup; [done| |done]. split; [done|].
    assert (up_bytes pushed = c_wrote c) as E by (rewrite <- (app_nil_r (up_bytes pushed)); congruence).
    split; cbn; [by rewrite E|done].
  - exists pushed. apply inv_cup; [done| |done]. split; [done|]. split; cbn; [|congruence].
    by_wrote.
  - exists (pushed ++ [FStreamData CARRIER_ID d]). apply (inv_cup_push t c CUReading); try done.
    + still_open. by destruct d.
    + unfold up_part. cbn. rewrite closed_snoc, up_bytes_app. still_open. cbn.
      rewrite app_nil_r, <- app_assoc. done.
  - exists pushed. apply inv_cup; [done| |done]. split; [done|]. split; cbn; [|congruence].
    by_wrote.
  - exists (pushed ++ [FStreamClose CARRIER_ID None]). apply (inv_cup_push t c CUDone); try done.
    + by still_open.
    + unfold up_part, up_over in *. cbn. rewrite closed_snoc, up_bytes_app. cbn. rewrite orb_true_r, app_nil_r.
      split; [done|]. match goal with E : _ /\ (_ -> _) |- _ => destruct E as [? He] end. split; [done|]. by intros _ ?; apply He.
  - exists pushed. apply inv_cup; [done| |done]. split; [by cbn; congruence|done].
Qed.

(** A step of the downlink task without and with a frame. *)
Lemma up_part_down c d m rx recvd pushed :
  rx_open m = rx_open (c_out c) -> up_part c pushed -> up_part (set_cdown d m rx recvd c) pushed.
Proof. intros Hm. unfold up_part, up_over. cbn. rewrite Hm. destruct (c_up c); auto. Qed.
Lemma inv_cdown t c d rx recvd pushed :
  carrier_inv t c pushed -> down_part (set_cdown d (c_out c) rx recvd c) -> fits 0 rx = true ->
  (ponging d + count is_ping (c_recvd c) <= ponging (c_down c) + count is_ping recvd)%nat ->
  carrier_inv t (set_cdown d (c_out c) rx recvd c) pushed.
Proof.
  intros [Hq Hs Ho Hu Hd Hp (Hb & Hbt & Hbr)] Hd' Ht Hn. constructor; try done.
  cbn. lia.
Qed.
Lemma up_part_pong c d m rx recvd pushed :
  rx_open m = rx_open (c_out c) -> up_part c pushed -> up_part (set_cdown d m rx recvd c) (pushed ++ [FPong]).
Proof.
  intros Hm. unfold up_part, up_over. cbn. rewrite Hm, closed_snoc, up_bytes_app. cbn.
  rewrite orb_false_r, app_nil_r. destruct (c_up c); auto.
Qed.

Lemma writing_down c d m rx recvd :
  closed recvd = false -> c_given c ++ rx ++ d = down_bytes recvd ->
  down_part (set_cdown (writing d) m rx recvd c).
Proof. intros Hc Hd. unfold down_part. destruct d; cbn in *; [by rewrite app_nil_r in Hd|done]. Qed.
Lemma ponging_writing d : ponging (writing d) = 0%nat.
Proof. by destruct d. Qed.

(** What receiving a frame makes of the history. *)
Lemma recv_down c f m :
  closed (c_recvd c) = false -> c_given c ++ c_rx c = down_bytes (c_recvd c) ->
  down_part (set_cdown
    match f with
    | FStreamData id d => if id =? CARRIER_ID then writing d else CDRecving
    | FStreamClose id _ => if id =? CARRIER_ID then CDDone else CDRecving
    | FPing => CDPonging
    | _ => CDRecving
    end m (c_rx c) (c_recvd c ++ [f]) c).
Proof.
  intros Hc Hd. pose proof (down_bytes_snoc _ f Hc) as Es. pose proof (closed_snoc (c_recvd c) f) as Ec.
  rewrite Hc in Ec. cbn [orb] in Ec.
  destruct f; cbn in Es, Ec; try (destruct (_ =? CARRIER_ID)); rewrite ?app_nil_r in Es;
    try (unfold down_part; cbn; split; congruence).
  - apply writing_down; [done|]. by rewrite app_assoc, Hd.
  - unfold down_part. cbn. by rewrite Hd, <- Es.
Qed.

Lemma cdown_inv t c e c' pushed :
  carrier_inv t c pushed -> cdown_step e c = Some c' -> exists pushed', carrier_inv t c' pushed'.
Proof.
  intros Hi H. pose proof (ci_down _ _ _ Hi) as Hd. pose proof (ci_bounds _ _ _ Hi) as (_ & _ & Hbr).
  unfold cdown_step in H. unfold down_part in Hd. destruct e; try done; destruct (c_down c) eqn:Ed; try done.
  - exists pushed. destruct r as [f|e]; injection H as <-; destruct Hd as [Hc Hd].
    + apply inv_cdown; [done|by apply recv_down|done|]. rewrite Ed, count_snoc.
      destruct f; cbn; try (destruct (_ =? _)); rewrite ?ponging_writing; cbn; lia.
    + apply inv_cdown; [done| |done|rewrite Ed; cbn; lia]. unfold down_part. cbn. by rewrite Hd.
  - destruct (c_cancel c); [|done]. injection H as <-. exists pushed. destruct Hd as [Hc Hd].
    apply inv_cdown; [done| |done|rewrite Ed; cbn; lia]. unfold down_part. cbn. by rewrite Hd.
  - exists pushed. destruct Hd as [Hc Hd]. destruct (c_near c).
    + destruct (decide _) as [[[Hn Hl] Hr]|]; [|done]. injection H as <-.
      apply inv_cdown; [done| |apply fits_app; rewrite length_take_le by done; done|rewrite Ed, ponging_writing; cbn; lia].
      apply writing_down; [done|]. by rewrite <- app_assoc, take_drop.
    + injection H as <-. apply inv_cdown; [done| |done|rewrite Ed; cbn; lia].
      unfold down_part. cbn. rewrite <- Hd, app_assoc. by apply prefix_app_r.
  - cbn in H. carrier_cases H.
    + exists (pushed ++ [FPong]). destruct Hi as [Hq Hs Ho Hu _ Hp (Hb & Hbt & _)]. rewrite Ed in Hp. cbn in Hp. constructor; try done.
      * by apply (queue_part_down c CDRecving FPong).
      * by destruct pushed.
      * by apply wire_ok_snoc.
      * by apply up_part_pong.
      * rewrite count_snoc. cbn. lia.
      * split_and!; try done. by apply (queued_ok FPong).
    + exists pushed. apply inv_cdown; [done|done|done|rewrite Ed; cbn; lia].
Qed.

Lemma cstep_inv t c e c' pushed :
  carrier_inv t c pushed -> cstep c e = Some c' -> exists pushed', carrier_inv t c' pushed'.
Proof.
  intros Hi H. destruct e; cbn [cstep] in H;
    first [by eexists; eapply near_inv|by eexists; eapply cwriter_inv|by eapply cup_inv|by eapply cdown_inv].
Qed.
Lemma crun_inv t es c c' pushed :
  carrier_inv t c pushed -> crun es c = Some c' -> exists pushed', carrier_inv t c' pushed'.
Proof. intros Hi. apply (runs_inv cstep (fun c => exists p, carrier_inv t c p)); [|by exists pushed].
  intros c0 e c1 [p Hp] E. destruct (cstep_inv _ _ _ _ _ Hp E) as [p1 H1]. by exists p1. Qed.
Lemma carrier_reach t es c : crun es (carrier_start t) = Some c -> exists pushed, carrier_inv t c pushed.
Proof. apply crun_inv with (pushed := [FStreamOpen CARRIER_ID t]), carrier_start_inv. Qed.

(** ** Winding down *)

(** Once cancelled, a task at its [select!] leaves by the branch of the cancellation; what
    it awaits elsewhere completes, with either outcome.  (A [select!] whose other branch
    is ready as well may take that instead, and the task is at the same point again.) *)
Definition winding (e : cevent) : bool :=
  match e with
  | CSent _ | CWStop | CWClosed | CUStop | CPush | CDStop | CWrote _ | CPong => true
  | _ => false
  end.
Definition all_done (c : Carrier) : Prop := c_writer c = CWDone /\ c_up c = CUDone /\ c_down c = CDDone.
(** The awaits each task has left, at most. *)
Definition writer_left (w : CWriter) : nat := match w with CWSending _ => 3 | CWIdle => 2 | CWClosing => 1 | CWDone => 0 end.
Definition up_left (u : CUp) : nat := match u with CUSending _ => 3 | CUReading => 2 | CUClosing => 1 | CUDone => 0 end.
Definition down_left (d : CDown) : nat := match d with CDPonging => 2 | CDRecving | CDWriting _ => 1 | CDDone => 0 end.
Definition awaits_left (c : Carrier) : nat := (writer_left (c_writer c) + up_left (c_up c) + down_left (c_down c))%nat.

(** A cancelled carrier whose transport is gone; the queue of an ended writer is closed. *)
Record leaving (c : Carrier) : Prop := {
  lv_cancel : c_cancel c = true;
  lv_near : c_near c = false;
  lv_queue : c_writer c = CWDone -> rx_open (c_out c) = false;
}.
Lemma winding_step c e c' : leaving c -> winding e = true -> cstep c e = Some c' ->
  leaving c' /\ (S (awaits_left c') <= awaits_left c)%nat.
Proof.
  intros [Hk Hn Hq] Hw H.
  destruct e; try done; cbn [cstep] in H; unfold cwriter_step, cup_step, cdown_step in H; rewrite ?Hk, ?Hn in H;
    carrier_cases H; unfold awaits_left; cbn;
    repeat match goal with
    | E : c_writer c = _ |- _ => rewrite E in *; clear E
    | E : c_up c = _ |- _ => rewrite E; clear E
    | E : c_down c = _ |- _ => rewrite E; clear E
    end; (split; [split; cbn; first [done|congruence|by intros ?%Hq; congruence]|cbn; lia]).
Qed.
Lemma winding_run fs c c' : leaving c -> forallb winding fs = true -> crun fs c = Some c' ->
  leaving c' /\ (length fs + awaits_left c' <= awaits_left c)%nat.
Proof.
  revert c. induction fs as [|e fs IH]; cbn [runs forallb]; intros c Hl Hw Hr.
  - injection Hr as <-. split; [done|cbn; lia].
  - apply andb_true_iff in Hw as [He Hw]. apply bind_Some in Hr as (c1 & E & Hr).
    destruct (winding_step _ _ _ Hl He E) as [Hl1 ?]. destruct (IH _ Hl1 Hw Hr). split; [done|cbn; lia].
Qed.
Lemma cpush_gone f c : rx_open (c_out c) = false -> cpush f c = Some (c_out c, false).
Proof. intros H. unfold cpush, send_ready, try_send. by rewrite H. Qed.
(** What may come next: one of the tunnel's answers, or a step of the carrier's own. *)
Definition next_wind (c : Carrier) : Prop :=
  (forall ok, is_Some (cstep c (CSent ok))) \/
  exists e, winding e = true /\ (forall ok, e <> CSent ok) /\ is_Some (cstep c e).
Lemma winding_next c : leaving c -> all_done c \/ next_wind c.
Proof.
  intros [Hk Hn Hq]. unfold next_wind, all_done. destruct (c_writer c) as [|f| |] eqn:Ew.
  - right. right. exists CWStop. cbn. rewrite Ew, Hk. by split_and!.
  - right. left. intros ok. cbn. rewrite Ew. by eexists.
  - right. right. exists CWClosed. cbn. rewrite Ew. by split_and!.
  - specialize (Hq eq_refl). destruct (c_up c) as [|d| |] eqn:Eu.
    + right. right. exists CUStop. cbn. rewrite Eu, Hk. by split_and!.
    + right. right. exists CPush. cbn. rewrite Eu, cpush_gone by done. by split_and!.
    + right. right. exists CPush. cbn. rewrite Eu, cpush_gone by done. by split_and!.
    + destruct (c_down c) as [|d| |] eqn:Ed.
      * right. right. exists CDStop. cbn. rewrite Ed, Hk. by split_and!.
      * right. right. exists (CWrote 0). cbn. rewrite Ed, Hn. by split_and!.
      * right. right. exists CPong. cbn. rewrite Ed, cpush_gone by done. by split_and!.
      * by left.
Qed.

(** ** The stall *)

(** Events of the carrier alone: the transport only waits for bytes. *)
Definition waits (e : cevent) : bool :=
  match e with CNearWrite _ | CNearShut | CNearDrop | CCancel => false | _ => true end.
Definition stalled (c : Carrier) : Prop :=
  c_down c = CDDone /\ c_up c = CUReading /\ c_tx c = [] /\ c_rx c = [] /\ c_near c = true /\ c_shut c = false /\ c_cancel c = false.

Lemma stalled_step c e c' : stalled c -> waits e = true -> cstep c e = Some c' -> stalled c'.
Proof.
  unfold stalled. intros (Hd & Hu & Ht & Hr & Hn & Hsh & Hk) Hw H.
  destruct e; try done; cbn [cstep] in H; unfold near_step, cwriter_step, cup_step, cdown_step in H;
    rewrite ?Hd, ?Hu, ?Hk in H; carrier_cases H; destruct_and?; cbn in *; simplify_eq;
    try match goal with E : decide _ = _ |- _ => clear E end;
    rewrite ?Ht, ?Hr, ?Hn in *; cbn in *; try congruence; try lia; try (by split_and!);
    match goal with E : _ \/ _ |- _ => destruct E; congruence end.
Qed.
Lemma stalled_run es c c' : stalled c -> Forall (fun e => waits e = true) es -> crun es c = Some c' -> stalled c'.
Proof. intros Hs Hw Hr. eapply (runs_inv_of cstep stalled); [|exact Hs|exact Hw|exact Hr]. intros ? ? ?. apply stalled_step. Qed.

Lemma read_fits (d : bytes) : Z.of_nat (length d) <= CARRIER_READ -> fits (length d) [] = true.
Proof. unfold fits, CARRIER_READ, DUPLEX. rewrite Z.leb_le. cbn [length]. lia. Qed.
(** Steps whose guard is a decision on lengths. *)
Lemma near_write_step d c :
  c_near c = true -> c_shut c = false -> far_gone c = false -> d <> [] -> fits (length d) (c_tx c) = true ->
  cstep c (CNearWrite d) =
    Some (set_near true (c_cancel c) (c_tx c ++ d) (c_rx c) (c_wrote c ++ d) (c_given c) c).
Proof. intros. cbn [cstep near_step]. by rewrite decide_True. Qed.
Lemma up_read_step n c :
  c_up c = CUReading -> (0 < n <= length (c_tx c))%nat -> Z.of_nat n <= CARRIER_READ ->
  cstep c (CRead n) = Some (set_cup (CUSending (take n (c_tx c))) (c_out c) (drop n (c_tx c)) c).
Proof. intros Hu ? ?. cbn [cstep cup_step]. by rewrite Hu, decide_True. Qed.

Lemma push_step d c :
  c_up c = CUSending d -> rx_open (c_out c) = true -> queue_len (c_out c) < cap (c_out c) ->
  cstep c CPush = Some (set_cup CUReading (queued (FStreamData CARRIER_ID d) (c_out c)) (c_tx c) c).
Proof.
  intros Hu Hr Hl. cbn [cstep cup_step]. rewrite Hu. unfold cpush, send_ready, try_send.
  by rewrite Hr, (proj2 (Z.ltb_lt _ _) Hl).
Qed.
Lemma carrier_start_eq t : carrier_start t =
  mkCarrier (mkMpsc [FStreamOpen CARRIER_ID t] 1024 true) CWIdle CUReading CDRecving [] [] true false [] [] [] [] false.
Proof. reflexivity. Qed.
(** Writes a state as one record again. *)
Ltac flat := cbv [set_near set_shut c_shut set_cwriter set_cup set_cdown log_wire queued c_out c_writer c_up c_down c_tx c_rx
  c_near c_cancel c_wire c_recvd c_wrote c_given items cap rx_open app].
(** The state after the greeting was relayed and [r] received. *)
Definition refused (t : TargetAddr) (greeting : bytes) (r : Result Frame) : Carrier :=
  mkCarrier (mkMpsc [] 1024 true) CWIdle CUReading CDDone [] [] true false
    [FStreamOpen CARRIER_ID t; FStreamData CARRIER_ID greeting]
    match r with Ok f => [f] | Err _ => [] end greeting [] false.

(** ** Properties *)

(** C18. A carrier is a faithful pipe.  Whatever the order in which its tasks, the tunnel
    and the transport proceed: the tunnel sees one request for the next hop, then the
    bytes the transport wrote, in order and tagged with the carrier's id, then at most
    one close, with no more pongs between them than pings came; the transport reads the
    bytes of that stream, in order.  Nothing is lost on the way: once the uplink has
    ended without a cancellation and a live writer pump has emptied the queue, the tunnel has all that
    was written and the close; and while the downlink waits with an empty buffer, the
    transport has all that came. *)
Theorem carrier_relays (t : TargetAddr) (es : list cevent) (c : Carrier) :
  crun es (carrier_start t) = Some c ->
  (wire_ok t (c_wire c) = true /\ up_bytes (c_wire c) `prefix_of` c_wrote c /\
   c_given c `prefix_of` down_bytes (c_recvd c) /\
   (count is_pong (c_wire c) <= count is_ping (c_recvd c))%nat) /\
  (c_cancel c = false -> c_writer c = CWIdle -> c_up c = CUDone -> items (c_out c) = [] ->
   closed (c_wire c) = true /\ up_bytes (c_wire c) = c_wrote c) /\
  (c_down c = CDRecving -> c_rx c = [] -> c_given c = down_bytes (c_recvd c)).
Proof.
  intros (pushed & [Hq Hs Ho Hu Hd Hp _])%carrier_reach.
  assert (c_wire c `prefix_of` pushed) as Hw
    by (unfold queue_part in Hq; destruct (c_writer c), Hq as [_ Hq]; subst; first [done|by apply prefix_app_r]).
  pose proof (count_prefix is_pong _ _ Hw). split_and!.
  - by eapply wire_ok_prefix.
  - trans (up_bytes pushed); [by apply up_bytes_prefix|].
    unfold up_part, up_over in Hu. destruct (c_up c); destruct_and?; try done; by_wrote.
  - unfold down_part in Hd. destruct (c_down c) as [|d| |]; destruct_and?;
      try match goal with E : _ = down_bytes _ |- _ => rewrite <- E; by apply prefix_app_r end.
    etrans; [by apply prefix_app_r|done].
  - lia.
  - intros Hk Hi Hup He. unfold queue_part in Hq. unfold up_part, up_over in Hu. rewrite Hi, He, Hup in *.
    destruct Hq as [Hr <-]. cbn in *. rewrite app_nil_r in *. destruct Hu as (Hc & _ & Hu). split; [auto|].
    by apply Hu.
  - intros Hdn Hr. unfold down_part in Hd. rewrite Hdn, Hr, app_nil_r in Hd. by destruct Hd.
Qed.

(** C35. A cancelled carrier ends.  Take any state it can reach in which the cancellation has
    fired and the transport has dropped its end, and let every [select!] leave by the
    cancellation (one that finds another branch ready may take it first, and is then in
    such a state again).  However the three tasks interleave, and whether a send into the
    tunnel under way succeeds or fails, they make at most eight more steps; until all
    three have ended there is always one to make, the tunnel's answers, to a send and to
    the close, being the only ones to come from outside; and the channel is closed by then, so no push
    waits for room in a queue nobody empties. *)
Theorem carrier_winds_down (t : TargetAddr) (es : list cevent) (c : Carrier) :
  crun es (carrier_start t) = Some c -> c_cancel c = true -> c_near c = false ->
  forall fs c', forallb winding fs = true -> crun fs c = Some c' ->
    (length fs <= 8)%nat /\ ((all_done c' /\ rx_open (c_out c') = false) \/ next_wind c').
Proof.
  intros (pushed & [Hq _ _ _ _ _ _])%carrier_reach Hk Hn fs c' Hw Hr.
  assert (leaving c) as Hl.
  { split; [done..|]. intros E. unfold queue_part in Hq. rewrite E in Hq. by destruct Hq. }
  destruct (winding_run _ _ _ Hl Hw Hr) as [Hl' Hb]. split.
  - unfold awaits_left, writer_left, up_left, down_left in Hb. destruct (c_writer c), (c_up c), (c_down c); lia.
  - destruct (winding_next _ Hl') as [Hd|]; [left|by right]. split; [done|]. apply (lv_queue _ Hl'), Hd.
Qed.

(** A refused hop is not noticed.  When the relay answers the transport's greeting by
    closing the stream, or its link breaks, the downlink ends; but the uplink keeps the
    reading half of the duplex stream.  If dropping the writing half alone does not end
    the stream, the transport's read stays pending for ever, whatever the carrier's own
    tasks and the tunnel do: only a cancellation, or the transport itself, gets it out. *)
Theorem refused_hop_unnoticed (t : TargetAddr) (greeting : bytes) (r : Result Frame) :
  greeting <> [] -> Z.of_nat (length greeting) <= CARRIER_READ ->
  (is_ok r = false \/ exists e, r = Ok (FStreamClose CARRIER_ID e)) ->
  exists c, crun [CTake; CSent true; CNearWrite greeting; CRead (length greeting); CPush; CTake; CSent true; CRecv r]
              (carrier_start t) = Some c /\
    c_wire c = [FStreamOpen CARRIER_ID t; FStreamData CARRIER_ID greeting] /\
    near_view true c = NearEof /\
    forall es c', Forall (fun e => waits e = true) es -> crun es c = Some c' ->
      near_view false c' = NearPending /\ c_up c' = CUReading.
Proof.
  intros H0 Hg Hr. assert (0 < length greeting)%nat by (destruct greeting; [done|cbn; lia]).
  assert (exists c, crun [CTake; CSent true; CNearWrite greeting; CRead (length greeting); CPush; CTake; CSent true; CRecv r]
              (carrier_start t) = Some c /\
    c_wire c = [FStreamOpen CARRIER_ID t; FStreamData CARRIER_ID greeting] /\ stalled c) as (c & E & Hw & Hs).
  { exists (refused t greeting r). split; [|done].
    rewrite carrier_start_eq. do 2 (eapply runs_push; [reflexivity|]; flat).
    eapply runs_push; [apply near_write_step; try done; by apply read_fits|]; flat.
    eapply runs_push; [apply up_read_step; cbn; done || lia|]; flat. rewrite take_ge, drop_ge by done.
    eapply runs_push; [by eapply push_step|]; flat.
    do 3 (eapply runs_push; [reflexivity|]; flat). unfold refused. by destruct Hr as [Hr|[e ->]]; [destruct r|]. }
  exists c. split_and!; try done.
  - destruct Hs as (Hd & Hu & Ht & Hx & Hn & Hsh & Hk). unfold near_view, far_gone. rewrite Hx, Hd, Hu. done.
  - intros es c' He Hc. destruct (stalled_run _ _ _ Hs He Hc) as (Hd & Hu & Ht & Hx & Hn & Hsh & Hk).
    unfold near_view, far_gone. by rewrite Hx, Hd, Hu.
Qed.

(** ** A carrier at work *)

Module CarrierDemo.
Definition target : TargetAddr := TDomain "hop2.example" 8443.
Definition ab : bytes := [Byte.x61; Byte.x62].
(** Two bytes out, a ping and two bytes in, one of them read; then the transport leaves. *)
Definition events : list cevent :=
  [CTake; CSent true; CNearWrite ab; CRead 1; CPush; CRead 1; CRecv (Ok FPing); CTake; CPong; CSent true;
   CRecv (Ok (FStreamData 7 ab)); CRecv (Ok (FStreamData CARRIER_ID ab)); CWrote 1; CNearRead 1; CWrote 1;
   CPush; CTake; CSent true; CTake; CSent true; CNearDrop; CEof; CPush; CTake; CSent true].
Definition on_wire : list Frame :=
  [FStreamOpen CARRIER_ID target; FStreamData CARRIER_ID [Byte.x61]; FPong; FStreamData CARRIER_ID [Byte.x62];
   FStreamClose CARRIER_ID None].
Definition leaving : list cevent := [CTake; CNearWrite ab; CRead 2; CRecv (Ok (FStreamData CARRIER_ID ab)); CCancel; CNearDrop].
End CarrierDemo.

Definition carrier_after (es : list cevent) : Carrier :=
  default (carrier_start CarrierDemo.target) (crun es (carrier_start CarrierDemo.target)).
Lemma demo_final : crun CarrierDemo.events (carrier_start CarrierDemo.target) = Some (carrier_after CarrierDemo.events).
Proof. vm_compute. reflexivity. Qed.
Lemma demo_leaving : crun CarrierDemo.leaving (carrier_start CarrierDemo.target) = Some (carrier_after CarrierDemo.leaving).
Proof. vm_compute. reflexivity. Qed.
Example carrier_demo : c_wire (carrier_after CarrierDemo.events) = CarrierDemo.on_wire.
Proof. vm_compute. reflexivity. Qed.

Lemma carrier_relays_witness :
  closed (c_wire (carrier_after CarrierDemo.events)) = true /\
  up_bytes (c_wire (carrier_after CarrierDemo.events)) = CarrierDemo.ab.
Proof.
  destruct (carrier_relays CarrierDemo.target CarrierDemo.events (carrier_after CarrierDemo.events)) as (_ & Hall & _);
    [exact demo_final|].
  destruct Hall as [Hc Hb]; [vm_compute; reflexivity|vm_compute; reflexivity|vm_compute; reflexivity|vm_compute; reflexivity|].
  split; [exact Hc|]. transitivity (c_wrote (carrier_after CarrierDemo.events)); [exact Hb|vm_compute; reflexivity].
Defined.

(** The send under way succeeds; seven more steps end the three tasks. *)
Lemma carrier_winds_down_witness :
  let fs := [CSent true; CPush; CUStop; CPush; CWStop; CWrote 0; CWClosed] in
  exists c', crun fs (carrier_after CarrierDemo.leaving) = Some c' /\ all_done c' /\ (length fs <= 8)%nat.
Proof.
  cbv zeta. eexists. split; [vm_compute; reflexivity|]. split; [vm_compute; by split_and!|].
  refine (proj1 (carrier_winds_down CarrierDemo.target _ (carrier_after CarrierDemo.leaving) demo_leaving _ _
    [CSent true; CPush; CUStop; CPush; CWStop; CWrote 0; CWClosed] _ _ _)); vm_compute; reflexivity.
Defined.

Lemma refused_hop_unnoticed_witness : exists c,
  c_recvd c = [FStreamClose CARRIER_ID (Some "connection refused")] /\ near_view false c = NearPending.
Proof.
  destruct (refused_hop_unnoticed CarrierDemo.target CarrierDemo.ab (Ok (FStreamClose CARRIER_ID (Some "connection refused"))))
    as (c & E & _ & _ & Hp).
  - done.
  - done.
  - right. by eexists.
  - exists c. destruct (Hp [] c) as [Hv _]; [done|done|]. split; [|exact Hv].
    vm_compute in E. by injection E as <-.
Defined.
