(* ===== verification/Link.v ===== *)
(** A client joined to the server by one connection.  The client is any transition system
    that says which frames a step hands to its transport and which it takes from it; the
    server is that of Session.v (server/src/session.rs).  They step independently, and the
    frames a transport accepted are in flight to the other end, in order: what Channel.v
    and Handshake.v show of the transports. *)
From stdpp Require Import gmap.
From S2P Require Import Prelude Net Text Core Mpsc ServerConfig Router Session SessionInv SessionLaws ServerThms Uplink.

(** The frames in front of what is in flight. *)
Fixpoint arrive (fs l : list Frame) : option (list Frame) :=
  match fs, l with
  | [], _ => Some l
  | f :: fs, g :: r => if decide (f = g) then arrive fs r else None
  | _ :: _, [] => None
  end.
Lemma arrive_Some fs l r : arrive fs l = Some r -> l = fs ++ r.
Proof.
  revert l. induction fs as [|f fs IH]; intros l; [by intros [= ->]|]. destruct l as [|g l]; [done|].
  cbn. case_decide; [subst g|done]. by intros ->%IH.
Qed.

(** What the server hands to the transport of connection [c]; what it takes is [heard]. *)
Definition server_sends (c : cid) (s : Server) (e : event) : list Frame :=
  match e with
  | EWSent d true =>
    if decide (d = c) then match cn_writer <$> sv_conns s !! c with Some (WSending f) => [f] | _ => [] end else []
  | ESent d true =>
    if decide (d = c) then
      match cn_phase <$> sv_conns s !! c with
      | Some (Rejecting r) => [FReject r]
      | Some (Welcoming _ w) => [FWelcome w]
      | _ => []
      end
    else []
  | _ => []
  end.
Definition log_of (c : cid) (s : Server) : list Frame :=
  match sv_conns s !! c with Some k => cn_log k | None => [] end.

(** ** The log of a connection *)

Section Log.
Context `{IpNet}.

Lemma log_of_insert c d k k' s s' f : sv_conns s !! d = Some k -> sv_conns s' = <[d := k']> (sv_conns s) ->
  cn_log k' = cn_log k ++ f -> log_of c s' = log_of c s ++ if decide (d = c) then f else [].
Proof.
  intros Hk E Hl. unfold log_of. rewrite E. case_decide as Hd.
  - subst d. by rewrite lookup_insert_eq, Hk.
  - rewrite lookup_insert_ne by done. by rewrite app_nil_r.
Qed.
Lemma log_of_same c d k k' s s' : sv_conns s !! d = Some k -> sv_conns s' = <[d := k']> (sv_conns s) ->
  cn_log k' = cn_log k -> log_of c s' = log_of c s.
Proof.
  intros Hk E Hl. rewrite (log_of_insert c d k k' s s' [] Hk E) by (by rewrite Hl, app_nil_r). case_decide; by rewrite app_nil_r.
Qed.
Lemma log_of_conns c s s' : sv_conns s' = sv_conns s -> log_of c s' = log_of c s.
Proof. intros E. unfold log_of. by rewrite E. Qed.

(** The part of [step_log] about the handler, the writer, and a stream's task. *)
Lemma received_log c d r k s s' : sv_conns s !! d = Some k -> received d r k s = Some s' -> log_of c s' = log_of c s.
Proof.
  intros K. unfold received. destruct (cn_phase k) as [| | | | | | |? []| | | | |]; try done; intros [= <-]; by eapply log_of_same.
Qed.
Lemma tau_log c d rnd k s s' : sv_conns s !! d = Some k -> tau d rnd k s = Some s' -> log_of c s' = log_of c s.
Proof.
  intros K. unfold tau. destruct (cn_phase k) as [| | | | | | |ss [|a todo]| | | | |]; try done.
  1-4, 6-9: try case_match; intros [= <-]; by eapply log_of_same.
  destruct (awaits_dev s a); [done|]. intros [= <-].
  destruct (do_action_conn d false ss a todo k s) as (p & m & E); by eapply log_of_same.
Qed.
Lemma tun_log c d b k s s' : sv_conns s !! d = Some k -> tun_wrote d b k s = Some s' -> log_of c s' = log_of c s.
Proof.
  intros K (ss & pkt & rest & _ & _ & ->)%tun_wrote_Some.
  destruct (do_action_conn d b ss (ATun pkt) rest k s) as (p & m & E); by eapply log_of_same.
Qed.
Lemma sent_log c d b k s s' : sv_conns s !! d = Some k -> sent d b k s = Some s' ->
  log_of c s' = log_of c s ++ server_sends c s (ESent d b).
Proof.
  intros K. unfold sent. destruct (cn_phase k) as [| |r| | | |ss w| | | | | |] eqn:P; try done; destruct b; intros [= <-]; cbn [server_sends].
  - erewrite (log_of_insert c d k _ s _ [_]); [|done|reflexivity|reflexivity]. case_decide; [subst d; rewrite K; cbn; by rewrite P|done].
  - rewrite app_nil_r. by eapply log_of_same.
  - erewrite (log_of_insert c d k _ s _ [_]); [|done|reflexivity|reflexivity]. case_decide; [subst d; rewrite K; cbn; by rewrite P|done].
  - rewrite app_nil_r. by eapply log_of_same.
Qed.
Lemma writer_log c d k s s' : sv_conns s !! d = Some k ->
  writer_take d k s = Some s' \/ writer_tau d k s = Some s' \/ writer_stop d k s = Some s' -> log_of c s' = log_of c s.
Proof.
  intros K [E|[E|E]]; revert E.
  - unfold writer_take. destruct (cn_writer k); try done. intros (q & Q & E)%bind_Some.
    destruct (pop q) as [[f q']|]; [injection E as <-; by eapply log_of_same|].
    destruct (no_senders d k s); [injection E as <-; by eapply log_of_same|done].
  - unfold writer_tau. destruct (cn_writer k); try done; intros [= <-]; by eapply log_of_same.
  - unfold writer_stop. destruct (cn_stop k), (cn_writer k); try done; intros [= <-]; by eapply log_of_same.
Qed.
Lemma writer_sent_log c d b k s s' : sv_conns s !! d = Some k -> writer_sent d b k s = Some s' ->
  log_of c s' = log_of c s ++ server_sends c s (EWSent d b).
Proof.
  intros K. unfold writer_sent. destruct (cn_writer k) as [| |f| | | |] eqn:W; try done. destruct b; intros [= <-]; cbn [server_sends].
  - erewrite (log_of_insert c d k _ s _ [f]); [|done|reflexivity|reflexivity].
    case_decide; [|done]. subst d. rewrite K. cbn. by rewrite W.
  - rewrite app_nil_r. by eapply log_of_same.
Qed.
Lemma task_log c x t s s' :
  (exists r, dialed x r t s = Some s') \/ up_take x t s = Some s' \/ (exists b, up_wrote x b t s = Some s') \/
  (exists r, down_read x r t s = Some s') \/ down_send x t s = Some s' \/ down_stop x t s = Some s' -> log_of c s' = log_of c s.
Proof.
  intros E. apply log_of_conns. destruct E as [[r E]|[E|[[b E]|[[r E]|[E|E]]]]]; revert E.
  - unfold dialed. destruct (t_phase t); try done. by intros [= <-].
  - unfold up_take. destruct (t_phase t), (t_up t); try done. destruct (pop _) as [[]|]; [by intros [= <-]|].
    destruct (sender_alive _ _ _); [done|by intros [= <-]].
  - unfold up_wrote. destruct (t_phase t), (t_up t); try done. by intros [= <-].
  - unfold down_read. destruct (t_phase t), (t_down t); try done. destruct r as [[|y d]|]; try by intros [= <-].
    destruct (_ <=? _)%nat; [by intros [= <-]|done].
  - unfold down_send. destruct (t_phase t), (t_down t); try done.
    all: intros (p & P & E)%bind_Some; apply session_send_Some in P as (q & _ & _ & P).
    all: try (injection E as <-; cbn; by rewrite P).
    all: destruct p; cbn in P; subst; by injection E as <-.
  - unfold down_stop. destruct (t_stop t); [by intros [= <-]|done].
Qed.

Lemma step_log c s e s' : ids_fresh s -> step s e = Some s' -> log_of c s' = log_of c s ++ server_sends c s e.
Proof.
  intros Hf E. destruct e; cbn [step] in E; try (injection E as <-);
    try (apply bind_Some in E as (k & K & E); first [exact (sent_log c _ _ _ _ _ K E)|exact (writer_sent_log c _ _ _ _ _ K E)|cbn [server_sends]]);
    cbn [server_sends]; rewrite ?app_nil_r; try (by apply log_of_conns).
  - case_match; [|done]. injection E as <-. by apply log_of_conns.
  - unfold log_of. cbn. destruct (decide (c = sv_next s)) as [->|Hne].
    + rewrite lookup_insert_eq. by rewrite (proj1 (Hf _ (le_n _))).
    + by rewrite lookup_insert_ne by done.
  - by eapply received_log.
  - by eapply tau_log.
  - by eapply tun_log.
  - eapply writer_log; eauto.
  - eapply writer_log; eauto.
  - eapply writer_log; eauto.
  - case_match; [|done]. destruct r; injection E as <-; by apply log_of_conns.
  - eapply task_log; eauto.
  - eapply task_log; eauto.
  - eapply task_log; eauto 6.
  - eapply task_log; eauto 6.
  - eapply task_log; eauto 8.
  - eapply task_log; eauto 8.
Qed.
End Log.

(** ** The product *)

Record Linked (Cl : Type) := mkLinked { lk_client : Cl; lk_server : Server; lk_up : list Frame; lk_down : list Frame }.
Arguments mkLinked {Cl} _ _ _ _.
Arguments lk_client {Cl} _.
Arguments lk_server {Cl} _.
Arguments lk_up {Cl} _.
Arguments lk_down {Cl} _.
Inductive lk_event (Ev : Type) := LClient (e : Ev) | LServer (e : event).
Arguments LClient {Ev} e.
Arguments LServer {Ev} e.

Section Product.
Context `{IpNet} {Cl Ev : Type}.
(** The client: its steps, those that keep the connection, and its ends of the link. *)
Context (cstep : Cl -> Ev -> option Cl) (keeps_link : Ev -> bool).
Context (sends : Cl -> Ev -> list Frame) (gets : Ev -> list Frame).
Context (c : cid).

Definition link_step (t : Linked Cl) (e : lk_event Ev) : option (Linked Cl) :=
  match e with
  | LClient e =>
    if keeps_link e then
      down ← arrive (gets e) (lk_down t);
      m ← cstep (lk_client t) e;
      Some (mkLinked m (lk_server t) (lk_up t ++ sends (lk_client t) e) down)
    else None
  | LServer e =>
    up ← arrive (heard c e) (lk_up t);
    s ← step (lk_server t) e;
    Some (mkLinked (lk_client t) s up (lk_down t ++ server_sends c (lk_server t) e))
  end.

(** What is invariant of the client, with the frames it sent and received. *)
Context (J : Cl -> list Frame -> list Frame -> Prop).
Hypothesis J_step : forall m out inp e m', J m out inp -> keeps_link e = true -> cstep m e = Some m' ->
  J m' (out ++ sends m e) (inp ++ gets e).
Context (cfg : ServerConfig) (v6 tun : bool) (now : Z) (greeted said : list Frame).

(** The server has run on what it heard before the link and what arrived since; either
    end has sent what arrived at the other and what is in flight. *)
Definition joined (es : list event) (t : Linked Cl) : Prop := exists got out inp,
  run es (start cfg v6 tun now) = Some (lk_server t) /\ frames c es = greeted ++ got /\ out = got ++ lk_up t /\
  log_of c (lk_server t) = said ++ inp ++ lk_down t /\ J (lk_client t) out inp.

Lemma joined_start es m s : run es (start cfg v6 tun now) = Some s -> frames c es = greeted -> log_of c s = said ->
  J m [] [] -> joined es (mkLinked m s [] []).
Proof. intros Hr Hf Hl HJ. exists [], [], []. cbn. by rewrite !app_nil_r. Qed.
(** The server's part of a joint run. *)
Definition server_event (e : lk_event Ev) : list event := match e with LServer e => [e] | LClient _ => [] end.
Definition server_events : list (lk_event Ev) -> list event := flat_map server_event.
Lemma joined_step es t e t' : joined es t -> link_step t e = Some t' -> joined (es ++ server_event e) t'.
Proof.
  intros (got & out & inp & Hr & Hf & -> & Hl & HJ). destruct e as [e|e]; cbn [link_step server_event].
  - destruct (keeps_link e) eqn:K; [|done]. intros (down & Hd%arrive_Some & (m & Em & [= <-])%bind_Some)%bind_Some.
    exists got, ((got ++ lk_up t) ++ sends (lk_client t) e), (inp ++ gets e). rewrite app_nil_r.
    split_and!; cbn; try done; [by rewrite app_assoc| |by eapply J_step].
    by rewrite Hl, Hd, <- app_assoc.
  - intros (up & Hup%arrive_Some & (s & Es & [= <-])%bind_Some)%bind_Some.
    exists (got ++ heard c e), (got ++ lk_up t), inp. split_and!; cbn.
    + rewrite runs_app, Hr. cbn [mbind option_bind runs]. by rewrite Es.
    + by rewrite received_snoc, Hf, app_assoc.
    + by rewrite Hup, app_assoc.
    + rewrite (step_log c _ _ _ (inv_fresh _ (run_inv _ _ _ _ _ _ Hr)) Es), Hl. by rewrite !app_assoc.
    + done.
Qed.
Lemma joined_runs es ls t t' : joined es t -> runs link_step ls t = Some t' -> joined (es ++ server_events ls) t'.
Proof.
  revert es t. induction ls as [|e ls IH]; intros es t Hj; cbn [runs]; [intros [= <-]; cbn; by rewrite app_nil_r|].
  intros (t1 & E & Hr)%bind_Some. cbn. rewrite app_assoc. eapply IH; [by eapply joined_step|done].
Qed.
End Product.
