(* ===== verification/Joining.v ===== *)
(** A client joins a server: the greeting of a hop (Chain.v) against the server's
    transition system (Session.v), over a link that delivers what was sent. *)
From stdpp Require Import gmap.
From S2P Require Import Prelude Calls Net Text Core Mpsc ServerConfig Router Session SessionInv SessionLaws ServerThms.
From S2P Require Import ClientConfig.
From S2P Require Chain.

(** ** Where the hello of a connection comes from *)

Section Hello.
Context `{IpNet}.

Definition hello_of (p : Phase) : option Hello :=
  match p with
  | Looking h | Offering h _ => Some h
  | AwaitHello | Rejecting _ => None
  | _ => ss_hello <$> session_of p
  end.

(** A step of a connection keeps its hello, forgets it, or has just received it. *)
Definition greets (c : cid) (e : option Hello) (s s' : Server) : Prop := exists k k',
  sv_conns s !! c = Some k /\ sv_conns s' = <[c := k']> (sv_conns s) /\
  (hello_of (cn_phase k') = hello_of (cn_phase k) \/ hello_of (cn_phase k') = None \/ hello_of (cn_phase k') = e).

Ltac greets_by K := intros [= <-]; eexists _, _; split_and!; [exact K|reflexivity|cbn; try match goal with P : cn_phase _ = _ |- _ => rewrite P end; cbn; auto].

Lemma received_greets c r k s s' : sv_conns s !! c = Some k -> received c r k s = Some s' ->
  greets c match r with Ok (FHello h) => Some h | _ => None end s s'.
Proof.
  intros K. unfold received. destruct (cn_phase k) as [| | | | | | |ss [|]| | | | |] eqn:P; try done.
  - greets_by K. destruct r as [[]|]; auto.
  - greets_by K. destruct r; auto.
Qed.
Lemma tau_greets c rnd k s s' : sv_conns s !! c = Some k -> tau c rnd k s = Some s' -> greets c None s s'.
Proof.
  intros K. unfold tau. destruct (cn_phase k) as [|h| |h p|ss w|ss w| |ss [|a todo]|ss b|ss b|ss|ss|] eqn:P; try done.
  - greets_by K. destruct (admission _ _); auto.
  - destruct (net_offer _ _ _ _ _) as [ss w] eqn:E. apply net_offer_eq in E as (-> & _). greets_by K.
  - greets_by K.
  - greets_by K.
  - destruct (awaits_dev s a); [done|]. intros [= <-].
    destruct (do_action_conn c false ss a todo k s) as (q & m & E). eexists _, _.
    split_and!; [exact K|exact E|cbn; rewrite P; auto].
  - greets_by K.
  - destruct b; greets_by K.
  - greets_by K.
  - greets_by K.
Qed.
Lemma tun_greets c b k s s' : sv_conns s !! c = Some k -> tun_wrote c b k s = Some s' -> greets c None s s'.
Proof.
  intros K (ss & pkt & rest & P & _ & ->)%tun_wrote_Some.
  destruct (do_action_conn c b ss (ATun pkt) rest k s) as (q & m & E). eexists _, _.
  split_and!; [exact K|exact E|cbn; rewrite P; auto].
Qed.
Lemma sent_greets c b k s s' : sv_conns s !! c = Some k -> sent c b k s = Some s' -> greets c None s s'.
Proof. intros K. unfold sent. destruct (cn_phase k) eqn:P; try done; destruct b; greets_by K. Qed.
Lemma writer_greets c b k s s' : sv_conns s !! c = Some k ->
  (writer_take c k s = Some s' \/ writer_sent c b k s = Some s' \/ writer_tau c k s = Some s' \/ writer_stop c k s = Some s') ->
  greets c None s s'.
Proof.
  intros K [E|[E|[E|E]]]; revert E; unfold writer_take, writer_sent, writer_tau, writer_stop;
    destruct (cn_writer k) eqn:W; try done; try (destruct (cn_stop k); try done); try (destruct b); try (greets_by K; fail).
  all: destruct (sv_queues s !! c) as [q|]; [cbn [mbind option_bind]|done]; destruct (pop q) as [[f q']|]; [greets_by K|].
  all: destruct (no_senders c k s); [greets_by K|done].
Qed.

(** Whoever is served under a hello sent it on that connection. *)
Definition said (es : list event) (s : Server) : Prop :=
  forall c k h, sv_conns s !! c = Some k -> hello_of (cn_phase k) = Some h -> ERecv c (Ok (FHello h)) ∈ es.
Lemma greets_said c o s s' es e : said es s -> greets c o s s' -> (forall h, o = Some h -> e = ERecv c (Ok (FHello h))) ->
  said (es ++ [e]) s'.
Proof.
  intros Hs (k & k' & K & E & Ho) He d kd h. rewrite E, lookup_insert_Some. intros [[<- <-]|[_ Kd]] Hh.
  - destruct Ho as [Ho|[Ho|Ho]]; rewrite Hh in Ho; [|done|].
    + apply elem_of_app. left. by apply (Hs c k).
    + rewrite (He h) by done. set_solver.
  - apply elem_of_app. left. by apply (Hs d kd).
Qed.
Lemma conns_said s s' es e : said es s -> sv_conns s' = sv_conns s -> said (es ++ [e]) s'.
Proof. intros Hs E c k h. rewrite E. intros K Hh. apply elem_of_app. left. by apply (Hs c k). Qed.

Lemma step_said s e s' es : said es s -> step s e = Some s' -> said (es ++ [e]) s'.
Proof.
  intros Hs E. destruct e; cbn [step] in E.
  1-3: repeat case_match; simplify_eq; by eapply conns_said.
  1: { injection E as <-. intros c k h. cbn. rewrite lookup_insert_Some. intros [[_ <-]|[_ K]] Hh; [done|].
       apply elem_of_app. left. by apply (Hs c k). }
  9: { repeat case_match; simplify_eq; by eapply conns_said. }
  1-8: apply bind_Some in E as (k & K & E).
  9-14: apply bind_Some in E as (x & X & E); eapply conns_said; [exact Hs|]; eapply task_step_keeps; eauto 12.
  - eapply greets_said; [exact Hs|by eapply received_greets|]. intros h. destruct r as [[]|]; congruence.
  - eapply greets_said; [exact Hs|by eapply tau_greets|done].
  - eapply greets_said; [exact Hs|by eapply tun_greets|done].
  - eapply greets_said; [exact Hs|by eapply sent_greets|done].
  - eapply greets_said; [exact Hs|eapply writer_greets; eauto|done].
  - eapply greets_said; [exact Hs|eapply writer_greets; eauto|done].
  - eapply greets_said; [exact Hs|eapply writer_greets; eauto|done].
  - eapply greets_said; [exact Hs|eapply writer_greets; eauto|done].
  Unshelve. all: first [exact (Err Closed)|exact 0|exact true|exact (Ok [])|exact (Err "")].
Qed.
Lemma run_said es c v6 tun now s : run es (start c v6 tun now) = Some s -> said es s.
Proof.
  revert s. induction es as [|e es IH] using rev_ind; intros s.
  - intros [= <-] d k h K. done.
  - rewrite runs_app. intros (s1 & E & Hr)%bind_Some. cbn in Hr.
    destruct (step s1 e) as [s2|] eqn:E2; [|done]. injection Hr as <-. eauto using step_said.
Qed.
End Hello.

Lemma hello_of_session p ss : session_of p = Some ss -> hello_of p = Some (ss_hello ss).
Proof. destruct p; cbn; try done; try (by intros [= ->]); by intros ->. Qed.
(** What the transport accepted first for a connection. *)
Lemma log_head k f : log_inv k -> head (cn_log k) = Some f ->
  (exists x, f = FReject x /\ cn_log k = [FReject x] /\ cn_phase k = Finished None) \/
  (exists w ss, f = FWelcome w /\ session_of (cn_phase k) = Some ss /\ assigned_ip w = assigned ss /\ assigned_ip6 w = ss_ip6 ss).
Proof.
  unfold log_inv, silent, welcomed, agrees. intros Hl Hf.
  assert (cn_log k <> []) as Hn by (by destruct (cn_log k)).
  destruct (cn_phase k) as [| | | | | | | | | | | |[ss|]]; try tauto.
  all: try (destruct Hl as [[? _]|(w & rest & El & ? & ?)]; [done|]; rewrite El in Hf; injection Hf as <-; right; by exists w, s).
  - destruct Hl as (w & rest & El & ? & ?). rewrite El in Hf. injection Hf as <-. right. by exists w, s.
  - destruct Hl as [[? _]|(w & rest & El & ? & ?)]; [done|]. rewrite El in Hf. injection Hf as <-. right. by exists w, ss.
  - destruct Hl as (_ & [?|[x El]]); [done|]. rewrite El in Hf. injection Hf as <-. left. by exists x.
Qed.

(** ** When the addresses of a session were routed *)

(** The session of a connection that has registered its IPv4, its IPv6 address. *)
Definition past4 (p : Phase) : option Session :=
  match p with Register6 _ _ | Register4 _ _ => None | _ => session_of p end.
Definition past6 (p : Phase) : option Session :=
  match p with Register6 _ _ => None | _ => session_of p end.
(** The address leads to the connection, and nothing was sent to its client yet. *)
Definition routed4 (c : cid) (ip : Ipv4Addr) (s : Server) : Prop := exists k e, sv_conns s !! c = Some k /\ cn_log k = [] /\
  Router.v4s (sv_router s) !! ip = Some e /\ e_tx e = c.
Definition routed6 (c : cid) (ip6 : option Ipv6Addr) (s : Server) : Prop := exists k, sv_conns s !! c = Some k /\ cn_log k = [] /\
  forall a, ip6 = Some a -> Router.v6s (sv_router s) !! a = Some c.
(** Something was so at an instant of a run. *)
Definition once `{IpNet} (P : Server -> Prop) (es : list event) (s0 : Server) : Prop :=
  exists es1 es2 s1, es = es1 ++ es2 /\ run es1 s0 = Some s1 /\ P s1.

Section Routed.
Context `{IpNet}.

Definition past (f : Phase -> option Session) (c : cid) (ss : Session) (s : Server) : Prop :=
  exists k, sv_conns s !! c = Some k /\ f (cn_phase k) = Some ss.

Ltac past_by := cbn; rewrite lookup_insert_Some; intros [[<- <-]|[_ ?]] ?; [|left; eexists; split; eassumption];
  cbn in *; try done; (left; eexists; split; [eassumption|];
  repeat match goal with P : cn_phase _ = _ |- _ => rewrite P in *; clear P end; done).
Lemma move_past4 s s' c k ss : logs_ok s -> move s s' -> sv_conns s' !! c = Some k -> past4 (cn_phase k) = Some ss ->
  past past4 c ss s \/ routed4 c (assigned ss) s'.
Proof.
  intros Hl Hm. unfold past. destruct Hm; try (past_by; fail); try (by left; eauto).
  - cbn. rewrite lookup_insert_Some. intros [[<- <-]|[_ ?]] Hp; [right|left; eauto]. injection Hp as ->.
    conn_inv Hl. unfold log_inv in *. rewrite H1 in *.
    eexists _, _. cbn. rewrite !lookup_insert_eq. split_and!; [done|by destruct H2 as [[? _] _]|done|done].
  - destruct (do_action_conn c0 b ss0 a rest k0 s) as (p & m & ->). rewrite lookup_insert_Some.
    intros [[<- <-]|[_ ?]] Hp; left; [|eauto]. exists k0. by rewrite H1.
Qed.
Lemma move_past6 s s' c k ss : logs_ok s -> move s s' -> sv_conns s' !! c = Some k -> past6 (cn_phase k) = Some ss ->
  past past6 c ss s \/ routed6 c (ss_ip6 ss) s'.
Proof.
  intros Hl Hm. unfold past. destruct Hm; try (past_by; fail); try (by left; eauto).
  - cbn. rewrite lookup_insert_Some. intros [[<- <-]|[_ ?]] Hp; [right|left; eauto]. injection Hp as ->.
    conn_inv Hl. unfold log_inv in *. rewrite H1 in *.
    eexists. cbn. rewrite !lookup_insert_eq. split_and!; [done|by destruct H2 as [[? _] _]|].
    intros a ->. cbn. by rewrite lookup_insert_eq.
  - destruct (do_action_conn c0 b ss0 a rest k0 s) as (p & m & ->). rewrite lookup_insert_Some.
    intros [[<- <-]|[_ ?]] Hp; left; [|eauto]. exists k0. by rewrite H1.
Qed.

Lemma run_past f (P : cid -> Session -> Server -> Prop) es cfg v6 tun now s c ss :
  (forall s s' c k ss, logs_ok s -> move s s' -> sv_conns s' !! c = Some k -> f (cn_phase k) = Some ss ->
     past f c ss s \/ P c ss s') ->
  run es (start cfg v6 tun now) = Some s -> past f c ss s -> once (P c ss) es (start cfg v6 tun now).
Proof.
  intros Hf. revert s. induction es as [|e es IH] using rev_ind; intros s Hr (k & Hk & Hp).
  - injection Hr as <-. done.
  - pose proof Hr as Hr'. rewrite runs_app in Hr. apply bind_Some in Hr as (s1 & Hr1 & E). cbn in E.
    destruct (step s1 e) as [s2|] eqn:E2; [|done]. injection E as ->.
    destruct (Hf s1 s c k ss (inv_logs _ (run_inv _ _ _ _ _ _ Hr1)) (step_moves _ _ _ E2) Hk Hp) as [Hpast|Hnow].
    + destruct (IH s1 Hr1 Hpast) as (es1 & es2 & t & -> & Ht & HP). exists es1, (es2 ++ [e]), t. by rewrite <- app_assoc.
    + exists (es ++ [e]), [], s. by rewrite app_nil_r.
Qed.
End Routed.

(** ** Greeting a server *)

(** The hello and its answer, as a hop of a chain, a direct session and a redial do it. *)
Definition greet `{Chain.World} (debug : Frame -> string) (h : Hello) : eff Chain.trace Error Welcome :=
  Chain.send (FHello h);; Chain.await_welcome debug.
Lemma handshake_greets `{Chain.World} debug s mode rip name :
  Chain.handshake debug s mode rip name = greet debug (Chain.hop_hello s mode rip name).
Proof. done. Qed.

Lemma greet_outcome `{Chain.World} debug h tr tr' r : greet debug h tr = (tr', r) ->
  (exists e, r = Err e /\ (Chain.w_send tr (FHello h) = Err e \/
     (Chain.w_send tr (FHello h) = Ok tt /\ Chain.w_recv (tr ++ [Chain.CSend (FHello h)]) = Err e))) \/
  (exists f, Chain.w_recv (tr ++ [Chain.CSend (FHello h)]) = Ok f /\
     r = match f with FWelcome w => Ok w | FReject x => Err (Auth x)
         | f => Err (Protocol ("expected Welcome, got " +:+ debug f)) end).
Proof.
  unfold greet, Chain.send, Chain.await_welcome, Chain.recv.
  intros [(e & Es & -> & ->)|([] & Es & E)]%ask_bind; [left; eauto|].
  apply ask_bind in E as [(e & Er & -> & ->)|(f & Er & E)]; [left; eauto|].
  right. exists f. split; [done|]. destruct f; by injection E as _ <-.
Qed.

(** C8. Client and server agree on who joined.  A client greets a server that runs under any
    interleaving of its other work and any rewriting of its configuration, over a link
    that delivers to the server only what this client sent and to the client first what
    the server sent first.  If the greeting succeeds, the server has, or had until it
    ended, a session on that connection for exactly the client's hello, with a peer record
    that a configuration of the run gave its token, enabled and permitted that mode; the
    addresses the client was told are those of that session, and at an instant of the run
    before anything was sent to the client, the router led the IPv4 address to that
    connection, and at one the IPv6 address if there is one (a later session of the same
    peer takes the routes over).  If the server refused, the client has its reason and no
    session exists; nothing else can be an answer, only the link can fail. *)
Theorem client_joins `{IpNet} `{Chain.World} debug (h : Hello) es cfg v6 tun now sv c k tr tr' r :
  run es (start cfg v6 tun now) = Some sv -> sv_conns sv !! c = Some k ->
  (forall h', ERecv c (Ok (FHello h')) ∈ es -> h' = h) ->
  (forall f, Chain.w_recv (tr ++ [Chain.CSend (FHello h)]) = Ok f -> head (cn_log k) = Some f) ->
  greet debug h tr = (tr', r) ->
  match r with
  | Ok w => hello_version h = PROTOCOL_VERSION /\
      exists ss, session_of (cn_phase k) = Some ss /\ ss_hello ss = h /\
        assigned_ip w = assigned ss /\ assigned_ip6 w = ss_ip6 ss /\ enabled (ss_peer ss) = true /\
        (hello_mode h = GlobalProxy -> allow_global (ss_peer ss) = true) /\
        (exists cf, In cf (cfg :: configs es) /\ find_peer cf (hello_token h) = Some (ss_peer ss)) /\
        once (routed4 c (assigned_ip w)) es (start cfg v6 tun now) /\
        once (routed6 c (assigned_ip6 w)) es (start cfg v6 tun now)
  | Err e =>
      (exists x, e = Auth x /\ cn_log k = [FReject x] /\ cn_phase k = Finished None) \/
      Chain.w_send tr (FHello h) = Err e \/
      (Chain.w_send tr (FHello h) = Ok tt /\ Chain.w_recv (tr ++ [Chain.CSend (FHello h)]) = Err e)
  end.
Proof.
  intros Hr Hk Hsent Hlink Hg. pose proof (run_inv _ _ _ _ _ _ Hr) as Hinv.
  pose proof (map_Forall_lookup_1 _ _ _ _ (inv_logs _ Hinv) Hk) as Hl. cbv beta in Hl.
  apply greet_outcome in Hg as [(e & -> & Hf)|(f & Ef & ->)]; [by right|].
  apply Hlink in Ef. assert (cn_log k <> []) as Hlog by (by destruct (cn_log k)). destruct (log_head _ _ Hl Ef) as [(x & -> & Elog & Ep)|(w & ss & -> & Es & Ha & H6)].
  { left. by exists x. }
  assert (ss_hello ss = h) as Eh.
  { apply Hsent, (run_said _ _ _ _ _ _ Hr c k); [done|]. by apply hello_of_session. }
  pose proof (map_Forall_lookup_1 _ _ _ _ (inv_auth _ Hinv) Hk) as Hau. cbv beta in Hau.
  assert (authorised (ss_hello ss) (ss_peer ss)) as (Hv & _ & He & Hgl) by (destruct (cn_phase k); try done; by apply Hau).
  rewrite Eh in *. split; [done|]. exists ss. split_and!; try done; [rewrite <- Eh|..].
  2: { rewrite Ha. apply (run_past past4 (fun c ss => routed4 c (assigned ss)) _ _ _ _ _ _ _ _ move_past4 Hr).
       exists k. split; [done|]. unfold log_inv, silent in Hl. destruct (cn_phase k); try done; by destruct Hl as [[? _] _]. }
  2: { rewrite H6. apply (run_past past6 (fun c ss => routed6 c (ss_ip6 ss)) _ _ _ _ _ _ _ _ move_past6 Hr).
       exists k. split; [done|]. unfold log_inv, silent in Hl. destruct (cn_phase k); try done; by destruct Hl as [[? _] _]. }
  assert (known (cfg :: configs es) sv) as [_ Hkn].
  { apply (run_known es [cfg] _ _ Hr). split; [by left|apply map_Forall_empty]. }
  pose proof (map_Forall_lookup_1 _ _ _ _ Hkn Hk) as Hp. cbv beta in Hp. destruct (cn_phase k); try done; by apply Hp.
Qed.

(** ** A client of the server of [Demo] *)

Module JoinDemo.
Definition es : list event := Demo.login 0 Vpn.
(** The link hands over what the server sent first. *)
#[export] Instance world : Chain.World := {|
  Chain.w_lookup _ _ _ := Err (mkIo OtherKind "no such host");
  Chain.w_transports _ := Chain.ChainDemo.transports;
  Chain.w_open _ _ := Ok tt;
  Chain.w_send _ _ := Ok tt;
  Chain.w_recv _ := ok_or Closed (head (cn_log (Demo.conn es 0))) |}.
End JoinDemo.
#[local] Existing Instance Demo.net.
#[local] Existing Instance JoinDemo.world.
Lemma client_joins_witness : exists w ss, (greet (fun _ => "") (Demo.hello Vpn) []).2 = Ok w /\
  session_of (cn_phase (Demo.conn JoinDemo.es 0)) = Some ss /\ assigned_ip w = assigned ss.
Proof.
  assert (exists w, (greet (fun _ => "") (Demo.hello Vpn) []).2 = Ok w) as [w E].
  { eexists. vm_compute. reflexivity. }
  pose proof (client_joins (fun _ => "") (Demo.hello Vpn) JoinDemo.es Demo.cfg true true 0 (Demo.after JoinDemo.es) 0
    (Demo.conn JoinDemo.es 0) [] (greet (fun _ => "") (Demo.hello Vpn) []).1 (Ok w)) as Hj.
  destruct Hj as (_ & ss & Es & _ & Ea & _).
  - demo.
  - demo.
  - intros h'. unfold JoinDemo.es, Demo.login. rewrite !elem_of_cons, elem_of_nil. naive_solver.
  - intros f. cbn [Chain.w_recv JoinDemo.world]. unfold ok_or. destruct (head _); [by intros [= ->]|done].
  - rewrite <- E. apply surjective_pairing.
  - exists w, ss. by split_and!.
Defined.
