(* ===== verification/Tunnel.v ===== *)
(** The packet path end to end: the engine of a client (client-core/src/engine.rs, pump and
    bridge) linked to the server's transition system (server/src/session.rs). *)
From stdpp Require Import gmap.
From S2P Require Import Prelude Net Text Core Mpsc ServerConfig Router Session SessionInv SessionLaws ServerThms Uplink Link.
From S2P Require Engine EngineThms.
Import Engine (Path, pevent, PTun, PPush, PTake, PSent, PRecv, PWrote, PRedialed, PStall, PKeepalive, PCancel, pstep, path_start,
  UpState, Idle, Sending, LinkState, Bridging, Redialing, Over,
  DownState, Receiving, Writing, pa_up, pa_down, pa_link, pa_wire, pa_writes, pa_tun, pa_read, pa_buf, pa_done, pa_losses, pa_reader, pa_hold, pa_cancel).
Import EngineThms (path_ok, flight, held, sent_of, unsent).

(** What a step hands to the transport, and what it takes from it; a successful redial
    replaces the connection. *)
Definition client_sends (p : Path) (e : pevent) : list Frame :=
  match e, pa_link p, pa_up p with PSent true, Bridging, Sending f => [f] | _, _, _ => [] end.
Definition client_gets (e : pevent) : list Frame := match e with PRecv (Ok f) => [f] | _ => [] end.
Definition same_link (e : pevent) : bool := match e with PRedialed (Ok _) => false | _ => true end.

Abbreviation Tunnel := (Linked Path).
Definition tunnel_step `{IpNet} : cid -> Tunnel -> lk_event pevent -> option Tunnel :=
  link_step pstep same_link client_sends client_gets.

(** ** The client's side *)

(** The packets the downlink has taken off the connection: those it is done with, and the
    one it is writing. *)
Definition writing (p : Path) : list bytes := match pa_down p with Writing b => [b] | Receiving => [] end.
Definition downed (p : Path) : list bytes := map snd (pa_writes p) ++ writing p.

Lemma settle_io b p : pa_wire (Engine.settle b p) = pa_wire p /\ downed (Engine.settle b p) = downed p /\
  pa_read (Engine.settle b p) = pa_read p /\ pa_losses (Engine.settle b p) = pa_losses p /\
  pa_link (Engine.settle b p) = pa_link p.
Proof. unfold Engine.settle. destruct (pa_up p) as [|[]]; done. Qed.
Lemma wrote_io b p : pa_wire (Engine.wrote_tun b p) = pa_wire p /\ downed (Engine.wrote_tun b p) = downed p /\
  pa_read (Engine.wrote_tun b p) = pa_read p /\ pa_losses (Engine.wrote_tun b p) = pa_losses p /\
  pa_link (Engine.wrote_tun b p) = pa_link p.
Proof.
  unfold Engine.wrote_tun, downed, writing. destruct (pa_down p) eqn:D; [by rewrite D|].
  cbn. by rewrite map_app, app_nil_r.
Qed.
Lemma abandon_io p : pa_wire (Engine.abandon p) = pa_wire p /\ downed (Engine.abandon p) = downed p /\
  pa_read (Engine.abandon p) = pa_read p.
Proof.
  unfold Engine.abandon. destruct (wrote_io false (Engine.settle false p)) as (-> & -> & -> & _).
  by destruct (settle_io false p) as (-> & -> & -> & _).
Qed.

Definition moved (p p' : Path) (out got : list Frame) : Prop :=
  pa_wire p' = pa_wire p ++ out /\ downed p' = downed p ++ packets got /\ pa_read p `prefix_of` pa_read p' /\
  (pa_link p' = Bridging -> pa_link p = Bridging /\ pa_losses p' = pa_losses p).
Lemma moved_same p p' got : pa_wire p' = pa_wire p -> downed p' = downed p -> pa_read p' = pa_read p -> packets got = [] ->
  (pa_link p' = Bridging -> pa_link p = Bridging /\ pa_losses p' = pa_losses p) -> moved p p' [] got.
Proof. intros E1 E2 E3 E4 H. unfold moved. rewrite E1, E2, E3, E4, !app_nil_r. by split_and!. Qed.
Lemma lost_moved p got : packets got = [] -> moved p (Engine.lost p) [] got.
Proof.
  intros Hg. destruct (abandon_io p) as (E1 & E2 & E3). unfold Engine.lost. cbn.
  destruct (pa_cancel _); by apply moved_same.
Qed.
Lemma ended_moved p : moved p (Engine.ended p) [] [].
Proof. destruct (abandon_io p) as (E1 & E2 & E3). by apply moved_same. Qed.
Lemma pstep_moved p e p' : pstep p e = Some p' -> same_link e = true ->
  moved p p' (client_sends p e) (client_gets e).
Proof.
  intros E Hn. destruct e; cbn [client_sends client_gets]; revert E; cbn.
  - destruct (pa_reader p); [|done]. destruct (pa_hold p); [done|].
    destruct r as [[|y b]|]; intros [= <-]; try by apply moved_same.
    split_and!; cbn; [by rewrite app_nil_r..|by apply prefix_app_r|done].
  - destruct (pa_hold p) as [b|]; [|done]. destruct (send_ready _); [|done]. destruct (try_send b _). intros [= <-].
    by apply moved_same.
  - destruct (pa_cancel p); [|done]. intros [= <-]. by apply moved_same.
  - destruct (pa_link p) eqn:L, (pa_up p); try done. intros [= <-]. by apply moved_same.
  - destruct (pa_link p) eqn:L, (pa_up p); try done. case_match; [|done]. intros [= <-]. by apply moved_same.
  - destruct (pa_link p) eqn:L, (pa_up p); try done. destruct (pop _) as [[]|]; [|done]. intros [= <-]. by apply moved_same.
  - destruct (pa_link p) eqn:L, (pa_up p); try done. destruct (pop _) as [[]|]; [done|]. destruct (pa_reader p); [done|].
    intros [= <-]. apply ended_moved.
  - destruct (pa_link p) eqn:L, (pa_up p) eqn:U; try done. destruct ok; intros [= <-]; [|by apply lost_moved].
    destruct (settle_io true p) as (E1 & E2 & E3 & E4 & E5). unfold moved, downed, writing in *. cbn. rewrite E1, E2, E3, E4, E5, app_nil_r. done.
  - destruct (pa_link p) eqn:L, (pa_down p) eqn:D; try done. destruct r as [f|]; [|intros [= <-]; by apply lost_moved].
    destruct f; intros [= <-]; try by apply moved_same. unfold moved, downed, writing. cbn. by rewrite D, !app_nil_r.
  - destruct (pa_link p) eqn:L, (pa_down p) eqn:D; try done. intros [= <-].
    destruct (wrote_io ok p) as (E1 & E2 & E3 & E4 & E5). by apply moved_same.
  - destruct (pa_link p); try done. intros [= <-]. by apply lost_moved.
  - intros [= <-]. by apply moved_same.
  - destruct (pa_cancel p); [|done]. destruct (pa_link p); try done; intros [= <-]; apply ended_moved.
  - unfold Engine.redialed. destruct (pa_link p); try done. destruct r as [w|]; [done|].
    destruct (_ <? _); intros [= <-]; by apply moved_same.
Qed.
Lemma client_sends_link p e p' : pstep p e = Some p' -> client_sends p e = [] \/ pa_link p' = Bridging.
Proof.
  unfold client_sends. destruct e; auto. destruct ok; auto. cbn. destruct (pa_link p) eqn:L; auto. destruct (pa_up p) eqn:U; auto.
  intros [= <-]. right. cbn. by destruct (settle_io true p) as (_ & _ & _ & _ & ->).
Qed.

(** A path whose connection was never lost has sent a prefix of what it read. *)
Lemma first_link p : path_ok p -> pa_link p = Bridging -> pa_losses p = 0%nat ->
  packets (pa_wire p) = map snd (pa_done p).
Proof.
  intros [[_ _ Hw Hu] _] L Z. unfold EngineThms.over_slack in Hu. rewrite L, Z in Hu. rewrite Hw. clear Hw.
  revert Hu. induction (pa_done p) as [|[b x] l IH]; [done|]. destruct b; cbn; [|lia].
  intros Hu. f_equal. by apply IH.
Qed.

(** The client's part of the invariant: its path, what it sent and what it received. *)
Record pumped (p : Path) (out inp : list Frame) : Prop := {
  pm_path : path_ok p;
  pm_wire : pa_wire p = out;
  pm_down : downed p = packets inp;
  pm_first : pa_link p = Bridging -> pa_losses p = 0%nat;
  pm_read : packets (pa_wire p) `prefix_of` pa_read p;
}.
Lemma pumped_start w member re st : pumped (path_start w member re st) [] [].
Proof. split; try done. apply EngineThms.path_start_ok. Qed.
Lemma pumped_step p out inp e p' : pumped p out inp -> same_link e = true -> pstep p e = Some p' ->
  pumped p' (out ++ client_sends p e) (inp ++ client_gets e).
Proof.
  intros [Hp Hw Ht H1 Hd] Hn Ep. destruct (pstep_moved _ _ _ Ep Hn) as (M1 & M2 & M3 & M4).
  pose proof (EngineThms.pstep_ok _ _ _ Hp Ep) as Hp'.
  assert (pa_link p' = Bridging -> pa_losses p' = 0%nat) as H1' by (intros L; destruct (M4 L) as [? ->]; auto).
  split; try done.
  - by rewrite M1, Hw.
  - by rewrite M2, Ht, packets_app.
  - destruct (client_sends_link _ _ _ Ep) as [Ec|L].
    + rewrite M1, Ec, app_nil_r. by etrans.
    + rewrite first_link by auto. destruct Hp' as [[(tl & -> & _) _ _ _] _]. by apply prefix_app_r.
Qed.

(** The client's path starts when it has been welcomed, with nothing in flight. *)
Definition tunnel_start (w : Welcome) (member : bool) (re : Engine.Redial) (st : Engine.LiveStatus) (s : Server) : Tunnel :=
  mkLinked (path_start w member re st) s [] [].

(** What the device took of the packets handed to the server's TUN for a client. *)
Definition dev_of (c : cid) (s : Server) : list bytes :=
  omap (fun p => if decide (p.1 = c) then Some p.2 else None) (sv_dev s).
Lemma taken_sublist p : pa_tun p `sublist_of` map snd (pa_writes p).
Proof. unfold pa_tun. induction (pa_writes p) as [|[[|] x] l IH]; cbn; by try constructor. Qed.
Lemma dev_tun c s : dev_of c s `sublist_of` tun_of c s.
Proof.
  unfold dev_of, tun_of, sv_dev, sv_tun. induction (sv_writes s) as [|[[d b] ok] l IH]; cbn; [done|].
  destruct ok; cbn; case_decide; by try constructor.
Qed.

(** C3. End to end, the tunnel loses nothing on the way, repeats nothing and reorders
    nothing.  From the moment the client is welcomed, in every interleaving of its engine,
    the server and the transport, and until the connection is replaced: the packets the
    server handed to its TUN for this client are a prefix of those the client read off its
    own; the packets the client handed to its TUN, the one it is writing and those in
    flight to it are exactly those the server's writer sent; either device may refuse a
    packet, which is ignored, so what it took is a subsequence of what it was handed; and
    if the server has a TUN, the session is on the packet path, the client's connection is
    up and its TUN reader alive, a packet the client read is in one place: handed to the
    server's TUN, in the hands of its handler (which awaits that device), in flight, being
    sent, in the client's buffer, or waiting for room there, in this order. *)
Theorem tunnel_in_order `{IpNet} es0 es c cfg v6 tun now h s0 w member re st t k ss :
  run es0 (start cfg v6 tun now) = Some s0 -> frames c es0 = [FHello h] -> packets (log_of c s0) = [] ->
  runs (tunnel_step c) es (tunnel_start w member re st s0) = Some t ->
  sv_conns (lk_server t) !! c = Some k -> session_of (cn_phase k) = Some ss ->
  let p := lk_client t in let s := lk_server t in
  tun_of c s `prefix_of` pa_read p /\ dev_of c s `sublist_of` tun_of c s /\
  map snd (pa_writes p) ++ writing p ++ packets (lk_down t) = packets (cn_log k) /\
  pa_tun p `sublist_of` map snd (pa_writes p) /\
  (sv_has_tun s = true -> packet_path ss = true -> pa_link p = Bridging -> pa_reader p = true ->
   pa_read p = tun_of c s ++ omap tun_act (todo_of (cn_phase k)) ++ packets (lk_up t) ++
     flight p ++ items (pa_buf p) ++ held p).
Proof.
  intros Hr0 Hf0 Hl0 Hr Hk Hs p s.
  apply (joined_runs pstep same_link client_sends client_gets c pumped pumped_step cfg v6 tun now [FHello h] (log_of c s0)
    es0) in Hr; [|by eapply joined_start; eauto using pumped_start].
  destruct Hr as (got & out & inp & Hr1 & Hf & Eo & Hl & [Hok Hw Ht H1 Hrd]).
  fold p s in Hr1, Eo, Hl, Hok, Hw, Ht, H1, Hrd, Hk. rewrite <- Hw in Eo.
  pose proof (proj1 (run_ups _ _ _ _ _ _ Hr1) c k Hk) as Hu. unfold up_conn in Hu. rewrite Hs in Hu.
  destruct Hu as (done & E & Et & _).
  assert (omap tun_act done ++ omap tun_act (todo_of (cn_phase k)) = if packet_path ss then packets got else []) as Ed.
  { assert (omap tun_act (ups (todo_of (cn_phase k))) = omap tun_act (todo_of (cn_phase k))) as <-.
    { clear. induction (todo_of (cn_phase k)) as [|a l IH]; [done|]. unfold ups in *. destruct a; cbn; by rewrite ?IH. }
    rewrite <- omap_app, <- E, tun_acts, Hf. by destruct (packet_path ss). }
  split_and!.
  - transitivity (packets (pa_wire p)); [|done]. rewrite Eo, packets_app, Et. apply prefix_app_r.
    destruct (sv_has_tun s); [|apply prefix_nil].
    destruct (packet_path ss); [rewrite <- Ed; by apply prefix_app_r|]. apply app_eq_nil in Ed as [-> _]. apply prefix_nil.
  - apply dev_tun.
  - apply (f_equal packets) in Hl. rewrite !packets_app, Hl0, <- Ht, app_nil_l in Hl. rewrite app_assoc.
    change (map snd (pa_writes p) ++ writing p) with (downed p). rewrite <- Hl. unfold log_of. by rewrite Hk.
  - apply taken_sublist.
  - intros Htun Hpp L Ha. rewrite Et, Htun. rewrite Hpp in Ed. rewrite app_assoc, Ed.
    pose proof Hok as [[(tl & Hq & Hno & _) _ _ _] _]. rewrite Hq, (Hno Ha), app_nil_r.
    rewrite <- first_link by auto. by rewrite Eo, packets_app, <- app_assoc.
Qed.

(** ** Witness *)

#[local] Existing Instance Demo.net.
Module TunnelDemo.
Definition login : list event := Demo.login 0 Vpn.
Definition welcome : Welcome := (net_offer Demo.cfg true (Demo.hello Vpn) (mkPeer "example" "tok" (v4 10 66 0 2) true true true) 5).2.
Definition first : Tunnel := tunnel_start welcome true (Engine.RChain [] None) Engine.no_status (Demo.after login).
(** A packet for the client's own address goes up, comes back off the server's TUN, and a
    second one is in the hands of the server's handler, which awaits the device, a third
    in the client's buffer; the client's TUN refused what came back. *)
Definition up : list (lk_event pevent) := map LClient [PTun (Ok Demo.packet); PPush; PTake; PSent true].
Definition read : list (lk_event pevent) := map LServer [ERecv 0 (Ok (FPacket Demo.packet)); ETau 0 0; ETau 0 0].
Definition history : list (lk_event pevent) := up ++ read ++ map LServer [EDev 0 true; ETun (Ok Demo.packet); EWTake 0; EWSent 0 true] ++
  map LClient [PRecv (Ok (FPacket Demo.packet)); PWrote false] ++ up ++ read ++ map LClient [PTun (Ok [Byte.x45]); PPush].
Definition final : Tunnel := default first (runs (tunnel_step 0) history first).
Definition possible : bool := match runs (tunnel_step 0) history first with Some _ => true | None => false end.
Lemma history_runs : possible = true -> runs (tunnel_step 0) history first = Some final.
Proof. unfold possible, final. by destruct (runs (tunnel_step 0) history first). Qed.
Definition conn : Conn := default (mkConn "" AwaitHello WNone false ∅ []) (sv_conns (lk_server final) !! 0%nat).
Definition has : bool := match sv_conns (lk_server final) !! 0%nat with Some _ => true | None => false end.
Lemma end_conn_at : has = true -> sv_conns (lk_server final) !! 0%nat = Some conn.
Proof. unfold has, conn. by destruct (sv_conns (lk_server final) !! 0%nat). Qed.
End TunnelDemo.
Lemma tunnel_in_order_witness :
  pa_read (lk_client TunnelDemo.final) = [Demo.packet; Demo.packet; [Byte.x45]] /\
  dev_of 0 (lk_server TunnelDemo.final) = [Demo.packet] /\ pa_writes (lk_client TunnelDemo.final) = [(false, Demo.packet)] /\
  tun_of 0 (lk_server TunnelDemo.final) `prefix_of` pa_read (lk_client TunnelDemo.final) /\
  map snd (pa_writes (lk_client TunnelDemo.final)) ++ writing (lk_client TunnelDemo.final) ++
    packets (lk_down TunnelDemo.final) = packets (cn_log TunnelDemo.conn).
Proof.
  split; [vm_compute; reflexivity|]. split; [vm_compute; reflexivity|]. split; [vm_compute; reflexivity|].
  destruct (tunnel_in_order TunnelDemo.login TunnelDemo.history 0 Demo.cfg true true 0 (Demo.hello Vpn)
    (Demo.after TunnelDemo.login) TunnelDemo.welcome true (Engine.RChain [] None) Engine.no_status TunnelDemo.final
    TunnelDemo.conn (Demo.session Vpn)) as (Hp & _ & Hd & _);
    [demo|demo|demo|apply TunnelDemo.history_runs; vm_compute; reflexivity|apply TunnelDemo.end_conn_at; vm_compute; reflexivity|demo|].
  split; [exact Hp|exact Hd].
Defined.
