(* ===== verification/Mux.v ===== *)
(** The multiplexer of the local HTTP proxy (core/client-core/src/proxy.rs): local
    connections, the stream map, the loops that own the writer and the reader of the
    encrypted link, and the peer-LAN tasks, as one transition system.

    A local connection has a key of its own; its stream id is a wrapping [u32].  The
    stream map holds, for an id, the key of the connection whose channel it feeds. *)
From S2P Require Import Prelude Net Text Core Mpsc HttpHead Engine.

Inductive ToLocal := LData (d : bytes) | LClose.

(** The uplink task of a connection, and where its handler stands. *)
Inductive UpTask := UpNone | UpReading | UpSending (d : bytes) | UpClosing | UpDone.
Inductive LPhase :=
  | LHead
  | LOpening (t : TargetAddr) (is_connect : bool) (forward : bytes)
  | LReplying
  | LForwarding (d : bytes)
  | LPiping
  | LWriting (d : bytes)
  | LRemoving
  | LGone.

Record Local := mkLocal {
  l_id : Z;
  l_phase : LPhase;
  l_up : UpTask;
  l_stop : bool;
  l_rx : mpsc ToLocal;
  l_reply : bool;
  l_target : option TargetAddr;
  l_read : list bytes;
  l_written : list bytes;
  l_in : list bytes;
  l_base : nat;
  l_head : option (bool * list bytes);
  l_later : list bytes;
}.
(** [l_written] is what was written to the socket after the reply of [l_reply].  The
    other last fields record the history: the target of the head, the chunks handed on
    to the server, those routed to the connection, how many frames had been received when
    it registered, the reads of the socket that made up the head and whether it was a
    CONNECT, and the later reads of the socket. *)
(** Everything read off the socket, once the head was accepted. *)
Definition l_socket (l : Local) : list bytes :=
  match l_head l with Some (_, reads) => reads ++ l_later l | None => [] end.

Inductive MWriter := MWIdle | MWSending (f : Frame) | MWClosing | MWDone.
Inductive MReader := MRIdle | MRSending (k : nat) (m : ToLocal) (n : Z) | MRPonging | MRWriting (pkt : bytes) | MRDone.
Inductive TunTask := TNone | TIdle | TSending (pkt : bytes) | TDone.
Inductive PollTask := PNone | PIdle | PSending | PDone.

Record Mux := mkMux {
  mx_status : LiveStatus;
  mx_streams : gmap Z nat;
  mx_locals : gmap nat Local;
  mx_next : nat;
  mx_out : mpsc Frame;
  mx_writer : MWriter;
  mx_reader : MReader;
  mx_tun : TunTask;
  mx_poll : PollTask;
  mx_cancel : bool;
  mx_over : bool;
  mx_wire : list Frame;
  mx_writes : list (bool * bytes);
  mx_recvd : list Frame;
  mx_taken : list Frame;
  mx_pushed : list (option nat * Frame);
}.
(** [mx_wire] is what the link accepted, [mx_writes] the packets handed
    to the LAN TUN and whether it took them; the
    last three record the frames received, those taken from the queue, and those put
    into it with the connection they came from. *)

Definition next_id (n : nat) : Z := wrap 32 (1 + Z.of_nat n).

Definition set_mstatus (f : LiveStatus -> LiveStatus) (s : Mux) : Mux :=
  mkMux (f (mx_status s)) (mx_streams s) (mx_locals s) (mx_next s) (mx_out s) (mx_writer s) (mx_reader s)
    (mx_tun s) (mx_poll s) (mx_cancel s) (mx_over s) (mx_wire s) (mx_writes s) (mx_recvd s) (mx_taken s) (mx_pushed s).
Definition set_streams (f : gmap Z nat -> gmap Z nat) (s : Mux) : Mux :=
  mkMux (mx_status s) (f (mx_streams s)) (mx_locals s) (mx_next s) (mx_out s) (mx_writer s) (mx_reader s)
    (mx_tun s) (mx_poll s) (mx_cancel s) (mx_over s) (mx_wire s) (mx_writes s) (mx_recvd s) (mx_taken s) (mx_pushed s).
Definition set_local (k : nat) (l : Local) (s : Mux) : Mux :=
  mkMux (mx_status s) (mx_streams s) (<[k := l]> (mx_locals s)) (mx_next s) (mx_out s) (mx_writer s) (mx_reader s)
    (mx_tun s) (mx_poll s) (mx_cancel s) (mx_over s) (mx_wire s) (mx_writes s) (mx_recvd s) (mx_taken s) (mx_pushed s).
Definition set_next (n : nat) (s : Mux) : Mux :=
  mkMux (mx_status s) (mx_streams s) (mx_locals s) n (mx_out s) (mx_writer s) (mx_reader s)
    (mx_tun s) (mx_poll s) (mx_cancel s) (mx_over s) (mx_wire s) (mx_writes s) (mx_recvd s) (mx_taken s) (mx_pushed s).
Definition set_queue (m : mpsc Frame) (pushed : list (option nat * Frame)) (s : Mux) : Mux :=
  mkMux (mx_status s) (mx_streams s) (mx_locals s) (mx_next s) m (mx_writer s) (mx_reader s)
    (mx_tun s) (mx_poll s) (mx_cancel s) (mx_over s) (mx_wire s) (mx_writes s) (mx_recvd s) (mx_taken s) pushed.
Definition set_mwriter (w : MWriter) (m : mpsc Frame) (wire taken : list Frame) (s : Mux) : Mux :=
  mkMux (mx_status s) (mx_streams s) (mx_locals s) (mx_next s) m w (mx_reader s)
    (mx_tun s) (mx_poll s) (mx_cancel s) (mx_over s) wire (mx_writes s) (mx_recvd s) taken (mx_pushed s).
Definition set_mreader (r : MReader) (s : Mux) : Mux :=
  mkMux (mx_status s) (mx_streams s) (mx_locals s) (mx_next s) (mx_out s) (mx_writer s) r
    (mx_tun s) (mx_poll s) (mx_cancel s) (mx_over s) (mx_wire s) (mx_writes s) (mx_recvd s) (mx_taken s) (mx_pushed s).
Definition log_recv (f : Frame) (s : Mux) : Mux :=
  mkMux (mx_status s) (mx_streams s) (mx_locals s) (mx_next s) (mx_out s) (mx_writer s) (mx_reader s)
    (mx_tun s) (mx_poll s) (mx_cancel s) (mx_over s) (mx_wire s) (mx_writes s) (mx_recvd s ++ [f]) (mx_taken s) (mx_pushed s).
Definition set_aux (t : TunTask) (p : PollTask) (s : Mux) : Mux :=
  mkMux (mx_status s) (mx_streams s) (mx_locals s) (mx_next s) (mx_out s) (mx_writer s) (mx_reader s)
    t p (mx_cancel s) (mx_over s) (mx_wire s) (mx_writes s) (mx_recvd s) (mx_taken s) (mx_pushed s).
Definition set_flags (c o : bool) (s : Mux) : Mux :=
  mkMux (mx_status s) (mx_streams s) (mx_locals s) (mx_next s) (mx_out s) (mx_writer s) (mx_reader s)
    (mx_tun s) (mx_poll s) c o (mx_wire s) (mx_writes s) (mx_recvd s) (mx_taken s) (mx_pushed s).
(** A write to the LAN TUN is over; a failure is ignored. *)
Definition write_dev (ok : bool) (pkt : bytes) (s : Mux) : Mux :=
  mkMux (mx_status s) (mx_streams s) (mx_locals s) (mx_next s) (mx_out s) (mx_writer s) (mx_reader s)
    (mx_tun s) (mx_poll s) (mx_cancel s) (mx_over s) (mx_wire s) (mx_writes s ++ [(ok, pkt)]) (mx_recvd s) (mx_taken s) (mx_pushed s).

(** A new connection, and what a handler changes of it. *)
Definition new_local (id : Z) : Local :=
  mkLocal id LHead UpNone false (close_rx (mpsc_new 256)) false None [] [] [] 0 None [].
Definition in_lphase (p : LPhase) (l : Local) : Local :=
  mkLocal (l_id l) p (l_up l) (l_stop l) (l_rx l) (l_reply l) (l_target l) (l_read l) (l_written l) (l_in l) (l_base l) (l_head l) (l_later l).
Definition in_up (u : UpTask) (l : Local) : Local :=
  mkLocal (l_id l) (l_phase l) u (l_stop l) (l_rx l) (l_reply l) (l_target l) (l_read l) (l_written l) (l_in l) (l_base l) (l_head l) (l_later l).
(** Registration: a channel for 256 messages; the history starts here. *)
Definition registered (t : TargetAddr) (base : nat) (head : bool * list bytes) (l : Local) : Local :=
  mkLocal (l_id l) (l_phase l) (l_up l) (l_stop l) (mpsc_new 256) (l_reply l) (Some t) (l_read l) (l_written l) (l_in l)
    base (Some head) (l_later l).
(** What the handler read with the head is forwarded, in one chunk. *)
Definition forwarding (d : bytes) (l : Local) : Local :=
  mkLocal (l_id l) (l_phase l) (l_up l) (l_stop l) (l_rx l) (l_reply l) (l_target l) (l_read l ++ [d]) (l_written l) (l_in l) (l_base l) (l_head l) (l_later l).
(** The uplink task read a chunk. *)
Definition took (d : bytes) (l : Local) : Local :=
  mkLocal (l_id l) (l_phase l) (l_up l) (l_stop l) (l_rx l) (l_reply l) (l_target l) (l_read l ++ [d]) (l_written l) (l_in l) (l_base l) (l_head l) (l_later l ++ [d]).
Definition replied (l : Local) : Local :=
  mkLocal (l_id l) (l_phase l) (l_up l) (l_stop l) (l_rx l) true (l_target l) (l_read l) (l_written l) (l_in l) (l_base l) (l_head l) (l_later l).
Definition set_rx (m : mpsc ToLocal) (l : Local) : Local :=
  mkLocal (l_id l) (l_phase l) (l_up l) (l_stop l) m (l_reply l) (l_target l) (l_read l) (l_written l) (l_in l) (l_base l) (l_head l) (l_later l).
Definition wrote (d : bytes) (l : Local) : Local :=
  mkLocal (l_id l) (l_phase l) (l_up l) (l_stop l) (l_rx l) (l_reply l) (l_target l) (l_read l) (l_written l ++ [d]) (l_in l) (l_base l) (l_head l) (l_later l).
Definition routed_in (d : bytes) (l : Local) : Local :=
  mkLocal (l_id l) (l_phase l) (l_up l) (l_stop l) (l_rx l) (l_reply l) (l_target l) (l_read l) (l_written l) (l_in l ++ [d]) (l_base l) (l_head l) (l_later l).
(** The downlink loop is over: the uplink task is aborted. *)
Definition down_over (l : Local) : Local :=
  mkLocal (l_id l) LRemoving (l_up l) true (l_rx l) (l_reply l) (l_target l) (l_read l) (l_written l) (l_in l) (l_base l) (l_head l) (l_later l).
(** [handle_local] returns: its receiver is dropped. *)
Definition local_gone (l : Local) : Local := set_rx (close_rx (l_rx l)) (in_lphase LGone l).
(** Once the stream is open and the first bytes are on their way, both directions run. *)
Definition piping (l : Local) : Local := in_up UpReading (in_lphase LPiping l).

Inductive mevent :=
  | MAccept
  | MHead (k : nat) (reads : list (result IoError bytes))
  | MPush (k : nat)
  | MReplied (k : nat) (ok : bool)
  | MRead (k : nat) (r : result IoError bytes)
  | MUpPush (k : nat)
  | MUpStop (k : nat)
  | MDown (k : nat)
  | MWrote (k : nat) (ok : bool)
  | MRemove (k : nat)
  | MKeepalive
  | MTake
  | MSent (ok : bool)
  | MWStop
  | MWClosed
  | MRecv (r : Result Frame)
  | MDeliver
  | MDevWrote (ok : bool)
  | MPong
  | MRStop
  | MTunRead (r : result string bytes)
  | MTunPush
  | MPoll
  | MPollPush
  | MTunStop
  | MPollStop
  | MCancel
  | MStop.

(** A send on the frame queue completes: there is room, or the writer loop is gone. *)
Definition push (k : option nat) (f : Frame) (s : Mux) : option (Mux * bool) :=
  if send_ready (mx_out s) then
    let (m, ok) := try_send f (mx_out s) in
    Some (set_queue m (if ok then mx_pushed s ++ [(k, f)] else mx_pushed s) s, ok)
  else None.

(** No sender of the connection's channel is left. *)
Definition no_sender (k : nat) (s : Mux) : bool :=
  bool_decide (map_Forall (fun _ x => x <> k) (mx_streams s)) &&
  match mx_reader s with MRSending j _ _ => negb (bool_decide (j = k)) | _ => true end.

Section Local.
(** Rust's [{:?}] rendering of a string, used in one error message. *)
Variable debug : bytes -> string.

(** [handle_local], one await per step. *)
Definition local_step (k : nat) (l : Local) (e : mevent) (s : Mux) : option Mux :=
  match e, l_phase l with
  | MHead _ reads, LHead =>
    r ← parse_http_head debug [] reads;
    match r with
    | Err _ => Some (set_local k (local_gone l) s)
    | Ok (t, is_connect, forward) =>
      Some (set_streams (insert (l_id l) k)
        (set_local k (in_lphase (LOpening t is_connect forward) (registered t (length (mx_recvd s)) (is_connect, head_reads [] reads) l)) s))
    end
  | MPush _, LOpening t is_connect forward =>
    p ← push (Some k) (FStreamOpen (l_id l) t) s;
    let (s, ok) := p : Mux * bool in
    Some (set_local k
      (if ok then
         if is_connect then in_lphase LReplying l
         else match forward with
              | [] => piping l
              | _ => in_lphase (LForwarding forward) (forwarding forward l)
              end
       else local_gone l) s)
  | MReplied _ ok, LReplying => Some (set_local k (if ok then piping (replied l) else local_gone l) s)
  | MPush _, LForwarding d =>
    p ← push (Some k) (FStreamData (l_id l) d) s;
    let (s, ok) := p : Mux * bool in
    Some (set_local k (if ok then piping l else local_gone l) s)
  | MDown _, LPiping =>
    match pop (l_rx l) with
    | Some (LData d, m) => Some (set_local k (set_rx m (in_lphase (LWriting d) l)) s)
    | Some (LClose, m) => Some (set_local k (set_rx m (down_over l)) s)
    | None => if no_sender k s then Some (set_local k (down_over l) s) else None
    end
  | MWrote _ ok, LWriting d =>
    Some (set_local k (if ok then in_lphase LPiping (wrote d l) else down_over l) s)
  | MRemove _, LRemoving => Some (set_streams (delete (l_id l)) (set_local k (local_gone l) s))
  | _, _ => None
  end.
End Local.

(** The uplink task; [abort] takes effect at an await. *)
Definition up_step (k : nat) (l : Local) (e : mevent) (s : Mux) : option Mux :=
  match e, l_up l with
  | MRead _ r, UpReading =>
    match r with
    | Ok [] | Err _ => Some (set_local k (in_up UpClosing l) s)
    | Ok d =>
      if (length d <=? Z.to_nat 16384)%nat
      then Some (set_local k (in_up (UpSending d) (took d l)) s) else None
    end
  | MUpPush _, UpSending d =>
    p ← push (Some k) (FStreamData (l_id l) d) s;
    let (s, ok) := p : Mux * bool in
    Some (set_local k (in_up (if ok then UpReading else UpClosing) l) s)
  | MUpPush _, UpClosing =>
    p ← push (Some k) (FStreamClose (l_id l) None) s;
    Some (set_local k (in_up UpDone l) p.1)
  | MUpStop _, UpReading | MUpStop _, UpSending _ | MUpStop _, UpClosing =>
    if l_stop l then Some (set_local k (in_up UpDone l) s) else None
  | _, _ => None
  end.

(** The loops select between their input and the cancellation; what a branch then awaits
    is only stopped by the [abort] at the end of [run_http_mode]. *)
Definition stoppable (in_select : bool) (s : Mux) : bool := if in_select then mx_cancel s else mx_over s.

(** [writer_loop]: the counting follows the send without an await; the queue is dropped
    once the channel was closed. *)
Definition writer_step (e : mevent) (s : Mux) : option Mux :=
  match e, mx_writer s with
  | MKeepalive, MWIdle => Some (set_mwriter (MWSending FPing) (mx_out s) (mx_wire s) (mx_taken s) s)
  | MTake, MWIdle =>
    p ← pop (mx_out s);
    let (f, m) := p : Frame * mpsc Frame in
    Some (set_mwriter (MWSending f) m (mx_wire s) (mx_taken s ++ [f]) s)
  | MSent ok, MWSending f =>
    if ok then Some (set_mstatus (add_traffic_up (payload_len f))
                 (set_mwriter MWIdle (mx_out s) (mx_wire s ++ [f]) (mx_taken s) s))
    else Some (set_mwriter MWClosing (mx_out s) (mx_wire s) (mx_taken s) s)
  | MWStop, MWIdle =>
    if stoppable true s then Some (set_mwriter MWClosing (mx_out s) (mx_wire s) (mx_taken s) s) else None
  | MWClosed, MWClosing => Some (set_mwriter MWDone (close_rx (mx_out s)) (mx_wire s) (mx_taken s) s)
  | MWStop, MWSending _ | MWStop, MWClosing =>
    if stoppable false s then Some (set_mwriter MWDone (close_rx (mx_out s)) (mx_wire s) (mx_taken s) s) else None
  | _, _ => None
  end.

(** [reader_loop]. *)
Definition reader_step (e : mevent) (s : Mux) : option Mux :=
  match e, mx_reader s with
  | MRecv r, MRIdle =>
    match r with
    | Ok (FStreamData id d as f) =>
      let n := Z.of_nat (length d) in
      match mx_streams s !! id with
      | Some k =>
        l ← mx_locals s !! k;
        Some (set_mreader (MRSending k (LData d) n) (set_local k (routed_in d l) (log_recv f s)))
      | None => Some (set_mstatus (add_traffic_down n) (log_recv f s))
      end
    | Ok (FStreamClose id _ as f) =>
      match mx_streams s !! id with
      | Some k => Some (set_mreader (MRSending k LClose 0) (set_streams (delete id) (log_recv f s)))
      | None => Some (log_recv f s)
      end
    | Ok FPing => Some (set_mreader MRPonging (log_recv FPing s))
    | Ok (FPacket pkt) =>
      Some match mx_tun s with
           | TNone => set_mstatus (add_traffic_down (Z.of_nat (length pkt))) (log_recv (FPacket pkt) s)
           | _ => set_mreader (MRWriting pkt) (log_recv (FPacket pkt) s)
           end
    | Ok (FPeerList ps) => Some (set_mstatus (show_peers ps) (log_recv (FPeerList ps) s))
    | Ok f => Some (log_recv f s)
    | Err _ => Some (set_mreader MRDone s)
    end
  | MDeliver, MRSending k m n =>
    l ← mx_locals s !! k;
    if send_ready (l_rx l)
    then Some (set_mreader MRIdle (set_mstatus (add_traffic_down n) (set_local k (set_rx (try_send m (l_rx l)).1 l) s)))
    else None
  | MDevWrote ok, MRWriting pkt =>
    Some (set_mreader MRIdle (set_mstatus (add_traffic_down (Z.of_nat (length pkt))) (write_dev ok pkt s)))
  | MPong, MRPonging => p ← push None FPong s; Some (set_mreader MRIdle p.1)
  | MRStop, MRDone => None
  | MRStop, r =>
    if stoppable match r with MRIdle => true | _ => false end s then Some (set_mreader MRDone s) else None
  | _, _ => None
  end.

(** The LAN tasks: packets off the TUN, and the peer poll. *)
Definition aux_step (e : mevent) (s : Mux) : option Mux :=
  match e, mx_tun s, mx_poll s with
  | MTunRead r, TIdle, p =>
    Some match r with
    | Ok [] => s
    | Ok pkt => set_aux (TSending pkt) p s
    | Err _ => set_aux TDone p s
    end
  | MTunPush, TSending pkt, p =>
    q ← push None (FPacket pkt) s;
    Some (set_aux (if q.2 : bool then TIdle else TDone) p q.1)
  | MPoll, t, PIdle => Some (set_aux t PSending s)
  | MPollPush, t, PSending => q ← push None FGetPeers s; Some (set_aux t (if q.2 : bool then PIdle else PDone) q.1)
  | MTunStop, TIdle, p => if stoppable true s then Some (set_aux TDone p s) else None
  | MTunStop, TSending _, p => if stoppable false s then Some (set_aux TDone p s) else None
  | MPollStop, t, PIdle => if stoppable true s then Some (set_aux t PDone s) else None
  | MPollStop, t, PSending => if stoppable false s then Some (set_aux t PDone s) else None
  | _, _, _ => None
  end.

Definition event_key (e : mevent) : option nat :=
  match e with
  | MHead k _ | MPush k | MReplied k _ | MDown k | MWrote k _ | MRemove k => Some k
  | MRead k _ | MUpPush k | MUpStop k => Some k
  | _ => None
  end.
Definition is_up_event (e : mevent) : bool :=
  match e with MRead _ _ | MUpPush _ | MUpStop _ => true | _ => false end.

Section Step.
Variable debug : bytes -> string.

Definition mstep (s : Mux) (e : mevent) : option Mux :=
  match e with
  | MAccept =>
    if mx_over s then None
    else Some (set_next (S (mx_next s)) (set_local (mx_next s) (new_local (next_id (mx_next s))) s))
  | MCancel => Some (set_flags true (mx_over s) s)
  | MStop => if mx_cancel s then Some (set_flags true true s) else None
  | MKeepalive | MTake | MSent _ | MWStop | MWClosed => writer_step e s
  | MRecv _ | MDeliver | MDevWrote _ | MPong | MRStop => reader_step e s
  | MTunRead _ | MTunPush | MPoll | MPollPush | MTunStop | MPollStop => aux_step e s
  | _ =>
    k ← event_key e;
    l ← mx_locals s !! k;
    if is_up_event e then up_step k l e s else local_step debug k l e s
  end.

End Step.
Abbreviation mrun debug := (runs (mstep debug)).

(** The state [run_http_mode] enters its accept loop in. *)
Definition mux_start (member : bool) (status : LiveStatus) : Mux :=
  mkMux status ∅ ∅ 0 (mpsc_new 1024) MWIdle MRIdle
    (if member then TIdle else TNone) (if member then PIdle else PNone) false false [] [] [] [] [].
