(* ===== verification/MuxThms.v ===== *)
(** Theorems about the multiplexer: what the server sees of a local connection, what a
    connection gets back, bounds, counters, and what a failed reply leaves behind. *)
From S2P Require Import Prelude Net Text Core Mpsc HttpHead Engine Mux.

(** ** What a step can do to the queue, the writer and the history *)

Definition stream_id (f : Frame) : option Z :=
  match f with FStreamOpen id _ | FStreamData id _ | FStreamClose id _ => Some id | _ => None end.
Definition frames_of (id : Z) (fs : list Frame) : list Frame :=
  List.filter (fun f => bool_decide (stream_id f = Some id)) fs.
Definition tagged (k : nat) (l : list (option nat * Frame)) : list Frame :=
  map snd (List.filter (fun p => bool_decide (p.1 = Some k)) l).
Definition no_pings (fs : list Frame) : list Frame :=
  List.filter (fun f => match f with FPing => false | _ => true end) fs.
#[local] Arguments no_pings : simpl never.
#[local] Arguments tagged : simpl never.
Definition tag_ok (p : option nat * Frame) : Prop :=
  match p.1 with
  | Some k => stream_id p.2 = Some (next_id k)
  | None => stream_id p.2 = None /\ p.2 <> FPing
  end.

Lemma push_spec k f s s' ok : push k f s = Some (s', ok) ->
  (ok = true /\ rx_open (mx_out s) = true /\ queue_len (mx_out s) < cap (mx_out s) /\
   s' = set_queue (mkMpsc (items (mx_out s) ++ [f]) (cap (mx_out s)) true) (mx_pushed s ++ [(k, f)]) s) \/
  (ok = false /\ rx_open (mx_out s) = false /\ s' = s).
Proof.
  unfold push, send_ready, try_send. destruct (rx_open (mx_out s)) eqn:Ho; cbn [negb orb andb].
  - destruct (Z.ltb_spec (queue_len (mx_out s)) (cap (mx_out s))); [|done]. intros [= <- <-]. by left.
  - intros [= <- <-]. right. split_and!; try done. by destruct s.
Qed.

Definition flight (w : MWriter) : list Frame := match w with MWSending f => [f] | _ => [] end.

Record queue_inv (s : Mux) : Prop := {
  qi_cap : mpsc_ok 1024 (mx_out s);
  qi_fifo : exists tail, map snd (mx_pushed s) = mx_taken s ++ items (mx_out s) ++ tail /\
    (rx_open (mx_out s) = true -> tail = []);
  qi_tags : Forall tag_ok (mx_pushed s);
  qi_wire : match mx_writer s with
    | MWIdle | MWSending _ => no_pings (mx_wire s ++ flight (mx_writer s)) = mx_taken s
    | _ => no_pings (mx_wire s) `prefix_of` mx_taken s
    end;
}.

(** Opens one step into its cases, with what each push did. *)
Ltac step_cases H :=
  repeat match type of H with
  | context [push ?k ?f ?s ≫= _] =>
      let q := fresh "q" in let ok := fresh "ok" in let E := fresh "E" in
      destruct (push k f s) as [[q ok]|] eqn:E; [|discriminate H];
      apply push_spec in E as [(-> & ? & ? & ->)|(-> & ? & ->)]; cbn in H
  | context [match ?x with _ => _ end] => destruct x eqn:?; try discriminate H; cbn in H
  | context [?x ≫= _] => destruct x eqn:?; [|discriminate H]; cbn in H
  end; try (injection H as <-).
Ltac mux_cases H :=
  match type of H with mstep _ _ ?e = _ => destruct e end; cbn in H;
  unfold local_step, up_step, writer_step, reader_step, aux_step in H; step_cases H.

Definition ids_inv (s : Mux) : Prop :=
  forall k l, mx_locals s !! k = Some l -> (k < mx_next s)%nat /\ l_id l = next_id k.

(** ** What a connection has put into the queue *)

(** The frames of an open stream: what was read in order, and the close once all was sent. *)
Definition stream_frames (id : Z) (t : TargetAddr) (chunks : list bytes) (closed : bool) : list Frame :=
  FStreamOpen id t :: map (FStreamData id) chunks ++ (if closed then [FStreamClose id None] else []).
Definition up_state (l : Local) (chunks : list bytes) (closed open : bool) : Prop :=
  match l_up l with
  | UpDone => chunks `prefix_of` l_read l /\ (closed = true -> chunks = l_read l)
  | UpClosing => closed = false /\ chunks `prefix_of` l_read l /\ (open = true -> chunks = l_read l)
  | UpReading => closed = false /\ l_read l = chunks
  | UpSending d => closed = false /\ l_read l = chunks ++ [d]
  | UpNone => closed = false /\
      match l_phase l with
      | LGone => chunks `prefix_of` l_read l
      | LForwarding d => l_read l = chunks ++ [d]
      | _ => l_read l = chunks
      end
  end.
Definition phase_up (l : Local) : Prop :=
  match l_phase l with
  | LHead | LOpening _ _ _ => False
  | LReplying | LForwarding _ => l_up l = UpNone
  | LGone => True
  | _ => l_up l <> UpNone
  end.
Definition up_ok (l : Local) (tg : list Frame) (open : bool) : Prop :=
  (tg = [] /\ l_up l = UpNone /\ l_read l = [] /\
   match l_phase l with LHead | LGone => True | LOpening t _ _ => l_target l = Some t | _ => False end) \/
  (exists t chunks closed, l_target l = Some t /\ tg = stream_frames (l_id l) t chunks closed /\
     phase_up l /\ up_state l chunks closed open).

Lemma up_ok_mono l tg o o' : up_ok l tg o -> (o' = true -> o = true) -> up_ok l tg o'.
Proof.
  intros [H|(t & c & b & H1 & H2 & H3 & H4)] Ho; [by left|right]. exists t, c, b. split_and!; try done.
  unfold up_state in *. destruct (l_up l); naive_solver.
Qed.
Lemma tagged_app k a b : tagged k (a ++ b) = tagged k a ++ tagged k b.
Proof. unfold tagged. by rewrite List.filter_app, map_app. Qed.
Lemma tagged_one k j f : tagged k [(j, f)] = if bool_decide (j = Some k) then [f] else [].
Proof. unfold tagged. cbn. by case_bool_decide. Qed.
Lemma frames_snoc id t chunks d :
  stream_frames id t chunks false ++ [FStreamData id d] = stream_frames id t (chunks ++ [d]) false.
Proof. unfold stream_frames. by rewrite !app_nil_r, map_app. Qed.
Lemma frames_close id t chunks :
  stream_frames id t chunks false ++ [FStreamClose id None] = stream_frames id t chunks true.
Proof. unfold stream_frames. by rewrite app_nil_r. Qed.

Definition up_inv (s : Mux) : Prop := forall k,
  match mx_locals s !! k with
  | Some l => up_ok l (tagged k (mx_pushed s)) (rx_open (mx_out s))
  | None => tagged k (mx_pushed s) = []
  end.

Section Thms.
Variable debug : bytes -> string.

Lemma ids_set k l l' s s' : ids_inv s -> mx_locals s !! k = Some l ->
  mx_locals s' = <[k := l']> (mx_locals s) -> mx_next s' = mx_next s -> l_id l' = l_id l -> ids_inv s'.
Proof.
  intros H Hk Hs Hn Hl j x. rewrite Hs, Hn. intros [[<- <-]|[Hne Hj]]%lookup_insert_Some; [|by apply H].
  rewrite Hl. split; by eapply H.
Qed.
Lemma ids_step s e s' : ids_inv s -> mstep debug s e = Some s' -> ids_inv s'.
Proof.
  intros H E. mux_cases E; try exact H; try (by eapply ids_set; [exact H|eassumption|reflexivity..]).
  intros j x. cbn. intros [[<- <-]|[Hne Hj]]%lookup_insert_Some; [by split; [lia|]|].
  apply H in Hj as [? ?]. split; [lia|done].
Qed.

Lemma up_set k l' s s' : up_inv s -> mx_locals s' = <[k := l']> (mx_locals s) ->
  (exists new, mx_pushed s' = mx_pushed s ++ new /\ Forall (fun p => p.1 = Some k) new) ->
  (rx_open (mx_out s') = true -> rx_open (mx_out s) = true) ->
  up_ok l' (tagged k (mx_pushed s')) (rx_open (mx_out s')) -> up_inv s'.
Proof.
  intros H Hs (new & Hp & Hnew) Ho Hl j. rewrite Hs. destruct (decide (j = k)) as [->|Hne].
  - by rewrite lookup_insert_eq.
  - rewrite lookup_insert_ne by done. specialize (H j).
    assert (tagged j (mx_pushed s') = tagged j (mx_pushed s)) as ->.
    { rewrite Hp, tagged_app. assert (tagged j new = []) as ->; [|by rewrite app_nil_r].
      clear Hp. induction Hnew as [|[x f] new Hx _ IH]; [done|]. cbn in Hx. subst x.
      change (?a :: new) with ([a] ++ new). rewrite tagged_app, IH, tagged_one, app_nil_r.
      by rewrite bool_decide_false by congruence. }
    destruct (mx_locals s !! j); [|done]. by eapply up_ok_mono.
Qed.
Lemma up_keep s s' : up_inv s -> mx_locals s' = mx_locals s ->
  (exists new, mx_pushed s' = mx_pushed s ++ new /\ Forall (fun p => p.1 = None) new) ->
  (rx_open (mx_out s') = true -> rx_open (mx_out s) = true) -> up_inv s'.
Proof.
  intros H Hs (new & Hp & Hnew) Ho j. rewrite Hs. specialize (H j).
  assert (tagged j (mx_pushed s') = tagged j (mx_pushed s)) as ->.
  { rewrite Hp, tagged_app. assert (tagged j new = []) as ->; [|by rewrite app_nil_r].
    clear Hp. induction Hnew as [|[x f] new Hx _ IH]; [done|]. cbn in Hx. subst x.
    change (?a :: new) with ([a] ++ new). rewrite tagged_app, IH, tagged_one. done. }
  destruct (mx_locals s !! j); [|done]. by eapply up_ok_mono.
Qed.

(** A connection's own steps, without and with a frame put into the queue. *)
Lemma up_local k l l' s s' : up_inv s -> mx_locals s !! k = Some l ->
  mx_locals s' = <[k := l']> (mx_locals s) -> mx_pushed s' = mx_pushed s -> mx_out s' = mx_out s ->
  (forall tg, up_ok l tg (rx_open (mx_out s)) -> up_ok l' tg (rx_open (mx_out s))) -> up_inv s'.
Proof.
  intros H Hk Hs Hp Ho Hl. eapply up_set; [exact H|exact Hs| | |].
  - exists []. by rewrite app_nil_r.
  - by rewrite Ho.
  - rewrite Hp, Ho. apply Hl. specialize (H k). by rewrite Hk in H.
Qed.
Lemma up_push k l l' f m s s' : up_inv s -> mx_locals s !! k = Some l -> rx_open (mx_out s) = true ->
  s' = set_local k l' (set_queue m (mx_pushed s ++ [(Some k, f)]) s) ->
  (forall tg, up_ok l tg true -> up_ok l' (tg ++ [f]) true) -> up_inv s'.
Proof.
  intros H Hk Ho -> Hl. eapply up_set; [exact H|reflexivity| |done|].
  - eexists. split; [reflexivity|by repeat constructor].
  - cbn [mx_pushed mx_out set_local set_queue]. rewrite tagged_app, tagged_one, bool_decide_true by done.
    specialize (H k). rewrite Hk, Ho in H. eapply up_ok_mono; [by apply Hl|done].
Qed.

(** What the steps do to one connection's share of the invariant. *)
Definition same_up (l l' : Local) : Prop :=
  l_id l' = l_id l /\ l_target l' = l_target l.
Definition mid (l : Local) : Prop :=
  match l_phase l with LPiping | LWriting _ | LRemoving => True | _ => False end.

Lemma up_ok_mid l l' tg o : mid l -> mid l' -> same_up l l' -> l_read l' = l_read l -> l_up l' = l_up l ->
  up_ok l tg o -> up_ok l' tg o.
Proof.
  unfold mid. intros Hm Hm' [Hi Ht] Hr Hu [(_ & _ & _ & Hp)|(t & c & b & H1 & -> & Hp & Hs)].
  - by destruct (l_phase l).
  - right. exists t, c, b. unfold phase_up, up_state in *. rewrite Hi, Ht, Hr, Hu in *.
    destruct (l_phase l), (l_phase l'); try done; destruct (l_up l); by split_and!.
Qed.
(** The downlink changes nothing of it. *)
Lemma up_ok_same l l' tg o : same_up l l' -> l_read l' = l_read l -> l_up l' = l_up l -> l_phase l' = l_phase l ->
  up_ok l tg o -> up_ok l' tg o.
Proof. intros [Hi Ht] Hr Hu Hp. unfold up_ok, phase_up, up_state. by rewrite Hi, Ht, Hr, Hu, Hp. Qed.
Lemma up_ok_head l t ic f base hd tg o : l_phase l = LHead ->
  up_ok l tg o -> up_ok (in_lphase (LOpening t ic f) (registered t base hd l)) tg o.
Proof.
  intros Hp [(-> & Hu & Hr & _)|(? & ? & ? & _ & _ & H & _)]; [by left|].
  unfold phase_up in H. by rewrite Hp in H.
Qed.
Lemma up_ok_gone l tg o : up_ok l tg o -> up_ok (local_gone l) tg o.
Proof.
  intros [(-> & Hu & Hr & Hp)|(t & c & b & Ht & -> & Hp & Hs)]; [by left|right]. exists t, c, b.
  split_and!; try done. unfold up_state in *. cbn. destruct (l_up l); try done.
  destruct Hs as [? Hs]. split; [done|]. unfold phase_up in Hp. destruct (l_phase l); try done; rewrite Hs; first [by eexists | reflexivity].
Qed.
Lemma up_ok_task l l' tg o : l_up l <> UpNone -> l_up l' <> UpNone -> same_up l l' -> l_phase l' = l_phase l ->
  (forall c b, up_state l c b o -> up_state l' c b o) -> up_ok l tg o -> up_ok l' tg o.
Proof.
  intros Hu Hu' [Hi Ht] Hp Hs [(_ & ? & _)|(t & c & b & H1 & -> & H3 & H4)]; [done|right].
  exists t, c, b. rewrite Hi, Ht. split_and!; [done|done| |auto]. unfold phase_up in *. rewrite Hp.
  by destruct (l_phase l).
Qed.
Lemma up_ok_sent l d tg : l_up l = UpSending d ->
  up_ok l tg true -> up_ok (in_up UpReading l) (tg ++ [FStreamData (l_id l) d]) true.
Proof.
  intros Hu [(_ & ? & _)|(t & c & b & H1 & -> & H3 & H4)]; [congruence|right].
  unfold up_state in H4. rewrite Hu in H4. destruct H4 as [-> H4]. exists t, (c ++ [d]), false.
  rewrite frames_snoc. split_and!; try done. unfold phase_up in *. cbn. rewrite Hu in H3. by destruct (l_phase l).
Qed.
Lemma up_ok_closed l tg : l_up l = UpClosing ->
  up_ok l tg true -> up_ok (in_up UpDone l) (tg ++ [FStreamClose (l_id l) None]) true.
Proof.
  intros Hu [(_ & ? & _)|(t & c & b & H1 & -> & H3 & H4)]; [congruence|right].
  unfold up_state in H4. rewrite Hu in H4. destruct H4 as (-> & Hc & Ho). exists t, c, true.
  rewrite frames_close. split; [done|]. split; [done|]. split; [|by split; [|intros; apply Ho]].
  unfold phase_up in *. cbn. rewrite Hu in H3. by destruct (l_phase l).
Qed.
(** The head was read, and the stream opened. *)
Lemma up_ok_opened l l' t ic f tg : l_phase l = LOpening t ic f -> same_up l l' ->
  (l_read l = [] -> l_up l = UpNone -> phase_up l' /\ up_state l' [] false true) ->
  up_ok l tg true -> up_ok l' (tg ++ [FStreamOpen (l_id l) t]) true.
Proof.
  intros Hp [Hi Ht] Hs [(-> & Hu & Hr & H)|(? & ? & ? & _ & _ & H & _)]; [|unfold phase_up in H; by rewrite Hp in H].
  rewrite Hp in H. destruct (Hs Hr Hu) as [Hp' Hs']. right. exists t, [], false. rewrite Hi, Ht. by split_and!.
Qed.
(** The reply was written, or the first bytes sent: both directions run. *)
Lemma up_ok_replied l tg o : l_phase l = LReplying -> up_ok l tg o -> up_ok (piping (replied l)) tg o.
Proof.
  intros Hp [(_ & _ & _ & H)|(t & c & b & H1 & -> & H3 & H4)]; [by rewrite Hp in H|right]. exists t, c, b.
  unfold phase_up, up_state in *. rewrite Hp in *. rewrite H3 in H4. by split_and!.
Qed.
Lemma up_ok_forwarded l d tg : l_phase l = LForwarding d ->
  up_ok l tg true -> up_ok (piping l) (tg ++ [FStreamData (l_id l) d]) true.
Proof.
  intros Hp [(_ & _ & _ & H)|(t & c & b & H1 & -> & H3 & H4)]; [by rewrite Hp in H|right].
  unfold phase_up, up_state in *. rewrite Hp in *. rewrite H3 in H4. destruct H4 as [-> H4].
  exists t, (c ++ [d]), false. rewrite frames_snoc. by split_and!.
Qed.

Ltac known E := repeat match goal with H : E _ = _ |- _ => rewrite H in *; clear H end.
(** A task's change of state, its own part of the invariant spelled out. *)
Ltac task_state :=
  unfold up_state; cbn; repeat match goal with E : l_up _ = _ |- _ => rewrite E; clear E end;
  intros ? ? Hs; decompose [and] Hs; subst;
  split_and?; first [done | congruence | by eexists | reflexivity | by intros; congruence | by repeat split; try congruence; eexists | idtac].

Lemma up_step_ok s e s' : ids_inv s -> up_inv s -> mstep debug s e = Some s' -> up_inv s'.
Proof.
  intros Hid H E.
  mux_cases E; try exact H;
    try (eapply up_keep; [exact H|reflexivity|exists []; rewrite app_nil_r; by split|done]);
    try (eapply up_keep; [exact H|reflexivity|eexists; split; [reflexivity|by repeat constructor]|done]);
    try (eapply up_local; [exact H|eassumption|reflexivity..|]; intros tg;
      first [apply up_ok_gone
            |by apply up_ok_head
            |by apply up_ok_replied
            |by apply up_ok_same
            |apply up_ok_mid; unfold mid; cbn; by repeat match goal with E : l_phase _ = _ |- _ => rewrite E end
            |apply up_ok_task; cbn; [congruence|done|done|done|task_state]]);
    try (eapply up_push; [exact H|eassumption|done|reflexivity|]; intros tg;
      first [by apply up_ok_sent | by apply up_ok_closed | by apply up_ok_forwarded
            |eapply up_ok_opened; [eassumption|done|]; intros Hr Hu; unfold phase_up, up_state; cbn;
               rewrite ?Hu, ?Hr; by split]).
  - eapply up_set; [exact H|reflexivity|exists []; rewrite app_nil_r; by split|done|].
    specialize (H (mx_next s)). destruct (mx_locals s !! mx_next s) as [l|] eqn:Hl.
    + apply Hid in Hl as [? _]. lia.
    + by left.
  - eapply up_keep; [exact H|reflexivity|exists []; rewrite app_nil_r; by split|].
    match goal with E : pop _ = Some _ |- _ => unfold pop in E; destruct (items _); [done|]; by injection E as _ <- end.
Qed.

(** *** The queue and the writer *)

Definition same_queue (s s' : Mux) : Prop :=
  mx_out s' = mx_out s /\ mx_pushed s' = mx_pushed s /\ mx_writer s' = mx_writer s /\
  mx_wire s' = mx_wire s /\ mx_taken s' = mx_taken s.
Lemma queue_same s s' : queue_inv s -> same_queue s s' -> queue_inv s'.
Proof. intros [H1 H2 H3 H4] (Ho & Hp & Hw & Hi & Ht). split; by rewrite ?Ho, ?Hp, ?Hw, ?Hi, ?Ht. Qed.
Lemma queue_push s s' k f : queue_inv s -> rx_open (mx_out s) = true ->
  queue_len (mx_out s) < cap (mx_out s) -> tag_ok (k, f) ->
  mx_out s' = mkMpsc (items (mx_out s) ++ [f]) (cap (mx_out s)) true -> mx_pushed s' = mx_pushed s ++ [(k, f)] ->
  mx_writer s' = mx_writer s -> mx_wire s' = mx_wire s -> mx_taken s' = mx_taken s -> queue_inv s'.
Proof.
  intros [[Hc Hq] (t & Hf & Ht) H3 H4] Hopen Hlt Htag Ho Hp Hw Hi Hk.
  split; rewrite ?Ho, ?Hp, ?Hw, ?Hi, ?Hk; [| | |done].
  - split; [done|]. unfold queue_len in *. cbn. rewrite length_app. cbn. lia.
  - exists []. rewrite (Ht Hopen) in Hf. rewrite map_app, Hf, !app_nil_r. by rewrite <- app_assoc.
  - apply Forall_app; split; [done|by constructor].
Qed.
Lemma no_pings_app a b : no_pings (a ++ b) = no_pings a ++ no_pings b.
Proof. apply List.filter_app. Qed.
(** A frame put into the queue is no ping, so what is taken is what the wire shows. *)
Lemma taken_no_ping s f m : queue_inv s -> pop (mx_out s) = Some (f, m) -> f <> FPing.
Proof.
  intros [_ (t & Hf & _) Htags _] Hp. unfold pop in Hp. destruct (items (mx_out s)) as [|x r] eqn:E; [done|].
  injection Hp as -> _. assert (In f (map snd (mx_pushed s))) as Hin.
  { rewrite Hf. apply in_or_app. right. by left. }
  apply in_map_iff in Hin as ([k x] & <- & Hin). rewrite Forall_forall in Htags.
  apply list_elem_of_In, Htags in Hin. unfold tag_ok in Hin. cbn in *. destruct k; [|by destruct Hin].
  intros ->. done.
Qed.

Ltac same_queue H := by apply (queue_same _ _ H).
Lemma writer_step_ok s e s' : queue_inv s -> writer_step e s = Some s' -> queue_inv s'.
Proof.
  intros H E. pose proof H as [Hq (t & Hf & Ht) Htags Hw]. unfold writer_step in E.
  destruct e; try done; destruct (mx_writer s) as [|f| |] eqn:Hwr; try done; cbn in E.
  - injection E as <-. split; try done; [by exists t|]. cbn in *. rewrite !no_pings_app in *. by rewrite app_nil_r in *.
  - destruct (pop (mx_out s)) as [[f m]|] eqn:Hp; [|done]. injection E as <-.
    pose proof (taken_no_ping _ _ _ H Hp) as Hn. split; cbn; [by eapply pop_ok| |done|].
    + unfold pop in Hp. destruct (items (mx_out s)) as [|x r]; [done|]. injection Hp as -> <-.
      exists t. cbn. by rewrite <- app_assoc.
    + rewrite no_pings_app in *. cbn in Hw. rewrite app_nil_r in Hw. rewrite Hw. by destruct f.
  - destruct ok; injection E as <-; (split; cbn; [done|by exists t|done|]).
    + cbn in Hw. by rewrite app_nil_r.
    + cbn in Hw. rewrite no_pings_app in Hw. rewrite <- Hw. by eexists.
  - destruct (mx_cancel s); [|done]. injection E as <-. split; cbn; [done|by exists t|done|].
    cbn in Hw. rewrite app_nil_r in Hw. by rewrite Hw.
  - destruct (mx_over s); [|done]. injection E as <-. split; cbn; [by apply close_rx_ok| |done|].
    + eexists. by split.
    + cbn in Hw. rewrite no_pings_app in Hw. rewrite <- Hw. by eexists.
  - destruct (mx_over s); [|done]. injection E as <-. split; cbn; [by apply close_rx_ok| |done|done].
    eexists. by split.
  - injection E as <-. split; cbn; [by apply close_rx_ok| |done|done]. eexists. by split.
Qed.

Lemma queue_step s e s' : ids_inv s -> queue_inv s -> mstep debug s e = Some s' -> queue_inv s'.
Proof.
  intros Hid H E. destruct (match e with MKeepalive | MTake | MSent _ | MWStop | MWClosed => true | _ => false end) eqn:Hw.
  { destruct e; try done; exact (writer_step_ok _ _ _ H E). }
  mux_cases E; try done; try (same_queue H);
    (eapply queue_push; [exact H|done|done| |reflexivity..]);
    try (match goal with Hk : mx_locals s !! _ = Some _ |- _ => apply Hid in Hk as [_ Hk] end;
         unfold tag_ok; cbn; congruence).
  all: by split.
Qed.

(** *** What a connection gets back *)

Definition datas (ms : list ToLocal) : list bytes := omap (fun m => match m with LData d => Some d | LClose => None end) ms.
#[local] Arguments data_of : simpl never.
#[local] Arguments datas : simpl never.
Definition writing (l : Local) : list bytes := match l_phase l with LWriting d => [d] | _ => [] end.
(** What the reader is about to hand over; it may lose that when it is stopped. *)
Definition in_hand (k : nat) (r : MReader) : option (list bytes) :=
  match r with
  | MRSending j (LData d) _ => Some (if decide (j = k) then [d] else [])
  | MRDone => None
  | _ => Some []
  end.
Definition routed_ok (l : Local) (hand : option (list bytes)) : Prop :=
  match l_phase l with
  | LHead => l_in l = [] /\ l_written l = [] /\ (forall p, hand = Some p -> p = [])
  | LRemoving | LGone => l_written l `prefix_of` l_in l
  | _ => rx_open (l_rx l) = true /\ exists tail,
      l_in l = l_written l ++ writing l ++ datas (items (l_rx l)) ++ tail /\ (forall p, hand = Some p -> p = tail)
  end.
Record down_ok (l : Local) (mapped : Prop) (hand : option (list bytes)) (recvd : list Frame) : Prop := {
  do_routed : routed_ok l hand;
  do_base : (l_base l <= length recvd)%nat;
  do_prefix : l_in l `prefix_of` data_of (l_id l) (drop (l_base l) recvd);
  do_mapped : mapped -> l_in l = data_of (l_id l) (drop (l_base l) recvd) /\ l_phase l <> LHead;
  do_rx : mpsc_ok 256 (l_rx l);
}.
Definition mapped (s : Mux) (k : nat) (l : Local) : Prop := mx_streams s !! l_id l = Some k.
Definition down_inv (s : Mux) : Prop :=
  (forall k l, mx_locals s !! k = Some l -> down_ok l (mapped s k l) (in_hand k (mx_reader s)) (mx_recvd s)) /\
  (forall id k, mx_streams s !! id = Some k -> exists l, mx_locals s !! k = Some l /\ l_id l = id).

Lemma down_mono l (m m' : Prop) h r : down_ok l m h r -> (m' -> m) -> down_ok l m' h r.
Proof. intros [] Hm. split; auto. Qed.
(** A connection's own step, with the map kept or shrunk. *)
Lemma down_set k l l' s s' : down_inv s -> mx_locals s !! k = Some l ->
  mx_locals s' = <[k := l']> (mx_locals s) -> l_id l' = l_id l ->
  (forall id j, mx_streams s' !! id = Some j -> mx_streams s !! id = Some j) ->
  mx_reader s' = mx_reader s -> mx_recvd s' = mx_recvd s ->
  (down_ok l (mapped s k l) (in_hand k (mx_reader s)) (mx_recvd s) ->
   down_ok l' (mapped s k l) (in_hand k (mx_reader s)) (mx_recvd s)) -> down_inv s'.
Proof.
  intros [H Hm] Hk Hs Hid Hst Hr Hrv Hl. split.
  - intros j x. rewrite Hs, Hr, Hrv. intros [[<- <-]|[Hne Hj]]%lookup_insert_Some.
    + eapply down_mono; [by apply Hl, H|]. unfold mapped. rewrite Hid. apply Hst.
    + eapply down_mono; [by apply H|]. apply Hst.
  - intros id j Hj%Hst%Hm. rewrite Hs. destruct Hj as (x & Hx & <-).
    destruct (decide (k = j)) as [<-|Hne]; [|exists x; by rewrite lookup_insert_ne].
    exists l'. rewrite lookup_insert_eq. split; [done|congruence].
Qed.
Lemma down_keep s s' : down_inv s -> mx_locals s' = mx_locals s -> mx_streams s' = mx_streams s ->
  mx_reader s' = mx_reader s -> mx_recvd s' = mx_recvd s -> down_inv s'.
Proof. intros [H Hm] H1 H2 H3 H4. split; unfold mapped; by rewrite ?H1, ?H2, ?H3, ?H4. Qed.

Lemma datas_app a b : datas (a ++ b) = datas a ++ datas b.
Proof. apply omap_app. Qed.

Lemma routed_prefix l h : routed_ok l h -> l_written l `prefix_of` l_in l.
Proof.
  unfold routed_ok. destruct (l_phase l); try done.
  all: try (intros (_ & tail & -> & _); by eexists). by intros (-> & -> & _).
Qed.
(** Any step into the end of the handler. *)
Lemma down_ok_end l l' m h r : down_ok l m h r -> l_id l' = l_id l -> l_written l' = l_written l ->
  l_in l' = l_in l -> l_base l' = l_base l -> l_phase l' = LRemoving \/ l_phase l' = LGone ->
  mpsc_ok 256 (l_rx l') -> down_ok l' m h r.
Proof.
  intros [H1 H2 H3 H4 H5] Hi Hw Hn Hb Hp Hx. apply routed_prefix in H1. split; rewrite ?Hi, ?Hb, ?Hn; try done.
  - unfold routed_ok. rewrite Hw, Hn. by destruct Hp as [-> | ->].
  - intros Hm. split; [by apply H4|]. by destruct Hp as [-> | ->].
Qed.
(** Any step between phases in which the channel fills up. *)
Definition waiting (l : Local) : Prop :=
  match l_phase l with LOpening _ _ _ | LReplying | LForwarding _ | LPiping => True | _ => False end.
Lemma down_ok_wait l l' m h r : down_ok l m h r -> waiting l -> waiting l' -> l_id l' = l_id l ->
  l_written l' = l_written l -> l_in l' = l_in l -> l_base l' = l_base l -> l_rx l' = l_rx l -> down_ok l' m h r.
Proof.
  intros [H1 H2 H3 H4 H5] Hw Hw' Hi Hr Hn Hb Hx. unfold waiting in *.
  split; rewrite ?Hi, ?Hb, ?Hn, ?Hx; try done.
  - unfold routed_ok, writing in *. rewrite Hr, Hn, Hx. by destruct (l_phase l), (l_phase l').
  - intros Hm. split; [by apply H4|]. by destruct (l_phase l').
Qed.
Lemma down_ok_up l u m h r : down_ok l m h r -> down_ok (in_up u l) m h r.
Proof. by intros []. Qed.
Lemma down_ok_took l d u m h r : down_ok l m h r -> down_ok (in_up u (took d l)) m h r.
Proof. by intros []. Qed.
Lemma down_ok_pop l d x m h r : l_phase l = LPiping -> pop (l_rx l) = Some (LData d, x) ->
  down_ok l m h r -> down_ok (set_rx x (in_lphase (LWriting d) l)) m h r.
Proof.
  intros Hp Hx [H1 H2 H3 H4 H5]. split; try done; [| |by eapply pop_ok].
  - unfold routed_ok, writing in *. cbn. rewrite Hp in H1. destruct H1 as (Ho & t & Hin & Ht).
    unfold pop in Hx. destruct (items (l_rx l)) as [|y ys]; [done|]. injection Hx as -> <-.
    split; [done|]. by exists t.
  - intros Hm. split; [by apply H4|done].
Qed.
Lemma down_ok_wrote l d m h r : l_phase l = LWriting d ->
  down_ok l m h r -> down_ok (in_lphase LPiping (wrote d l)) m h r.
Proof.
  intros Hp [H1 H2 H3 H4 H5]. split; try done.
  - unfold routed_ok, writing in *. cbn. rewrite Hp in H1. destruct H1 as (Ho & t & Hin & Ht).
    split; [done|]. exists t. by rewrite <- app_assoc.
  - intros Hm. split; [by apply H4|done].
Qed.

(** A frame received that is no data of a registered connection. *)
Lemma down_log s s' f : down_inv s -> mx_locals s' = mx_locals s -> mx_recvd s' = mx_recvd s ++ [f] ->
  (forall id k, mx_streams s' !! id = Some k -> mx_streams s !! id = Some k /\ data_of id [f] = []) ->
  (forall k, in_hand k (mx_reader s') = in_hand k (mx_reader s)) -> down_inv s'.
Proof.
  intros [H Hm] Hl Hr Hs Hh. split.
  - intros k l. rewrite Hl, Hr, Hh. intros Hk. destruct (H k l Hk) as [H1 H2 H3 H4 H5].
    split; try done.
    + rewrite length_app. lia.
    + rewrite drop_app_le, data_app by done. by apply prefix_app_r.
    + intros [Hst Hd]%Hs. destruct (H4 Hst) as [-> Hp]. split; [|done].
      by rewrite drop_app_le, data_app, Hd, app_nil_r by done.
  - intros id k [Hst _]%Hs. rewrite Hl. by apply Hm.
Qed.
(** The reader's hand empties or is dropped; nothing else. *)
Lemma down_hand s s' : down_inv s -> mx_locals s' = mx_locals s -> mx_recvd s' = mx_recvd s ->
  mx_streams s' = mx_streams s ->
  (forall k, in_hand k (mx_reader s') = in_hand k (mx_reader s) \/ in_hand k (mx_reader s') = None) -> down_inv s'.
Proof.
  intros [H Hm] Hl Hr Hs Hh. split; unfold mapped in *; rewrite Hl, ?Hs, ?Hr; [|done].
  intros k l Hk. destruct (H k l Hk) as [H1 H2 H3 H4 H5]. split; try done.
  unfold routed_ok in *. destruct (Hh k) as [-> | ->]; [done|].
  destruct (l_phase l); try done; naive_solver.
Qed.
Lemma down_route s id k l d : down_inv s -> mx_reader s = MRIdle -> mx_streams s !! id = Some k ->
  mx_locals s !! k = Some l ->
  down_inv (set_mreader (MRSending k (LData d) (Z.of_nat (length d)))
    (set_local k (routed_in d l) (log_recv (FStreamData id d) s))).
Proof.
  intros [H Hm] Hr Hs Hk. pose proof (Hm _ _ Hs) as (l0 & Hk0 & Hid). rewrite Hk in Hk0. injection Hk0 as <-.
  split; cbn.
  - intros j x [[<- <-]|[Hne Hj]]%lookup_insert_Some.
    + destruct (H k l Hk) as [H1 H2 H3 H4 H5]. unfold mapped in H4. rewrite Hid in H4.
      destruct (H4 Hs) as [Hin Hph].
      assert (l_in (routed_in d l) = data_of id (drop (l_base l) (mx_recvd s ++ [FStreamData id d]))) as Hnew.
      { rewrite drop_app_le, data_app by done. cbn. rewrite Hin. unfold data_of at 3. cbn. by destruct (decide (id = id)). }
      split; cbn in *; [| |rewrite Hid; by rewrite <- Hnew|intros _; rewrite Hid; by split|done].
      * unfold routed_ok, in_hand, writing in *. cbn. rewrite Hr in H1. destruct (decide (k = k)) as [_|]; [|done].
        destruct (l_phase l) eqn:Hp; try done; try (by apply prefix_app_r);
          destruct H1 as (Ho & tl & -> & Ht); rewrite <- (Ht [] eq_refl), app_nil_r;
          (split; [done|]); exists [d]; (split; [by rewrite <- !app_assoc|by intros ? [= <-]]).
      * rewrite length_app. cbn. lia.
    + destruct (H j x Hj) as [H1 H2 H3 H4 H5].
      assert (data_of (l_id x) [FStreamData id d] = [] \/ l_id x = id) as Hd.
      { unfold data_of. cbn. destruct (decide (id = l_id x)); auto. }
      split; cbn in *; try done.
      * rewrite Hr in H1. by destruct (decide (k = j)).
      * rewrite length_app. cbn. lia.
      * rewrite drop_app_le, data_app by done. by apply prefix_app_r.
      * unfold mapped in *. cbn. intros Hx. destruct (H4 Hx) as [-> Hp]. split; [|done].
        rewrite drop_app_le, data_app by done. destruct Hd as [->|Hd]; [by rewrite app_nil_r|congruence].
  - intros i j Hij. destruct (Hm i j Hij) as (x & Hx & Hxi). destruct (decide (k = j)) as [<-|Hne].
    + exists (routed_in d l). rewrite lookup_insert_eq. split; [done|]. cbn. congruence.
    + exists x. by rewrite lookup_insert_ne.
Qed.
Lemma down_deliver s k m n l : down_inv s -> mx_reader s = MRSending k m n -> mx_locals s !! k = Some l ->
  send_ready (l_rx l) = true ->
  down_inv (set_mreader MRIdle (set_mstatus (add_traffic_down n) (set_local k (set_rx (try_send m (l_rx l)).1 l) s))).
Proof.
  intros [H Hm] Hr Hk Hready. split; cbn.
  - intros j x [[<- <-]|[Hne Hj]]%lookup_insert_Some.
    + destruct (H k l Hk) as [H1 H2 H3 H4 H5]. split; try done; [|by apply try_send_ok].
      rewrite Hr in H1. unfold routed_ok, writing, in_hand in *. cbn.
      destruct (decide (k = k)) as [_|]; [|done].
      destruct (l_phase l) eqn:Hp; try done; try (by destruct H1 as (-> & -> & ?); split_and!; try done; intros ? [= <-]);
        destruct H1 as (Ho & tl & -> & Ht); unfold send_ready in Hready; rewrite Ho in Hready; cbn in Hready;
        unfold try_send; rewrite Ho, Hready; cbn; (split; [done|]); exists []; rewrite datas_app, ?app_nil_r;
        (split; [|by intros ? [= <-]]); destruct m; cbn; rewrite <- (Ht _ eq_refl), ?app_nil_r; by rewrite ?app_assoc.
    + destruct (H j x Hj) as [H1 H2 H3 H4 H5]. split; try done.
      rewrite Hr in H1. cbn in H1. unfold routed_ok in *. destruct m; [|done].
      by destruct (decide (k = j)).
  - intros i j Hij. destruct (Hm i j Hij) as (x & Hx & Hxi). destruct (decide (k = j)) as [<-|Hne].
    + eexists. rewrite lookup_insert_eq. split; [done|]. cbn. congruence.
    + exists x. by rewrite lookup_insert_ne.
Qed.

Ltac known_phase := repeat match goal with E : l_phase _ = _ |- _ => rewrite E end.
Ltac down_local := let H := fresh in intros H; first
  [ by apply down_ok_up
  | by apply down_ok_took
  | by apply down_ok_wrote
  | by eapply down_ok_pop
  | eapply down_ok_wait; [exact H|unfold waiting; cbn; by known_phase|done|done..]
  | eapply down_ok_end; [exact H|done|done|done|done|by auto|
      first [by apply H | by apply close_rx_ok; [lia|apply H] | by eapply pop_ok; [apply H|]]] ].
Ltac down_by_local H :=
  eapply (down_set _ _ _ _ _ H); [eassumption|reflexivity|done| |reflexivity|reflexivity|down_local];
  intros i j; cbn; try done; by intros [_ ?]%lookup_delete_Some.
Ltac down_by_log H :=
  eapply (down_log _ _ _ H); [reflexivity|reflexivity| |];
  [ intros i j Hij; cbn in *; split; [try done; by apply lookup_delete_Some in Hij as [_ ?]|];
    unfold data_of; cbn; try done; destruct (decide _) as [->|]; try done;
    try (by apply lookup_delete_Some in Hij as [? _]); congruence
  | intros j; cbn; by repeat match goal with E : mx_reader _ = _ |- _ => rewrite E end ].

(** The reader only holds something for a connection that exists. *)
Definition reader_inv (s : Mux) : Prop :=
  match mx_reader s with MRSending k _ _ => is_Some (mx_locals s !! k) | _ => True end.
Lemma reader_ok s e s' : down_inv s -> reader_inv s -> mstep debug s e = Some s' -> reader_inv s'.
Proof.
  intros [_ Hm] H E. unfold reader_inv in *.
  mux_cases E; try done; cbn; try exact H;
    try (destruct (mx_reader s); try done; rewrite lookup_insert_is_Some'; auto);
    try (match goal with E : mx_reader s = _ |- _ => rewrite E end; done).
  match goal with E : mx_streams s !! _ = Some _ |- _ => apply Hm in E as (? & -> & _) end. by eexists.
Qed.

Lemma down_accept s l0 : ids_inv s -> down_inv s -> reader_inv s -> l0 = new_local (next_id (mx_next s)) ->
  down_inv (set_next (S (mx_next s)) (set_local (mx_next s) l0 s)).
Proof.
  intros Hid [H Hm] Hr ->. assert (mx_locals s !! mx_next s = None) as Hnew.
  { apply eq_None_not_Some. intros [l Hl]. apply Hid in Hl as [? _]. lia. }
  split; cbn.
  - intros j x [[<- <-]|[Hne Hj]]%lookup_insert_Some; [|by apply H]. split; cbn.
    + split_and!; [done|done|]. unfold reader_inv, in_hand in *. destruct (mx_reader s) as [|k [d|] n| | |]; try naive_solver.
      intros p [= <-]. destruct (decide _) as [->|]; [|done]. rewrite Hnew in Hr. by destruct Hr.
    + lia.
    + apply prefix_nil.
    + unfold mapped. cbn. intros (x & Hx & _)%Hm. congruence.
    + done.
  - intros id k (x & Hx & Hi)%Hm. exists x. rewrite lookup_insert_ne by congruence. done.
Qed.
Lemma down_register s k l t ic f hd : ids_inv s -> down_inv s -> mx_locals s !! k = Some l -> l_phase l = LHead ->
  down_inv (set_streams (insert (l_id l) k)
    (set_local k (in_lphase (LOpening t ic f) (registered t (length (mx_recvd s)) hd l)) s)).
Proof.
  intros Hid [H Hm] Hk Hp. split; cbn.
  - intros j x [[<- <-]|[Hne Hj]]%lookup_insert_Some.
    + destruct (H k l Hk) as [H1 _ _ _ _]. unfold routed_ok in H1. rewrite Hp in H1. destruct H1 as (Hi & Hw & Hh).
      split; cbn; rewrite ?drop_all; try done; [|by rewrite Hi].
      split; [done|]. exists []. by rewrite Hi, Hw.
    + eapply down_mono; [by apply H|]. unfold mapped. cbn. intros [[_ ?]|[_ ?]]%lookup_insert_Some; [congruence|done].
  - intros id j [[<- <-]|[_ Hst]]%lookup_insert_Some.
    + eexists. by rewrite lookup_insert_eq.
    + apply Hm in Hst as (x & Hx & Hi). destruct (decide (k = j)) as [<-|Hne].
      * eexists. rewrite lookup_insert_eq. split; [done|]. cbn. congruence.
      * exists x. by rewrite lookup_insert_ne.
Qed.

Lemma down_step s e s' : ids_inv s -> down_inv s -> reader_inv s -> mstep debug s e = Some s' -> down_inv s'.
Proof.
  intros Hid H Hr E.
  mux_cases E; try exact H; try (eapply down_keep; [exact H|reflexivity..]);
    try (down_by_local H); try (by down_by_log H);
    try (eapply (down_hand _ _ H); try done; intros j; cbn;
         by repeat match goal with E : mx_reader _ = _ |- _ => rewrite E end; auto);
    try (by apply down_deliver); try (by eapply down_route); [by apply down_accept|by apply down_register].
Qed.

(** *** What was read off the socket *)

(** What is handed on of the head: all of it as one chunk, nothing for a CONNECT. *)
Definition forwarded (connect : bool) (reads : list bytes) : list bytes :=
  match (if connect then [] else concat reads) with [] => [] | d => [d] end.
Definition sock_ok (l : Local) : Prop :=
  (l_up l = UpNone -> l_later l = []) /\
  match l_head l with
  | None => l_target l = None /\ l_read l = [] /\ l_up l = UpNone /\ (l_phase l = LHead \/ l_phase l = LGone)
  | Some (c, hs) =>
    (exists t f, parse_http_head debug [] (map Ok hs) = Some (Ok (t, c, f)) /\ l_target l = Some t) /\
    match l_phase l with
    | LHead => False
    | LOpening _ ic f => ic = c /\ f = (if c then [] else concat hs) /\ l_read l = [] /\ l_up l = UpNone
    | LReplying => c = true /\ l_read l = [] /\ l_up l = UpNone
    | LForwarding _ => l_read l = forwarded c hs /\ l_up l = UpNone
    | LGone => l_read l `prefix_of` forwarded c hs ++ l_later l /\ (l_up l <> UpNone -> l_read l = forwarded c hs ++ l_later l)
    | _ => l_read l = forwarded c hs ++ l_later l /\ l_up l <> UpNone
    end
  end.
Definition sock_inv (s : Mux) : Prop := map_Forall (fun _ l => sock_ok l) (mx_locals s).

Lemma sock_gone l : sock_ok l -> sock_ok (local_gone l).
Proof.
  unfold sock_ok. cbn. intros [Hl H]. split; [done|]. destruct (l_head l) as [[c hs]|]; [|naive_solver].
  destruct H as [Hp H]. split; [done|]. destruct (l_phase l) as [| | |d| |d| |]; try done.
  - destruct H as (_ & _ & -> & Hu). split; [apply prefix_nil|done].
  - destruct H as (_ & -> & Hu). split; [apply prefix_nil|done].
  - destruct H as (-> & Hu). split; [by eexists|done].
  - destruct H as (-> & Hu). by split.
  - destruct H as (-> & Hu). by split.
  - destruct H as (-> & Hu). by split.
Qed.
Lemma sock_opening l reads t ic f base : l_phase l = LHead -> parse_http_head debug [] reads = Some (Ok (t, ic, f)) ->
  sock_ok l -> sock_ok (in_lphase (LOpening t ic f) (registered t base (ic, head_reads [] reads) l)).
Proof.
  intros Hp Hh [Hl H]. apply head_forward in Hh as [-> Hh]. unfold sock_ok. cbn.
  rewrite Hp in H. destruct (l_head l) as [[c hs]|]; [by destruct H as [_ []]|]. destruct H as (_ & Hr & Hu & _).
  split_and!; eauto.
Qed.
Lemma sock_down l l' : sock_ok l -> l_head l' = l_head l -> l_later l' = l_later l -> l_read l' = l_read l ->
  l_up l' = l_up l -> l_target l' = l_target l -> mid l -> mid l' -> sock_ok l'.
Proof.
  unfold sock_ok, mid. intros [Hl H] -> -> -> -> -> Hm Hm'. split; [done|].
  destruct (l_head l) as [[c hs]|].
  - destruct H as [Hp H]. split; [done|]. by destruct (l_phase l), (l_phase l').
  - destruct H as (_ & _ & _ & [E|E]); by rewrite E in Hm.
Qed.
(** The uplink task: it reads a chunk, or changes its state. *)
Lemma sock_task l l' new : sock_ok l -> l_up l <> UpNone -> l_up l' <> UpNone -> l_head l' = l_head l ->
  l_later l' = l_later l ++ new -> l_read l' = l_read l ++ new -> l_target l' = l_target l -> l_phase l' = l_phase l -> sock_ok l'.
Proof.
  unfold sock_ok. intros [Hl H] Hu Hu' -> -> -> -> ->. split; [done|]. destruct (l_head l) as [[c hs]|]; [|naive_solver].
  destruct H as [Hp H]. split; [done|]. destruct (l_phase l); try naive_solver.
  all: rewrite app_assoc.
  4: { destruct H as [_ ->]; [|done]. by split. }
  all: destruct H as [-> _]; by split.
Qed.
Lemma sock_same l l' : sock_ok l -> l_head l' = l_head l -> l_later l' = l_later l -> l_read l' = l_read l ->
  l_up l' = l_up l -> l_target l' = l_target l -> l_phase l' = l_phase l -> sock_ok l'.
Proof. unfold sock_ok. intros H -> -> -> -> -> ->. done. Qed.
Lemma sock_opened l t ic f : l_phase l = LOpening t ic f -> sock_ok l ->
  sock_ok (if ic : bool then in_lphase LReplying l
           else match f with [] => piping l | _ => in_lphase (LForwarding f) (forwarding f l) end).
Proof.
  unfold sock_ok. intros Hp [Hl H]. rewrite Hp in H. destruct (l_head l) as [[c hs]|] eqn:Hh; [|naive_solver].
  destruct H as (Ht & -> & -> & Hr & Hu). unfold forwarded. specialize (Hl Hu).
  destruct c; cbn; rewrite ?Hh; [by split_and!|]. destruct (concat hs) as [|b d] eqn:E; cbn; rewrite Hh.
  - rewrite E. rewrite Hr, Hl. by split_and!.
  - rewrite E, Hr. by split_and!.
Qed.
Lemma sock_piping l : l_phase l = LReplying \/ (exists d, l_phase l = LForwarding d) -> sock_ok l -> sock_ok (piping l).
Proof.
  unfold sock_ok. intros Hp [Hl H]. cbn. split; [done|]. destruct (l_head l) as [[c hs]|].
  - destruct H as [Ht H]. split; [done|]. destruct Hp as [Hp|[d Hp]]; rewrite Hp in H.
    + destruct H as (-> & -> & Hu). by rewrite (Hl Hu).
    + destruct H as (-> & Hu). by rewrite (Hl Hu), app_nil_r.
  - destruct H as (_ & _ & _ & [E|E]), Hp as [Hp|[d Hp]]; congruence.
Qed.
Lemma sock_set s k l l' : sock_inv s -> mx_locals s !! k = Some l -> (sock_ok l -> sock_ok l') ->
  map_Forall (fun _ l => sock_ok l) (<[k := l']> (mx_locals s)).
Proof. intros H Hk Hl. apply map_Forall_insert_2; [|done]. apply Hl. by apply (H k). Qed.

Ltac sock_by := unfold sock_inv; cbn; match goal with
  | H : sock_inv ?s, Hk : mx_locals ?s !! ?k = Some _ |- map_Forall _ (<[?k := _]> (mx_locals ?s)) =>
      apply (sock_set _ _ _ _ H Hk); let G := fresh in intros G; try (exact G);
      try (by apply sock_gone); try (by apply sock_same with (1 := G));
      try (by eapply sock_opening);
      try (by apply (sock_down _ _ G); try done; unfold mid; cbn; repeat match goal with E : l_phase _ = _ |- _ => rewrite E end);
      try (by apply (sock_task _ _ [] G); cbn; rewrite ?app_nil_r; congruence)
  end.
Lemma sock_step s e s' : sock_inv s -> mstep debug s e = Some s' -> sock_inv s'.
Proof.
  intros H E. mux_cases E; try exact H; try sock_by.
  all: try match goal with P : l_phase _ = LOpening _ _ _, G : sock_ok _ |- _ => exact (sock_opened _ _ _ _ P G) end.
  - apply map_Forall_insert_2; [|exact H]. unfold sock_ok. cbn. auto 7.
  - apply sock_piping; [by right; eexists|done].
  - apply sock_piping; [by left|]. by eapply sock_same.
  - eapply (sock_task _ _ [_]); [eassumption|cbn; congruence|done|reflexivity..].
Qed.

(** ** Runs *)

Record mux_inv (s : Mux) : Prop := {
  mi_ids : ids_inv s;
  mi_queue : queue_inv s;
  mi_up : up_inv s;
  mi_down : down_inv s;
  mi_reader : reader_inv s;
}.
Lemma mux_step s e s' : mux_inv s -> mstep debug s e = Some s' -> mux_inv s'.
Proof.
  intros [H1 H2 H3 H4 H5] E. split.
  - by eapply ids_step.
  - by eapply queue_step.
  - by eapply up_step_ok.
  - by eapply down_step.
  - by eapply reader_ok.
Qed.
Lemma mux_start_inv member st : mux_inv (mux_start member st).
Proof.
  split; [done| |done|done|done]. split; cbn; [done|by exists []|done|done].
Qed.
Lemma mux_run es s s' : mux_inv s -> mrun debug es s = Some s' -> mux_inv s'.
Proof. apply (runs_inv (mstep debug) mux_inv). intros ? ? ?. apply mux_step. Qed.
Lemma sock_run es s s' : sock_inv s -> mrun debug es s = Some s' -> sock_inv s'.
Proof. apply (runs_inv (mstep debug) sock_inv). intros ? ? ?. apply sock_step. Qed.
Lemma sock_start member st : sock_inv (mux_start member st).
Proof. apply map_Forall_empty. Qed.

(** The chunks handed on are what was read: the head, unless it was a CONNECT, as one
    chunk, and then every later read as one. *)
Lemma sock_head l t : sock_ok l -> l_target l = Some t -> exists fwd c hs,
  l_head l = Some (c, hs) /\ parse_http_head debug [] (map Ok hs) = Some (Ok (t, c, fwd)) /\
  l_read l `prefix_of` (if c then [] else [concat hs]) ++ l_later l /\
  (l_up l <> UpNone -> l_read l = (if c then [] else [concat hs]) ++ l_later l).
Proof.
  intros [Hl H] Ht. destruct (l_head l) as [[c hs]|]; [|naive_solver congruence].
  destruct H as [(t' & f & Hp & Ht') H]. assert (t' = t) as -> by congruence. exists f, c, hs.
  assert (forwarded c hs = if c then [] else [concat hs]) as Ef.
  { unfold forwarded. destruct c; [done|]. destruct (concat hs) eqn:E; [|done].
    destruct hs as [|[|x d] hs]; done. }
  rewrite <- Ef. split_and!; [done|done|..].
  - destruct (l_phase l) as [| | |d| |d| |]; try (by destruct H as [-> _]); try (by destruct H).
    + destruct H as (_ & _ & -> & _). apply prefix_nil.
    + destruct H as (_ & -> & _). apply prefix_nil.
    + destruct H as (-> & _). by eexists.
  - intros Hu. destruct (l_phase l); naive_solver.
Qed.
End Thms.

(** ** The wire, by stream *)

Lemma frames_app id a b : frames_of id (a ++ b) = frames_of id a ++ frames_of id b.
Proof. apply List.filter_app. Qed.
Lemma frames_prefix id a b : a `prefix_of` b -> frames_of id a `prefix_of` frames_of id b.
Proof. intros [c ->]. rewrite frames_app. by eexists. Qed.
Lemma frames_no_pings id fs : frames_of id (no_pings fs) = frames_of id fs.
Proof.
  induction fs as [|f fs IH]; [done|]. unfold frames_of, no_pings in *. cbn.
  destruct f; cbn; try (case_bool_decide; cbn); by rewrite ?IH.
Qed.
Lemma wire_pushed s : queue_inv s -> no_pings (mx_wire s) `prefix_of` map snd (mx_pushed s).
Proof.
  intros [_ (t & Hf & _) _ Hw]. rewrite Hf. apply prefix_app_r.
  destruct (mx_writer s); try done; rewrite <- Hw, no_pings_app; by eexists.
Qed.
Lemma next_id_inj j k : Z.of_nat j < 2 ^ 32 -> Z.of_nat k < 2 ^ 32 -> next_id j = next_id k -> j = k.
Proof.
  unfold next_id, wrap. intros Hj Hk H.
  destruct (decide (1 + Z.of_nat j = 2 ^ 32)) as [Ej|Ej], (decide (1 + Z.of_nat k = 2 ^ 32)) as [Ek|Ek]; [lia|..].
  - rewrite Ej, Z.mod_same, Z.mod_small in H by lia. lia.
  - rewrite Ek, Z.mod_same, Z.mod_small in H by lia. lia.
  - rewrite !Z.mod_small in H by lia. lia.
Qed.
Lemma tags_below s : up_inv s -> ids_inv s -> forall k f, In (Some k, f) (mx_pushed s) -> (k < mx_next s)%nat.
Proof.
  intros Hu Hid k f Hin. specialize (Hu k). destruct (mx_locals s !! k) as [l|] eqn:Hl; [by apply Hid in Hl as [? _]|].
  exfalso. assert (In f (tagged k (mx_pushed s))) as Ht; [|by rewrite Hu in Ht].
  apply in_map_iff. exists (Some k, f). split; [done|]. apply filter_In. split; [done|]. by apply bool_decide_true.
Qed.
(** With fewer than 2^32 connections, the frames of an id are those of one connection. *)
Lemma frames_tagged k (l : list (option nat * Frame)) (n : nat) : Z.of_nat n < 2 ^ 32 -> (k < n)%nat ->
  Forall tag_ok l -> (forall j f, In (Some j, f) l -> (j < n)%nat) ->
  frames_of (next_id k) (map snd l) = tagged k l.
Proof.
  intros Hn Hk Htags Hb. induction l as [|[j f] l IH]; [done|].
  apply Forall_cons in Htags as [Hj Htags]. specialize (IH Htags ltac:(intros; eapply Hb; by right)).
  change ((j, f) :: l) with ([(j, f)] ++ l). rewrite map_app, frames_app, tagged_app, IH, tagged_one. f_equal.
  unfold frames_of. cbn. unfold tag_ok in Hj. cbn in Hj. destruct j as [j|].
  - rewrite Hj. specialize (Hb j f (or_introl eq_refl)).
    destruct (decide (j = k)) as [->|Hne]; [by rewrite !bool_decide_true|].
    rewrite !bool_decide_false; [done|congruence|]. intros [= E]. apply next_id_inj in E; [done|lia..].
  - destruct Hj as [-> _]. done.
Qed.

(** A frame of a stream on the wire came from a connection of that id. *)
Lemma wire_owner s f id : mux_inv s -> f ∈ mx_wire s -> stream_id f = Some id ->
  exists k l, mx_locals s !! k = Some l /\ l_id l = id.
Proof.
  intros [Hid Hq Hu _ _] Hf Hs. assert (In f (no_pings (mx_wire s))) as Hin.
  { apply filter_In. split; [by apply list_elem_of_In|]. by destruct f. }
  destruct (wire_pushed s Hq) as [r E].
  assert (In f (map snd (mx_pushed s))) as [[k g] [Hg Hp]]%in_map_iff by (rewrite E; apply in_app_iff; by left).
  cbn in Hg. subst g. pose proof (proj1 (List.Forall_forall _ _) (qi_tags _ Hq) _ Hp) as Ht. unfold tag_ok in Ht. cbn in Ht.
  destruct k as [k|]; [|destruct Ht; congruence]. rewrite Hs in Ht. injection Ht as ->.
  specialize (Hu k). destruct (mx_locals s !! k) as [l|] eqn:Hl; [exists k, l; split; [done|by apply Hid in Hl as [_ ?]]|].
  exfalso. assert (In f (tagged k (mx_pushed s))) as Ht; [|by rewrite Hu in Ht].
  apply in_map_iff. exists (Some k, f). split; [done|]. apply filter_In. split; [done|]. by apply bool_decide_true.
Qed.
Lemma wire_tagged s k l : mux_inv s -> Z.of_nat (mx_next s) < 2 ^ 32 -> mx_locals s !! k = Some l ->
  frames_of (l_id l) (mx_wire s) `prefix_of` tagged k (mx_pushed s).
Proof.
  intros [Hid Hq Hu _ _] Hn Hk. pose proof (Hid _ _ Hk) as [Hlt Hl].
  pose proof (frames_tagged k (mx_pushed s) (mx_next s) Hn Hlt (qi_tags _ Hq) (tags_below s Hu Hid)) as <-.
  rewrite Hl, <- (frames_no_pings _ (mx_wire s)). by apply frames_prefix, wire_pushed.
Qed.
(** Nothing was sent for a connection whose head was not read. *)
Lemma head_silent s k l : mux_inv s -> Z.of_nat (mx_next s) < 2 ^ 32 -> mx_locals s !! k = Some l ->
  l_phase l = LHead -> frames_of (l_id l) (mx_wire s) = [].
Proof.
  intros Hi Hn Hk Hp. pose proof (wire_tagged s k l Hi Hn Hk) as Hw. pose proof (mi_up _ Hi k) as Hu. rewrite Hk in Hu.
  destruct Hu as [[E _]|(t & chunks & b & _ & _ & Hph & _)]; [rewrite E in Hw; by apply prefix_nil_inv in Hw|].
  unfold phase_up in Hph. by rewrite Hp in Hph.
Qed.
(** The frames of a connection's id on the wire. *)
Lemma wire_frames s k l : mux_inv s -> Z.of_nat (mx_next s) < 2 ^ 32 -> mx_locals s !! k = Some l ->
  frames_of (l_id l) (mx_wire s) = [] \/
  exists t chunks closed, l_target l = Some t /\
    frames_of (l_id l) (mx_wire s) `prefix_of` stream_frames (l_id l) t chunks closed /\
    chunks `prefix_of` l_read l /\ (closed = true -> chunks = l_read l /\ l_up l <> UpNone).
Proof.
  intros Hi Hn Hk. pose proof (wire_tagged s k l Hi Hn Hk) as Hp. pose proof (mi_up _ Hi) as Hu.
  specialize (Hu k). rewrite Hk in Hu. destruct Hu as [(Htg & _)|(t & c & b & Ht & Htg & _ & Hs)].
  - left. rewrite Htg in Hp. by apply prefix_nil_inv in Hp.
  - right. rewrite Htg in Hp. exists t, c, b. split_and!; try done.
    + unfold up_state in Hs. destruct (l_up l); [destruct (l_phase l)|..];
        try (by destruct Hs as (_ & ? & _)); try (by destruct Hs);
        destruct Hs as [_ Hs]; rewrite Hs; first [by eexists | reflexivity].
    + unfold up_state in Hs. destruct (l_up l); try (by destruct Hs as [-> _]). destruct Hs as [_ Hs]. auto.
Qed.
(** A step of the multiplexer and the data received before a connection registered. *)
Definition fresh_base (s : Mux) : Prop := forall k l, mx_locals s !! k = Some l ->
  (l_base l <= length (mx_recvd s))%nat /\ data_of (l_id l) (take (l_base l) (mx_recvd s)) = [].
Lemma fresh_base_set s s' k l l' : fresh_base s -> mx_locals s !! k = Some l -> mx_locals s' = <[k := l']> (mx_locals s) ->
  (exists r, mx_recvd s' = mx_recvd s ++ r) -> l_base l' = l_base l -> l_id l' = l_id l -> fresh_base s'.
Proof.
  intros H Hk E [r Er] Eb Ei j x. rewrite E, Er, length_app. intros [[<- <-]|[_ Hx]]%lookup_insert_Some.
  - rewrite Eb, Ei. destruct (H _ _ Hk). rewrite take_app_le by done. split; [lia|done].
  - destruct (H _ _ Hx). rewrite take_app_le by done. split; [lia|done].
Qed.
Lemma fresh_base_keep s s' : fresh_base s -> mx_locals s' = mx_locals s -> (exists r, mx_recvd s' = mx_recvd s ++ r) -> fresh_base s'.
Proof.
  intros H E [r Er] j x. rewrite E, Er, length_app. intros Hx. destruct (H _ _ Hx). rewrite take_app_le by done. split; [lia|done].
Qed.
Lemma fresh_base_step debug s e s' : fresh_base s ->
  (forall k l, mx_locals s !! k = Some l -> l_phase l = LHead -> data_of (l_id l) (mx_recvd s) = []) ->
  mstep debug s e = Some s' -> fresh_base s'.
Proof.
  intros H Hh E. mux_cases E; try exact H;
    try (eapply fresh_base_keep; [exact H|reflexivity|cbn; first [by exists []; rewrite app_nil_r|by eexists]]; fail);
    try (eapply fresh_base_set; [exact H|eassumption|reflexivity|cbn; first [by exists []; rewrite app_nil_r|by eexists]|reflexivity|reflexivity]; fail).
  - intros j x. cbn. intros [[<- <-]|[_ Hx]]%lookup_insert_Some; [|exact (H _ _ Hx)]. cbn. split; [lia|done].
  - intros j x. cbn. intros [[<- <-]|[_ Hx]]%lookup_insert_Some; [|exact (H _ _ Hx)]. cbn. split; [done|].
    rewrite firstn_all. by eapply Hh.
Qed.
(** What was written to a local socket. *)
Lemma written_frames s k l : mux_inv s -> mx_locals s !! k = Some l ->
  l_written l `prefix_of` data_of (l_id l) (drop (l_base l) (mx_recvd s)).
Proof.
  intros [_ _ _ [Hd _] _] Hk. destruct (Hd _ _ Hk) as [H1 _ H3 _ _]. etrans; [by eapply routed_prefix|done].
Qed.

(** C28. What the server sees of a local connection.  While fewer than 2^32 connections
    were accepted, ids are not shared, and the frames of a connection's id that the link
    accepted, over any interleaving of the tasks, are none, or a prefix of: one
    [StreamOpen] for the target parsed from the reads that made up the request head; for
    plain HTTP, all the bytes of those reads in one frame, and for CONNECT none of them,
    not even what was read behind the head; then every later read of the socket, in order
    and in a frame of its own; and, only once all of that was sent, one [StreamClose]. *)
Theorem local_stream_order debug es member st s k l :
  mrun debug es (mux_start member st) = Some s -> Z.of_nat (mx_next s) < 2 ^ 32 ->
  mx_locals s !! k = Some l ->
  (forall j l', mx_locals s !! j = Some l' -> l_id l' = l_id l -> j = k) /\
  (frames_of (l_id l) (mx_wire s) = [] \/
   exists t fwd connect head chunks closed,
     l_head l = Some (connect, head) /\ l_socket l = head ++ l_later l /\
     parse_http_head debug [] (map Ok head) = Some (Ok (t, connect, fwd)) /\
     frames_of (l_id l) (mx_wire s) `prefix_of` stream_frames (l_id l) t chunks closed /\
     chunks `prefix_of` (if connect then [] else [concat head]) ++ l_later l /\
     (closed = true -> chunks = (if connect then [] else [concat head]) ++ l_later l)).
Proof.
  intros Hr Hn Hk. pose proof (sock_run debug _ _ _ (sock_start _ member st) Hr k l Hk) as Hs.
  apply mux_run in Hr; [|apply mux_start_inv]. split.
  { pose proof (mi_ids _ Hr) as Hid. pose proof (Hid _ _ Hk) as [Hlt Hl].
    intros j l' Hj E. apply Hid in Hj as [Hj Hj']. apply next_id_inj; [lia..|congruence]. }
  destruct (wire_frames s k l Hr Hn Hk) as [|(t & chunks & closed & Ht & Hp & Hc & Hcl)]; [by left|].
  destruct (frames_of (l_id l) (mx_wire s)) as [|f0 fs] eqn:Ef; [by left|right].
  destruct (sock_head debug l t Hs Ht) as (fwd & c & hs & Hh & Hparse & Hpre & Heq). exists t, fwd, c, hs, chunks, closed.
  unfold l_socket. rewrite Hh. split_and!; [done..|by etrans|]. intros [-> Hu]%Hcl. auto.
Qed.


(** ** What a failed reply leaves behind *)

Section Orphans.
Variable debug : bytes -> string.

Definition orphan (k : nat) (id : Z) (s : Mux) : Prop :=
  mx_streams s !! id = Some k /\
  exists l, mx_locals s !! k = Some l /\ l_id l = id /\ l_phase l = LGone /\ l_up l = UpNone.
Definition closes (id : Z) (e : mevent) : bool :=
  match e with MRecv (Ok (FStreamClose i _)) => bool_decide (i = id) | _ => false end.

Lemma next_mono s e s' : mstep debug s e = Some s' -> (mx_next s <= mx_next s')%nat.
Proof. intros E. mux_cases E; cbn; lia. Qed.
Lemma next_mono_run es s s' : mrun debug es s = Some s' -> (mx_next s <= mx_next s')%nat.
Proof. intros E. apply (runs_inv (mstep debug) (fun t => (mx_next s <= mx_next t)%nat)) in E; [done| |done].
  intros t e t' Ht Et%next_mono. lia. Qed.
Lemma other_id s j k l l' : ids_inv s -> Z.of_nat (mx_next s) < 2 ^ 32 -> mx_locals s !! j = Some l ->
  mx_locals s !! k = Some l' -> j <> k -> l_id l <> l_id l'.
Proof.
  intros Hid Hn Hj Hk Hne E. apply Hid in Hj as [? Hj]. apply Hid in Hk as [? Hk].
  apply Hne. apply next_id_inj; [lia..|congruence].
Qed.

(** The reader may still route data to an orphan and fill its closed channel. *)
Lemma orphan_same (s : Mux) j k l l' l0 id : mx_locals s !! j = Some l -> mx_locals s !! k = Some l0 ->
  l_id l0 = id -> l_phase l0 = LGone -> l_up l0 = UpNone ->
  (l_id l' = l_id l /\ l_phase l' = l_phase l /\ l_up l' = l_up l) ->
  exists x, <[j := l']> (mx_locals s) !! k = Some x /\ l_id x = id /\ l_phase x = LGone /\ l_up x = UpNone.
Proof.
  intros Hj Hk Hi Hp Hu (E1 & E2 & E3). destruct (decide (j = k)) as [->|Hne].
  - rewrite Hk in Hj. injection Hj as <-. exists l'. rewrite lookup_insert_eq. split_and!; congruence.
  - exists l0. by rewrite lookup_insert_ne.
Qed.
Lemma orphan_step k id s e s' : ids_inv s -> Z.of_nat (mx_next s) < 2 ^ 32 -> orphan k id s ->
  mstep debug s e = Some s' -> closes id e = false -> orphan k id s'.
Proof.
  intros Hid Hn (Hst & l0 & Hk & Hi & Hp & Hu) E Hc. unfold orphan.
  assert (forall j l, mx_locals s !! j = Some l -> l_phase l <> LGone \/ l_up l <> UpNone -> j <> k) as Hne.
  { intros j l Hj Hl ->. rewrite Hj in Hk. injection Hk as ->. by destruct Hl. }
  mux_cases E; cbn in *;
    try (match goal with H : mx_locals s !! ?j = Some ?l |- context [<[?j := _]> (mx_locals s)] =>
      assert (j <> k) as Hjk by (apply (Hne j l H); solve [left; congruence | right; congruence]);
      rewrite !(lookup_insert_ne (mx_locals s)) by done end);
    try (by split; [|by exists l0]).
  - split; [done|]. exists l0. rewrite lookup_insert_ne; [done|]. apply Hid in Hk as [? _]. lia.
  - split; [|by exists l0]. rewrite lookup_insert_ne; [done|]. rewrite <- Hi. by eapply other_id.
  - split; [|by exists l0]. rewrite lookup_delete_ne; [done|]. rewrite <- Hi. by eapply other_id.
  - split; [done|]. by eapply (orphan_same s).
  - split; [|by exists l0]. rewrite lookup_delete_ne; [done|]. apply bool_decide_eq_false in Hc. congruence.
  - split; [done|]. by eapply (orphan_same s).
Qed.
Lemma orphan_run k id es s s' : mux_inv s -> Z.of_nat (mx_next s') < 2 ^ 32 -> orphan k id s ->
  mrun debug es s = Some s' -> forallb (fun e => negb (closes id e)) es = true -> orphan k id s'.
Proof.
  revert s. induction es as [|e es IH]; cbn; intros s Hi Hn Ho E Hc; [by injection E as <-|].
  apply andb_true_iff in Hc as [Hc Hcs]. apply negb_true_iff in Hc.
  destruct (mstep debug s e) as [s1|] eqn:E1; [|done]. cbn in E.
  apply (IH s1); [by eapply mux_step|done| |done|done].
  eapply orphan_step; [apply Hi| |done|done|done].
  apply next_mono in E1. apply next_mono_run in E. lia.
Qed.
End Orphans.

(** A reply that cannot be written leaks the stream.  When the local socket fails
    while the 200 reply to a CONNECT is written, the handler returns without closing the
    stream: whatever happens later, while the server does not close it itself, the entry
    stays in the stream map and no [StreamClose] for it ever reaches the server. *)
Theorem failed_reply_leaks debug es member st s k l s1 es' s2 :
  mrun debug es (mux_start member st) = Some s -> mx_locals s !! k = Some l -> l_phase l = LReplying ->
  mx_streams s !! l_id l = Some k ->
  mstep debug s (MReplied k false) = Some s1 -> mrun debug es' s1 = Some s2 ->
  Z.of_nat (mx_next s2) < 2 ^ 32 -> forallb (fun e => negb (closes (l_id l) e)) es' = true ->
  mx_streams s2 !! l_id l = Some k /\ forall err, ~ In (FStreamClose (l_id l) err) (mx_wire s2).
Proof.
  intros Hr Hk Hp Hst E1 E2 Hn Hc. apply mux_run in Hr; [|apply mux_start_inv].
  assert (mux_inv s1) as Hi1 by by eapply mux_step. assert (mux_inv s2) as Hi2 by by eapply mux_run.
  assert (orphan k (l_id l) s1) as Ho.
  { cbn in E1. rewrite Hk in E1. cbn in E1. unfold local_step in E1. rewrite Hp in E1. injection E1 as <-.
    split; [done|]. eexists. cbn. rewrite lookup_insert_eq. split_and!; try done. cbn.
    pose proof (mi_up _ Hr k) as Hu. rewrite Hk in Hu. destruct Hu as [(_ & ? & _)|(? & ? & ? & _ & _ & Hu & _)]; [done|].
    unfold phase_up in Hu. by rewrite Hp in Hu. }
  eapply orphan_run in Ho as (Hs2 & l2 & Hk2 & Hid2 & Hp2 & Hu2); [|done..]. split; [done|]. intros err Hin.
  destruct Hi2 as [Hid Hq Hu _ _]. pose proof (Hid _ _ Hk2) as [Hlt Hl2].
  assert (In (FStreamClose (l_id l) err) (tagged k (mx_pushed s2))) as Ht.
  { rewrite <- (frames_tagged k (mx_pushed s2) (mx_next s2) Hn Hlt (qi_tags _ Hq) (tags_below s2 Hu Hid)), <- Hl2, Hid2.
    eapply list_elem_of_In, elem_of_prefix; [|apply frames_prefix, wire_pushed, Hq].
    apply list_elem_of_In. rewrite frames_no_pings. apply filter_In. split; [done|]. by apply bool_decide_true. }
  specialize (Hu k). rewrite Hk2 in Hu. destruct Hu as [(Htg & _)|(t & c & b & _ & Htg & _ & Hs)].
  - by rewrite Htg in Ht.
  - unfold up_state in Hs. rewrite Hu2 in Hs. destruct Hs as [-> _]. rewrite Htg in Ht.
    unfold stream_frames in Ht. rewrite app_nil_r in Ht. destruct Ht as [Ht|Ht]; [done|].
    apply in_map_iff in Ht as (? & ? & _). done.
Qed.

(** Only the user ends the proxy.  Without a cancellation the accept loop never
    stops, and a connection is accepted in every reachable state: in particular when the
    reader and the writer of the link are both gone. *)
Theorem only_cancel_stops debug es member st s :
  mrun debug es (mux_start member st) = Some s -> forallb (fun e => match e with MCancel => false | _ => true end) es = true ->
  mx_over s = false /\ is_Some (mstep debug s MAccept).
Proof.
  intros Hr Hc.
  assert (forall es s, mx_cancel s = false /\ mx_over s = false ->
    forallb (fun e => match e with MCancel => false | _ => true end) es = true ->
    forall s', mrun debug es s = Some s' -> mx_cancel s' = false /\ mx_over s' = false) as Hrun.
  { clear. induction es as [|e es IH]; cbn; intros s Hs Hc s' E; [by injection E as <-|].
    apply andb_true_iff in Hc as [Hc Hcs]. destruct (mstep debug s e) as [s1|] eqn:E1; [|done].
    apply (IH s1); [|done|done]. destruct Hs as [Hs1 Hs2].
    mux_cases E1; cbn; try done; congruence. }
  destruct (Hrun es (mux_start member st) (conj eq_refl eq_refl) Hc s Hr) as [_ Ho].
  split; [done|]. cbn. by rewrite Ho.
Qed.

(** ** Witnesses *)

Module MuxDemo.
Definition debug (s : bytes) : string := "".
Definition head : bytes := to_b "CONNECT example.org:443 HTTP/1.1" ++ crlf ++ crlf.
Definition st : Mux := mux_start false no_status.
Definition after (es : list mevent) : Mux := default st (mrun debug es st).
Definition possible (es : list mevent) : bool := match mrun debug es st with Some _ => true | None => false end.
Definition local (es : list mevent) (k : nat) : Local := default (new_local 0) (mx_locals (after es) !! k).
Definition has (es : list mevent) (k : nat) : bool := match mx_locals (after es) !! k with Some _ => true | None => false end.
(** A connection up to its reply, then one exchange each way. *)
Definition opened : list mevent := [MAccept; MHead 0 [Ok head]; MPush 0].
Definition exchange : list mevent := opened ++
  [MReplied 0 true; MTake; MSent true; MRead 0 (Ok [Byte.x01]); MUpPush 0; MTake; MSent true;
   MRecv (Ok (FStreamData 1 [Byte.x02])); MDeliver; MDown 0; MWrote 0 true].
Definition leak : list mevent := [MReplied 0 false].

Lemma mux_after es : possible es = true -> mrun debug es st = Some (after es).
Proof. unfold possible, after. by destruct (mrun debug es st). Qed.
Lemma local_at es k : has es k = true -> mx_locals (after es) !! k = Some (local es k).
Proof. unfold has, local. by destruct (mx_locals (after es) !! k). Qed.
Lemma after_more es fs : possible es = true -> possible (es ++ fs) = true -> mrun debug fs (after es) = Some (after (es ++ fs)).
Proof.
  intros H1%mux_after H2%mux_after. rewrite runs_app, H1 in H2. exact H2.
Qed.
Definition entry (es : list mevent) (id : Z) : option nat := mx_streams (after es) !! id.
Definition phase (es : list mevent) (k : nat) : LPhase := l_phase (local es k).
End MuxDemo.

Lemma local_stream_order_witness :
  frames_of 1 (mx_wire (MuxDemo.after MuxDemo.exchange)) =
    [FStreamOpen 1 (TDomain "example.org" 443); FStreamData 1 [Byte.x01]] /\
  (frames_of (l_id (MuxDemo.local MuxDemo.exchange 0)) (mx_wire (MuxDemo.after MuxDemo.exchange)) = [] \/
   exists t chunks closed,
     frames_of (l_id (MuxDemo.local MuxDemo.exchange 0)) (mx_wire (MuxDemo.after MuxDemo.exchange))
       `prefix_of` stream_frames (l_id (MuxDemo.local MuxDemo.exchange 0)) t chunks closed).
Proof.
  split; [vm_compute; reflexivity|].
  destruct (local_stream_order MuxDemo.debug MuxDemo.exchange false no_status (MuxDemo.after MuxDemo.exchange) 0
    (MuxDemo.local MuxDemo.exchange 0)) as [_ [H|(t & _ & _ & _ & c & b & _ & _ & _ & Hp & _)]].
  - apply MuxDemo.mux_after. vm_compute. reflexivity.
  - vm_compute. reflexivity.
  - apply MuxDemo.local_at. vm_compute. reflexivity.
  - left. exact H.
  - right. exists t, c, b. exact Hp.
Defined.


Lemma failed_reply_leaks_witness :
  MuxDemo.entry (MuxDemo.opened ++ MuxDemo.leak ++ [MTake; MSent true]) 1 = Some 0%nat.
Proof.
  destruct (failed_reply_leaks MuxDemo.debug MuxDemo.opened false no_status (MuxDemo.after MuxDemo.opened) 0
    (MuxDemo.local MuxDemo.opened 0) (MuxDemo.after (MuxDemo.opened ++ MuxDemo.leak)) [MTake; MSent true]
    (MuxDemo.after ((MuxDemo.opened ++ MuxDemo.leak) ++ [MTake; MSent true]))) as [H _].
  - apply MuxDemo.mux_after. vm_compute. reflexivity.
  - apply MuxDemo.local_at. vm_compute. reflexivity.
  - vm_compute. reflexivity.
  - vm_compute. reflexivity.
  - assert (mrun MuxDemo.debug MuxDemo.leak (MuxDemo.after MuxDemo.opened) =
      Some (MuxDemo.after (MuxDemo.opened ++ MuxDemo.leak))) as E
      by (apply MuxDemo.after_more; vm_compute; reflexivity).
    unfold MuxDemo.leak in E at 1. cbn [runs] in E.
    destruct (mstep MuxDemo.debug (MuxDemo.after MuxDemo.opened) (MReplied 0 false)) as [x|]; [exact E|discriminate E].
  - apply MuxDemo.after_more; vm_compute; reflexivity.
  - vm_compute. reflexivity.
  - vm_compute. reflexivity.
  - exact H.
Defined.

Lemma only_cancel_stops_witness :
  mx_over (MuxDemo.after [MRecv (Err Closed); MKeepalive; MSent false; MWClosed]) = false.
Proof.
  apply (only_cancel_stops MuxDemo.debug [MRecv (Err Closed); MKeepalive; MSent false; MWClosed] false no_status
    (MuxDemo.after [MRecv (Err Closed); MKeepalive; MSent false; MWClosed])).
  - apply MuxDemo.mux_after. vm_compute. reflexivity.
  - reflexivity.
Defined.
