(* ===== verification/Streams.v ===== *)
(** The local HTTP proxy end to end: the multiplexer of a client (client-core/src/proxy.rs)
    linked to the server's transition system, whose tasks dial the remotes of streams
    (server/src/session.rs). *)
From stdpp Require Import gmap.
From S2P Require Import Prelude Net Text Core Mpsc ServerConfig Router Session SessionInv SessionLaws ServerThms Uplink Downlink Remotes Link.
From S2P Require Import HttpHead.
From S2P Require Engine.
From S2P Require Import Mux MuxThms.

(** What a step of the multiplexer hands to its transport, and what it takes from it; the
    connection is never replaced. *)
Definition mux_sends (s : Mux) (e : mevent) : list Frame :=
  match e, mx_writer s with MSent true, MWSending f => [f] | _, _ => [] end.
Definition mux_gets (e : mevent) : list Frame := match e with MRecv (Ok f) => [f] | _ => [] end.

Section Client.
Variable debug : bytes -> string.

Lemma mstep_moved s e s' : mstep debug s e = Some s' ->
  mx_wire s' = mx_wire s ++ mux_sends s e /\ mx_recvd s' = mx_recvd s ++ mux_gets e.
Proof.
  intros E. mux_cases E; unfold mux_sends; repeat match goal with W : mx_writer s = _ |- _ => rewrite W end;
    cbn; rewrite ?app_nil_r; done.
Qed.
Definition multiplexed (s : Mux) (out inp : list Frame) : Prop :=
  (mux_inv s /\ sock_inv debug s) /\ mx_wire s = out /\ mx_recvd s = inp.
Lemma multiplexed_start member st : multiplexed (mux_start member st) [] [].
Proof. split; [split; [apply mux_start_inv|apply sock_start]|done]. Qed.
Lemma multiplexed_step s out inp e s' : multiplexed s out inp -> true = true -> mstep debug s e = Some s' ->
  multiplexed s' (out ++ mux_sends s e) (inp ++ mux_gets e).
Proof.
  intros ([Hi Hk] & <- & <-) _ E. split; [split; [by eapply mux_step|by eapply sock_step]|]. by apply mstep_moved.
Qed.
End Client.

Abbreviation Proxied := (Linked Mux).
Definition proxied_step `{IpNet} (debug : bytes -> string) : cid -> Proxied -> lk_event mevent -> option Proxied :=
  link_step (mstep debug) (fun _ => true) mux_sends mux_gets.
Definition proxied_start (member : bool) (st : Engine.LiveStatus) (s : Server) : Proxied :=
  mkLinked (mux_start member st) s [] [].

(** ** The frames of a stream, as the two ends read them *)

Lemma stream_data_frames id fs : stream_data id fs = stream_data id (frames_of id fs).
Proof.
  unfold frames_of. induction fs as [|f fs IH]; [done|].
  destruct f; cbn; try exact IH; case_bool_decide as E; cbn; rewrite ?decide_True, ?decide_False by congruence; congruence.
Qed.
Lemma stream_data_chunks id chunks closed fs :
  fs `prefix_of` map (FStreamData id) chunks ++ (if closed : bool then [FStreamClose id None] else []) ->
  stream_data id fs `prefix_of` chunks.
Proof.
  revert fs. induction chunks as [|d chunks IH]; intros [|f fs] [r E]; try apply prefix_nil; cbn in E.
  - destruct closed; [|done]. injection E as <- _. cbn. by rewrite decide_True.
  - injection E as <- E. cbn. rewrite decide_True by done. apply prefix_cons, IH. by exists r.
Qed.
(** The only opening of a stream is in front of its frames. *)
Lemma stream_opening id t t' chunks closed fs gs :
  fs ++ FStreamOpen id t' :: gs `prefix_of` stream_frames id t chunks closed ->
  fs = [] /\ t' = t /\ stream_data id gs `prefix_of` chunks.
Proof.
  intros [r E]. unfold stream_frames in E. destruct fs as [|f fs].
  - injection E as E0 E. split_and!; [done..|]. apply stream_data_chunks with closed. by exists r.
  - exfalso. injection E as _ E. assert (FStreamOpen id t' ∈ map (FStreamData id) chunks ++ (if closed then [FStreamClose id None] else [])) as Hin.
    { rewrite E. set_solver. }
    apply elem_of_app in Hin as [(? & ? & ?)%list_elem_of_fmap|Hin]; [done|]. destruct closed; set_solver.
Qed.

(** ** Joint runs *)

Section Joint.
Context `{IpNet} (debug : bytes -> string) (c : cid) (cfg : ServerConfig) (v6 tun : bool) (now : Z) (h : Hello).
Context (said : list Frame).
Definition joint : list event -> Proxied -> Prop := joined c (multiplexed debug) cfg v6 tun now [FHello h] said.

(** The openings the server has seen are on the client's wire, one per connection. *)
Lemma opening_sent es t before id tgt rest : joint es t -> Z.of_nat (mx_next (lk_client t)) < 2 ^ 32 ->
  frames c es = before ++ FStreamOpen id tgt :: rest ->
  exists k l, mx_locals (lk_client t) !! k = Some l /\ l_id l = id /\ l_target l = Some tgt /\
    frames_of id before = [] /\ stream_data id rest `prefix_of` l_read l.
Proof.
  intros (got & out & inp & Hr & Hf & -> & _ & [Hi _] & Hw & _) Hn E. rewrite Hf in E.
  destruct before as [|f before]; [done|]. injection E as <- E.
  destruct (wire_owner (lk_client t) (FStreamOpen id tgt) id Hi) as (k & l & Hk & Hid); [rewrite Hw, E; set_solver|done|].
  exists k, l. split; [done|]. split; [done|].
  assert (frames_of id before ++ FStreamOpen id tgt :: frames_of id rest `prefix_of` frames_of (l_id l) (mx_wire (lk_client t))) as Hp.
  { rewrite Hid, Hw, E, !frames_app. unfold frames_of at 4. cbn. rewrite bool_decide_true by done. by apply prefix_app_r. }
  destruct (wire_frames _ k l Hi Hn Hk) as [E0|(tg & chunks & closed & Ht & Hs & Hch & _)].
  { rewrite E0 in Hp. apply prefix_nil_inv in Hp. by destruct (frames_of id before). }
  rewrite Hid in *. destruct (stream_opening _ _ _ _ _ _ _ (transitivity Hp Hs)) as (Eb & -> & Hd).
  rewrite <- stream_data_frames in Hd. split_and!; [done|exact Eb|by etrans].
Qed.
Lemma remote_alone es t x u : joint es t -> Z.of_nat (mx_next (lk_client t)) < 2 ^ 32 ->
  sv_tasks (lk_server t) !! x = Some u -> t_conn u = c -> sole x u (lk_server t).
Proof.
  intros Hj Hn Hx Hc y v Hv Ec Ei. destruct (decide (x = y)) as [->|Hne]; [done|exfalso]. pose proof Hj as (? & ? & ? & Hr & _).
  destruct (two_tasks _ _ _ _ _ _ x y u v Hr Hx Hv Ec Ei Hne) as (f1 & t1 & f2 & t2 & f3 & E). rewrite Hc in E.
  rewrite app_comm_cons, app_assoc in E.
  destruct (opening_sent es t _ _ _ _ Hj Hn E) as (_ & _ & _ & _ & _ & E0 & _).
  rewrite frames_app in E0. apply app_eq_nil in E0 as [_ E0]. unfold frames_of in E0. cbn in E0.
  by rewrite bool_decide_true in E0.
Qed.
(** Before a connection's head is read nothing comes back for its id. *)
Lemma head_unserved es t k l : joint es t -> Z.of_nat (mx_next (lk_client t)) < 2 ^ 32 ->
  mx_locals (lk_client t) !! k = Some l -> l_phase l = LHead -> unserved c (l_id l) (lk_server t).
Proof.
  intros Hj Hn Hk Hp y v Hv Ec Ei. pose proof Hj as (got & out & inp & Hr & Hf & Eo & _ & [Hi _] & Hw & _).
  destruct (task_fed _ _ _ _ _ _ _ _ Hr Hv) as (before & rest & _ & E & _). rewrite Ec, Ei in E.
  pose proof (head_silent _ k l Hi Hn Hk Hp) as E0. rewrite Hf in E. destruct before as [|f before]; [done|].
  injection E as _ E. rewrite Hw, Eo, E, !frames_app in E0. apply app_eq_nil in E0 as [E0 _]. apply app_eq_nil in E0 as [_ E0].
  unfold frames_of in E0. cbn in E0. by rewrite bool_decide_true in E0.
Qed.
Lemma unserved_inp es t id : joint es t -> unserved c id (lk_server t) -> data_of id (mx_recvd (lk_client t)) = [].
Proof.
  intros (got & out & inp & Hr & _ & _ & Hl & _ & _ & Hv) Hu. rewrite Hv.
  assert (data_of id (log_of c (lk_server t)) = []) as E.
  { unfold log_of. destruct (sv_conns (lk_server t) !! c) as [k|] eqn:Hk; [|done].
    by apply (sb_idle _ _ (run_back _ _ _ _ _ _ Hr) _ _ _ Hk Hu). }
  rewrite Hl, !data_app in E. by apply app_eq_nil in E as [_ [E _]%app_eq_nil].
Qed.

Lemma first_data es s id : run es (start cfg v6 tun now) = Some s -> frames c es = [FHello h] -> data_of id (log_of c s) = [].
Proof.
  intros Hr Hf. unfold log_of. destruct (sv_conns s !! c) as [k|] eqn:Hk; [|done].
  apply (sb_idle _ _ (run_back _ _ _ _ _ _ Hr) _ _ id Hk). intros y v Hv Ec _.
  destruct (task_fed _ _ _ _ _ _ _ _ Hr Hv) as (before & rest & _ & E & _). rewrite Ec, Hf in E.
  by destruct before as [|? []].
Qed.
Lemma joint_step es t e t' : joint es t -> proxied_step debug c t e = Some t' -> joint (es ++ server_event e) t'.
Proof. apply (joined_step (mstep debug) (fun _ => true) mux_sends mux_gets c (multiplexed debug) (multiplexed_step debug)). Qed.
Lemma joint_bases t0 es0 ls t : joint es0 t0 -> fresh_base (lk_client t0) -> runs (proxied_step debug c) ls t0 = Some t ->
  Z.of_nat (mx_next (lk_client t)) < 2 ^ 32 -> fresh_base (lk_client t).
Proof.
  intros Hj Hb Hr. enough ((exists es, joint es t) /\ (Z.of_nat (mx_next (lk_client t)) < 2 ^ 32 -> fresh_base (lk_client t))) by tauto.
  revert Hr. apply (runs_inv (proxied_step debug c) (fun t => (exists es, joint es t) /\
    (Z.of_nat (mx_next (lk_client t)) < 2 ^ 32 -> fresh_base (lk_client t)))); [|eauto].
  clear t. intros t e t' [[es Hes] Hbt] E. split; [eauto using joint_step|]. intros Hn.
  destruct e as [e|e]; cbn in E; apply bind_Some in E as (x & _ & (y & Ey & [= <-])%bind_Some); cbn in *; [|auto].
  assert (Z.of_nat (mx_next (lk_client t)) < 2 ^ 32) as Hn0 by (pose proof (next_mono debug _ _ _ Ey); lia).
  eapply fresh_base_step; [by apply Hbt| |exact Ey].
  intros k l Hk Hp. eapply unserved_inp; [done|]. by eapply head_unserved.
Qed.
(** What a local connection was given comes from the remote of its stream. *)
Lemma local_returns es t k l : joint es t -> Z.of_nat (mx_next (lk_client t)) < 2 ^ 32 -> fresh_base (lk_client t) ->
  data_of (l_id l) said = [] -> mx_locals (lk_client t) !! k = Some l -> l_written l = [] \/
  exists x u, sv_tasks (lk_server t) !! x = Some u /\ t_conn u = c /\ t_id u = l_id l /\ l_written l `prefix_of` reads x es.
Proof.
  intros Hj Hn Hb Hs0 Hk. pose proof Hj as (got & out & inp & Hr1 & _ & _ & Hl & [Hi _] & _ & Hv).
  set (m := lk_client t) in *. set (s := lk_server t) in *.
  destruct (l_written l) as [|b w] eqn:Ew; [by left|right].
  assert (b :: w `prefix_of` data_of (l_id l) inp) as Hp.
  { rewrite <- Ew. etrans; [by eapply written_frames|]. destruct (Hb _ _ Hk) as [_ Hb0].
    rewrite <- Hv. rewrite <- (take_drop (l_base l) (mx_recvd m)) at 2. by rewrite data_app, Hb0. }
  assert (data_of (l_id l) (log_of c s) <> []) as Hne.
  { rewrite Hl, !data_app. intros [_ [E _]%app_eq_nil]%app_eq_nil. rewrite E in Hp. by apply prefix_nil_inv in Hp. }
  destruct (sv_conns s !! c) as [kc|] eqn:Hkc; [|by unfold log_of in Hne; rewrite Hkc in Hne].
  destruct (decide (map_Forall (fun _ v => ~ (t_conn v = c /\ t_id v = l_id l)) (sv_tasks s))) as [Hno|Hsome].
  - exfalso. apply Hne. unfold log_of. rewrite Hkc. apply (sb_idle _ _ (run_back _ _ _ _ _ _ Hr1) _ _ _ Hkc).
    intros y v Hv' ? ?. by apply (Hno y v Hv').
  - apply map_not_Forall in Hsome as (x & u & Hx & Hu); [|intros ? v; apply _]. apply dec_stable in Hu as [Hc Hid].
    exists x, u. split_and!; [done..|]. pose proof Hkc as Hkc'. rewrite <- Hc in Hkc'.
    assert (sole x u s) as Hso by (eapply remote_alone; [exact Hj|exact Hn|exact Hx|done]).
    destruct (sb_task _ _ (run_back _ _ _ _ _ _ Hr1) _ _ _ Hx Hso Hkc') as [Hlog _]. rewrite Hid in Hlog.
    etrans; [exact Hp|]. etrans; [|exact Hlog]. unfold log_of in Hl at 1. rewrite Hkc in Hl.
    rewrite Hl, !data_app, Hs0, app_nil_l. by apply prefix_app_r.
Qed.
End Joint.



(** ** Witness *)

#[local] Existing Instance Demo.net.
Module StreamsDemo.
Definition login : list event := Demo.login 0 HttpProxy.
Definition first : Proxied := proxied_start false Engine.no_status (Demo.after login).
(** A local program asks for example.org, sends a byte and gets one back. *)
Definition history : list (lk_event mevent) :=
  map LClient (MuxDemo.opened ++ [MTake; MSent true; MReplied 0 true]) ++
  map LServer [ERecv 0 (Ok (FStreamOpen 1 (TDomain "example.org" 443))); ETau 0 0; EDialed 1 (Ok tt)] ++
  map LClient [MRead 0 (Ok [Byte.x01]); MUpPush 0; MTake; MSent true] ++
  map LServer [ERecv 0 (Ok (FStreamData 1 [Byte.x01])); ETau 0 0; ETau 0 0; ETau 0 0; EUpTake 1; EUpWrote 1 true;
    EDownRead 1 (Ok [Byte.x02]); EDownSend 1; EWTake 0; EWSent 0 true] ++
  map LClient [MRecv (Ok (FStreamData 1 [Byte.x02])); MDeliver; MDown 0; MWrote 0 true].
Definition possible : bool :=
  match runs (proxied_step MuxDemo.debug 0) history first with Some _ => true | None => false end.
Definition final : Proxied := default first (runs (proxied_step MuxDemo.debug 0) history first).
Lemma exchange_runs : possible = true -> runs (proxied_step MuxDemo.debug 0) history first = Some final.
Proof. unfold possible, final. by destruct (runs _ history first). Qed.
Definition task : Task := default (new_task 0 0 (TDomain "" 0)) (sv_tasks (lk_server final) !! 1%nat).
Definition was_dialed : bool := match sv_tasks (lk_server final) !! 1%nat with Some _ => true | None => false end.
Lemma dialed_task : was_dialed = true -> sv_tasks (lk_server final) !! 1%nat = Some task.
Proof. unfold was_dialed, task. by destruct (sv_tasks (lk_server final) !! 1%nat). Qed.
Definition written : list (list bytes) := map (fun p => l_written p.2) (map_to_list (mx_locals (lk_client final))).
End StreamsDemo.
