(* ===== verification/Os.v ===== *)
(** Commands, files and name lookups of the operating system, as the network set-up code
    uses them: an environment that answers each call as it likes, knowing everything
    that was asked and answered before.  The state of a set-up is that history and the
    list of undo commands it has collected. *)
From S2P Require Import Prelude Net Text Core.

(** What running a command came to: it was not started, or it ended. *)
Inductive ran := Spawn (e : string) | Exited (success : bool) (out err : bytes).
Inductive entry :=
  | ERun (cmd : string) (args : list string) (r : ran)
  | ERead (path : string) (r : result IoError bytes)
  | EWrite (path : string) (data : bytes) (r : result IoError unit)
  | ELookup (host : string) (r : result IoError (list SocketAddr)).
Abbreviation log := (list entry).

Class Os := {
  os_run : log -> string -> list string -> ran;
  os_read : log -> string -> result IoError bytes;
  os_write : log -> string -> bytes -> result IoError unit;
  os_lookup : log -> string -> Z -> result IoError (list SocketAddr);
}.

Abbreviation command := (string * list string)%type.
Record Sys := mkSys { sy_log : log; sy_undo : list command }.
(** The history goes on with nothing to undo yet. *)
Definition sys_new (l : log) : Sys := mkSys l [].

Definition words (args : list string) : string := join " " args.
Definition succeeded (r : ran) : bool := match r with Exited b _ _ => b | Spawn _ => false end.

(** The word after [tok] in a list of words. *)
Fixpoint after (tok : bytes) (toks : list bytes) : option bytes :=
  match toks with
  | [] => None
  | t :: r => if bool_decide (t = tok) then List.hd_error r else after tok r
  end.

Section Calls.
Context `{Os}.

(** [Command::output]: never an error of its own here, the callers look at it. *)
Definition output (cmd : string) (args : list string) : eff Sys Error ran := fun s =>
  let r := os_run (sy_log s) cmd args in
  (mkSys (sy_log s ++ [ERun cmd args r]) (sy_undo s), Ok r).
Definition read_to_string (path : string) : eff Sys Error (result IoError bytes) := fun s =>
  let r := os_read (sy_log s) path in
  (mkSys (sy_log s ++ [ERead path r]) (sy_undo s), Ok r).
Definition write_in_place (path : string) (data : bytes) : eff Sys Error (result IoError unit) := fun s =>
  let r := os_write (sy_log s) path data in
  (mkSys (sy_log s ++ [EWrite path data r]) (sy_undo s), Ok r).
Definition lookup_host (host : string) (port : Z) : eff Sys Error (result IoError (list SocketAddr)) := fun s =>
  let r := os_lookup (sy_log s) host port in
  (mkSys (sy_log s ++ [ELookup host r]) (sy_undo s), Ok r).

Definition undo_push (c : command) : eff Sys Error unit := fun s =>
  (mkSys (sy_log s) (sy_undo s ++ [c]), Ok tt).
Definition undo_list : eff Sys Error (list command) := fun s => (s, Ok (sy_undo s)).

Definition status_of (spawn label : string) (r : ran) : Result unit :=
  match r with
  | Spawn e => Err (Transport ("spawn `" +:+ spawn +:+ "`: " +:+ e))
  | Exited true _ _ => Ok tt
  | Exited false _ err =>
    Err (Transport ("`" +:+ label +:+ "` failed: " +:+ str (trim (from_utf8_lossy err))))
  end.
(** [run]: the command must succeed. *)
Definition run (cmd : string) (args : list string) : eff Sys Error unit :=
  r ← output cmd args; lift_result (status_of cmd (cmd +:+ " " +:+ words args) r).
Definition run_ip (args : list string) : eff Sys Error unit :=
  r ← output "ip" args; lift_result (status_of ("ip " +:+ words args) ("ip " +:+ words args) r).
Definition try_ip (args : list string) : eff Sys Error unit := ignore (run_ip args).
Definition try_run (cmd : string) (args : list string) : eff Sys Error unit := ignore (run cmd args).

(** The output of a command that succeeded. *)
Definition cmd_out (cmd : string) (args : list string) : eff Sys Error (option bytes) :=
  r ← output cmd args;
  mret match r with Exited true out _ => Some (from_utf8_lossy out) | _ => None end.
(** The output of a command that was started, whatever its status. *)
Definition cmd_text (cmd : string) (args : list string) : eff Sys Error (result string bytes) :=
  r ← output cmd args;
  mret match r with Spawn e => Err e | Exited _ out _ => Ok (from_utf8_lossy out) end.

(** Commands run one after the other, their outcome ignored. *)
Fixpoint run_all (cs : list command) : eff Sys Error unit :=
  match cs with
  | [] => mret tt
  | (cmd, args) :: r => output cmd args;; run_all r
  end.
Fixpoint for_each {A} (f : A -> eff Sys Error unit) (l : list A) : eff Sys Error unit :=
  match l with [] => mret tt | x :: r => f x;; for_each f r end.

Definition logged (cmd : string) (args : list string) (s : Sys) : Sys :=
  mkSys (sy_log s ++ [ERun cmd args (os_run (sy_log s) cmd args)]) (sy_undo s).
Lemma try_then {A} cmd args (m : eff Sys Error A) s : (try_run cmd args;; m) s = m (logged cmd args s).
Proof. done. Qed.
Lemma run_eq cmd args s :
  run cmd args s = (mkSys (sy_log s ++ [ERun cmd args (os_run (sy_log s) cmd args)]) (sy_undo s),
    status_of cmd (cmd +:+ " " +:+ words args) (os_run (sy_log s) cmd args)).
Proof. done. Qed.
Lemma run_all_ok cs s s' r : run_all cs s = (s', r) -> r = Ok tt.
Proof.
  revert s. induction cs as [|[cmd args] cs IH]; intros s; [by intros [= _ <-]|]. cbn [run_all].
  unfold mbind, eff_bind, output. apply IH.
Qed.
End Calls.

(** ** Invariants of a set-up

    [keeps I m]: whatever the environment answers and however [m] ends, [I] holds again. *)

Definition keeps {A} (I : Sys -> Prop) (m : eff Sys Error A) : Prop :=
  forall s s' r, I s -> m s = (s', r) -> I s'.

(** What the last step establishes, the whole establishes. *)
Lemma bind_ends {A B} (m : eff Sys Error A) (f : A -> eff Sys Error B) (P : Sys -> B -> Prop) :
  (forall a s s' b, f a s = (s', Ok b) -> P s' b) -> forall s s' b, (m ≫= f) s = (s', Ok b) -> P s' b.
Proof. intros Hf s0 s1 b. unfold mbind, eff_bind. destruct (m s0) as [s2 [a|e]]; [apply Hf|done]. Qed.

Section Keeps.
Context {I : Sys -> Prop}.

Lemma keeps_ret {A} (a : A) : keeps I (mret a).
Proof. by intros s s' r H [= <- <-]. Qed.
Lemma keeps_throw {A} e : keeps I (throw e : eff Sys Error A).
Proof. by intros s s' r H [= <- <-]. Qed.
Lemma keeps_lift {A} (x : Result A) : keeps I (lift_result x).
Proof. by intros s s' r H [= <- <-]. Qed.
Lemma keeps_bind {A B} (m : eff Sys Error A) (f : A -> eff Sys Error B) :
  keeps I m -> (forall a, keeps I (f a)) -> keeps I (m ≫= f).
Proof.
  intros Hm Hf s s' r H. unfold mbind, eff_bind. destruct (m s) as [s1 [a|e]] eqn:E.
  - intros E'. eapply Hf; [by eapply Hm|exact E'].
  - intros [= <- <-]. by eapply Hm.
Qed.
Lemma keeps_ignore {A} (m : eff Sys Error A) : keeps I m -> keeps I (ignore m : eff Sys Error unit).
Proof. intros Hm s s' r H [= <- <-]. destruct (m s) as [s1 x] eqn:E. by eapply Hm. Qed.
Lemma keeps_try {A} (m : eff Sys Error A) : keeps I m -> keeps I (try_eff m : eff Sys Error (result Error A)).
Proof. intros Hm s s' r H. unfold try_eff. destruct (m s) as [s1 x] eqn:E. intros [= <- <-]. by eapply Hm. Qed.
Lemma keeps_for_each {A} (f : A -> eff Sys Error unit) l : (forall x, keeps I (f x)) -> keeps I (for_each f l).
Proof.
  intros Hf. induction l as [|x l IH]; cbn [for_each]; [apply keeps_ret|].
  apply keeps_bind; [apply Hf|intros _; exact IH].
Qed.
End Keeps.
#[export] Hint Resolve keeps_ret keeps_throw keeps_lift : keeps.

(** Best-effort computations: they never fail. *)
Definition total {A} (m : eff Sys Error A) : Prop := forall s s' r, m s = (s', r) -> is_ok r = true.
Lemma total_ret {A} (a : A) : total (mret a).
Proof. by intros s s' r [= <- <-]. Qed.
Lemma total_bind {A B} (m : eff Sys Error A) (f : A -> eff Sys Error B) :
  total m -> (forall a, total (f a)) -> total (m ≫= f).
Proof.
  intros Hm Hf s s' r. unfold mbind, eff_bind. destruct (m s) as [s1 [a|e]] eqn:E; [apply Hf|].
  by apply Hm in E.
Qed.
Lemma total_ignore {A} (m : eff Sys Error A) : total (ignore m : eff Sys Error unit).
Proof. by intros s s' r [= <- <-]. Qed.
Lemma total_try {A} (m : eff Sys Error A) : total (try_eff m : eff Sys Error (result Error A)).
Proof. intros s s' r. unfold try_eff. by destruct (m s); intros [= <- <-]. Qed.
Lemma total_for_each {A} (f : A -> eff Sys Error unit) l : (forall x, total (f x)) -> total (for_each f l).
Proof.
  intros Hf. induction l as [|x l IH]; cbn [for_each]; [apply total_ret|].
  apply total_bind; [apply Hf|intros _; exact IH].
Qed.
Lemma total_output `{Os} cmd args : total (output cmd args).
Proof. by intros s s' r [= <- <-]. Qed.
Lemma total_lookup `{Os} n p : total (lookup_host n p).
Proof. by intros s s' r [= <- <-]. Qed.
Lemma total_push c : total (undo_push c).
Proof. by intros s s' r [= <- <-]. Qed.
Lemma total_undo_list : total undo_list.
Proof. by intros s s' r [= <- <-]. Qed.
Lemma total_cmd_out `{Os} cmd args : total (cmd_out cmd args).
Proof. by intros s s' r [= <- <-]. Qed.
#[export] Hint Resolve total_ret total_ignore total_try total_output total_lookup total_push total_undo_list
  total_cmd_out : total.
