(* ===== verification/NetCfg.v ===== *)
(** Network configuration of the client (core/client-core/src/netcfg.rs): the guard and its
    undo commands, the split-tunnel rules, and what is set up on Linux, macOS and Windows. *)
From Stdlib Require Import Strings.String.
From S2P Require Import Prelude Net Text Core ClientConfig Os.

(** The [ipnet] crate. *)
Class IpNets := {
  net4 : Type;
  parse_net4 : string -> option net4;
  show_net4 : net4 -> string;
  net4_new : Ipv4Addr -> Z -> option net4;
  net4_network : net4 -> Ipv4Addr;
  net4_mask : net4 -> Ipv4Addr;
  is_net : string -> bool;
}.

Record NetGuard := mkGuard { undo : list command; resolv_backup : option bytes }.
Definition resolv_conf : string := "/etc/resolv.conf".

(** Dropping the guard: the undo commands in order, then the saved file. *)
Definition drop_guard `{Os} (g : NetGuard) : eff Sys Error unit :=
  run_all (undo g);;
  match resolv_backup g with
  | Some b => ignore (write_in_place resolv_conf b)
  | None => mret tt
  end.

Definition first_line (text : bytes) : bytes := default [] (List.hd_error (lines text)).
Fixpoint find_line {A} (f : bytes -> option A) (ls : list bytes) : option A :=
  match ls with [] => None | l :: r => match f l with Some x => Some x | None => find_line f r end end.
(** [l.trim().strip_prefix(p)], trimmed. *)
Definition field (p : string) (l : bytes) : option string :=
  (fun s => str (trim s)) <$> strip_prefix (to_b p) (trim l).
Definition contains (needle hay : bytes) : bool := bool_decide (is_Some (find_sub_from 0 needle hay)).

Definition nameservers (w : Welcome) : bytes :=
  to_b (fold_right String.append "" (map (fun i => "nameserver " +:+ show_v4 i +:+ str [Byte.x0a]) (dns w) ++
    map (fun i => "nameserver " +:+ show_v6 i +:+ str [Byte.x0a]) (dns6 w))).
Definition has_dns (w : Welcome) : bool := match dns w, dns6 w with [], [] => false | _, _ => true end.

(** ** Split-tunnel rules *)

#[export] Instance string_leb_dec : RelDecision (fun a b => String.leb a b = true).
Proof. intros a b. apply _. Defined.
Fixpoint dedup (l : list string) : list string :=
  match l with
  | x :: (y :: _) as r => if bool_decide (x = y) then dedup r else x :: dedup r
  | l => l
  end.

Section Rules.
Context `{Os} `{IpNets}.

Definition host_route (sa : SocketAddr) : option string :=
  match sa_ip sa with V4 ip => Some (show_v4 ip +:+ "/32") | V6 _ => None end.
Definition resolve_rule_targets (target : string) : eff Sys Error (list string) :=
  match parse_net4 target, parse_ipv4 target with
  | Some n, _ => mret [show_net4 n]
  | None, Some ip => mret [show_v4 ip +:+ "/32"]
  | None, None =>
    if bool_decide (is_Some (parse_ip target)) || is_net target then mret []
    else
      r ← lookup_host target 0;
      mret match r with
      | Ok addrs => dedup (merge_sort (fun a b => String.leb a b = true) (omap host_route addrs))
      | Err _ => []
      end
  end.

(** What each system does with one route: the arguments, if the rule can be honoured, the
    command, and how it is undone. *)
Record RuleOps := mkRuleOps {
  add_args : RouteRule -> string -> eff Sys Error (option (list string));
  add_route : list string -> eff Sys Error unit;
  del_route : string -> list string -> command;
}.
(** The body of the inner loop; the result is the set of routes already claimed. *)
Definition install_route (ops : RuleOps) (server_route : string) (rule : RouteRule) (route : string)
    (seen : gset string) : eff Sys Error (gset string) :=
  if bool_decide (route = server_route) then mret seen
  else if bool_decide (route ∈ seen) then mret seen
  else
    let seen := {[route]} ∪ seen in
    a ← add_args ops rule route;
    match a with
    | None => mret seen
    | Some add =>
      r ← try_eff (add_route ops add);
      match r : result Error unit with
      | Ok _ => undo_push (del_route ops route add);; mret seen
      | Err _ => mret seen
      end
    end.
Fixpoint install_routes (ops : RuleOps) (server_route : string) (rule : RouteRule) (l : list string)
    (seen : gset string) : eff Sys Error (gset string) :=
  match l with
  | [] => mret seen
  | route :: r => seen ← install_route ops server_route rule route seen; install_routes ops server_route rule r seen
  end.
Fixpoint route_rules (ops : RuleOps) (server_route : string) (rules : list RouteRule) (seen : gset string)
    : eff Sys Error unit :=
  match rules with
  | [] => mret tt
  | rule :: rest =>
    l ← resolve_rule_targets (target rule);
    seen ← install_routes ops server_route rule l seen;
    route_rules ops server_route rest seen
  end.
End Rules.

(** ** Linux: iproute2 *)

Module Linux.
Section Linux.
Context `{Os} `{IpNets}.
(** Rust's [{:?}] rendering of a string, used in one error message. *)
Context (debug : bytes -> string).

Definition via_dev (line : bytes) : option (string * string) :=
  let toks := split_whitespace line in
  match after (to_b "via") toks, after (to_b "dev") toks with
  | Some g, Some d => Some (str g, str d)
  | _, _ => None
  end.
Definition default_route : eff Sys Error (string * string) :=
  t ← cmd_text "ip" ["route"; "show"; "default"];
  lift_result match t with
  | Err e => Err (Transport ("ip route: " +:+ e))
  | Ok text =>
    match via_dev (first_line text) with
    | Some p => Ok p
    | None => Err (Transport ("cannot parse default route: " +:+ debug (first_line text)))
    end
  end.
Definition default_route6 : eff Sys Error (option (string * string)) :=
  t ← cmd_text "ip" ["-6"; "route"; "show"; "default"];
  mret match t with Ok text => via_dev (first_line text) | Err _ => None end.

Definition rule_args (tun : string) (orig : option (string * string)) (rule : RouteRule) (route : string)
    : eff Sys Error (option (list string)) :=
  mret
    (if bool_decide (via rule = "tunnel") then Some ["route"; "add"; route; "dev"; tun]
     else if bool_decide (via rule = "direct") then
       (fun p => ["route"; "add"; route; "via"; p.1; "dev"; p.2]) <$> orig
     else Some (["route"; "add"; route] ++
       match rule_gateway rule with Some gw => ["via"; show_v4 gw] | None => [] end ++ ["dev"; via rule])).
Definition rule_ops (tun : string) (orig : option (string * string)) : RuleOps :=
  mkRuleOps (rule_args tun orig) run_ip (fun _ add => ("ip", <[1%nat := "del"]> add)).
Definition apply_route_rules (cfg : ClientConfig) (tun : string) (orig : option (string * string))
    (server_ip : IpAddr) : eff Sys Error unit :=
  route_rules (rule_ops tun orig) (show_ip server_ip +:+ "/32") (routes cfg) ∅.

(** [ip [-6] route add], best effort, and its undo. *)
Definition capture6 (kind : list string) (dest : string) (dev : list string) : eff Sys Error unit :=
  try_ip (["-6"; "route"; "add"] ++ kind ++ [dest] ++ dev);;
  undo_push ("ip", ["-6"; "route"; "del"; dest]).

Definition ipv6_routes (cfg : ClientConfig) (w : Welcome) (ifname : string) (server_ip : IpAddr) : eff Sys Error unit :=
  match assigned_ip6 w with
  | Some _ =>
    match server_ip with
    | V6 s6 =>
      g ← default_route6;
      match g with
      | Some (gw6, dev6) =>
        let host := show_v6 s6 +:+ "/128" in
        try_ip ["-6"; "route"; "add"; host; "via"; gw6; "dev"; dev6];;
        undo_push ("ip", ["-6"; "route"; "del"; host])
      | None => mret tt
      end
    | V4 _ => mret tt
    end;;
    capture6 [] "::/1" ["dev"; ifname];;
    capture6 [] "8000::/1" ["dev"; ifname]
  | None =>
    if ipv6_killswitch cfg then
      capture6 ["unreachable"] "::/1" [];;
      capture6 ["unreachable"] "8000::/1" []
    else mret tt
  end.

(** The system resolver; the result is what to restore. *)
Definition set_dns (w : Welcome) : eff Sys Error (option bytes) :=
  if has_dns w then
    r ← read_to_string resolv_conf;
    ignore (write_in_place resolv_conf (nameservers w));;
    mret (ok r)
  else mret None.

Definition capture_all (cfg : ClientConfig) (w : Welcome) (ifname : string) (server_ip : IpAddr)
    : eff Sys Error (option bytes) :=
  run_ip ["route"; "add"; "0.0.0.0/1"; "dev"; ifname];;
  undo_push ("ip", ["route"; "del"; "0.0.0.0/1"]);;
  run_ip ["route"; "add"; "128.0.0.0/1"; "dev"; ifname];;
  undo_push ("ip", ["route"; "del"; "128.0.0.0/1"]);;
  ipv6_routes cfg w ifname server_ip;;
  set_dns w.

Definition pin_server (orig : option (string * string)) (server_ip : IpAddr) : eff Sys Error unit :=
  match orig with
  | Some (gw, dev) =>
    let host := show_ip server_ip +:+ "/32" in
    try_ip ["route"; "add"; host; "via"; gw; "dev"; dev];;
    undo_push ("ip", ["route"; "del"; host])
  | None => mret tt
  end.

Definition set_link (w : Welcome) (ifname : string) : eff Sys Error unit :=
  run_ip ["addr"; "add"; show_v4 (assigned_ip w) +:+ "/" +:+ pretty (prefix_len w); "dev"; ifname];;
  run_ip ["link"; "set"; "dev"; ifname; "mtu"; pretty (mtu w)];;
  run_ip ["link"; "set"; "dev"; ifname; "up"].

Definition apply (cfg : ClientConfig) (w : Welcome) (ifname : string) (server_ip : IpAddr)
    : eff Sys Error NetGuard :=
  set_link w ifname;;
  match assigned_ip6 w with
  | Some ip6 => try_ip ["-6"; "addr"; "add"; show_v6 ip6 +:+ "/" +:+ pretty (Z.max 1 (prefix6 w)); "dev"; ifname]
  | None => mret tt
  end;;
  orig ← try_eff default_route;
  apply_route_rules cfg ifname (ok orig) server_ip;;
  backup ←
    match cc_mode cfg with
    | GlobalProxy =>
      pin_server (ok orig) server_ip;;
      match split_mode cfg with
      | Whitelist => mret None
      | Blacklist => capture_all cfg w ifname server_ip
      end
    | Vpn | HttpProxy | SystemProxy => mret None
    end;
  u ← undo_list;
  mret (mkGuard u backup).

Definition apply_vpn_lan (w : Welcome) (ifname : string) : eff Sys Error NetGuard :=
  set_link w ifname;;
  undo_push ("ip", ["addr"; "del"; show_v4 (assigned_ip w) +:+ "/" +:+ pretty (prefix_len w); "dev"; ifname]);;
  u ← undo_list;
  mret (mkGuard u None).
End Linux.
End Linux.

(** ** macOS: ifconfig, route and networksetup *)

Module MacOs.
Section MacOs.
Context `{Os} `{IpNets}.

Definition default_gateway : eff Sys Error string :=
  t ← cmd_text "route" ["-n"; "get"; "default"];
  lift_result match t with
  | Err e => Err (Transport ("route get default: " +:+ e))
  | Ok text => ok_or (Transport "no default gateway") (find_line (field "gateway:") (lines text))
  end.
Definition default_gateway6 : eff Sys Error (option string) :=
  t ← cmd_out "route" ["-n"; "get"; "-inet6"; "default"];
  mret (text ← t; find_line (field "gateway:") (lines text)).

(** The service whose block names the device; [name] is the last service heading seen. *)
Fixpoint service_of (dev : string) (name : option string) (ls : list bytes) : option string :=
  match ls with
  | [] => None
  | line :: r =>
    let t := trim line in
    match strip_prefix (to_b "(") t with
    | Some rest =>
      if starts_with (to_b "Hardware Port:") rest then
        if contains (to_b ("Device: " +:+ dev +:+ ")")) t then name else service_of dev name r
      else match find_sub_from 0 (to_b ") ") rest with
           | Some i => service_of dev (Some (str (trim (drop (i + 2) rest)))) r
           | None => service_of dev name r
           end
    | None => service_of dev name r
    end
  end.
Definition primary_service : eff Sys Error (option string) :=
  def ← cmd_out "route" ["-n"; "get"; "default"];
  match (text ← def; find_line (field "interface:") (lines text)) : option string with
  | None => mret None
  | Some dev =>
    order ← cmd_out "networksetup" ["-listnetworkserviceorder"];
    mret (text ← order; service_of dev None (lines text))
  end.

Definition rule_args (peer_gw : string) (orig_gw : option string) (rule : RouteRule) (route : string)
    : eff Sys Error (option (list string)) :=
  mret
    (if bool_decide (via rule = "tunnel") then Some ["add"; "-net"; route; peer_gw]
     else if bool_decide (via rule = "direct") then (fun gw => ["add"; "-net"; route; gw]) <$> orig_gw
     else Some (["add"; "-net"; route] ++
       match rule_gateway rule with
       | Some gw => [show_v4 gw; "-ifscope"; via rule]
       | None => ["-interface"; via rule]
       end)).
Definition rule_ops (peer_gw : string) (orig_gw : option string) : RuleOps :=
  mkRuleOps (rule_args peer_gw orig_gw) (run "route") (fun _ add => ("route", <[0%nat := "delete"]> add)).
Definition apply_route_rules (cfg : ClientConfig) (peer_gw : string) (orig_gw : option string)
    (server_ip : IpAddr) : eff Sys Error unit :=
  route_rules (rule_ops peer_gw orig_gw) (show_ip server_ip +:+ "/32") (routes cfg) ∅.

Definition subnet (w : Welcome) : string :=
  match net4_new (assigned_ip w) (prefix_len w) with
  | Some n => show_v4 (net4_network n) +:+ "/" +:+ pretty (prefix_len w)
  | None => show_v4 (assigned_ip w) +:+ "/" +:+ pretty (prefix_len w)
  end.

(** [route add], best effort, and its undo. *)
Definition try_route (family : list string) (gw : list string) : eff Sys Error unit :=
  try_run "route" (["add"] ++ family ++ gw);;
  undo_push ("route", ["delete"] ++ family).
Definition must_route (family : list string) (gw : list string) : eff Sys Error unit :=
  run "route" (["add"] ++ family ++ gw);;
  undo_push ("route", ["delete"] ++ family).

Definition ipv6_routes (cfg : ClientConfig) (w : Welcome) (ifname : string) (server_ip : IpAddr)
    (service : option string) : eff Sys Error unit :=
  match assigned_ip6 w with
  | Some _ =>
    match server_ip with
    | V6 s6 =>
      g ← default_gateway6;
      match g with Some gw6 => try_route ["-inet6"; "-host"; show_v6 s6] [gw6] | None => mret tt end
    | V4 _ => mret tt
    end;;
    try_route ["-inet6"; "-net"; "::/1"] ["-interface"; ifname];;
    try_route ["-inet6"; "-net"; "8000::/1"] ["-interface"; ifname]
  | None =>
    if ipv6_killswitch cfg then
      match service with
      | Some sv =>
        try_run "networksetup" ["-setv6off"; sv];;
        undo_push ("networksetup", ["-setv6automatic"; sv])
      | None => mret tt
      end
    else mret tt
  end.

Definition server_list (w : Welcome) : list string := map show_v4 (dns w) ++ map show_v6 (dns6 w).
Definition previous_servers (out : option bytes) : list string :=
  List.filter (fun s => bool_decide (is_Some (parse_ip s))) (map (fun l => str (trim l)) (lines (default [] out))).
Definition set_dns (w : Welcome) (service : option string) : eff Sys Error (option bytes) :=
  if has_dns w then
    r ← read_to_string resolv_conf;
    ignore (write_in_place resolv_conf (nameservers w));;
    match service with
    | Some sv =>
      prev ← cmd_out "networksetup" ["-getdnsservers"; sv];
      try_run "networksetup" (["-setdnsservers"; sv] ++ server_list w);;
      undo_push ("networksetup", ["-setdnsservers"; sv] ++
        match previous_servers prev with [] => ["empty"] | l => l end)
    | None => mret tt
    end;;
    mret (ok r)
  else mret None.

Definition capture_all (cfg : ClientConfig) (w : Welcome) (ifname : string) (server_ip : IpAddr)
    (service : option string) : eff Sys Error (option bytes) :=
  must_route ["-net"; "0.0.0.0/1"] ["-interface"; ifname];;
  must_route ["-net"; "128.0.0.0/1"] ["-interface"; ifname];;
  ipv6_routes cfg w ifname server_ip service;;
  set_dns w service.

Definition apply (cfg : ClientConfig) (w : Welcome) (ifname : string) (server_ip : IpAddr)
    : eff Sys Error NetGuard :=
  let gw := show_v4 (gateway w) in
  run "ifconfig" [ifname; "inet"; show_v4 (assigned_ip w); gw; "up"];;
  try_run "ifconfig" [ifname; "mtu"; pretty (mtu w)];;
  match assigned_ip6 w with
  | Some ip6 => try_run "ifconfig" [ifname; "inet6"; show_v6 ip6; "prefixlen"; pretty (Z.max 1 (prefix6 w))]
  | None => mret tt
  end;;
  orig ← try_eff default_gateway;
  apply_route_rules cfg gw (ok orig) server_ip;;
  service ← primary_service;
  backup ←
    match cc_mode cfg with
    | GlobalProxy =>
      orig2 ← try_eff default_gateway;
      match (orig2 : result Error string) with
      | Ok gw2 => try_route ["-host"; show_ip server_ip] [gw2]
      | Err _ => mret tt
      end;;
      match split_mode cfg with
      | Whitelist => mret None
      | Blacklist => capture_all cfg w ifname server_ip service
      end
    | Vpn => try_route ["-net"; subnet w] ["-interface"; ifname];; mret None
    | HttpProxy | SystemProxy => mret None
    end;
  u ← undo_list;
  mret (mkGuard u backup).

Definition apply_vpn_lan (w : Welcome) (ifname : string) : eff Sys Error NetGuard :=
  run "ifconfig" [ifname; "inet"; show_v4 (assigned_ip w); show_v4 (gateway w); "up"];;
  try_run "ifconfig" [ifname; "mtu"; pretty (mtu w)];;
  try_route ["-net"; subnet w] ["-interface"; ifname];;
  u ← undo_list;
  mret (mkGuard u None).
End MacOs.
End MacOs.

(** ** Windows: netsh and route *)

Module Windows.
Section Windows.
Context `{Os} `{IpNets}.

Definition prefix_to_mask (prefix : Z) : string :=
  show_v4 (v4_of_u32
    (if prefix =? 0 then 0 else if 32 <=? prefix then 2 ^ 32 - 1
     else wrap 32 (Z.shiftl (2 ^ 32 - 1) (32 - prefix)))).
Definition split_cidr (cidr : string) : option (string * string) :=
  (fun n => (show_v4 (net4_network n), show_v4 (net4_mask n))) <$> parse_net4 cidr.

Definition join_b (l : list bytes) : string := join " " (map str l).
Fixpoint index_of (name : string) (ls : list bytes) : option Z :=
  match ls with
  | [] => None
  | line :: r =>
    let cols := split_whitespace line in
    if (length cols <? 5)%nat then index_of name r
    else match parse_uint (2 ^ 32) (nth 0 cols []) with
         | Some idx => if bool_decide (join_b (drop 4 cols) = name) then Some idx else index_of name r
         | None => index_of name r
         end
  end.
Definition if_index (name : string) : eff Sys Error (option Z) :=
  t ← cmd_out "netsh" ["interface"; "ipv4"; "show"; "interfaces"];
  mret (text ← t; index_of name (lines text)).

Fixpoint gateway_of (ls : list bytes) : option string :=
  match ls with
  | [] => None
  | line :: r =>
    let cols := split_whitespace line in
    let g := str (nth 2 cols []) in
    if (3 <=? length cols)%nat && bool_decide (nth 0 cols [] = to_b "0.0.0.0") &&
       bool_decide (nth 1 cols [] = to_b "0.0.0.0") && negb (bool_decide (nth 2 cols [] = to_b "On-link")) &&
       bool_decide (is_Some (parse_ipv4 g))
    then Some g else gateway_of r
  end.
Definition default_gateway : eff Sys Error (option string) :=
  t ← cmd_out "route" ["print"; "-4"; "0.0.0.0"];
  mret (text ← t; gateway_of (lines text)).

(** The adapter may take a moment: ten attempts. *)
Fixpoint set_address (n : nat) (ifname ip mask : string) : eff Sys Error bool :=
  match n with
  | O => mret false
  | S n =>
    r ← try_eff (run "netsh" ["interface"; "ipv4"; "set"; "address"; ifname; "static"; ip; mask]);
    if is_ok (r : result Error unit) then mret true else set_address n ifname ip mask
  end.
Definition set_adapter_ipv4 (ifname ip mask mtu : string) : eff Sys Error unit :=
  b ← set_address 10 ifname ip mask;
  if b : bool then
    try_run "netsh" ["interface"; "ipv4"; "set"; "subinterface"; ifname; "mtu=" +:+ mtu; "store=active"]
  else throw (Transport ("could not assign " +:+ ip +:+ " " +:+ mask +:+ " to " +:+ ifname +:+ " via netsh")).

(** The route is added only once its interface is known; [None] is a rule that cannot be
    honoured. *)
Definition rule_args (tun_idx : option Z) (tun_gw : string) (orig_gw : option string) (rule : RouteRule)
    (route : string) : eff Sys Error (option (list string)) :=
  match split_cidr route with
  | None => mret None
  | Some (dest, mask) =>
    let add := ["add"; dest; "mask"; mask] in
    if bool_decide (via rule = "tunnel") then
      mret ((fun i => add ++ [tun_gw; "metric"; "1"; "if"; pretty i]) <$> tun_idx)
    else if bool_decide (via rule = "direct") then mret ((fun gw => add ++ [gw]) <$> orig_gw)
    else
      i ← if_index (via rule);
      mret ((fun i => add ++ [default "0.0.0.0" (show_v4 <$> rule_gateway rule); "if"; pretty i]) <$> (i : option Z))
  end.
Definition rule_ops (tun_idx : option Z) (tun_gw : string) (orig_gw : option string) : RuleOps :=
  mkRuleOps (rule_args tun_idx tun_gw orig_gw) (run "route")
    (fun _ add => ("route", ["delete"; nth 1 add ""; "mask"; nth 3 add ""])).
Definition apply_route_rules (cfg : ClientConfig) (tun_idx : option Z) (tun_gw : string) (orig_gw : option string)
    (server_ip : IpAddr) : eff Sys Error unit :=
  route_rules (rule_ops tun_idx tun_gw orig_gw) (show_ip server_ip +:+ "/32") (routes cfg) ∅.

(** A command whose undo is recorded only when it worked. *)
Definition run_undoable (cmd : string) (args : list string) (u : command) : eff Sys Error unit :=
  r ← try_eff (run cmd args);
  if is_ok (r : result Error unit) then undo_push u else mret tt.

Definition capture4 (tun_gw idxs net : string) : eff Sys Error unit :=
  run_undoable "route" ["add"; net; "mask"; "128.0.0.0"; tun_gw; "metric"; "1"; "if"; idxs]
    ("route", ["delete"; net; "mask"; "128.0.0.0"; tun_gw]).
Definition capture6 (ifname net6 : string) : eff Sys Error unit :=
  run_undoable "netsh" ["interface"; "ipv6"; "add"; "route"; net6; ifname; "store=active"]
    ("netsh", ["interface"; "ipv6"; "delete"; "route"; net6; ifname]).
Definition ipv6_routes (cfg : ClientConfig) (w : Welcome) (ifname : string) (server_ip : IpAddr) : eff Sys Error unit :=
  match server_ip with
  | V6 _ => mret tt
  | V4 _ =>
    if bool_decide (is_Some (assigned_ip6 w)) || ipv6_killswitch cfg
    then for_each (capture6 ifname) ["::/1"; "8000::/1"]
    else mret tt
  end.

(** The resolvers of the adapter: the first replaces the list, the others are appended. *)
Fixpoint set_dns (family ifname : string) (i : Z) (l : list string) : eff Sys Error unit :=
  match l with
  | [] => mret tt
  | addr :: r =>
    (if i =? 0
     then try_run "netsh" ["interface"; family; "set"; "dnsservers"; ifname; "static"; addr; "validate=no"]
     else try_run "netsh" ["interface"; family; "add"; "dnsservers"; ifname; addr; "index=" +:+ pretty (i + 1); "validate=no"]);;
    set_dns family ifname (i + 1) r
  end.

Definition capture_all (cfg : ClientConfig) (w : Welcome) (ifname tun_gw : string) (idx : Z) (server_ip : IpAddr)
    : eff Sys Error unit :=
  for_each (capture4 tun_gw (pretty idx)) ["0.0.0.0"; "128.0.0.0"];;
  ipv6_routes cfg w ifname server_ip;;
  set_dns "ipv4" ifname 0 (map show_v4 (dns w));;
  set_dns "ipv6" ifname 0 (map show_v6 (dns6 w)).

Definition pin_server (orig_gw : option string) (server_ip : IpAddr) : eff Sys Error unit :=
  match orig_gw with
  | Some gw => run_undoable "route" ["add"; show_ip server_ip; "mask"; "255.255.255.255"; gw]
      ("route", ["delete"; show_ip server_ip])
  | None => mret tt
  end.

(** What follows the address of the adapter. *)
Definition configure (cfg : ClientConfig) (w : Welcome) (ifname tun_gw : string) (idx : option Z)
    (orig_gw : option string) (server_ip : IpAddr) : eff Sys Error NetGuard :=
  apply_route_rules cfg idx tun_gw orig_gw server_ip;;
  match cc_mode cfg with
  | GlobalProxy =>
    pin_server orig_gw server_ip;;
    match split_mode cfg, idx with
    | Blacklist, Some i => capture_all cfg w ifname tun_gw i server_ip
    | _, _ => mret tt
    end
  | Vpn | HttpProxy | SystemProxy => mret tt
  end;;
  u ← undo_list;
  mret (mkGuard u None).
Definition apply (cfg : ClientConfig) (w : Welcome) (ifname : string) (server_ip : IpAddr)
    : eff Sys Error NetGuard :=
  set_adapter_ipv4 ifname (show_v4 (assigned_ip w)) (prefix_to_mask (prefix_len w)) (pretty (mtu w));;
  match assigned_ip6 w with
  | Some ip6 => try_run "netsh" ["interface"; "ipv6"; "add"; "address"; ifname; show_v6 ip6]
  | None => mret tt
  end;;
  idx ← if_index ifname;
  orig_gw ← default_gateway;
  let tun_gw := show_v4 (gateway w) in
  configure cfg w ifname tun_gw idx orig_gw server_ip.

Definition apply_vpn_lan (w : Welcome) (ifname : string) : eff Sys Error NetGuard :=
  set_adapter_ipv4 ifname (show_v4 (assigned_ip w)) (prefix_to_mask (prefix_len w)) (pretty (mtu w));;
  mret (mkGuard [] None).
End Windows.
End Windows.

(** An invariant of a set-up holds after the rules when each route keeps it. *)
Lemma keeps_route_rules `{Os} `{IpNets} {I : Sys -> Prop} ops srv rules seen :
  (forall t, keeps I (resolve_rule_targets t)) ->
  (forall rule route seen, rule ∈ rules -> keeps I (install_route ops srv rule route seen)) ->
  keeps I (route_rules ops srv rules seen).
Proof.
  intros Ht. revert seen. induction rules as [|rule rules IH]; intros seen Hr; cbn [route_rules]; [apply keeps_ret|].
  apply keeps_bind; [apply Ht|]. intros l. apply keeps_bind; [|intros ?; apply IH; set_solver]. revert seen.
  induction l as [|route l IHl]; intros seen; cbn [install_routes]; [apply keeps_ret|].
  apply keeps_bind; [apply Hr; set_solver|intros ?; apply IHl].
Qed.
Lemma total_resolve `{Os} `{IpNets} t : total (resolve_rule_targets t).
Proof. unfold resolve_rule_targets. repeat case_match; auto with total. all: apply total_bind; auto with total. Qed.
Lemma total_route_rules `{Os} `{IpNets} ops srv rules seen :
  (forall rule route, total (add_args ops rule route)) -> total (route_rules ops srv rules seen).
Proof.
  intros Ht.
  assert (forall rule route seen, total (install_route ops srv rule route seen)) as Hi.
  { intros rule route seen'. unfold install_route. repeat case_bool_decide; auto with total.
    apply total_bind; [apply Ht|]. intros [add|]; [|auto with total]. apply total_bind; [auto with total|].
    intros [[]|e]; [|auto with total]. apply total_bind; auto with total. }
  assert (forall rule l seen, total (install_routes ops srv rule l seen)) as His.
  { intros rule l. induction l as [|x l IH]; intros seen'; cbn [install_routes]; [auto with total|].
    apply total_bind; [apply Hi|intros ?; apply IH]. }
  revert seen. induction rules as [|rule rules IH]; intros seen; cbn [route_rules]; [auto with total|].
  apply total_bind; [apply total_resolve|]. intros l. apply total_bind; [apply His|intros ?; apply IH].
Qed.
