(* ===== verification/NetCfgThms.v ===== *)
(** Theorems about the network configuration, over the documented behaviour of iproute2:
    the routing table is restored, what a failed set-up leaves behind, what each mode
    captures, and what split-tunnel rules may touch. *)
From S2P Require Import Prelude Net Text Core ClientConfig Os NetCfg.

(** ** The routing table of iproute2, seen through its commands *)

(** The family and destination of an [ip route] command, and the words after them. *)
Abbreviation route := (bool * string)%type.
Definition route_key (verb : string) (args : list string) : option (route * list string) :=
  match args with
  | "route" :: v :: d :: a => if bool_decide (v = verb) then Some (false, d, a) else None
  | "-6" :: "route" :: v :: d :: a =>
    if bool_decide (v = verb) then
      match a with
      | d' :: _ => if bool_decide (d = "unreachable") then Some (true, d', a) else Some (true, d, a)
      | [] => Some (true, d, a)
      end
    else None
  | _ => None
  end.
Definition touches (cmd : string) (args : list string) : bool :=
  bool_decide (cmd = "ip") &&
  (bool_decide (is_Some (route_key "add" args)) || bool_decide (is_Some (route_key "del" args))).

(** What is relied on of iproute2, as its manual has it.  [table] is the main routing table
    after a history: several routes may lead to one destination; the routes the kernel
    keeps for the addresses of the interfaces are its own.  [ip route add] replaces
    nothing: it adds one route, and none when the table has one with the same key (the
    destination and, as the commands here name no preference, the preference a route gets
    by default).  [ip route del] takes one route to the destination whose attributes are
    the ones written, if any are, and fails only when there is none.  The other commands
    leave the routes that are not the kernel's own alone. *)
Class RouteTable `{Os} := {
  rt : Type;
  prefix : Type;
  prefix_eq :: EqDecision prefix;
  prefix_of : route -> prefix;
  rt_to : rt -> prefix;
  rt_own : rt -> bool;
  rt_default : rt -> bool;
  rt_has : rt -> list string -> Prop;
  rt_has_nil : forall x, rt_has x [];
  table : log -> list rt;
  table_other : forall h e, (forall cmd args r, e = ERun cmd args r -> touches cmd args = false) ->
    filter (fun x => rt_own x = false) (table (h ++ [e])) ≡ₚ filter (fun x => rt_own x = false) (table h);
  table_add : forall h args k a, route_key "add" args = Some (k, a) ->
    if succeeded (os_run h "ip" args) then
      (exists x, rt_to x = prefix_of k /\ rt_own x = false /\ rt_default x = true /\ rt_has x a /\
        table (h ++ [ERun "ip" args (os_run h "ip" args)]) ≡ₚ x :: table h) /\
      (forall x, x ∈ table h -> rt_default x = true -> rt_to x <> prefix_of k)
    else table (h ++ [ERun "ip" args (os_run h "ip" args)]) ≡ₚ table h;
  table_del : forall h args k b, route_key "add" args = None -> route_key "del" args = Some (k, b) ->
    if succeeded (os_run h "ip" args) then
      exists x, rt_to x = prefix_of k /\ rt_has x b /\
        table h ≡ₚ x :: table (h ++ [ERun "ip" args (os_run h "ip" args)])
    else table (h ++ [ERun "ip" args (os_run h "ip" args)]) ≡ₚ table h /\
      (forall x, x ∈ table h -> rt_to x = prefix_of k -> ~ rt_has x b);
}.

Definition removes (c : command) : option (route * list string) :=
  if bool_decide (c.1 = "ip") then
    match route_key "add" c.2 with None => route_key "del" c.2 | Some _ => None end
  else None.
Lemma host_not_unreachable s : s +:+ "/128" <> "unreachable".
Proof.
  do 12 (destruct s as [|? s]; [discriminate|]; rewrite string_app_cons; intros [= -> E]; revert E).
Qed.

(** ** Invariants of a Linux set-up

    Every step is one of two: something that touches no route, or the addition of a route
    together with the command that removes it, recorded when the addition worked or is
    best effort.  [K] says which entries the steps may log. *)
Definition quiet (e : entry) : Prop := forall cmd args r, e = ERun cmd args r -> touches cmd args = false.
Lemma quiet_run cmd args r : touches cmd args = false -> quiet (ERun cmd args r).
Proof. by intros Hq ? ? ? [= <- <- _]. Qed.

Class Kept `{Os} (K : entry -> Prop) (I : Sys -> Prop) := {
  k_log : forall s e, quiet e -> K e -> I s -> I (mkSys (sy_log s ++ [e]) (sy_undo s));
  k_add : forall args u k a b s s' r, (forall x, K (ERun "ip" args x)) -> I s -> route_key "add" args = Some (k, a) ->
    removes u = Some (k, b) -> b = [] \/ b = a -> run_ip args s = (s', r) ->
    (is_ok r = true \/ b = [] -> I (mkSys (sy_log s') (sy_undo s' ++ [u]))) /\
    (is_ok r = false -> I s');
}.

Section Kept.
Context `{Os} `{IpNets} {K : entry -> Prop} {I : Sys -> Prop} `{!Kept K I}.

Lemma keeps_output cmd args : touches cmd args = false -> (forall x, K (ERun cmd args x)) -> keeps I (output cmd args).
Proof. intros Hq Hk s s' r Hs [= <- <-]. by apply k_log; [apply quiet_run| |]. Qed.
Lemma keeps_read p : (forall x, K (ERead p x)) -> keeps I (read_to_string p).
Proof. intros Hk s s' r Hs [= <- <-]. by apply k_log. Qed.
Lemma keeps_write p d : (forall x, K (EWrite p d x)) -> keeps I (write_in_place p d).
Proof. intros Hk s s' r Hs [= <- <-]. by apply k_log. Qed.
Lemma keeps_lookup n p : (forall x, K (ELookup n x)) -> keeps I (lookup_host n p).
Proof. intros Hk s s' r Hs [= <- <-]. by apply k_log. Qed.
Lemma keeps_undo_list : keeps I undo_list.
Proof. by intros s s' r Hs [= <- <-]. Qed.
Lemma keeps_run_ip args : touches "ip" args = false -> (forall x, K (ERun "ip" args x)) -> keeps I (run_ip args).
Proof. intros Hq Hk. apply keeps_bind; [by apply keeps_output|auto with keeps]. Qed.
Lemma keeps_run_undo {A} args u k a b (m : eff Sys Error A) : (forall x, K (ERun "ip" args x)) ->
  route_key "add" args = Some (k, a) -> removes u = Some (k, b) -> b = [] \/ b = a -> keeps I m ->
  keeps I (run_ip args;; undo_push u;; m).
Proof.
  intros Hk Ha Hu Hb Hm s s' r Hs. unfold mbind at 1, eff_bind at 1.
  destruct (run_ip args s) as [s1 [[]|e]] eqn:E.
  - apply (k_add _ _ _ _ _ _ _ _ Hk Hs Ha Hu Hb) in E as [E _]. apply Hm. apply E. by left.
  - intros [= <- <-]. by apply (k_add _ _ _ _ _ _ _ _ Hk Hs Ha Hu Hb) in E as [_ E]; apply E.
Qed.
Lemma keeps_try_undo args u k a : (forall x, K (ERun "ip" args x)) -> route_key "add" args = Some (k, a) -> removes u = Some (k, []) ->
  keeps I (try_ip args;; undo_push u).
Proof.
  intros Hk Ha Hu s s' r Hs. unfold try_ip, ignore, mbind, eff_bind.
  destruct (run_ip args s) as [s1 x] eqn:E. intros [= <- <-].
  apply (k_add _ _ _ _ _ _ _ _ Hk Hs Ha Hu) in E as [E _]; auto.
Qed.

Lemma keeps_pin6 s6 gw dev :
  (forall x, K (ERun "ip" ["-6"; "route"; "add"; show_v6 s6 +:+ "/128"; "via"; gw; "dev"; dev] x)) ->
  keeps I (try_ip ["-6"; "route"; "add"; show_v6 s6 +:+ "/128"; "via"; gw; "dev"; dev];;
    undo_push ("ip", ["-6"; "route"; "del"; show_v6 s6 +:+ "/128"])).
Proof.
  intros Hk. eapply keeps_try_undo; [exact Hk| |reflexivity]. unfold route_key.
  rewrite (bool_decide_false (show_v6 s6 +:+ "/128" = "unreachable")) by apply host_not_unreachable. reflexivity.
Qed.
End Kept.

(** Stepping through a set-up: what is left are the entries [K] must allow, calls that
    have a lemma of their own, and nothing else. *)
Ltac keep_step := lazymatch goal with
  | |- keeps _ (mret _) => apply keeps_ret
  | |- keeps _ (throw _) => apply keeps_throw
  | |- keeps _ (lift_result _) => apply keeps_lift
  | |- keeps _ undo_list => apply keeps_undo_list
  | |- keeps _ (read_to_string _) => apply keeps_read
  | |- keeps _ (write_in_place _ _) => apply keeps_write
  | |- keeps _ (lookup_host _ _) => apply keeps_lookup; intros ?; try done
  | |- keeps _ (run_ip _) => apply keeps_run_ip; [reflexivity|]
  | |- keeps _ (try_ip _) => apply keeps_ignore
  | |- keeps _ (output _ _) => apply keeps_output; [reflexivity|]
  | |- keeps _ (ignore _) => apply keeps_ignore
  | |- keeps _ (try_eff _) => apply keeps_try
  | |- keeps _ (run_ip _ ≫= (fun _ => undo_push _ ≫= _)) =>
    eapply keeps_run_undo; [|reflexivity|reflexivity|by left|]
  | |- keeps _ (try_ip ["-6"; "route"; "add"; show_v6 _ +:+ _; _; _; _; _] ≫= _) => apply keeps_pin6
  | |- keeps _ (try_ip _ ≫= (fun _ => undo_push _)) => eapply keeps_try_undo; [|reflexivity|reflexivity]
  | |- keeps _ (_ ≫= _) => apply keeps_bind; [|intros ?]
  | |- keeps _ (match ?x with _ => _ end) => destruct x
  | |- forall _ : ran, _ => intros ?; try done
  | |- forall _ : result _ _, _ => intros ?; try done
  end.
Ltac keep := repeat keep_step.

Lemma rule_args_shape tun orig rule route s s' add :
  Linux.rule_args tun orig rule route s = (s', Ok (Some add)) ->
  s' = s /\ exists rest, add = "route" :: "add" :: route :: rest.
Proof.
  unfold Linux.rule_args. intros [= <- E]. split; [done|]. revert E.
  repeat case_bool_decide; [intros [= <-]; by eexists| |intros [= <-]; by eexists].
  destruct orig; cbn; [|done]. intros [= <-]. by eexists.
Qed.
Section Rules.
Context `{Os} `{IpNets} {K : entry -> Prop} {I : Sys -> Prop} `{!Kept K I}.

Lemma keeps_install tun orig srv rule route seen :
  (forall s s' add x, Linux.rule_args tun orig rule route s = (s', Ok (Some add)) -> K (ERun "ip" add x)) ->
  keeps I (install_route (Linux.rule_ops tun orig) srv rule route seen).
Proof.
  intros Hk. unfold install_route. repeat case_bool_decide; try apply keeps_ret. cbn [Linux.rule_ops add_args add_route del_route].
  intros s s' r Hs. unfold mbind at 1, eff_bind at 1.
  destruct (Linux.rule_args tun orig rule route s) as [s1 [[add|]|e]] eqn:E.
  - pose proof (fun x => Hk _ _ _ x E) as Hk'. apply rule_args_shape in E as (-> & rest & ->). unfold try_eff, mbind, eff_bind.
    destruct (run_ip _ s) as [s2 x] eqn:E.
    apply (k_add _ ("ip", <[1%nat := "del"]> ("route" :: "add" :: route :: rest)) (false, route) rest rest _ _ _ Hk' Hs)
      in E as [E1 E2]; [|done|done|by right].
    destruct x as [[]|e]; intros [= <- <-]; [apply E1; by left|by apply E2].
  - unfold Linux.rule_args in E. injection E as <- _. by intros [= <- <-].
  - unfold Linux.rule_args in E. by injection E.
Qed.
Lemma keeps_rules tun orig srv rules seen : (forall n x, K (ELookup n x)) ->
  (forall rule route s s' add x, rule ∈ rules -> Linux.rule_args tun orig rule route s = (s', Ok (Some add)) ->
    K (ERun "ip" add x)) ->
  keeps I (route_rules (Linux.rule_ops tun orig) srv rules seen).
Proof.
  intros Hl Hk. apply keeps_route_rules.
  - intros t. unfold resolve_rule_targets. keep.
  - intros rule route seen' Hr. apply keeps_install. intros s s' add x. by apply Hk.
Qed.
End Rules.

Definition any (e : entry) : Prop := True.
Section Apply.
Context `{Os} `{IpNets} {I : Sys -> Prop} `{!Kept any I}.

Lemma keeps_capture cfg w ifname ip : keeps I (Linux.capture_all cfg w ifname ip).
Proof.
  unfold Linux.capture_all, Linux.ipv6_routes, Linux.capture6, Linux.default_route6, Linux.set_dns, cmd_text. keep.
Qed.
Lemma keeps_apply debug cfg w ifname ip : keeps I (Linux.apply debug cfg w ifname ip).
Proof.
  unfold Linux.apply, Linux.set_link, Linux.default_route, Linux.pin_server, Linux.apply_route_rules, cmd_text.
  keep; try apply keeps_capture; by apply keeps_rules.
Qed.
End Apply.

Section Restore.
Context `{Os} `{!RouteTable} `{IpNets}.

(** The routes that are not the kernel's own, and those to one destination. *)
Definition routes_of (h : log) : list rt := filter (fun x => rt_own x = false) (table h).
Definition routes_to (p : prefix) (h : log) : list rt := filter (fun x => rt_to x = p) (routes_of h).
(** The destinations of a list of undo commands. *)
Definition named (cs : list command) : list prefix := map (fun x => prefix_of x.1) (omap removes cs).

Lemma named_app a b : named (a ++ b) = named a ++ named b.
Proof. unfold named. by rewrite omap_app, map_app. Qed.
Lemma in_named u k b cs : u ∈ cs -> removes u = Some (k, b) -> prefix_of k ∈ named cs.
Proof.
  intros Hu Hr. unfold named. apply list_elem_of_fmap. exists (k, b). split; [done|]. apply list_elem_of_omap. by exists u.
Qed.
Lemma elem_routes_to x p h : x ∈ routes_to p h <-> x ∈ table h /\ rt_own x = false /\ rt_to x = p.
Proof. unfold routes_to, routes_of. rewrite !list_elem_of_filter. naive_solver. Qed.
Lemma routes_same h h' p : table h' ≡ₚ table h -> routes_to p h' ≡ₚ routes_to p h.
Proof. intros E. unfold routes_to, routes_of. by rewrite E. Qed.
Lemma routes_cons h h' x p : table h' ≡ₚ x :: table h -> rt_own x = false ->
  routes_to p h' ≡ₚ if bool_decide (rt_to x = p) then x :: routes_to p h else routes_to p h.
Proof.
  intros E Ho. unfold routes_to, routes_of. rewrite E, filter_cons_True by done. case_bool_decide.
  - by rewrite filter_cons_True.
  - by rewrite filter_cons_False.
Qed.
Lemma routes_elsewhere h h' x p : table h ≡ₚ x :: table h' -> rt_to x <> p -> routes_to p h ≡ₚ routes_to p h'.
Proof.
  intros E Hx. unfold routes_to, routes_of. rewrite E. destruct (decide (rt_own x = false)).
  - by rewrite (filter_cons_True _ x), (filter_cons_False _ x).
  - by rewrite (filter_cons_False _ x).
Qed.
Lemma routes_other h e p : quiet e -> routes_to p (h ++ [e]) ≡ₚ routes_to p h.
Proof. intros He. unfold routes_to, routes_of. by rewrite (table_other _ _ He). Qed.

(** What [ip route add] does to the table. *)
Lemma run_ip_table args k a s s' r : route_key "add" args = Some (k, a) -> run_ip args s = (s', r) ->
  sy_undo s' = sy_undo s /\
  if is_ok r then
    (exists x, rt_to x = prefix_of k /\ rt_own x = false /\ rt_default x = true /\ rt_has x a /\
      table (sy_log s') ≡ₚ x :: table (sy_log s)) /\
    (forall x, x ∈ table (sy_log s) -> rt_default x = true -> rt_to x <> prefix_of k)
  else table (sy_log s') ≡ₚ table (sy_log s).
Proof.
  intros Ha. unfold run_ip, output, lift_result, mbind, eff_bind. intros [= <- <-]. split; [done|]. cbn.
  pose proof (table_add (sy_log s) _ _ _ Ha) as Ht. by destruct (os_run _ _ _) as [|[] ? ?].
Qed.

(** To every destination there are the routes of the start, or one more that an undo
    command names. *)
Definition und_at (h l : log) (cs : list command) (p : prefix) : Prop :=
  routes_to p l ≡ₚ routes_to p h \/
  exists x u k b, rt_default x = true /\ routes_to p l ≡ₚ x :: routes_to p h /\
    u ∈ cs /\ removes u = Some (k, b) /\ prefix_of k = p /\ rt_has x b.
Record undoable (h : log) (s : Sys) : Prop := {
  und_cmd u : u ∈ sy_undo s -> is_Some (removes u);
  und_routes p : und_at h (sy_log s) (sy_undo s) p;
}.
Lemma und_more h s l cs p : und_at h (sy_log s) (sy_undo s) p -> routes_to p l ≡ₚ routes_to p (sy_log s) ->
  und_at h l (sy_undo s ++ cs) p.
Proof.
  intros [E|(x & u & k & b & ? & E & Hu & ?)] El; [left; by rewrite El|right].
  exists x, u, k, b. split_and!; try tauto; [by rewrite El|set_solver].
Qed.
Lemma undoable_start h : undoable h (sys_new h).
Proof. split; [set_solver|by left]. Qed.

(** Adding a route and recording how to remove it. *)
Lemma add_then_undo h args u k a b s s' r : undoable h s -> route_key "add" args = Some (k, a) ->
  removes u = Some (k, b) -> b = [] \/ b = a -> run_ip args s = (s', r) ->
  (is_ok r = true \/ b = [] -> undoable h (mkSys (sy_log s') (sy_undo s' ++ [u]))) /\
  (is_ok r = false -> undoable h s').
Proof.
  intros [Hcmd Hto] Ha Hu Hb E. destruct (run_ip_table _ _ _ _ _ _ Ha E) as [Eu Et]. split.
  - intros Hok. split; cbn [sy_log sy_undo]; rewrite Eu.
    { intros v [Hv| ->%list_elem_of_singleton]%elem_of_app; [by apply Hcmd|by eexists]. }
    intros p. destruct (is_ok r).
    + destruct Et as [(x & Hx & Ho & Hd & Hh & Et) Hex]. pose proof (routes_cons _ _ _ p Et Ho) as Ep.
      rewrite Hx in Ep. case_bool_decide as Hp.
      * right. exists x, u, k, b. destruct (Hto p) as [E1|(y & ? & ? & ? & Hy & E1 & _)].
        { split_and!; [done|by rewrite Ep, E1|set_solver|done|done|].
          destruct Hb as [->| ->]; [apply rt_has_nil|done]. }
        exfalso. assert (y ∈ routes_to p (sy_log s)) as Hin by (rewrite E1; set_solver).
        apply elem_routes_to in Hin as (Hin & _ & Hpy).
        apply (Hex y); congruence.
      * by apply und_more.
    + apply und_more; [done|by apply routes_same].
  - intros Hf. rewrite Hf in Et. split; rewrite Eu; [done|]. intros p. rewrite <- (app_nil_r (sy_undo s)).
    apply und_more; [done|by apply routes_same].
Qed.
#[export] Instance undoable_kept h : Kept any (undoable h).
Proof.
  split; [|intros; by eapply add_then_undo].
  intros s e He _ [Hcmd Hto]. split; cbn; [done|]. intros p. rewrite <- (app_nil_r (sy_undo s)).
  apply und_more; [done|by apply routes_other].
Qed.

(** One undo command: either the routes of no destination change, or it takes one route,
    to the destination it names; and if one fits, it takes one. *)
Lemma run_undo_table u k b s s' r : removes u = Some (k, b) -> output u.1 u.2 s = (s', r) ->
  (table (sy_log s') ≡ₚ table (sy_log s) /\ forall x, x ∈ table (sy_log s) -> rt_to x = prefix_of k -> ~ rt_has x b) \/
  (exists x, rt_to x = prefix_of k /\ table (sy_log s) ≡ₚ x :: table (sy_log s')).
Proof.
  unfold removes, output. case_bool_decide as Hc; [|done]. rewrite Hc.
  destruct (route_key "add" u.2) eqn:Ea; [done|]. intros Hu [= <- <-]. cbn.
  pose proof (table_del (sy_log s) _ _ _ Ea Hu) as Ht. destruct (succeeded _); [right|by left].
  destruct Ht as (x & ? & _ & ?). by exists x.
Qed.
(** The routes to a destination of which the kernel has none of its own. *)
Definition plain_at (p : prefix) (h : log) : Prop := forall x, x ∈ table h -> rt_to x = p -> rt_own x = false.
Lemma run_all_table p cs s s' r : (forall u, u ∈ cs -> is_Some (removes u)) -> run_all cs s = (s', r) ->
  (p ∉ named cs -> routes_to p (sy_log s') ≡ₚ routes_to p (sy_log s)) /\
  (plain_at p (sy_log s) -> (length (routes_to p (sy_log s')) <= length (routes_to p (sy_log s)))%nat /\
    forall x u k b, x ∈ routes_to p (sy_log s) -> u ∈ cs -> removes u = Some (k, b) -> prefix_of k = p -> rt_has x b ->
      (length (routes_to p (sy_log s')) < length (routes_to p (sy_log s)))%nat).
Proof.
  revert s. induction cs as [|[cmd args] cs IH]; intros s Hall; [intros [= <- _]; set_solver|].
  cbn [run_all]. unfold mbind, eff_bind. destruct (output cmd args s) as [s1 [y|e]] eqn:E; [|done]. intros Er.
  destruct (Hall (cmd, args)) as [[k b] Hu]; [set_solver|].
  assert (forall u, u ∈ cs -> is_Some (removes u)) as Hall' by set_solver.
  destruct (IH s1 Hall' Er) as [IHn IHp]. change ((cmd, args) :: cs) with ([(cmd, args)] ++ cs).
  rewrite named_app. unfold named at 1. cbn [omap list_omap]. rewrite Hu. cbn [map fst].
  destruct (run_undo_table (cmd, args) k b s s1 (Ok y) Hu E) as [[Et Hno]|(x & Hx & Et)].
  - pose proof (routes_same _ _ p Et) as Ep. split; [intros Hp; rewrite IHn, Ep by set_solver; done|].
    intros Hpl. destruct IHp as [Hle Hlt]; [intros z; rewrite Et; apply Hpl|]. rewrite Ep in Hle. split; [done|].
    intros z v k' b' Hz [->%list_elem_of_singleton|Hv]%elem_of_app Hr Hk Hb; [|rewrite <- Ep; apply (Hlt z v k' b'); rewrite ?Ep; done].
    rewrite Hu in Hr. injection Hr as <- <-. apply elem_routes_to in Hz as (Hz & _ & Hz'). exfalso.
    apply (Hno z); congruence.
  - split.
    + intros Hp. rewrite IHn by set_solver. symmetry. apply (routes_elsewhere _ _ x); [done|set_solver].
    + intros Hpl. destruct IHp as [Hle Hlt]; [intros z Hz; apply Hpl; rewrite Et; set_solver|].
      destruct (decide (rt_to x = p)) as [Hxp|Hxp].
      * assert (rt_own x = false) as Ho by (apply Hpl; [rewrite Et; set_solver|done]).
        pose proof (routes_cons _ _ _ p Et Ho) as Ep. rewrite bool_decide_true in Ep by done.
        apply Permutation_length in Ep. cbn in Ep. split; [lia|intros; lia].
      * pose proof (routes_elsewhere _ _ _ _ Et Hxp) as Ep. rewrite Ep at 1. split; [done|]. rewrite (Permutation_length Ep).
        intros z v k' b' Hz [->%list_elem_of_singleton|Hv]%elem_of_app Hr Hk Hb.
        { rewrite Hu in Hr. injection Hr as <- <-. congruence. }
        apply (Hlt z v k' b'); [by rewrite <- Ep|done..].
Qed.
Lemma undoable_drop g s s1 s2 r h p : undoable h s -> undo g = sy_undo s -> table (sy_log s1) ≡ₚ table (sy_log s) ->
  drop_guard g s1 = (s2, r) ->
  (p ∉ named (undo g) -> routes_to p (sy_log s2) ≡ₚ routes_to p h) /\
  (plain_at p (sy_log s) -> (length (routes_to p (sy_log s2)) <= length (routes_to p h))%nat).
Proof.
  intros [Hcmd Hto] Hu Ht E. unfold drop_guard, mbind, eff_bind in E. rewrite Hu in *.
  destruct (run_all (sy_undo s) s1) as [s3 x] eqn:E3. rewrite (run_all_ok _ _ _ _ E3) in E.
  assert (routes_to p (sy_log s2) ≡ₚ routes_to p (sy_log s3)) as ->.
  { destruct (resolv_backup g); [|by injection E as <- _].
    unfold ignore, write_in_place in E. injection E as <- _. cbn. by apply routes_other. }
  destruct (run_all_table p _ _ _ _ Hcmd E3) as [Rn Rp]. pose proof (routes_same _ _ p Ht) as Ep. split.
  - intros Hp. rewrite Rn, Ep by done. destruct (Hto p) as [?|(y & v & k & b & _ & _ & Hv & Hr & <- & _)]; [done|].
    exfalso. by apply Hp, (in_named v k b).
  - intros Hpl. destruct Rp as [Rle Rlt]; [intros z; rewrite Ht; apply Hpl|].
    destruct (Hto p) as [E1|(y & v & k & b & _ & E1 & Hv & Hr & Hk & Hb)]; rewrite <- Ep in E1.
    + by rewrite <- E1.
    + assert (y ∈ routes_to p (sy_log s1)) as Hy by (rewrite E1; set_solver).
      pose proof (Rlt y v k b Hy Hv Hr Hk Hb) as Hlt. apply Permutation_length in E1. cbn in E1. lia.
Qed.
(** The guard of a set-up holds the undo commands collected on the way. *)
Lemma apply_guard debug cfg w ifname ip s s' g : Linux.apply debug cfg w ifname ip s = (s', Ok g) -> undo g = sy_undo s'.
Proof.
  revert s s' g. unfold Linux.apply.
  do 5 (refine (bind_ends _ _ (fun s' g => undo g = sy_undo s') _); intros ?). by intros s s' g [= <- <-].
Qed.

(** The other invariants: nothing disappears, two routes stay as they are, and what the
    log of a set-up holds. *)
Definition present (k : route) (a : list string) (h : log) : Prop :=
  exists x, x ∈ routes_of h /\ rt_to x = prefix_of k /\ rt_has x a.
Lemma present_mono k a h h' : routes_of h ⊆+ routes_of h' -> present k a h -> present k a h'.
Proof. intros Hsub (x & Hx & Hk). exists x. split; [by eapply elem_of_submseteq|done]. Qed.
Lemma run_ip_grows args k a s s' r : route_key "add" args = Some (k, a) -> run_ip args s = (s', r) ->
  routes_of (sy_log s) ⊆+ routes_of (sy_log s') /\ (is_ok r = true -> present k a (sy_log s')).
Proof.
  intros Ha E. destruct (run_ip_table _ _ _ _ _ _ Ha E) as [_ Et]. destruct (is_ok r).
  - destruct Et as [(x & Hx & Ho & _ & Hh & Et) _]. unfold present, routes_of. rewrite Et, filter_cons_True by done.
    split; [by apply submseteq_cons|]. intros _. exists x. rewrite Et, filter_cons_True by done. set_solver.
  - split; [|done]. unfold routes_of. by rewrite Et.
Qed.
Definition grown (h : log) (s : Sys) : Prop :=
  routes_of h ⊆+ routes_of (sy_log s) /\
  exists l, sy_log s = h ++ l /\
    forall args x k a, ERun "ip" args x ∈ l -> route_key "add" args = Some (k, a) -> succeeded x = true ->
      present k a (sy_log s).
#[export] Instance grown_kept h : Kept any (grown h).
Proof.
  split.
  - intros s e He _ [Hb (l & El & Hl)]. unfold grown. cbn.
    assert (routes_of (sy_log s) ≡ₚ routes_of (sy_log s ++ [e])) as Ep by (symmetry; by apply table_other).
    split; [by rewrite <- Ep|]. exists (l ++ [e]). rewrite El, app_assoc. split; [done|].
    intros args x k a [Hin|Hin]%elem_of_app Ha Hx.
    + rewrite <- El. apply (present_mono _ _ (sy_log s)); [by rewrite Ep|by apply (Hl args x k a)].
    + apply list_elem_of_singleton in Hin as <-. specialize (He _ _ _ eq_refl). unfold touches in He.
      rewrite Ha in He. cbn in He. done.
  - intros args u k a b s s' r _ [Hb (l & El & Hl)] Ha _ _ E.
    assert (grown h s') as Hg; [|split; [intros _; exact Hg|intros _; exact Hg]].
    destruct (run_ip_grows _ _ _ _ _ _ Ha E) as [Hmono Hp]. split; [by transitivity (routes_of (sy_log s))|].
    unfold run_ip, output, lift_result, mbind, eff_bind in E. injection E as <- <-.
    exists (l ++ [ERun "ip" args (os_run (sy_log s) "ip" args)]). split; [cbn; by rewrite El, app_assoc|].
    intros args' x k' a' [Hin|Hin]%elem_of_app Ha' Hx; [by apply (present_mono _ _ _ _ Hmono), (Hl args' x k' a')|].
    apply list_elem_of_singleton in Hin. injection Hin as -> ->. rewrite Ha in Ha'. injection Ha' as <- <-.
    apply Hp. unfold status_of. by destruct (os_run _ _ _) as [|[] ? ?].
Qed.

Definition logs (K : entry -> Prop) (h : log) (s : Sys) : Prop := exists l, sy_log s = h ++ l /\ Forall K l.
#[export] Instance logs_kept K h : Kept K (logs K h).
Proof.
  assert (forall s e, K e -> logs K h s -> forall u, logs K h (mkSys (sy_log s ++ [e]) u)) as Hl.
  { intros s e He (l & El & Hl) u. exists (l ++ [e]). cbn. rewrite El, app_assoc. split; [done|].
    apply Forall_app. by split; [|constructor]. }
  split; [intros s e _ He Hs; by apply Hl|].
  intros args u k a b s s' r Hk Hs _ _ _ [= <- <-]. split; intros _; by apply Hl.
Qed.

Definition captured (ifname : string) (s : Sys) : Prop :=
  present (false, "0.0.0.0/1") ["dev"; ifname] (sy_log s) /\
  present (false, "128.0.0.0/1") ["dev"; ifname] (sy_log s).
#[export] Instance captured_kept ifname : Kept any (captured ifname).
Proof.
  assert (forall s s', routes_of (sy_log s) ⊆+ routes_of (sy_log s') -> captured ifname s -> captured ifname s') as Hm.
  { intros s s' Hsub [? ?]. split; by apply (present_mono _ _ _ _ Hsub). }
  split.
  - intros s e He _ Hs. apply (Hm s); [|done]. cbn. unfold routes_of. by rewrite (table_other _ _ He).
  - intros args u k a b s s' r _ Hs Ha _ _ E. apply run_ip_grows with (1 := Ha) in E as [Hsub _].
    assert (captured ifname s') by (by apply (Hm s)). by split.
Qed.
Lemma keeps_ipv6_dns cfg w ifname ip :
  keeps (captured ifname) (Linux.ipv6_routes cfg w ifname ip;; Linux.set_dns w).
Proof.
  unfold Linux.ipv6_routes, Linux.capture6, Linux.default_route6, Linux.set_dns, cmd_text. by keep.
Qed.
Lemma capture_ok cfg w ifname ip s s' b : Linux.capture_all cfg w ifname ip s = (s', Ok b) -> captured ifname s'.
Proof.
  unfold Linux.capture_all. intros (s1 & [] & E1 & E)%eff_bind_ok.
  apply eff_bind_ok in E as (s2 & [] & [= <-] & E).
  apply eff_bind_ok in E as (s3 & [] & E3 & E). apply eff_bind_ok in E as (s4 & [] & [= <-] & E).
  eapply keeps_ipv6_dns; [|exact E].
  eapply run_ip_grows in E1 as [_ E1]; [|reflexivity]. eapply run_ip_grows in E3 as [Hm E3]; [|reflexivity].
  split; cbn in *; [|by apply E3]. eapply present_mono; [exact Hm|by apply E1].
Qed.

(** What a set-up that does not capture everything may log. *)
Definition modest (cfg : ClientConfig) (ifname : string) (ip : IpAddr) (e : entry) : Prop :=
  match e with
  | EWrite _ _ _ => False
  | ERun cmd args _ => cmd = "ip" /\ forall k a, route_key "add" args = Some (k, a) ->
      (cc_mode cfg = GlobalProxy /\ k = (false, show_ip ip +:+ "/32")) \/
      exists rule route orig s, rule ∈ routes cfg /\ (Linux.rule_args ifname orig rule route s).2 = Ok (Some args)
  | _ => True
  end.
Lemma modest_rules h cfg ifname ip orig :
  keeps (logs (modest cfg ifname ip) h)
    (route_rules (Linux.rule_ops ifname orig) (show_ip ip +:+ "/32") (routes cfg) ∅).
Proof.
  apply (keeps_rules (K := modest cfg ifname ip)); [done|]. intros rule route s1 s2 add x Hr Ha.
  pose proof (rule_args_shape _ _ _ _ _ _ _ Ha) as (-> & rest & ->). split; [done|].
  intros k a _. right. exists rule, route, orig, s1. by rewrite Ha.
Qed.
Lemma modest_apply h debug cfg w ifname ip :
  cc_mode cfg <> GlobalProxy \/ split_mode cfg = Whitelist ->
  keeps (logs (modest cfg ifname ip) h) (Linux.apply debug cfg w ifname ip).
Proof.
  intros Hm. unfold Linux.apply, Linux.set_link, Linux.default_route, Linux.pin_server, Linux.apply_route_rules, cmd_text.
  assert (cc_mode cfg = GlobalProxy -> split_mode cfg = Whitelist) as Hw by naive_solver.
  destruct (cc_mode cfg) eqn:Em; try rewrite Hw by done; keep; try apply modest_rules.
  all: split; [done|]; intros ? ?; cbn; try done. intros [= <- <-]. by left.
Qed.
End Restore.

(** ** Split-tunnel rules *)

Section RuleLog.
Context `{Os} `{IpNets}.

Definition added (e : entry) : option string :=
  match e with
  | ERun cmd args _ =>
    if bool_decide (cmd = "ip") then
      match route_key "add" args with Some ((false, d), _) => Some d | _ => None end
    else None
  | _ => None
  end.
(** The destinations a piece of log adds are new, claimed once and never the server's. *)
Record claims (srv : string) (seen seen' : gset string) (l : log) : Prop := {
  cl_sub : seen ⊆ seen';
  cl_nodup : NoDup (omap added l);
  cl_new d : d ∈ omap added l -> d ∉ seen /\ d ∈ seen' /\ d <> srv;
}.
Lemma claims_quiet srv seen l : omap added l = [] -> claims srv seen seen l.
Proof. intros El. split; rewrite ?El; [done|constructor|set_solver]. Qed.
Lemma claims_app srv s1 s2 s3 l1 l2 : claims srv s1 s2 l1 -> claims srv s2 s3 l2 -> claims srv s1 s3 (l1 ++ l2).
Proof.
  intros [Hs1 Hn1 Hd1] [Hs2 Hn2 Hd2]. split; rewrite ?omap_app; [set_solver| |].
  - apply NoDup_app. split; [done|split; [|done]]. intros d Hd Hd'. apply Hd1 in Hd. apply Hd2 in Hd'. naive_solver.
  - intros d [Hd|Hd]%elem_of_app; [apply Hd1 in Hd|apply Hd2 in Hd]; set_solver.
Qed.

Lemma install_claims tun orig srv rule route seen s :
  exists s' seen' l, install_route (Linux.rule_ops tun orig) srv rule route seen s = (s', Ok seen') /\
    sy_log s' = sy_log s ++ l /\ claims srv seen seen' l.
Proof.
  unfold install_route. case_bool_decide as Hsrv.
  { exists s, seen, []. rewrite app_nil_r. by auto using claims_quiet. }
  case_bool_decide as Hin.
  { exists s, seen, []. rewrite app_nil_r. by auto using claims_quiet. }
  cbn [Linux.rule_ops add_args add_route del_route]. unfold mbind at 1, eff_bind at 1.
  destruct (Linux.rule_args tun orig rule route s) as [s1 [[add|]|e]] eqn:E; [| |by unfold Linux.rule_args in E].
  - apply rule_args_shape in E as (-> & rest & ->).
    unfold try_eff, run_ip, output, lift_result, mbind, eff_bind. cbn [sy_log sy_undo].
    set (args := "route" :: "add" :: route :: rest). set (x := os_run (sy_log s) "ip" args).
    assert (claims srv seen ({[route]} ∪ seen) [ERun "ip" args x]) as Hc.
    { split; cbn; [set_solver|apply NoDup_singleton|]. intros d ->%list_elem_of_singleton. set_solver. }
    destruct (status_of _ _ x); (eexists _, _, _; split; [reflexivity|split; [reflexivity|exact Hc]]).
  - unfold Linux.rule_args in E. injection E as <- _.
    exists s, ({[route]} ∪ seen), []. rewrite app_nil_r. split; [done|split; [done|]].
    split; cbn; [set_solver|by apply NoDup_nil|set_solver].
Qed.
Lemma installs_claims tun orig srv rule l seen s :
  exists s' seen' lg, install_routes (Linux.rule_ops tun orig) srv rule l seen s = (s', Ok seen') /\
    sy_log s' = sy_log s ++ lg /\ claims srv seen seen' lg.
Proof.
  revert seen s. induction l as [|route l IH]; intros seen s; cbn [install_routes].
  { exists s, seen, []. rewrite app_nil_r. by auto using claims_quiet. }
  destruct (install_claims tun orig srv rule route seen s) as (s1 & seen1 & l1 & E1 & L1 & C1).
  destruct (IH seen1 s1) as (s2 & seen2 & l2 & E2 & L2 & C2).
  exists s2, seen2, (l1 ++ l2). unfold mbind, eff_bind. rewrite E1, E2, L2, L1, app_assoc. eauto using claims_app.
Qed.
Lemma resolve_claims tgt s :
  exists s' r l, resolve_rule_targets tgt s = (s', Ok r) /\ sy_log s' = sy_log s ++ l /\ omap added l = [].
Proof.
  unfold resolve_rule_targets. repeat case_match; try (eexists _, _, []; by rewrite app_nil_r).
  all: unfold lookup_host, mbind, eff_bind; by eexists _, _, [_].
Qed.
Lemma rules_claims tun orig srv rules seen s :
  exists s' seen' l, route_rules (Linux.rule_ops tun orig) srv rules seen s = (s', Ok tt) /\
    sy_log s' = sy_log s ++ l /\ claims srv seen seen' l.
Proof.
  revert seen s. induction rules as [|rule rules IH]; intros seen s; cbn [route_rules].
  { exists s, seen, []. rewrite app_nil_r. by auto using claims_quiet. }
  destruct (resolve_claims (target rule) s) as (s1 & l & l1 & E1 & L1 & C1).
  destruct (installs_claims tun orig srv rule l seen s1) as (s2 & seen2 & l2 & E2 & L2 & C2).
  destruct (IH seen2 s2) as (s3 & seen3 & l3 & E3 & L3 & C3).
  exists s3, seen3, (l1 ++ l2 ++ l3). unfold mbind, eff_bind. rewrite E1, E2, E3, L3, L2, L1, !app_assoc.
  split; [done|split; [done|]]. rewrite <- app_assoc. eapply claims_app; [by apply claims_quiet|eauto using claims_app].
Qed.

(** Split-tunnel rules on Linux, whatever the rules and whatever the names resolve to:
    no rule adds a route to the server's own address, which would send the carrier into
    the tunnel; no destination is added twice, the first rule to name it decides; and a
    rule that cannot be honoured never makes the set-up fail. *)
Theorem split_rules_safe cfg tun orig server_ip s :
  let '(s', r) := Linux.apply_route_rules cfg tun orig server_ip s in
  r = Ok tt /\ exists l, sy_log s' = sy_log s ++ l /\ NoDup (omap added l) /\
    (show_ip server_ip +:+ "/32") ∉ omap added l.
Proof.
  unfold Linux.apply_route_rules.
  destruct (rules_claims tun orig (show_ip server_ip +:+ "/32") (routes cfg) ∅ s) as (s' & seen' & l & -> & L & C).
  split; [done|]. exists l. split; [done|]. destruct C as [_ Hn Hd]. split; [done|]. intros Hin. by apply Hd in Hin as (_ & _ & ?).
Qed.
End RuleLog.

(** ** The theorems *)

Section Claims.
Context `{Os} `{!RouteTable} `{IpNets}.

(** C14. The guard of a Linux set-up restores the routing table.  If [apply] succeeded, and
    nothing else changed the table before the guard is dropped, then afterwards every
    destination no undo command names has the routes it had before [apply]; and a named
    one, if the kernel keeps no route of its own to it, has no more than it had.  So when
    there was no route to a named destination, the table (the kernel's own routes aside)
    is the one of the start.  Nothing more holds for a route that was there to a named
    destination: it may be the one that is taken (see [own_pin_lost]). *)
Theorem netcfg_restores h debug cfg w ifname ip s g s1 s2 r :
  Linux.apply debug cfg w ifname ip (sys_new h) = (s, Ok g) ->
  table (sy_log s1) ≡ₚ table (sy_log s) ->
  drop_guard g s1 = (s2, r) ->
  (forall p, p ∉ named (undo g) -> routes_to p (sy_log s2) ≡ₚ routes_to p h) /\
  (forall p, plain_at p (sy_log s) -> (length (routes_to p (sy_log s2)) <= length (routes_to p h))%nat) /\
  ((forall p, p ∈ named (undo g) -> plain_at p (sy_log s) /\ routes_to p h = []) ->
     forall p, routes_to p (sy_log s2) ≡ₚ routes_to p h).
Proof.
  intros E Ht Ed. pose proof (apply_guard _ _ _ _ _ _ _ _ E) as Hu.
  apply (keeps_apply (I := undoable h)) in E; [|apply undoable_start].
  pose proof (fun p => undoable_drop _ _ _ _ _ _ p E Hu Ht Ed) as Hd.
  split; [apply Hd|split; [apply Hd|]]. intros Hn p.
  destruct (decide (p ∈ named (undo g))) as [Hp|Hp]; [|by apply Hd].
  destruct (Hn p Hp) as [Hpl Hnil]. destruct (Hd p) as [_ Hle]. specialize (Hle Hpl). rewrite Hnil in *.
  by destruct (routes_to p (sy_log s2)); [|cbn in Hle; lia].
Qed.

(** A Linux set-up that fails half-way undoes nothing: however [apply] ends, every
    route that was in the table is still there and so is one for every [ip route add] that
    worked.  On an error there is no guard to drop, the undo list is lost with it, and the
    server pin, the split-tunnel routes and the first half of the capture stay. *)
Theorem failed_setup_leaves_routes h debug cfg w ifname ip :
  let '(s, r) := Linux.apply debug cfg w ifname ip (sys_new h) in
  routes_of h ⊆+ routes_of (sy_log s) /\
  exists l, sy_log s = h ++ l /\
    forall args x k a, ERun "ip" args x ∈ l -> route_key "add" args = Some (k, a) -> succeeded x = true ->
      present k a (sy_log s).
Proof.
  destruct (Linux.apply debug cfg w ifname ip (sys_new h)) as [s r] eqn:E.
  apply (keeps_apply (I := grown h)) in E; [exact E|]. split; [done|]. exists []. rewrite app_nil_r. set_solver.
Qed.

(** Which traffic a successful Linux set-up takes over.  Global-proxy mode with a
    blacklist: both halves of the IPv4 space are routed into the tunnel when [apply]
    returns.  Any other mode, or a whitelist: the resolver file is never written, and
    every route added is either the pin of the server's own address, in global-proxy mode
    only, or one of the configured split-tunnel rules. *)
Theorem capture_policy h debug cfg w ifname ip :
  let '(s, r) := Linux.apply debug cfg w ifname ip (sys_new h) in
  (cc_mode cfg = GlobalProxy -> split_mode cfg = Blacklist -> is_ok r = true ->
     present (false, "0.0.0.0/1") ["dev"; ifname] (sy_log s) /\
     present (false, "128.0.0.0/1") ["dev"; ifname] (sy_log s)) /\
  (cc_mode cfg <> GlobalProxy \/ split_mode cfg = Whitelist ->
     exists l, sy_log s = h ++ l /\ Forall (modest cfg ifname ip) l).
Proof.
  destruct (Linux.apply debug cfg w ifname ip (sys_new h)) as [s r] eqn:E. split.
  - intros Hm Hb. destruct r as [g|e]; [|done]. intros _. revert E. unfold Linux.apply. rewrite Hm, Hb.
    generalize (sys_new h). intros s0. revert s0 s g.
    do 4 (refine (bind_ends _ _ (fun s' _ => captured ifname s') _); intros ?).
    intros s0 s g (s1 & b & E & E1)%eff_bind_ok.
    apply eff_bind_ok in E as (s3 & [] & _ & E). apply capture_ok in E. by injection E1 as <- _.
  - intros Hm. eapply modest_apply in Hm. eapply Hm; [|exact E]. exists []. by rewrite app_nil_r.
Qed.
End Claims.

(** ** A machine that behaves like iproute2 *)

Module Box.
(** A route: its family and destination, the words it was added with, and whether it has
    the default preference.  Several may share a destination. *)
Abbreviation row := (route * list string * bool)%type.
Definition fits (k : route) (b : list string) (x : row) : bool :=
  bool_decide (x.1.1 = k) && (bool_decide (b = []) || bool_decide (b = x.1.2)).
Fixpoint take_one (k : route) (b : list string) (m : list row) : option (list row) :=
  match m with
  | [] => None
  | x :: r => if fits k b x then Some r else cons x <$> take_one k b r
  end.
Definition clash (k : route) (m : list row) : bool := existsb (fun x => bool_decide (x.1.1 = k) && x.2) m.
(** The routing table after a history, from a table at the start. *)
Definition step (m : list row) (e : entry) : list row :=
  match e with
  | ERun cmd args r =>
    if bool_decide (cmd = "ip") && succeeded r then
      match route_key "add" args, route_key "del" args with
      | Some (k, a), _ => (k, a, true) :: m
      | None, Some (k, b) => default m (take_one k b m)
      | None, None => m
      end
    else m
  | _ => m
  end.
Definition replay (base : list row) (h : log) : list row := foldl step base h.
Definition answer (base : list row) (h : log) (cmd : string) (args : list string) : ran :=
  if bool_decide (cmd = "ip") then
    match route_key "add" args, route_key "del" args with
    | Some (k, _), _ => Exited (negb (clash k (replay base h))) [] []
    | None, Some (k, b) => Exited (bool_decide (is_Some (take_one k b (replay base h)))) [] []
    | None, None => Exited true (to_b "default via 192.0.2.1 dev eth0") []
    end
  else Exited true [] [].
#[export] Instance box_os base : Os := {|
  os_run := answer base;
  os_read _ _ := Ok (to_b "nameserver 192.0.2.53");
  os_write _ _ _ := Ok tt;
  os_lookup _ _ _ := Ok [];
|}.
#[export] Instance no_nets : IpNets := {|
  net4 := unit;
  parse_net4 _ := None;
  show_net4 _ := "";
  net4_new _ _ := None;
  net4_network _ := Ipv4 Byte.x00 Byte.x00 Byte.x00 Byte.x00;
  net4_mask _ := Ipv4 Byte.x00 Byte.x00 Byte.x00 Byte.x00;
  is_net _ := false;
|}.
Lemma replay_app base h e : replay base (h ++ [e]) = step (replay base h) e.
Proof. unfold replay. by rewrite foldl_app. Qed.
Lemma take_one_some k b m m' : take_one k b m = Some m' -> exists x, fits k b x = true /\ m ≡ₚ x :: m'.
Proof.
  revert m'. induction m as [|y m IH]; intros m'; cbn; [done|]. destruct (fits k b y) eqn:E.
  - intros [= <-]. by exists y.
  - destruct (take_one k b m) as [m1|]; [|done]. intros [= <-]. destruct (IH m1 eq_refl) as (x & Hx & Hp).
    exists x. split; [done|]. rewrite Hp. apply Permutation_swap.
Qed.
Lemma take_one_none k b m x : take_one k b m = None -> x ∈ m -> fits k b x = false.
Proof.
  induction m as [|y m IH]; cbn; [set_solver|]. destruct (fits k b y) eqn:E; [done|].
  destruct (take_one k b m); [done|]. intros _ [->|Hx]%elem_of_cons; auto.
Qed.
#[export] Instance box_table base : RouteTable (H := box_os base).
Proof.
  refine {| rt := row; prefix := route; prefix_of := id; rt_to x := x.1.1; rt_own _ := false; rt_default x := x.2;
    rt_has x b := b = [] \/ b = x.1.2; table := replay base |}.
  - by left.
  - intros h [cmd args r| | |] He; rewrite replay_app; try done. cbn. specialize (He _ _ _ eq_refl).
    unfold touches in He. case_bool_decide as Hc; [|done]. cbn in He. destruct (succeeded r); [|done]. cbn.
    destruct (route_key "add" args); [done|]. by destruct (route_key "del" args).
  - intros h args k a Ha. rewrite replay_app. unfold step. cbn. unfold answer. rewrite Ha, (bool_decide_true ("ip" = "ip")) by done. cbn.
    destruct (clash k (replay base h)) eqn:Ec; cbn; [done|]. split; [exists (k, a, true); split_and!; cbn; auto|].
    intros x Hx Hd Hk. unfold clash in Ec. apply not_true_iff_false in Ec. apply Ec, existsb_exists. exists x.
    split; [by apply list_elem_of_In|]. by rewrite Hk, bool_decide_true.
  - intros h args k b Ha Hd. rewrite replay_app. unfold step. cbn. unfold answer. rewrite Ha, Hd, (bool_decide_true ("ip" = "ip")) by done. cbn.
    destruct (take_one k b (replay base h)) as [m|] eqn:Et; cbn.
    + destruct (take_one_some _ _ _ _ Et) as (x & [Hk Hb]%andb_true_iff & Hp). exists x.
      apply bool_decide_eq_true in Hk. apply orb_true_iff in Hb as [Hb|Hb]; apply bool_decide_eq_true in Hb; auto.
    + split; [done|]. intros x Hx Hk Hb. apply (take_one_none _ _ _ _ Et) in Hx. unfold fits, id in *.
      rewrite Hk, (bool_decide_true (k = k)) in Hx by done. apply orb_false_iff in Hx as [Hn Hx].
      apply bool_decide_eq_false in Hn, Hx. by destruct Hb.
Defined.

Definition ip4 (a b c d : byte) : Ipv4Addr := Ipv4 a b c d.
Definition server : IpAddr := V4 (Ipv4 Byte.xcb Byte.x00 Byte.x71 Byte.x07).
Definition cfg (rules : list RouteRule) : ClientConfig :=
  mkClientConfig "p" None GlobalProxy None None "et0" "127.0.0.1:7890" false "vpn" 443 Tcp "" "" false None []
    rules Blacklist [] true.
Definition welcome : Welcome :=
  mkWelcome 1 (ip4 Byte.x0a Byte.x07 Byte.x00 Byte.x02) 24 (ip4 Byte.x0a Byte.x07 Byte.x00 Byte.x01) 1400
    [ip4 Byte.x01 Byte.x01 Byte.x01 Byte.x01] None 0 None [].
Definition set_up (base : list row) (rules : list RouteRule) : Sys * Result NetGuard :=
  Linux.apply (H := box_os base) (fun _ => "") (cfg rules) welcome "et0" server (sys_new []).
End Box.

(** One rule, on a machine with a default route: six undo commands, and afterwards the
    default route alone again. *)
Lemma netcfg_restores_witness :
  let base := [((false, "default"), ["via"; "192.0.2.1"], true)] in
  let run := Box.set_up base [mkRule "198.51.100.4" "direct" None] in
  match run.2 with
  | Ok g => length (undo g) = 6%nat /\
      forall p, routes_to (H0 := Box.box_table base) p (sy_log (drop_guard (H := Box.box_os base) g run.1).1) ≡ₚ
        filter (fun x => x.1.1 = p) base
  | Err _ => False
  end.
Proof.
  cbv zeta. set (base := [(_, true)]). set (rules := [mkRule _ _ _]).
  assert (match (Box.set_up base rules).2 with
    | Ok g => (length (undo g) =? 6)%nat && bool_decide ((false, "default") ∉ map fst (omap removes (undo g)))
    | Err _ => false end = true) as Hn by (vm_compute; reflexivity).
  destruct (Box.set_up base rules) as [s [g|e]] eqn:E; cbn [fst snd] in *; [|discriminate].
  apply andb_true_iff in Hn as [Hn Hd%bool_decide_eq_true_1]. split; [by apply Nat.eqb_eq|].
  destruct (drop_guard (H := Box.box_os base) g s) as [s2 r2] eqn:Ed. cbn [fst]. intros p.
  refine (proj2 (proj2 (netcfg_restores (H0 := Box.box_table base) [] _ _ _ _ _ s g s s2 r2 E (reflexivity _) Ed)) _ p).
  intros q Hq. split; [intros ? _ _; reflexivity|]. apply elem_of_nil_inv. intros x Hx.
  apply elem_routes_to in Hx as (Hx & _ & <-). apply list_elem_of_singleton in Hx as ->. exact (Hd Hq).
Defined.

(** A host route of the machine's own to the server: the pin cannot be added, and dropping
    the guard takes the machine's route. *)
Lemma own_pin_lost :
  let base := [((false, show_ip Box.server +:+ "/32"), ["via"; "192.0.2.9"], true)] in
  match (Box.set_up base []).2 with
  | Ok g => Box.replay base (sy_log (drop_guard (H := Box.box_os base) g (Box.set_up base []).1).1) = []
  | Err _ => False
  end.
Proof. vm_compute. reflexivity. Qed.

(** The second half of the capture is there already: the first half stays behind. *)
Lemma failed_setup_leaves_routes_witness :
  let base := [((false, "128.0.0.0/1"), ["dev"; "eth1"], true)] in
  is_ok (Box.set_up base []).2 = false /\
  present (H0 := Box.box_table base) (false, "0.0.0.0/1") ["dev"; "et0"] (sy_log (Box.set_up base []).1).
Proof.
  cbv zeta. set (base := [(_, true)]).
  assert (existsb (fun e => match e with
    | ERun cmd args x => bool_decide (cmd = "ip") && bool_decide (args = ["route"; "add"; "0.0.0.0/1"; "dev"; "et0"]) && succeeded x
    | _ => false end) (sy_log (Box.set_up base []).1) = true) as Hin by (vm_compute; reflexivity).
  assert (is_ok (Box.set_up base []).2 = false) as Hr by (vm_compute; reflexivity).
  pose proof (failed_setup_leaves_routes (H1 := Box.no_nets) (H0 := Box.box_table base) [] (fun _ => "") (Box.cfg []) Box.welcome "et0"
    Box.server) as Ht.
  change (Linux.apply (H := Box.box_os base) (H0 := Box.no_nets) (fun _ => "") (Box.cfg []) Box.welcome "et0" Box.server (sys_new []))
    with (Box.set_up base []) in Ht.
  destruct (Box.set_up base []) as [s r]. cbn [fst snd] in *. split; [done|].
  destruct Ht as [_ (l & El & Hl)]. rewrite El in Hin. apply existsb_exists in Hin as ([cmd args x| | |] & Hin & Hb); try done.
  apply andb_true_iff in Hb as [[->%bool_decide_eq_true_1 ->%bool_decide_eq_true_1]%andb_true_iff Hx].
  eapply (Hl _ x); [by apply list_elem_of_In|reflexivity|done].
Defined.

(** The blacklist on an empty table: the set-up succeeds and captures. *)
Lemma capture_policy_witness :
  let s := (Box.set_up [] []).1 in
  is_ok (Box.set_up [] []).2 = true /\
  present (H0 := Box.box_table []) (false, "0.0.0.0/1") ["dev"; "et0"] (sy_log s).
Proof.
  cbv zeta. assert (is_ok (Box.set_up [] []).2 = true) as Hr by (vm_compute; reflexivity).
  pose proof (capture_policy (H1 := Box.no_nets) (H0 := Box.box_table []) [] (fun _ => "") (Box.cfg []) Box.welcome "et0" Box.server)
    as Ht.
  change (Linux.apply (H := Box.box_os []) (H0 := Box.no_nets) (fun _ => "") (Box.cfg []) Box.welcome "et0" Box.server (sys_new []))
    with (Box.set_up [] []) in Ht.
  destruct (Box.set_up [] []) as [s r]. cbn [fst snd] in *. split; [done|]. by apply Ht.
Defined.
