(* ===== verification/NetCfgWin.v ===== *)
(** The undo list of the Windows set-up (core/client-core/src/netcfg.rs, [windows_net]): it
    holds the removal of exactly the routes that were added. *)
From S2P Require Import Prelude Net Text Core ClientConfig Os NetCfg.

(** Commands that add a route, and the command that removes it again. *)
Definition adds (c : command) : bool :=
  match c.2 with
  | "add" :: _ => bool_decide (c.1 = "route")
  | "interface" :: "ipv6" :: "add" :: "route" :: _ => bool_decide (c.1 = "netsh")
  | _ => false
  end.
Definition undoes (c u : command) : Prop :=
  match c.2, u.2 with
  | "add" :: d :: "mask" :: m :: gw :: _, "delete" :: d' :: rest =>
    c.1 = "route" /\ u.1 = "route" /\ d' = d /\ rest `prefix_of` ["mask"; m; gw]
  | "interface" :: "ipv6" :: "add" :: "route" :: d :: i :: _, ["interface"; "ipv6"; "delete"; "route"; d'; i'] =>
    c.1 = "netsh" /\ u.1 = "netsh" /\ d' = d /\ i' = i
  | _, _ => False
  end.

Definition worked (l : log) (c : command) : Prop := exists out err, ERun c.1 c.2 (Exited true out err) ∈ l.
(** Since [h], the undo list answers the additions that worked, both ways. *)
Record exact (h : log) (s : Sys) : Prop := {
  ex_undo u : u ∈ sy_undo s -> exists l c, sy_log s = h ++ l /\ worked l c /\ undoes c u;
  ex_add : exists l, sy_log s = h ++ l /\
    forall c, adds c = true -> worked l c -> exists u, u ∈ sy_undo s /\ undoes c u;
}.
Lemma exact_start h : exact h (sys_new h).
Proof.
  split; cbn; [set_solver|]. exists []. rewrite app_nil_r. split; [done|]. intros c _ (? & ? & Hin). set_solver.
Qed.

Lemma worked_app l e c : worked l c -> worked (l ++ [e]) c.
Proof. intros (o & r & Hin). exists o, r. apply elem_of_app. by left. Qed.
(** A step: one more entry, and one more undo command if it was an addition that worked. *)
Lemma exact_step h s e us : exact h s ->
  (forall u, u ∈ us -> exists c, worked [e] c /\ undoes c u) ->
  (forall c, adds c = true -> worked [e] c -> exists u, u ∈ us /\ undoes c u) ->
  exact h (mkSys (sy_log s ++ [e]) (sy_undo s ++ us)).
Proof.
  intros [Hu (l & El & Ha)] Hus Hadd. split; cbn.
  - intros u [Hin|Hin]%elem_of_app.
    + destruct (Hu u Hin) as (l' & c & El' & Hw & Hc). exists (l' ++ [e]), c. rewrite El', app_assoc.
      split; [done|split; [by apply worked_app|done]].
    + destruct (Hus u Hin) as (c & (o & r & Hw) & Hc). exists (l ++ [e]), c. rewrite El, app_assoc.
      split; [done|split; [|done]]. exists o, r. apply elem_of_app. by right.
  - exists (l ++ [e]). rewrite El, app_assoc. split; [done|]. intros c Hc (o & r & [Hin|Hin]%elem_of_app).
    + destruct (Ha c Hc) as (u & Hi & Hud); [by exists o, r|]. exists u. split; [apply elem_of_app; by left|done].
    + destruct (Hadd c Hc) as (u & Hi & Hud); [by exists o, r|]. exists u. split; [apply elem_of_app; by right|done].
Qed.
Lemma exact_quiet h s e : exact h s -> (forall c, adds c = true -> worked [e] c -> False) ->
  exact h (mkSys (sy_log s ++ [e]) (sy_undo s)).
Proof.
  intros Hs Hq. rewrite <- (app_nil_r (sy_undo s)). apply exact_step; [done|set_solver|].
  intros c Hc Hw. by destruct (Hq c Hc Hw).
Qed.
Lemma worked_one cmd args x c : worked [ERun cmd args x] c -> c = (cmd, args) /\ succeeded x = true.
Proof. intros (o & r & Hin%list_elem_of_singleton). injection Hin as <- <- <-. by destruct c. Qed.

Section Keep.
Context `{Os} `{IpNets} (h : log).

Lemma win_keeps_output cmd args : adds (cmd, args) = false -> keeps (exact h) (output cmd args).
Proof.
  intros Hq s s' r Hs [= <- <-]. apply exact_quiet; [done|]. intros c Hc [-> _]%worked_one. congruence.
Qed.
Lemma win_keeps_lookup n p : keeps (exact h) (lookup_host n p).
Proof. intros s s' r Hs [= <- <-]. apply exact_quiet; [done|]. intros c _ (? & ? & ?%list_elem_of_singleton). done. Qed.
Lemma keeps_run cmd args : adds (cmd, args) = false -> keeps (exact h) (run cmd args).
Proof. intros Hq. apply keeps_bind; [by apply win_keeps_output|auto with keeps]. Qed.
(** An addition: recorded if it worked. *)
Lemma run_add cmd args u s s' r : exact h s -> undoes (cmd, args) u -> run cmd args s = (s', r) ->
  exact h (if is_ok r then mkSys (sy_log s') (sy_undo s' ++ [u]) else s').
Proof.
  intros Hs Hu. unfold run, output, lift_result, mbind, eff_bind. intros [= <- <-]. unfold status_of.
  destruct (os_run (sy_log s) cmd args) as [e|[] o r] eqn:Ex; cbn.
  - apply exact_quiet; [done|]. by intros c _ [_ ?]%worked_one.
  - apply exact_step; [done| |].
    + intros v ->%list_elem_of_singleton. exists (cmd, args). split; [|done]. exists o, r. by apply list_elem_of_singleton.
    + intros c _ [-> _]%worked_one. exists u. split; [by apply list_elem_of_singleton|done].
  - apply exact_quiet; [done|]. by intros c _ [_ ?]%worked_one.
Qed.
Lemma keeps_run_undoable cmd args u : undoes (cmd, args) u -> keeps (exact h) (Windows.run_undoable cmd args u).
Proof.
  intros Hu s s' r Hs. unfold Windows.run_undoable, try_eff, mbind, eff_bind.
  destruct (run cmd args s) as [s1 x] eqn:E. apply (run_add _ _ u _ _ _ Hs Hu) in E.
  destruct (is_ok x); by intros [= <- <-].
Qed.

Lemma keeps_cmd_out cmd args : adds (cmd, args) = false -> keeps (exact h) (cmd_out cmd args).
Proof. intros Hq. apply keeps_bind; [by apply win_keeps_output|auto with keeps]. Qed.
Lemma keeps_if_index n : keeps (exact h) (Windows.if_index n).
Proof. apply keeps_bind; [by apply keeps_cmd_out|auto with keeps]. Qed.
Lemma win_keeps_undo_list : keeps (exact h) undo_list.
Proof. by intros s s' r Hs [= <- <-]. Qed.

Lemma keeps_rule_args idx gw orig rule route : keeps (exact h) (Windows.rule_args idx gw orig rule route).
Proof.
  unfold Windows.rule_args. destruct (Windows.split_cidr route) as [[d m]|]; [|auto with keeps].
  repeat case_bool_decide; auto with keeps. apply keeps_bind; [apply keeps_if_index|auto with keeps].
Qed.
Lemma rule_args_undoes idx gw orig rule route s s' add :
  Windows.rule_args idx gw orig rule route s = (s', Ok (Some add)) ->
  undoes ("route", add) ("route", ["delete"; nth 1 add ""; "mask"; nth 3 add ""]).
Proof.
  assert (forall d m (x : list string), x <> [] -> undoes ("route", "add" :: d :: "mask" :: m :: x) ("route", ["delete"; d; "mask"; m])) as Hu.
  { intros d m [|y x] Hx; [done|]. repeat split. by exists [y]. }
  unfold Windows.rule_args. destruct (Windows.split_cidr route) as [[d m]|]; [|done]. repeat case_bool_decide.
  - destruct idx; [|done]. intros [= _ <-]. by apply Hu.
  - destruct orig; [|done]. intros [= _ <-]. by apply Hu.
  - intros (s1 & [i|] & _ & [= _ E])%eff_bind_ok. rewrite <- E. by apply Hu.
Qed.
Lemma win_keeps_install idx gw orig srv rule route seen :
  keeps (exact h) (install_route (Windows.rule_ops idx gw orig) srv rule route seen).
Proof.
  unfold install_route. repeat case_bool_decide; auto with keeps. cbn [Windows.rule_ops add_args add_route del_route].
  intros s s' r Hs. unfold mbind at 1, eff_bind at 1.
  destruct (Windows.rule_args idx gw orig rule route s) as [s1 x] eqn:E.
  pose proof (keeps_rule_args _ _ _ _ _ _ _ _ Hs E) as Hs1.
  destruct x as [[add|]|e]; [|by intros [= <- <-]..].
  apply rule_args_undoes in E. unfold try_eff, mbind, eff_bind. destruct (run "route" add s1) as [s2 x] eqn:Er.
  apply (run_add _ _ _ _ _ _ Hs1 E) in Er. destruct x as [[]|e]; by intros [= <- <-].
Qed.
Lemma keeps_resolve t : keeps (exact h) (resolve_rule_targets t).
Proof.
  unfold resolve_rule_targets. repeat case_match; auto with keeps.
  all: apply keeps_bind; [apply win_keeps_lookup|auto with keeps].
Qed.
Lemma keeps_try_run cmd args : adds (cmd, args) = false -> keeps (exact h) (try_run cmd args).
Proof. intros Hq. by apply keeps_ignore, keeps_run. Qed.
Lemma keeps_set_dns family ifname l : family = "ipv4" \/ family = "ipv6" -> forall i,
  keeps (exact h) (Windows.set_dns family ifname i l).
Proof.
  intros Hf. induction l as [|d l IH]; intros i; cbn [Windows.set_dns]; [apply keeps_ret|].
  apply keeps_bind; [|intros ?; apply IH].
  destruct (i =? 0); apply keeps_try_run; by destruct Hf as [-> | ->].
Qed.
Lemma keeps_capture4 gw i n : keeps (exact h) (Windows.capture4 gw i n).
Proof. apply keeps_run_undoable. by repeat split. Qed.
Lemma keeps_capture6 i n : keeps (exact h) (Windows.capture6 i n).
Proof. apply keeps_run_undoable. by repeat split. Qed.
Lemma keeps_pin gw ip : keeps (exact h) (Windows.pin_server gw ip).
Proof.
  destruct gw; [|apply keeps_ret]. apply keeps_run_undoable. repeat split. apply prefix_nil.
Qed.
Lemma win_keeps_ipv6 cfg w ifname ip : keeps (exact h) (Windows.ipv6_routes cfg w ifname ip).
Proof.
  unfold Windows.ipv6_routes. repeat case_match; auto with keeps. apply keeps_for_each, keeps_capture6.
Qed.
Lemma keeps_capture_all cfg w ifname gw i ip : keeps (exact h) (Windows.capture_all cfg w ifname gw i ip).
Proof.
  unfold Windows.capture_all. apply keeps_bind; [apply keeps_for_each, keeps_capture4|intros _].
  apply keeps_bind; [apply win_keeps_ipv6|intros _].
  apply keeps_bind; [|intros _]; apply keeps_set_dns; auto.
Qed.
Lemma keeps_set_address n ifname ip mask : keeps (exact h) (Windows.set_address n ifname ip mask).
Proof.
  induction n as [|n IH]; cbn [Windows.set_address]; [apply keeps_ret|].
  apply keeps_bind; [by apply keeps_try, keeps_run|]. intros r. destruct (is_ok _); [apply keeps_ret|exact IH].
Qed.
Lemma keeps_adapter ifname ip mask mtu : keeps (exact h) (Windows.set_adapter_ipv4 ifname ip mask mtu).
Proof.
  apply keeps_bind; [apply keeps_set_address|]. intros b. destruct b; [by apply keeps_try_run|apply keeps_throw].
Qed.
Lemma keeps_mode cfg w ifname gw idx orig ip :
  keeps (exact h)
    match cc_mode cfg with
    | GlobalProxy =>
      Windows.pin_server orig ip;;
      match split_mode cfg, idx with
      | Blacklist, Some i => Windows.capture_all cfg w ifname gw i ip
      | _, _ => mret tt
      end
    | Vpn | HttpProxy | SystemProxy => mret tt
    end.
Proof.
  destruct (cc_mode cfg); try apply keeps_ret. apply keeps_bind; [apply keeps_pin|]. intros _.
  destruct (split_mode cfg), idx; first [apply keeps_ret | apply keeps_capture_all].
Qed.
End Keep.

Section Exact.
Context `{Os} `{IpNets}.

Lemma adapter_undo ifname ip mask mtu s s' r : Windows.set_adapter_ipv4 ifname ip mask mtu s = (s', r) -> sy_undo s' = sy_undo s.
Proof.
  assert (forall n s s' r, Windows.set_address n ifname ip mask s = (s', r) -> sy_undo s' = sy_undo s /\ is_ok r = true) as Ha.
  { induction n as [|n IH]; intros s0 s1 r0; cbn [Windows.set_address]; [by intros [= <- <-]|].
    unfold try_eff, run, output, lift_result, mbind, eff_bind. destruct (is_ok _); [by intros [= <- <-]|].
    by intros ?%IH. }
  unfold Windows.set_adapter_ipv4, mbind, eff_bind. destruct (Windows.set_address _ _ _ _ s) as [s1 [[]|e]] eqn:E;
    apply Ha in E as [E Eok]; [| |done]; by intros [= <- <-].
Qed.

Lemma total_rule_args idx gw orig rule route : total (Windows.rule_args idx gw orig rule route).
Proof.
  unfold Windows.rule_args. destruct (Windows.split_cidr route) as [[d m]|]; [|auto with total].
  repeat case_bool_decide; auto with total. apply total_bind; [apply total_bind; auto with total|auto with total].
Qed.
Lemma total_undoable cmd args u : total (Windows.run_undoable cmd args u).
Proof. apply total_bind; [auto with total|]. intros r. destruct (is_ok _); auto with total. Qed.
Lemma total_set_dns family ifname i l : total (Windows.set_dns family ifname i l).
Proof.
  revert i. induction l as [|d l IH]; intros i; cbn [Windows.set_dns]; [auto with total|].
  apply total_bind; [|intros ?; apply IH]. destruct (i =? 0); apply total_ignore.
Qed.
Lemma total_capture_all cfg w ifname gw i ip : total (Windows.capture_all cfg w ifname gw i ip).
Proof.
  unfold Windows.capture_all. apply total_bind; [apply total_for_each; intros; apply total_undoable|intros _].
  apply total_bind; [|intros _; apply total_bind; [|intros _]; apply total_set_dns].
  unfold Windows.ipv6_routes. repeat case_match; auto with total. apply total_for_each. intros. apply total_undoable.
Qed.
Lemma total_configure cfg w ifname gw idx orig ip : total (Windows.configure cfg w ifname gw idx orig ip).
Proof.
  unfold Windows.configure. apply total_bind; [apply total_route_rules, total_rule_args|intros _].
  apply total_bind; [|intros _; apply total_bind; auto with total].
  destruct (cc_mode cfg); auto with total. apply total_bind.
  - destruct orig; [apply total_undoable|apply total_ret].
  - intros _. destruct (split_mode cfg), idx; first [apply total_ret|apply total_capture_all].
Qed.
Lemma keeps_configure h cfg w ifname gw idx orig ip :
  keeps (exact h) (Windows.configure cfg w ifname gw idx orig ip).
Proof.
  unfold Windows.configure. apply keeps_bind; [apply keeps_route_rules; [apply keeps_resolve|intros; apply win_keeps_install]|intros _].
  apply keeps_bind; [apply keeps_mode|intros _]. apply keeps_bind; [apply win_keeps_undo_list|auto with keeps].
Qed.
Lemma win_keeps_apply h cfg w ifname ip : keeps (exact h) (Windows.apply cfg w ifname ip).
Proof.
  unfold Windows.apply. apply keeps_bind; [apply keeps_adapter|intros _].
  apply keeps_bind; [destruct (assigned_ip6 w); [by apply keeps_try_run|apply keeps_ret]|intros _].
  apply keeps_bind; [apply keeps_if_index|intros idx].
  apply keeps_bind; [apply keeps_bind; [by apply keeps_cmd_out|auto with keeps]|intros orig]. apply keeps_configure.
Qed.
Lemma apply_err cfg w ifname ip s s' e : Windows.apply cfg w ifname ip s = (s', Err e) -> sy_undo s' = sy_undo s.
Proof.
  unfold Windows.apply, mbind at 1, eff_bind at 1.
  destruct (Windows.set_adapter_ipv4 _ _ _ _ s) as [s1 [[]|e1]] eqn:Ea; apply adapter_undo in Ea; [|by intros [= <- _]].
  intros E. exfalso. revert E.
  match goal with |- ?m s1 = _ -> _ => assert (total m) as Ht end; [|by intros ?%Ht].
  apply total_bind; [destruct (assigned_ip6 w); [apply total_ignore|auto with total]|intros _].
  apply total_bind; [apply total_bind; auto with total|intros idx].
  apply total_bind; [apply total_bind; auto with total|intros orig]. apply total_configure.
Qed.
Lemma win_apply_guard cfg w ifname ip s s' g : Windows.apply cfg w ifname ip s = (s', Ok g) -> undo g = sy_undo s'.
Proof.
  revert s s' g. unfold Windows.apply. cbv zeta.
  do 4 (refine (bind_ends _ _ (fun s' g => undo g = sy_undo s') _); intros ?).
  unfold Windows.configure. do 2 (refine (bind_ends _ _ (fun s' g => undo g = sy_undo s') _); intros ?). by intros s s' g [= <- <-].
Qed.

(** C33. On Windows the undo list is exact.  If [apply] succeeds, the guard removes a route
    only if the command that adds that very route worked, and every route that was added
    ([route add] for the split rules, the server pin and the IPv4 capture, [netsh] for
    IPv6) has its removal in the guard; if it fails, no command that adds a route has been
    run with success, so there is nothing to undo. *)
Theorem windows_undo_exact h cfg w ifname ip :
  let '(s, r) := Windows.apply cfg w ifname ip (sys_new h) in
  exists l, sy_log s = h ++ l /\
    match r with
    | Ok g =>
      (forall u, u ∈ undo g -> exists c, worked l c /\ undoes c u) /\
      (forall c, adds c = true -> worked l c -> exists u, u ∈ undo g /\ undoes c u)
    | Err _ => forall c, adds c = true -> ~ worked l c
    end.
Proof.
  destruct (Windows.apply cfg w ifname ip (sys_new h)) as [s r] eqn:E.
  destruct (win_keeps_apply h cfg w ifname ip _ _ _ (exact_start h) E) as [Hu (l & El & Ha)].
  exists l. split; [done|]. destruct r as [g|e].
  - rewrite (win_apply_guard _ _ _ _ _ _ _ E). split; [|exact Ha]. intros u Hin.
    destruct (Hu u Hin) as (l' & c & El' & Hw). rewrite El in El'. apply app_inv_head in El' as <-. by exists c.
  - apply apply_err in E. intros c Hc Hw. destruct (Ha c Hc Hw) as (u & Hin & _). rewrite E in Hin. set_solver.
Qed.
End Exact.
