(* ===== verification/ServerNet.v ===== *)
(** The server's network set-up (server/src/net.rs, Linux): addresses and forwarding on the
    tunnel device, the [iptables] and [ip6tables] rules, and their removal. *)
From Stdlib Require Import Strings.String.
From stdpp Require Import gmultiset.
From S2P Require Import Prelude Net Text Core ServerConfig Os.

Section Setup.
Context `{Os} `{IpNet}.

(** [tun] is the interface's name, what the rest needs of the device. *)
Record ServerNet := mkNet { tun : string; egress : string; ipv6 : bool; net_undo : list command }.

(** Dropping the value runs the undo commands in order. *)
Definition drop_net (n : ServerNet) : eff Sys Error unit := run_all (net_undo n).

Definition detect_egress : eff Sys Error string :=
  t ← cmd_text "ip" ["route"; "show"; "default"];
  lift_result match t with
  | Err e => Err (Transport ("ip route: " +:+ e))
  | Ok text => match after (to_b "dev") (split_whitespace text) with
               | Some d => Ok (str d)
               | None => Err (Transport "could not detect egress interface")
               end
  end.
Definition detect_egress6 : eff Sys Error (option string) :=
  t ← cmd_text "ip" ["-6"; "route"; "show"; "default"];
  mret match t with Ok text => str <$> after (to_b "dev") (split_whitespace text) | Err _ => None end.

(** The rules, with the action that adds or deletes them. *)
Definition masq (subnet egress action : string) : list string :=
  ["-t"; "nat"; action; "POSTROUTING"; "-s"; subnet; "-o"; egress; "-j"; "MASQUERADE"].
Definition fwd_out (ifname egress action : string) : list string :=
  [action; "FORWARD"; "-i"; ifname; "-o"; egress; "-j"; "ACCEPT"].
Definition fwd_in (ifname egress action : string) : list string :=
  [action; "FORWARD"; "-i"; egress; "-o"; ifname; "-m"; "state"; "--state"; "RELATED,ESTABLISHED"; "-j"; "ACCEPT"].
Definition fwd_hairpin (ifname action : string) : list string :=
  [action; "FORWARD"; "-i"; ifname; "-o"; ifname; "-j"; "ACCEPT"].

(** Forwarding in both directions and between peers, then the commands that undo it. *)
Definition forward (tables ifname egress : string) : eff Sys Error unit :=
  for_each (try_run tables) [fwd_out ifname egress "-I"; fwd_in ifname egress "-I"; fwd_hairpin ifname "-I"];;
  undo_push (tables, fwd_out ifname egress "-D");;
  undo_push (tables, fwd_in ifname egress "-D");;
  undo_push (tables, fwd_hairpin ifname "-D").

(** NAT66 on the real interface; without it the address is taken back. *)
Definition nat66 (subnet6 egress6 cidr ifname : string) : eff Sys Error bool :=
  r ← try_eff (run "ip6tables" (masq subnet6 egress6 "-A"));
  match (r : result Error unit) with
  | Err _ =>
    try_run "ip" ["-6"; "addr"; "del"; cidr; "dev"; ifname];;
    mret false
  | Ok _ =>
    undo_push ("ip6tables", masq subnet6 egress6 "-D");;
    forward "ip6tables" ifname egress6;;
    mret true
  end.
Definition setup_ipv6 (net : NetworkConfig) (ifname : string) : eff Sys Error bool :=
  match net_subnet6 net, net_gateway6 net with
  | Some subnet6, Some gw6 =>
    let prefix6 := match parse_v6net subnet6 with Ok n => v6net_prefix n | Err _ => 64 end in
    let cidr := show_v6 gw6 +:+ "/" +:+ pretty prefix6 in
    e ← detect_egress6;
    match e with
    | None => mret false
    | Some egress6 =>
      try_run "ip" ["-6"; "addr"; "add"; cidr; "dev"; ifname];;
      try_run "sysctl" ["-w"; "net.ipv6.conf.all.forwarding=1"];;
      try_run "sysctl" ["-w"; "net.ipv6.conf." +:+ ifname +:+ ".forwarding=1"];;
      nat66 subnet6 egress6 cidr ifname
    end
  | _, _ => mret false
  end.

(** [created] is the outcome of [TunDevice::create]. *)
Definition setup (created : Result string) (net : NetworkConfig) (prefix : Z) (subnet : string)
    : eff Sys Error ServerNet :=
  ifname ← lift_result created;
  try_run "ip" ["addr"; "add"; show_v4 (net_gateway net) +:+ "/" +:+ pretty prefix; "dev"; ifname];;
  run "ip" ["link"; "set"; "dev"; ifname; "mtu"; pretty (net_mtu net)];;
  run "ip" ["link"; "set"; "dev"; ifname; "up"];;
  try_run "sysctl" ["-w"; "net.ipv4.ip_forward=1"];;
  try_run "sysctl" ["-w"; "net.ipv4.conf." +:+ ifname +:+ ".send_redirects=0"];;
  try_run "sysctl" ["-w"; "net.ipv4.conf.all.send_redirects=0"];;
  egress ← match egress_iface net with Some e => mret e | None => detect_egress end;
  try_run "iptables" (masq subnet egress "-A");;
  undo_push ("iptables", masq subnet egress "-D");;
  forward "iptables" ifname egress;;
  v6 ← setup_ipv6 net ifname;
  u ← undo_list;
  mret (mkNet ifname egress v6 u).
End Setup.
