(* ===== verification/ServerNetThms.v ===== *)
(** Theorems about the server's network set-up: the packet filter is restored, and IPv6 is
    offered only behind a masquerade. *)
From Stdlib Require Import Strings.String.
From stdpp Require Import gmultiset.
From S2P Require Import Prelude Net Text Core ServerConfig Os ServerNet.

(** ** The packet filter, seen through its commands *)

(** A rule: the program it belongs to, the table and the words that describe it. *)
Abbreviation frule := (string * list string)%type.
Definition action (a : string) : option bool :=
  if bool_decide (a = "-A") || bool_decide (a = "-I") then Some true
  else if bool_decide (a = "-D") then Some false else None.
(** Whether a command adds or deletes a rule, and which. *)
Definition fw (c : command) : option (bool * frule) :=
  if bool_decide (c.1 = "iptables") || bool_decide (c.1 = "ip6tables") then
    match c.2 with
    | a0 :: rest0 =>
      if bool_decide (a0 = "-t") then
        match rest0 with t :: a :: rest => (fun b => (b, (c.1, t :: rest))) <$> action a | _ => None end
      else (fun b => (b, (c.1, "filter" :: rest0))) <$> action a0
    | [] => None
    end
  else None.

(** What is relied on of [iptables]: a rule may be there several times, a deletion removes
    one occurrence and succeeds if there is one. *)
Class Firewall `{Os} := {
  rules : log -> gmultiset frule;
  rules_other : forall h e, (forall cmd args r, e = ERun cmd args r -> fw (cmd, args) = None) ->
    rules (h ++ [e]) = rules h;
  rules_add : forall h cmd args f, fw (cmd, args) = Some (true, f) ->
    rules (h ++ [ERun cmd args (os_run h cmd args)]) =
      if succeeded (os_run h cmd args) then {[+ f +]} ⊎ rules h else rules h;
  rules_del : forall h cmd args f, fw (cmd, args) = Some (false, f) ->
    rules (h ++ [ERun cmd args (os_run h cmd args)]) =
      if succeeded (os_run h cmd args) then rules h ∖ {[+ f +]} else rules h;
  rules_del_works : forall h cmd args f, fw (cmd, args) = Some (false, f) -> f ∈ rules h ->
    succeeded (os_run h cmd args) = true;
}.

(** The rules whose addition failed, and the rules a list of commands deletes. *)
Definition failed_add (e : entry) : option frule :=
  match e with
  | ERun cmd args r =>
    match fw (cmd, args) with Some (true, f) => if succeeded r then None else Some f | _ => None end
  | _ => None
  end.
Definition failed (l : log) : gmultiset frule := list_to_set_disj (omap failed_add l).
Definition deletion (c : command) : option frule :=
  match fw c with Some (false, f) => Some f | _ => None end.
Definition deleted (cs : list command) : gmultiset frule := list_to_set_disj (omap deletion cs).
#[local] Arguments failed : simpl never.
#[local] Arguments deleted : simpl never.

Lemma failed_snoc l e : failed (l ++ [e]) = failed l ⊎ match failed_add e with Some f => {[+ f +]} | None => ∅ end.
Proof.
  unfold failed. rewrite omap_app, list_to_set_disj_app. f_equal.
  simpl. destruct (failed_add e) as [f|]; [|done]. simpl. apply (right_id_L ∅ (⊎)).
Qed.
Lemma deleted_snoc cs c : deleted (cs ++ [c]) = deleted cs ⊎ match deletion c with Some f => {[+ f +]} | None => ∅ end.
Proof.
  unfold deleted. rewrite omap_app, list_to_set_disj_app. f_equal.
  simpl. destruct (deletion c) as [f|]; [|done]. simpl. apply (right_id_L ∅ (⊎)).
Qed.
Lemma deleted_cons cs c f : deletion c = Some f -> deleted (c :: cs) = {[+ f +]} ⊎ deleted cs.
Proof. intros E. unfold deleted. cbn. by rewrite E. Qed.

Section Restore.
Context `{Os} `{!Firewall} `{IpNet}.

(** The books of a set-up: what was there, plus what the undo list deletes, plus what is
    still [p], owed an undo command, is what is there now plus what is missing, rules whose
    addition failed. *)
Definition owed (h : log) (p : gmultiset frule) (s : Sys) : Prop :=
  (forall c, c ∈ sy_undo s -> is_Some (deletion c)) /\
  exists l miss, sy_log s = h ++ l /\ miss ⊆ failed l /\ rules (sy_log s) ⊎ miss = rules h ⊎ deleted (sy_undo s) ⊎ p.
Abbreviation balanced h := (owed h ∅).

Lemma owed_start h : balanced h (sys_new h).
Proof.
  split; cbn; [set_solver|]. exists [], ∅. rewrite app_nil_r. unfold deleted. cbn. repeat split; multiset_solver.
Qed.
Lemma owed_entry h p s e : (forall cmd args r, e = ERun cmd args r -> fw (cmd, args) = None) -> owed h p s ->
  owed h p (mkSys (sy_log s ++ [e]) (sy_undo s)).
Proof.
  intros He [Hc (l & miss & El & Hm & Hb)]. split; [done|]. exists (l ++ [e]), miss. cbn. rewrite El, app_assoc.
  split; [done|]. rewrite <- El, rules_other, failed_snoc by done. split; [multiset_solver|done].
Qed.
Lemma keeps_quiet h p cmd args : fw (cmd, args) = None -> keeps (owed h p) (output cmd args).
Proof. intros Hq s s' r Hs [= <- <-]. apply owed_entry; [|done]. by intros ? ? ? [= <- <- _]. Qed.
Lemma keeps_quiet_run h p cmd args : fw (cmd, args) = None -> keeps (owed h p) (run cmd args).
Proof. intros Hq. apply keeps_bind; [by apply keeps_quiet|auto with keeps]. Qed.
Lemma keeps_quiet_try h p cmd args : fw (cmd, args) = None -> keeps (owed h p) (try_run cmd args).
Proof. intros Hq. by apply keeps_ignore, keeps_quiet_run. Qed.

(** Adding a rule owes an undo command when it worked, and may be charged one when it did
    not; recording the command settles it. *)
Lemma run_owes h p cmd args f s s' r : fw (cmd, args) = Some (true, f) -> owed h p s -> run cmd args s = (s', r) ->
  owed h (p ⊎ {[+ f +]}) s' /\ (is_ok r = false -> owed h p s').
Proof.
  intros Hf [Hc (l & miss & El & Hm & Hb)]. unfold run, output, lift_result, mbind, eff_bind. intros [= <- <-].
  set (x := os_run (sy_log s) cmd args).
  assert (is_ok (status_of cmd (cmd +:+ " " +:+ words args) x) = succeeded x) as -> by (by destruct x as [|[]]).
  assert (rules (sy_log s ++ [ERun cmd args x]) = if succeeded x then {[+ f +]} ⊎ rules (sy_log s) else rules (sy_log s))
    as Er by (by apply rules_add).
  assert (failed (l ++ [ERun cmd args x]) = failed l ⊎ if succeeded x then ∅ else {[+ f +]}) as Ef.
  { rewrite failed_snoc. cbn. rewrite Hf. by destruct (succeeded x). }
  unfold owed. cbn. rewrite Er. split.
  - split; [done|]. exists (l ++ [ERun cmd args x]), (miss ⊎ if succeeded x then ∅ else {[+ f +]}).
    rewrite Ef, El, app_assoc. split; [done|]. rewrite <- El. destruct (succeeded x); multiset_solver.
  - intros Hx. rewrite Hx in Ef |- *. split; [done|]. exists (l ++ [ERun cmd args x]), miss.
    rewrite Ef, El, app_assoc. split; [done|]. rewrite <- El. multiset_solver.
Qed.
Lemma try_owes h p cmd args f s s' r : fw (cmd, args) = Some (true, f) -> owed h p s -> try_run cmd args s = (s', r) ->
  owed h (p ⊎ {[+ f +]}) s'.
Proof.
  intros Hf Hs. unfold try_run, ignore. destruct (run cmd args s) as [s1 x] eqn:E. intros [= <- _].
  by apply (run_owes _ _ _ _ _ _ _ _ Hf Hs) in E as [E _].
Qed.
Lemma push_pays h p c f l u : deletion c = Some f -> owed h (p ⊎ {[+ f +]}) (mkSys l u) -> owed h p (mkSys l (u ++ [c])).
Proof.
  intros Hd [Hc (lg & miss & El & Hm & Hb)]. cbn in *. unfold owed. cbn. rewrite deleted_snoc, Hd. split.
  - intros v [Hv|Hv]%elem_of_app; [by apply Hc|]. apply list_elem_of_singleton in Hv as ->. by eexists.
  - exists lg, miss. split; [done|split; [done|]]. multiset_solver.
Qed.

Lemma keeps_forward h tables ifname egress : tables = "iptables" \/ tables = "ip6tables" ->
  keeps (balanced h) (forward tables ifname egress).
Proof.
  intros Ht s s' r Hs. unfold forward. cbn [for_each].
  destruct (try_run tables (fwd_out ifname egress "-I") s) as [s1 r1] eqn:E1.
  destruct (try_run tables (fwd_in ifname egress "-I") s1) as [s2 r2] eqn:E2.
  destruct (try_run tables (fwd_hairpin ifname "-I") s2) as [s3 r3] eqn:E3.
  assert (r1 = Ok tt /\ r2 = Ok tt /\ r3 = Ok tt) as (-> & -> & ->).
  { injection E1 as _ <-. injection E2 as _ <-. by injection E3 as _ <-. }
  unfold mbind, eff_bind, mret, eff_ret. rewrite E1, E2, E3.
  destruct Ht as [-> | ->].
  all: eapply try_owes in E1; [|reflexivity|exact Hs]; eapply try_owes in E2; [|reflexivity|exact E1];
    eapply try_owes in E3; [|reflexivity|exact E2].
  all: cbn; intros [= <- _].
  all: do 3 (eapply push_pays; [reflexivity|]); destruct s3 as [l3 u3].
  all: match goal with |- owed _ ?p _ => match type of E3 with owed _ ?q _ => replace p with q; [exact E3|] end end.
  all: cbn [fst]; multiset_solver.
Qed.

(** A rule is added, then its removal recorded. *)
Lemma add_push h cmd args c f s : fw (cmd, args) = Some (true, f) -> deletion c = Some f -> balanced h s ->
  forall s' r, run cmd args s = (s', r) -> balanced h (mkSys (sy_log s') (sy_undo s' ++ [c])) /\ (is_ok r = false -> balanced h s').
Proof.
  intros Hf Hd Hs s' r E. destruct (run_owes _ _ _ _ _ _ _ _ Hf Hs E) as [Ho Hn]. split; [|exact Hn].
  destruct s' as [l u]. by eapply push_pays.
Qed.
Lemma keeps_nat66 h subnet6 e6 cidr ifname : keeps (balanced h) (nat66 subnet6 e6 cidr ifname).
Proof.
  unfold nat66.
  intros s s' r Hs. unfold try_eff, mbind at 1, eff_bind at 1.
  destruct (run "ip6tables" (masq subnet6 e6 "-A") s) as [s1 x] eqn:E.
  eapply (add_push h _ _ ("ip6tables", masq subnet6 e6 "-D")) in E as [Hp Hn]; [|reflexivity|reflexivity|exact Hs].
  destruct x as [[]|err].
  - intros Ef. refine (keeps_bind (I := balanced h) (forward _ _ _) (fun _ => mret true) _ _ _ _ _ Hp Ef);
      [by apply keeps_forward; right|auto with keeps].
  - intros Ef. refine (keeps_bind (I := balanced h) (try_run _ _) (fun _ => mret false) _ _ _ _ _ (Hn eq_refl) Ef);
      [by apply keeps_quiet_try|auto with keeps].
Qed.
Lemma keeps_ipv6 h net ifname : keeps (balanced h) (setup_ipv6 net ifname).
Proof.
  unfold setup_ipv6. destruct (net_subnet6 net) as [s6|], (net_gateway6 net) as [g6|]; auto with keeps.
  cbv zeta. apply keeps_bind; [apply keeps_bind; [by apply keeps_bind; [apply keeps_quiet|auto with keeps]|auto with keeps]|].
  intros [e6|]; [|auto with keeps].
  do 3 (apply keeps_bind; [by apply keeps_quiet_try|intros _]).
  apply keeps_nat66.
Qed.
Lemma keeps_setup h created net prefix subnet : keeps (balanced h) (setup created net prefix subnet).
Proof.
  unfold setup. apply keeps_bind; [auto with keeps|intros ifname].
  apply keeps_bind; [by apply keeps_quiet_try|intros _].
  do 2 (apply keeps_bind; [by apply keeps_quiet_run|intros _]).
  do 3 (apply keeps_bind; [by apply keeps_quiet_try|intros _]).
  apply keeps_bind.
  { destruct (egress_iface net); [auto with keeps|].
    apply keeps_bind; [apply keeps_bind; [by apply keeps_quiet|auto with keeps]|auto with keeps]. }
  intros eg s s' r Hs. unfold try_run at 1, ignore, mbind at 1, eff_bind at 1.
  destruct (run "iptables" (masq subnet eg "-A") s) as [s1 x] eqn:E.
  eapply (add_push h _ _ ("iptables", masq subnet eg "-D")) in E as [Hp _]; [|reflexivity|reflexivity|exact Hs].
  unfold mbind at 1, eff_bind at 1. cbn [undo_push]. 
  intros Ef.
  refine (keeps_bind (I := balanced h) (forward _ _ _) _ _ _ _ _ _ Hp Ef); [by apply keeps_forward; left|intros _].
  apply keeps_bind; [apply keeps_ipv6|intros v6]. apply keeps_bind; [|auto with keeps].
  by intros ? ? ? ? [= <- <-].
Qed.

(** What can fail comes before the first rule. *)
Definition untouched (h : log) (s : Sys) : Prop := rules (sy_log s) = rules h.
Lemma untouched_out h cmd args : fw (cmd, args) = None -> keeps (untouched h) (output cmd args).
Proof. intros Hq s s' r Hs [= <- <-]. unfold untouched. cbn. rewrite rules_other; [done|]. by intros ? ? ? [= <- <- _]. Qed.
Lemma untouched_run h cmd args : fw (cmd, args) = None -> keeps (untouched h) (run cmd args).
Proof. intros Hq. apply keeps_bind; [by apply untouched_out|auto with keeps]. Qed.
Lemma untouched_try h cmd args : fw (cmd, args) = None -> keeps (untouched h) (try_run cmd args).
Proof. intros Hq. by apply keeps_ignore, untouched_run. Qed.
Lemma total_try_run cmd args : total (try_run cmd args).
Proof. apply total_ignore. Qed.
Lemma total_forward tables ifname egress : total (forward tables ifname egress).
Proof.
  unfold forward. apply total_bind; [apply total_for_each; intros; apply total_try_run|intros _].
  do 2 (apply total_bind; [apply total_push|intros _]). apply total_push.
Qed.
Lemma total_ipv6 net ifname : total (setup_ipv6 net ifname).
Proof.
  unfold setup_ipv6. destruct (net_subnet6 net), (net_gateway6 net); auto with total. cbv zeta.
  apply total_bind; [apply total_bind; [apply total_bind|]; auto with total|]. intros [e6|]; [|auto with total].
  do 3 (apply total_bind; [apply total_try_run|intros _]). unfold nat66. apply total_bind; [auto with total|].
  intros [[]|e]; apply total_bind; auto using total_try_run with total. intros _.
  apply total_bind; auto using total_forward with total.
Qed.
(** If [m] can fail only leaving [P], so can the whole when the rest cannot fail. *)
Lemma setup_err h created net prefix subnet s e : setup created net prefix subnet (sys_new h) = (s, Err e) ->
  rules (sy_log s) = rules h.
Proof.
  assert (forall A (m : eff Sys Error A) (f : A -> eff Sys Error ServerNet),
    keeps (untouched h) m -> (forall a s s' e, untouched h s -> f a s = (s', Err e) -> untouched h s') ->
    forall s s' e, untouched h s -> (m ≫= f) s = (s', Err e) -> untouched h s') as Hb.
  { intros A m f Hm Hf s0 s1 e1 Hs. intros [E|(s2 & a & E1 & E2)]%eff_bind_err; [by eapply Hm|].
    eapply Hf; [|exact E2]. by eapply Hm. }
  assert (untouched h (sys_new h)) as Hs by done. intros E. change (untouched h s). revert Hs E.
  generalize (sys_new h). intros s0. revert s0 s e. unfold setup.
  apply Hb; [auto with keeps|intros ifname].
  apply Hb; [by apply untouched_try|intros _]. do 2 (apply Hb; [by apply untouched_run|intros _]).
  do 3 (apply Hb; [by apply untouched_try|intros _]). apply Hb.
  { destruct (egress_iface net); [auto with keeps|].
    apply keeps_bind; [apply keeps_bind; [by apply untouched_out|auto with keeps]|auto with keeps]. }
  intros eg s0 s1 e1 _ E. exfalso. revert E.
  match goal with |- ?m s0 = _ -> _ => assert (total m) as Ht end; [|by intros ?%Ht].
  apply total_bind; [apply total_try_run|intros _]. apply total_bind; [apply total_push|intros _].
  apply total_bind; [apply total_forward|intros _]. apply total_bind; [apply total_ipv6|intros v6].
  apply total_bind; auto with total.
Qed.
Lemma setup_undo created net prefix subnet s s' n : setup created net prefix subnet s = (s', Ok n) -> net_undo n = sy_undo s'.
Proof.
  revert s s' n. unfold setup.
  do 12 (refine (bind_ends _ _ (fun s' n => net_undo n = sy_undo s') _); intros ?). by intros s s' n [= <- <-].
Qed.

(** Deleting the recorded rules takes each of them off once. *)
Lemma run_all_rules cs s s' r : (forall c, c ∈ cs -> is_Some (deletion c)) -> run_all cs s = (s', r) ->
  rules (sy_log s') = rules (sy_log s) ∖ deleted cs.
Proof.
  revert s. induction cs as [|[cmd args] cs IH]; intros s Hall.
  { intros [= <- _]. unfold deleted. cbn. multiset_solver. }
  cbn [run_all]. unfold mbind, eff_bind, output. intros E. apply IH in E; [|set_solver]. rewrite E. cbn.
  destruct (Hall (cmd, args)) as [f Hf]; [set_solver|]. rewrite (deleted_cons _ _ _ Hf).
  unfold deletion in Hf. destruct (fw (cmd, args)) as [[[] g]|] eqn:Efw; [done| |done]. injection Hf as ->.
  rewrite (rules_del _ _ _ _ Efw). destruct (succeeded _) eqn:Es; [multiset_solver|].
  assert (f ∉ rules (sy_log s)) as Hn; [|multiset_solver].
  intros Hin. by rewrite (rules_del_works _ _ _ _ Efw Hin) in Es.
Qed.
End Restore.

(** ** IPv6 *)

Section Nat66.
Context `{Os} `{IpNet}.

(** The log only grows, and keeps what it has. *)
Definition has (h : log) (e : entry) (s : Sys) : Prop := exists l, sy_log s = h ++ l /\ e ∈ l.
Lemma has_output h e cmd args : keeps (has h e) (output cmd args).
Proof.
  intros s s' r (l & El & Hl) [= <- <-]. exists (l ++ [ERun cmd args (os_run (sy_log s) cmd args)]). cbn.
  rewrite El, app_assoc. split; [done|]. apply elem_of_app. by left.
Qed.
Lemma has_try h e cmd args : keeps (has h e) (try_run cmd args).
Proof. apply keeps_ignore, keeps_bind; [apply has_output|auto with keeps]. Qed.
Lemma has_push h e c : keeps (has h e) (undo_push c).
Proof. by intros s s' r Hs [= <- <-]. Qed.
Lemma has_forward h e tables ifname egress : keeps (has h e) (forward tables ifname egress).
Proof.
  unfold forward. apply keeps_bind; [apply keeps_for_each; intros; apply has_try|intros _].
  do 2 (apply keeps_bind; [apply has_push|intros _]). apply has_push.
Qed.
Lemma nat66_spec subnet6 egress6 cidr ifname s :
  exists s' b, nat66 subnet6 egress6 cidr ifname s = (s', Ok b) /\
    if b : bool then
      exists out err, has (sy_log s) (ERun "ip6tables" (masq subnet6 egress6 "-A") (Exited true out err)) s'
    else sy_undo s' = sy_undo s /\ exists l, sy_log s' = sy_log s ++ l.
Proof.
  unfold nat66. set (args := masq subnet6 egress6 "-A"). unfold mbind at 1, eff_bind at 1, try_eff. rewrite run_eq.
  destruct (os_run (sy_log s) "ip6tables" args) as [e|[] o err] eqn:Ex; cbn [status_of].
  - eexists _, false. split; [reflexivity|]. split; [done|].
    eexists [_; _]. cbn. rewrite run_eq. cbn. by rewrite <- app_assoc.
  - set (s1 := mkSys _ _). set (m := _ ≫= _).
    destruct (m s1) as [s2 r] eqn:E. exists s2, true.
    assert (has (sy_log s) (ERun "ip6tables" args (Exited true o err)) s1) as Hs1.
    { eexists. split; [reflexivity|]. by apply list_elem_of_singleton. }
    assert (keeps (has (sy_log s) (ERun "ip6tables" args (Exited true o err))) m) as Hk.
    { apply keeps_bind; [apply has_push|intros _]. apply keeps_bind; [apply has_forward|auto with keeps]. }
    split; [|exists o, err; by eapply Hk]. f_equal.
    destruct r as [b|e].
    + apply eff_bind_ok in E as (s3 & [] & _ & E). by apply eff_bind_ok in E as (s4 & [] & _ & [= _ <-]).
    + exfalso. assert (total m) as Ht; [|by apply Ht in E].
      apply total_bind; [apply total_push|intros _]. apply total_bind; [apply total_forward|auto with total].
  - eexists _, false. split; [reflexivity|]. split; [done|].
    eexists [_; _]. cbn. rewrite run_eq. cbn. by rewrite <- app_assoc.
Qed.

(** IPv6 is announced only behind NAT66.  [setup_ipv6] always answers; it answers yes
    only if the configuration has an IPv6 subnet and gateway and the [ip6tables] command
    that masquerades this subnet succeeded; when it answers no it has recorded no rule to
    undo, so the IPv4 set-up is left as it was. *)
Theorem nat66_gated net ifname s :
  let '(s', r) := setup_ipv6 net ifname s in
  exists b, r = Ok b /\
    (if b : bool then
       exists subnet6 egress6 out err, net_subnet6 net = Some subnet6 /\ is_Some (net_gateway6 net) /\
         has (sy_log s) (ERun "ip6tables" (masq subnet6 egress6 "-A") (Exited true out err)) s'
     else sy_undo s' = sy_undo s).
Proof.
  unfold setup_ipv6. destruct (net_subnet6 net) as [s6|], (net_gateway6 net) as [g6|]; try by exists false.
  cbv zeta. set (cidr := _ +:+ _). unfold mbind at 1, eff_bind at 1.
  destruct (detect_egress6 s) as [s1 [e6|err]] eqn:E1; [|by unfold detect_egress6 in E1].
  assert (exists l, sy_log s1 = sy_log s ++ l) as (l1 & L1) by (injection E1 as <- _; by eexists).
  assert (sy_undo s1 = sy_undo s) as U1 by (by injection E1 as <- _).
  destruct e6 as [e6|]; [|by exists false]. rewrite !try_then. set (s4 := logged _ _ _).
  assert (exists l, sy_log s4 = sy_log s ++ l) as (l4 & L4) by (cbn; rewrite L1, <- !app_assoc; by eexists).
  destruct (nat66_spec s6 e6 cidr ifname s4) as (s5 & b & -> & Hb). exists b. split; [done|]. destruct b.
  - destruct Hb as (o & err & (l & El & Hin)). exists s6, e6, o, err. split; [done|split; [by eexists|]].
    exists (l4 ++ l). rewrite El, L4, app_assoc. split; [done|]. apply elem_of_app. by right.
  - destruct Hb as [Hu _]. rewrite Hu. cbn. exact U1.
Qed.
End Nat66.

Section Claim.
Context `{Os} `{!Firewall} `{IpNet}.

(** A set-up, and its value dropped later. *)
Lemma setup_then_drop h created net prefix subnet s r :
  setup created net prefix subnet (sys_new h) = (s, r) ->
  match r with
  | Err _ => rules (sy_log s) = rules h
  | Ok n => exists l, sy_log s = h ++ l /\ exists miss, miss ⊆ failed l /\
      forall s1 s2 x, rules (sy_log s1) = rules (sy_log s) -> drop_net n s1 = (s2, x) ->
        rules (sy_log s2) = rules h ∖ miss
  end.
Proof.
  intros E. destruct r as [n|e]; [|by eapply setup_err].
  pose proof (setup_undo _ _ _ _ _ _ _ E) as Hu. apply (keeps_setup h) in E as [Hc (l & miss & El & Hm & Hb)]; [|apply owed_start].
  exists l. split; [done|]. exists miss. split; [done|]. intros s1 s2 x H1' Hd. unfold drop_net in Hd. rewrite Hu in Hd.
  apply run_all_rules in Hd as ->; [|done]. rewrite H1'. multiset_solver.
Qed.

(** C23. The packet filter is restored.  If [setup] fails, whatever the reason, no rule was
    touched.  If it succeeds, and nothing else changes the rules before the value is
    dropped, then the rules afterwards are those of the start, up to rules of ours that
    were there before although adding them again failed: when every addition worked, in
    IPv4 and IPv6, they are exactly the rules of the start, with their multiplicities. *)
Theorem firewall_restored h created net prefix subnet :
  let '(s, r) := setup created net prefix subnet (sys_new h) in
  match r with
  | Err _ => rules (sy_log s) = rules h
  | Ok n => exists l, sy_log s = h ++ l /\ exists miss, miss ⊆ failed l /\
      forall s1 s2 x, rules (sy_log s1) = rules (sy_log s) -> drop_net n s1 = (s2, x) ->
        rules (sy_log s2) = rules h ∖ miss
  end.
Proof.
  destruct (setup created net prefix subnet (sys_new h)) as [s r] eqn:E. by eapply setup_then_drop.
Qed.
End Claim.

(** ** A machine with a packet filter *)

Module FwBox.
(** The rules after a history, from none; [v6] says whether [ip6tables] works. *)
Definition fw_step (m : gmultiset frule) (e : entry) : gmultiset frule :=
  match e with
  | ERun cmd args r =>
    if succeeded r then
      match fw (cmd, args) with Some (true, f) => {[+ f +]} ⊎ m | Some (false, f) => m ∖ {[+ f +]} | None => m end
    else m
  | _ => m
  end.
Definition fw_replay (h : log) : gmultiset frule := foldl fw_step ∅ h.
Definition fw_answer (v6 : bool) (h : log) (cmd : string) (args : list string) : ran :=
  match fw (cmd, args) with
  | Some (true, _) => Exited (v6 || bool_decide (cmd = "iptables")) [] []
  | Some (false, f) => Exited (bool_decide (f ∈ fw_replay h)) [] []
  | None => Exited true (to_b "default via 192.0.2.1 dev eth0") []
  end.
#[export] Instance fw_os v6 : Os := {|
  os_run := fw_answer v6;
  os_read _ _ := Ok [];
  os_write _ _ _ := Ok tt;
  os_lookup _ _ _ := Ok [];
|}.
#[export] Instance fw_nets : IpNet := {|
  Ipv4Net := unit;
  Ipv6Net := unit;
  parse_v4net _ := Ok tt;
  parse_v6net _ := Ok tt;
  v4net_prefix _ := 24;
  v6net_prefix _ := 64;
  v6net_network _ := Ipv6 (Ipv4 Byte.x00 Byte.x00 Byte.x00 Byte.x00) (Ipv4 Byte.x00 Byte.x00 Byte.x00 Byte.x00)
    (Ipv4 Byte.x00 Byte.x00 Byte.x00 Byte.x00) (Ipv4 Byte.x00 Byte.x00 Byte.x00 Byte.x00);
|}.
Lemma fw_replay_app h e : fw_replay (h ++ [e]) = fw_step (fw_replay h) e.
Proof. unfold fw_replay. by rewrite foldl_app. Qed.
#[export] Instance fw_table v6 : Firewall (H := fw_os v6).
Proof.
  refine {| rules := fw_replay |}.
  - intros h [cmd args r| | |] He; rewrite fw_replay_app; try done. cbn. rewrite (He _ _ _ eq_refl). by destruct (succeeded r).
  - intros h cmd args f Hf. rewrite fw_replay_app. unfold fw_step. by rewrite Hf.
  - intros h cmd args f Hf. rewrite fw_replay_app. unfold fw_step. by rewrite Hf.
  - intros h cmd args f Hf Hin. cbn. unfold fw_answer. rewrite Hf. cbn. by rewrite bool_decide_true.
Defined.
Definition net : NetworkConfig := network (template "" "" "").
Definition up (v6 : bool) : Sys * Result ServerNet :=
  setup (H := fw_os v6) (H0 := fw_nets) (Ok "et0") net 24 "10.66.0.0/24" (sys_new []).
End FwBox.

(** With IPv6 eight rules, all of them removed. *)
Lemma firewall_restored_witness :
  match (FwBox.up true).2 with
  | Ok n => ipv6 n = true /\ length (net_undo n) = 8%nat /\
      rules (Firewall := FwBox.fw_table true) (sy_log (drop_net (H := FwBox.fw_os true) n (FwBox.up true).1).1) = ∅
  | Err _ => False
  end.
Proof.
  assert (match (FwBox.up true).2 with Ok n => ipv6 n && (length (net_undo n) =? 8)%nat | Err _ => false end = true) as Hn
    by (vm_compute; reflexivity).
  pose proof (firewall_restored (H := FwBox.fw_os true) (H0 := FwBox.fw_table true) (H1 := FwBox.fw_nets)
    [] (Ok "et0") FwBox.net 24 "10.66.0.0/24") as Ht.
  change (setup (H := FwBox.fw_os true) (H0 := FwBox.fw_nets) (Ok "et0") FwBox.net 24 "10.66.0.0/24" (sys_new []))
    with (FwBox.up true) in Ht.
  destruct (FwBox.up true) as [s [n|e]]; cbn [fst snd] in *; [|discriminate].
  apply andb_true_iff in Hn as [Hv Hl]. split; [done|split; [by apply Nat.eqb_eq|]].
  destruct Ht as (l & _ & miss & _ & Ht). destruct (drop_net (H := FwBox.fw_os true) n s) as [s2 x] eqn:Ed.
  cbn [fst]. rewrite (Ht s s2 x eq_refl Ed). change (rules []) with (∅ : gmultiset frule). multiset_solver.
Defined.
Lemma nat66_gated_witness :
  exists b, (setup_ipv6 (H := FwBox.fw_os false) (H0 := FwBox.fw_nets) FwBox.net "et0" (sys_new [])).2 = Ok b.
Proof.
  pose proof (nat66_gated (H := FwBox.fw_os false) (H0 := FwBox.fw_nets) FwBox.net "et0" (sys_new [])) as Ht.
  destruct (setup_ipv6 (H := FwBox.fw_os false) (H0 := FwBox.fw_nets) FwBox.net "et0" (sys_new [])) as [s r].
  destruct Ht as (b & Hr & _). by exists b.
Defined.
