(* ===== verification/SysProxy.v ===== *)
(** The system-wide proxy switch of the client (core/client-core/src/sysproxy.rs): what is
    set on macOS, GNOME and Windows when the local proxy is up, and how it is undone. *)
From Stdlib Require Import Strings.String.
From S2P Require Import Prelude Net Text Core Os NetCfg.

(** [trim_matches] of both brackets. *)
Definition bracket (c : byte) : bool := bool_decide (c = Byte.x5b) || bool_decide (c = Byte.x5d).
Fixpoint skip_brackets (s : bytes) : bytes :=
  match s with c :: r => if bracket c then skip_brackets r else s | [] => [] end.
Definition trim_brackets (s : bytes) : bytes := rev (skip_brackets (rev (skip_brackets s))).

(** [host:port] as the system should dial it; a wildcard bind is loopback. *)
Definition host_port (listen : string) : string * string :=
  let '(h, p) := default (to_b listen, to_b "7890") (rsplit_once Byte.x3a (to_b listen)) in
  let host := if bool_decide (h = []) || bool_decide (h = to_b "0.0.0.0") || bool_decide (h = to_b "::") ||
                 bool_decide (h = to_b "[::]")
              then "127.0.0.1" else str (trim_brackets h) in
  (host, str p).

Section SysProxy.
Context `{Os}.

(** The guard is its undo list; dropping it runs the list. *)
Record SysProxyGuard := mkProxyGuard { proxy_undo : list command }.
Definition noop : SysProxyGuard := mkProxyGuard [].
Definition drop_proxy (g : SysProxyGuard) : eff Sys Error unit :=
  match proxy_undo g with [] => mret tt | u => run_all u end.

(** Whether the command ran and succeeded. *)
Definition run_ok (cmd : string) (args : list string) : eff Sys Error bool :=
  r ← output cmd args; mret (succeeded r).

(** *** macOS *)

(** The service whose block names the device; the device's name may go on after [dev]. *)
Fixpoint service_named (dev : string) (last : option string) (ls : list bytes) : option string :=
  match ls with
  | [] => None
  | line :: r =>
    let t := trim line in
    let named := match strip_prefix (to_b "(") t with
                 | Some rest =>
                   match find_sub_from 0 (to_b ")") rest with
                   | Some i => if contains (to_b "Hardware Port") (take i rest) then None
                               else Some (str (trim (drop (i + 1) rest)))
                   | None => None
                   end
                 | None => None
                 end in
    match named with
    | Some n => service_named dev (Some n) r
    | None => if contains (to_b ("Device: " +:+ dev)) t then last else service_named dev last r
    end
  end.
Definition proxy_service : eff Sys Error (option string) :=
  t ← cmd_text "route" ["-n"; "get"; "default"];
  match (text ← ok t; find_line (field "interface:") (lines text)) : option string with
  | None => mret None
  | Some dev =>
    order ← cmd_text "networksetup" ["-listnetworkserviceorder"];
    mret (text ← ok order; service_named dev None (lines text))
  end.
Definition enable_macos (host port : string) : eff Sys Error SysProxyGuard :=
  svc ← proxy_service;
  match svc with
  | None => mret noop
  | Some svc =>
    ok_web ← run_ok "networksetup" ["-setwebproxy"; svc; host; port];
    ok_sec ← run_ok "networksetup" ["-setsecurewebproxy"; svc; host; port];
    if negb (ok_web && ok_sec) then mret noop
    else mret (mkProxyGuard [("networksetup", ["-setwebproxystate"; svc; "off"]);
                             ("networksetup", ["-setsecurewebproxystate"; svc; "off"])])
  end.

(** *** GNOME *)
Definition gnome_base : string := "org.gnome.system.proxy".
Definition gnome_proto (host port proto : string) : eff Sys Error unit :=
  let schema := gnome_base +:+ "." +:+ proto in
  output "gsettings" ["set"; schema; "host"; host];;
  output "gsettings" ["set"; schema; "port"; port];;
  mret tt.
Definition enable_linux (host port : string) : eff Sys Error SysProxyGuard :=
  b ← run_ok "gsettings" ["set"; gnome_base; "mode"; "manual"];
  if negb b then mret noop
  else
    for_each (gnome_proto host port) ["http"; "https"];;
    mret (mkProxyGuard [("gsettings", ["set"; gnome_base; "mode"; "none"])]).

(** *** Windows: WinINet settings in the registry *)
Definition INET_SETTINGS : string := "HKCU\Software\Microsoft\Windows\CurrentVersion\Internet Settings".
Definition quote : string := String (Ascii.ascii_of_nat 34) "".
Definition WININET_REFRESH : string :=
  "Add-Type -Namespace ET -Name WinInet -MemberDefinition '[System.Runtime.InteropServices.DllImport(" +:+
  quote +:+ "wininet.dll" +:+ quote +:+
  ", SetLastError=true)] public static extern bool InternetSetOption(System.IntPtr h, int o, System.IntPtr b, int l);'; " +:+
  "[void][ET.WinInet]::InternetSetOption([System.IntPtr]::Zero,39,[System.IntPtr]::Zero,0); " +:+
  "[void][ET.WinInet]::InternetSetOption([System.IntPtr]::Zero,37,[System.IntPtr]::Zero,0)".
Definition reg_add (value type data : string) : list string :=
  ["add"; INET_SETTINGS; "/v"; value; "/t"; type; "/d"; data; "/f"].
Definition powershell_refresh : list string := ["-NoProfile"; "-NonInteractive"; "-Command"; WININET_REFRESH].
Definition refresh_wininet : eff Sys Error unit := output "powershell" powershell_refresh;; mret tt.
Definition enable_windows (host port : string) : eff Sys Error SysProxyGuard :=
  let server := host +:+ ":" +:+ port in
  ok_srv ← run_ok "reg" (reg_add "ProxyServer" "REG_SZ" server);
  output "reg" (reg_add "ProxyOverride" "REG_SZ" "localhost;127.*;<local>");;
  ok_en ← run_ok "reg" (reg_add "ProxyEnable" "REG_DWORD" "1");
  if negb (ok_srv && ok_en) then mret noop
  else
    refresh_wininet;;
    mret (mkProxyGuard [("reg", reg_add "ProxyEnable" "REG_DWORD" "0"); ("powershell", powershell_refresh)]).

(** The system the program was built for. *)
Inductive target_os := Macos | Linux | Windows | Other.
Definition enable_impl (t : target_os) (host port : string) : eff Sys Error SysProxyGuard :=
  match t with
  | Macos => enable_macos host port
  | Linux => enable_linux host port
  | Windows => enable_windows host port
  | Other => mret noop
  end.
Definition enable (t : target_os) (listen : string) : eff Sys Error SysProxyGuard :=
  let '(host, port) := host_port listen in enable_impl t host port.
End SysProxy.

Example host_port_ex :
  map host_port ["127.0.0.1:7890"; "0.0.0.0:80"; "[::]:80"; "[::1]:80"; "9"; ":81"] =
  [("127.0.0.1", "7890"); ("127.0.0.1", "80"); ("127.0.0.1", "80"); ("::1", "80"); ("9", "7890"); ("127.0.0.1", "81")].
Proof. vm_compute. reflexivity. Qed.

(** The device [en1] is found in the block of [en10]; the network set-up is more careful. *)
Definition two_services : bytes :=
  to_b "(1) Dock" ++ [Byte.x0a] ++ to_b "(Hardware Port: Dock, Device: en10)" ++ [Byte.x0a] ++
  to_b "(2) Wi-Fi" ++ [Byte.x0a] ++ to_b "(Hardware Port: Wi-Fi, Device: en1)".
Example wrong_service :
  service_named "en1" None (lines two_services) = Some "Dock" /\
  NetCfg.MacOs.service_of "en1" None (lines two_services) = Some "Wi-Fi".
Proof. split; vm_compute; reflexivity. Qed.

(** ** What is switched on and off *)

(** The switches: web and secure web proxy of a service, the GNOME mode, the WinINet flag. *)
Definition same (a b : string) : bool := bool_decide (a = b).
Definition switch (c : command) : option (list string * bool) :=
  match c.2 with
  | verb :: svc :: rest =>
    if same verb "-setwebproxy" then Some (["web"; svc], true)
    else if same verb "-setsecurewebproxy" then Some (["secure"; svc], true)
    else if same verb "-setwebproxystate" then Some (["web"; svc], false)
    else if same verb "-setsecurewebproxystate" then Some (["secure"; svc], false)
    else if same verb "set" && same (nth 0 rest "") "mode" then Some (["mode"], negb (same (nth 1 rest "") "none"))
    else if same verb "add" && same (nth 1 rest "") "ProxyEnable" then Some (["WinINet"], negb (same (nth 5 rest "") "0"))
    else None
  | _ => None
  end.
(** Switches turned on by commands that worked; switches an undo list turns off. *)
Definition turns_on (e : entry) : option (list string) :=
  match e with
  | ERun cmd args r =>
    match switch (cmd, args) with
    | Some (k, true) => if succeeded r then Some k else None
    | _ => None
    end
  | _ => None
  end.
Definition turned_on (l : log) : list (list string) := omap turns_on l.
Definition turns_off (u : list command) : list (list string) :=
  omap (fun c => match switch c with Some (k, false) => Some k | _ => None end) u.
(** A command that writes a setting and did not work. *)
Definition failure (e : entry) : bool := match e with ERun _ _ r => negb (succeeded r) | _ => false end.

Section Undone.
Context `{Os}.

(** What [enable] comes to: a guard [g] after the new entries [l]. *)
Definition covered (l : log) (g : SysProxyGuard) : Prop :=
  match proxy_undo g with
  | [] => turned_on l = [] \/ existsb failure l = true
  | u => turned_on l ⊆ turns_off u
  end.

Lemma turned_on_app a b : turned_on (a ++ b) = turned_on a ++ turned_on b.
Proof. apply omap_app. Qed.
Lemma cmd_text_log cmd args s : switch (cmd, args) = None ->
  exists s' r e, cmd_text cmd args s = (s', Ok r) /\ sy_log s' = sy_log s ++ [e] /\ turns_on e = None.
Proof. intros Hq. eexists _, _, _. split; [reflexivity|split; [reflexivity|]]. cbn. by rewrite Hq. Qed.
Lemma proxy_service_log s :
  exists s' svc l, proxy_service s = (s', Ok svc) /\ sy_log s' = sy_log s ++ l /\ turned_on l = [].
Proof.
  unfold proxy_service. destruct (cmd_text_log "route" ["-n"; "get"; "default"] s) as (s1 & t1 & e1 & E1 & L1 & T1); [done|].
  unfold mbind at 1, eff_bind at 1. rewrite E1. destruct (_ ≫= _) as [dev|].
  - destruct (cmd_text_log "networksetup" ["-listnetworkserviceorder"] s1) as (s2 & t2 & e2 & E2 & L2 & T2); [done|].
    unfold mbind at 1, eff_bind at 1. rewrite E2. eexists _, _, [e1; e2]. split; [reflexivity|].
    rewrite L2, L1, <- app_assoc. split; [done|]. cbn. by rewrite T1, T2.
  - eexists _, _, [e1]. split; [reflexivity|]. split; [done|]. cbn. by rewrite T1.
Qed.
Lemma ok_then {A} cmd args (f : bool -> eff Sys Error A) s :
  (b ← run_ok cmd args; f b) s = f (succeeded (os_run (sy_log s) cmd args)) (logged cmd args s).
Proof. done. Qed.
Lemma output_then {A} cmd args (m : eff Sys Error A) s : (output cmd args;; m) s = m (logged cmd args s).
Proof. done. Qed.

Lemma macos_covered host port s :
  exists s' g l, enable_macos host port s = (s', Ok g) /\ sy_log s' = sy_log s ++ l /\ covered l g.
Proof.
  unfold enable_macos. destruct (proxy_service_log s) as (s1 & svc & l & E & L & T).
  unfold mbind at 1, eff_bind at 1. rewrite E.
  destruct svc as [svc|]; [|exists s1, noop, l; split; [done|split; [done|by left]]].
  rewrite !ok_then. set (a1 := ["-setwebproxy"; svc; host; port]). set (a2 := ["-setsecurewebproxy"; svc; host; port]).
  set (s2 := logged "networksetup" a1 s1).
  set (x1 := os_run (sy_log s1) "networksetup" a1). set (x2 := os_run (sy_log s2) "networksetup" a2).
  assert (forall g, covered (l ++ [ERun "networksetup" a1 x1; ERun "networksetup" a2 x2]) g ->
    exists s' g' l', (logged "networksetup" a2 s2, Ok g : Result SysProxyGuard) = (s', Ok g') /\ sy_log s' = sy_log s ++ l' /\ covered l' g')
    as Hg.
  { intros g Hc. eexists _, g, _. split; [reflexivity|split; [|exact Hc]].
    change (sy_log (logged "networksetup" a2 s2))
      with ((sy_log s1 ++ [ERun "networksetup" a1 x1]) ++ [ERun "networksetup" a2 x2]). by rewrite L, <- !app_assoc. }
  unfold covered in Hg. rewrite existsb_app, turned_on_app, T in Hg. cbn in Hg.
  destruct (succeeded x1), (succeeded x2); cbn in Hg |- *; apply Hg; cbn; rewrite ?orb_true_r; solve [set_solver | auto].
Qed.
Lemma linux_covered host port s :
  exists s' g l, enable_linux host port s = (s', Ok g) /\ sy_log s' = sy_log s ++ l /\ covered l g /\
    (proxy_undo g = [] -> turned_on l = []).
Proof.
  unfold enable_linux. rewrite ok_then.
  set (a1 := ["set"; gnome_base; "mode"; "manual"]). set (x1 := os_run (sy_log s) "gsettings" a1).
  destruct (succeeded x1) eqn:E1; cbn [negb].
  - eexists _, _, ([ERun "gsettings" a1 x1] ++ _). split; [reflexivity|].
    split; [cbn; rewrite <- !app_assoc; reflexivity|]. split; [|done]. unfold covered. cbn. rewrite E1. cbn. set_solver.
  - exists (logged "gsettings" a1 s), noop, [ERun "gsettings" a1 x1]. split; [done|split; [done|]].
    unfold covered. cbn. rewrite E1. cbn. auto.
Qed.
Lemma windows_covered host port s :
  exists s' g l, enable_windows host port s = (s', Ok g) /\ sy_log s' = sy_log s ++ l /\ covered l g.
Proof.
  unfold enable_windows. cbv zeta. rewrite ok_then, output_then, ok_then.
  set (a1 := reg_add "ProxyServer" _ _). set (a2 := reg_add "ProxyOverride" _ _). set (a3 := reg_add "ProxyEnable" _ _).
  set (s1 := logged "reg" a1 s). set (s2 := logged "reg" a2 s1).
  set (x1 := os_run (sy_log s) "reg" a1). set (x2 := os_run (sy_log s1) "reg" a2). set (x3 := os_run (sy_log s2) "reg" a3).
  set (s3 := logged "reg" a3 s2). set (e1 := ERun "reg" a1 x1). set (e2 := ERun "reg" a2 x2). set (e3 := ERun "reg" a3 x3).
  assert (sy_log s3 = sy_log s ++ [e1; e2; e3]) as L.
  { change (sy_log s3) with (((sy_log s ++ [e1]) ++ [e2]) ++ [e3]). by rewrite <- !app_assoc. }
  destruct (succeeded x1) eqn:E1, (succeeded x3) eqn:E3; cbn [andb negb].
  { set (x4 := os_run (sy_log s3) "powershell" powershell_refresh).
    eexists _, _, ([e1; e2; e3] ++ [ERun "powershell" powershell_refresh x4]). split; [reflexivity|].
    split; [|unfold covered; cbn; rewrite E3; cbn; set_solver].
    change (sy_log s3 ++ [ERun "powershell" powershell_refresh x4] = sy_log s ++ [e1; e2; e3] ++ [ERun "powershell" powershell_refresh x4]).
    by rewrite L, app_assoc. }
  all: exists s3, noop, [e1; e2; e3]; split; [done|split; [done|]]; unfold covered; cbn; rewrite E1, E3; cbn;
    rewrite ?orb_true_r; auto.
Qed.

(** The system proxy switch, on each system and for any listener address.  [enable]
    never fails; when it reports success (a guard with commands) every switch it turned on
    is turned off by one of them; when it gives up, either it turned nothing on or one of
    its commands failed.  On Linux giving up always means nothing was turned on; on macOS
    and Windows the switch that did work then stays on, for nobody turns it off. *)
Theorem proxy_switched_off t listen s :
  let '(s', r) := enable t listen s in
  exists g l, r = Ok g /\ sy_log s' = sy_log s ++ l /\ covered l g /\
    (t = Linux -> proxy_undo g = [] -> turned_on l = []).
Proof.
  unfold enable. destruct (host_port listen) as [host port]. destruct t; cbn [enable_impl].
  - destruct (macos_covered host port s) as (s' & g & l & -> & L & C). by exists g, l.
  - destruct (linux_covered host port s) as (s' & g & l & -> & L & C & N). by exists g, l.
  - destruct (windows_covered host port s) as (s' & g & l & -> & L & C). by exists g, l.
  - exists noop, []. rewrite app_nil_r. by repeat split; left.
Qed.
End Undone.

(** The secure proxy cannot be set: the web proxy stays on and the guard is empty. *)
Module HalfBox.
#[export] Instance half_os : Os := {|
  os_run _ cmd args :=
    match args with
    | "-setsecurewebproxy" :: _ => Exited false [] []
    | "-listnetworkserviceorder" :: _ => Exited true two_services []
    | _ => Exited true (to_b "interface: en1") []
    end;
  os_read _ _ := Ok [];
  os_write _ _ _ := Ok tt;
  os_lookup _ _ _ := Ok [];
|}.
End HalfBox.
Lemma partial_proxy_left_on :
  let '(s, r) := enable (H := HalfBox.half_os) Macos "127.0.0.1:7890" (sys_new []) in
  r = Ok noop /\ turned_on (sy_log s) = [["web"; "Dock"]] /\ drop_proxy (H := HalfBox.half_os) noop s = (s, Ok tt).
Proof. vm_compute. repeat split; reflexivity. Qed.
