(* ===== verification/Tun.v ===== *)
(** The virtual network device (core/core/src/tun.rs): how it is opened, and how packets
    are read and written on Linux, macOS and Windows.  System calls are answers the
    operating system gives; a descriptor table shows what stays open. *)
From Stdlib Require Import Strings.String.
From S2P Require Import Prelude Net Text Core.

Record TunConfig := mkTunConfig { tc_name : string; tc_ip : Ipv4Addr; tc_prefix : Z; tc_mtu : Z }.
Record TunDevice := mkTun { dev_fd : Z; dev_name : string }.

(** The descriptors the process holds. *)
Abbreviation fds := (list Z).
Definition opened (r : result IoError Z) : eff fds Error Z := fun s =>
  match r with Ok fd => (fd :: s, Ok fd) | Err e => (s, Err (Io e)) end.
Definition close (fd : Z) : eff fds Error unit := fun s => (List.filter (fun x => negb (x =? fd)) s, Ok tt).
(** A call on a descriptor that is closed by hand when the call fails. *)
Definition or_close {A} (fd : Z) (r : result IoError A) : eff fds Error A :=
  match r with Ok a => mret a | Err e => close fd;; throw (Io e) end.
(** [AsyncFd::new] takes the descriptor and drops it, hence closes it, when it fails. *)
Definition async_fd (fd : Z) (r : result IoError unit) : eff fds Error unit := or_close fd r.

(** The bytes before the first zero, if there is one. *)
Fixpoint until_nul (s : bytes) : option bytes :=
  match s with
  | [] => None
  | c :: r => if bool_decide (c = Byte.x00) then Some [] else cons c <$> until_nul r
  end.

(** ** One attempt to read or write: the descriptor is awaited, then the call is made *)
Record attempt (A : Type) := mkAttempt { ready : result IoError unit; call : result IoError A }.
Arguments mkAttempt {A} _ _.
Arguments ready {A} _.
Arguments call {A} _.
(** The loop over attempts: again on [WouldBlock]; [None] is a loop still waiting. *)
Fixpoint retry {A} (l : list (attempt A)) : option (Result A) :=
  match l with
  | [] => None
  | a :: r =>
    match ready a with
    | Err e => Some (Err (Io e))
    | Ok _ =>
      match call a with
      | Ok x => Some (Ok x)
      | Err e => if bool_decide (io_kind e = WouldBlock) then retry r else Some (Err (Io e))
      end
    end
  end.

Module LinuxTun.
Definition IFF_TUN : Z := 1.
Definition IFF_NO_PI : Z := 4096.
(** [struct ifreq]: the name cut to fifteen bytes, then the flags; [ne_bytes] is the
    byte order of the machine. *)
Definition ifreq (ne_bytes : Z -> bytes) (name : bytes) : bytes :=
  let n := take 15 name in
  n ++ repeat Byte.x00 (16 - length n) ++ ne_bytes (Z.lor IFF_TUN IFF_NO_PI) ++ repeat Byte.x00 22.
Definition create (ne_bytes : Z -> bytes) (open_tun : result IoError Z) (ioctl : bytes -> result IoError bytes)
    (async : result IoError unit) (cfg : TunConfig) : eff fds Error TunDevice :=
  fd ← opened open_tun;
  ifr ← or_close fd (ioctl (ifreq ne_bytes (to_b (tc_name cfg))));
  let field := take 16 ifr in
  let name := str (from_utf8_lossy (default field (until_nul field))) in
  async_fd fd async;;
  mret (mkTun fd name).
(** What a read answers is at most the buffer. *)
Definition recv (l : list (attempt bytes)) : option (Result bytes) := retry l.
Definition send (pkt : bytes) (kernel : bytes -> list (attempt Z)) : option (Result Z) := retry (kernel pkt).
End LinuxTun.

Module MacTun.
Definition AF_INET : Z := 2.
Definition AF_INET6 : Z := 30.
Definition create (socket : result IoError Z) (ctl_id : result IoError Z) (connect : Z -> result IoError unit)
    (ifname : option bytes) (async : result IoError unit) : eff fds Error TunDevice :=
  fd ← opened socket;
  id ← or_close fd ctl_id;
  or_close fd (connect id);;
  let name := match ifname with
              | Some b => str (from_utf8_lossy (default [] (until_nul b)))
              | None => "utun"
              end in
  async_fd fd async;;
  mret (mkTun fd name).
(** A packet behind the four bytes of its address family. *)
Definition family (pkt : bytes) : Z :=
  match pkt with
  | c :: _ => if Z.shiftr (Z_of_byte c) 4 =? 6 then AF_INET6 else AF_INET
  | [] => AF_INET
  end.
Definition framed (pkt : bytes) : bytes := be_split 4 (family pkt) ++ pkt.
Definition recv (l : list (attempt bytes)) : option (Result bytes) :=
  r ← retry l;
  Some match r with
       | Ok tmp => if (length tmp <? 4)%nat then Ok [] else Ok (drop 4 tmp)
       | Err e => Err e
       end.
Definition send (pkt : bytes) (kernel : bytes -> list (attempt Z)) : option (Result Z) :=
  match pkt with
  | [] => Some (Ok 0)
  | _ =>
    r ← retry (kernel (framed pkt));
    Some match r with Ok n => Ok (Z.max 0 (n - 4)) | Err e => Err e end
  end.
End MacTun.

Module WinTun.
Definition QUEUE : nat := 1024.
Definition name_of (cfg : TunConfig) : string := if bool_decide (tc_name cfg = "") then "et0" else tc_name cfg.
(** [queue] is what the reader thread has passed on; [None] waits for it. *)
Definition recv (buf : Z) (queue : list bytes) (stopped : bool) : option (Result bytes * list bytes) :=
  match queue with
  | pkt :: q =>
    if buf <? Z.of_nat (length pkt) then
      Some (Err (Transport ("tun recv: packet " +:+ pretty (Z.of_nat (length pkt)) +:+ " bytes exceeds buffer " +:+ pretty buf)), q)
    else Some (Ok pkt, q)
  | [] => if stopped then Some (Err (Transport "wintun reader stopped"), []) else None
  end.
(** [alloc] is the ring's answer; the result holds what was put into the ring. *)
Definition send (pkt : bytes) (alloc : Z -> result string unit) : Result Z * list bytes :=
  let n := Z.of_nat (length pkt) in
  if 65535 <? n then (Err (Transport ("wintun send: packet " +:+ pretty n +:+ " bytes exceeds 65535")), [])
  else match alloc n with
       | Err e => (Err (Transport ("wintun alloc: " +:+ e)), [])
       | Ok _ => (Ok n, [pkt])
       end.
End WinTun.

(** ** Theorems *)

Lemma filter_fresh fd s : fd ∉ s -> List.filter (fun x => negb (x =? fd)) s = s.
Proof.
  induction s as [|x s IH]; cbn; [done|]. rewrite not_elem_of_cons. intros [Hne Hs].
  destruct (Z.eqb_spec x fd) as [->|_]; [done|]. cbn. by rewrite IH.
Qed.
Lemma close_fresh fd s : fd ∉ s -> close fd (fd :: s) = (s, Ok tt).
Proof. intros Hf. unfold close. cbn. rewrite Z.eqb_refl. cbn. by rewrite filter_fresh. Qed.

(** What is done with an open descriptor keeps it, or closes it and fails. *)
Definition guarded {A} (fd : Z) (s : fds) (m : eff fds Error A) : Prop :=
  match m (fd :: s) with (s', Ok _) => s' = fd :: s | (s', Err _) => s' = s end.
Lemma guarded_ret {A} fd s (a : A) : guarded fd s (mret a).
Proof. done. Qed.
Lemma guarded_or_close {A} fd s (r : result IoError A) : fd ∉ s -> guarded fd s (or_close fd r).
Proof.
  intros Hf. unfold guarded. destruct r as [a|e]; cbn [or_close]; [done|].
  unfold mbind, eff_bind. by rewrite close_fresh.
Qed.
Lemma guarded_bind {A B} fd s (m : eff fds Error A) (f : A -> eff fds Error B) :
  guarded fd s m -> (forall a, guarded fd s (f a)) -> guarded fd s (m ≫= f).
Proof.
  unfold guarded, mbind, eff_bind. intros Hm Hf. destruct (m (fd :: s)) as [s' [a|e]]; [subst; apply Hf|done].
Qed.
Lemma opened_guarded {A} fd s (f : Z -> eff fds Error A) : guarded fd s (f fd) ->
  match (opened (Ok fd) ≫= f) s with (s', Ok _) => s' = fd :: s | (s', Err _) => s' = s end.
Proof. done. Qed.

(** Opening the device leaks no descriptor.  On Linux and macOS, whatever the system
    answers: if [create] fails, at whichever call, the process holds the descriptors it
    held before; if it succeeds it holds exactly one more, the one of the device. *)
Theorem tun_create_no_leak s ne open_tun ioctl async cfg socket ctl_id connect ifname :
  (forall fd, open_tun = Ok fd -> fd ∉ s) -> (forall fd, socket = Ok fd -> fd ∉ s) ->
  (match LinuxTun.create ne open_tun ioctl async cfg s with
   | (s', Ok d) => s' = dev_fd d :: s /\ open_tun = Ok (dev_fd d)
   | (s', Err _) => s' = s
   end) /\
  (match MacTun.create socket ctl_id connect ifname async s with
   | (s', Ok d) => s' = dev_fd d :: s /\ socket = Ok (dev_fd d)
   | (s', Err _) => s' = s
   end).
Proof.
  intros Hl Hm. split.
  - destruct open_tun as [fd|e]; [|done]. specialize (Hl fd eq_refl). unfold LinuxTun.create.
    unfold opened, mbind at 1, eff_bind at 1.
    cbv zeta. match goal with |- match ?m (fd :: s) with _ => _ end => set (rest := m) end.
    assert (guarded fd s rest) as Hg.
    { apply guarded_bind; [by apply guarded_or_close|intros ifr].
      apply guarded_bind; [by apply guarded_or_close|done]. }
    unfold guarded in Hg. destruct (rest (fd :: s)) as [s' [d|e]] eqn:E; [|done]. subst s'.
    apply eff_bind_ok in E as (s1 & ifr & _ & E). by apply eff_bind_ok in E as (s2 & [] & _ & [= _ <-]).
  - destruct socket as [fd|e]; [|done]. specialize (Hm fd eq_refl). unfold MacTun.create.
    unfold opened, mbind at 1, eff_bind at 1. cbv zeta. match goal with |- match ?m (fd :: s) with _ => _ end => set (rest := m) end.
    assert (guarded fd s rest) as Hg.
    { apply guarded_bind; [by apply guarded_or_close|intros id].
      apply guarded_bind; [by apply guarded_or_close|intros _].
      apply guarded_bind; [by apply guarded_or_close|done]. }
    unfold guarded in Hg. destruct (rest (fd :: s)) as [s' [d|e]] eqn:E; [|done]. subst s'.
    apply eff_bind_ok in E as (s1 & id & _ & E). apply eff_bind_ok in E as (s2 & [] & _ & E).
    by apply eff_bind_ok in E as (s3 & [] & _ & [= _ <-]).
Qed.
Lemma tun_create_no_leak_witness :
  (LinuxTun.create (fun _ => [Byte.x01; Byte.x10]) (Ok 7) (fun _ => Err (mkIo OtherKind "busy")) (Ok tt)
    (mkTunConfig "et0" (Ipv4 Byte.x0a Byte.x00 Byte.x00 Byte.x01) 24 1400) [3]).1 = [3].
Proof.
  destruct (tun_create_no_leak [3] (fun _ => [Byte.x01; Byte.x10]) (Ok 7) (fun _ => Err (mkIo OtherKind "busy")) (Ok tt)
    (mkTunConfig "et0" (Ipv4 Byte.x0a Byte.x00 Byte.x00 Byte.x01) 24 1400) (Err (mkIo OtherKind "")) (Ok 1) (fun _ => Ok tt) None)
    as [Hl _]; [intros fd [= <-]; set_solver|done|]. exact Hl.
Defined.

(** The macOS framing is invisible.  A packet that is sent reaches the kernel behind
    the big-endian address family its version nibble calls for; when the kernel hands the
    same bytes back, [recv] returns the packet; and a complete write reports the length of
    the packet, as on the other systems. *)
Theorem utun_round_trip pkt rest :
  pkt <> [] ->
  MacTun.recv (mkAttempt (Ok tt) (Ok (MacTun.framed pkt)) :: rest) = Some (Ok pkt) /\
  MacTun.send pkt (fun b => [mkAttempt (Ok tt) (Ok (Z.of_nat (length b)))]) = Some (Ok (Z.of_nat (length pkt))) /\
  be_combine (take 4 (MacTun.framed pkt)) =
    (if Z.shiftr (Z_of_byte (hd Byte.x00 pkt)) 4 =? 6 then MacTun.AF_INET6 else MacTun.AF_INET).
Proof.
  intros Hne. unfold MacTun.recv, MacTun.send, MacTun.framed.
  assert (length (be_split 4 (MacTun.family pkt)) = 4%nat) as L by apply length_be_split.
  cbn [retry ready call]. split; [|split].
  - cbn. by rewrite length_app, L.
  - destruct pkt as [|c pkt]; [done|]. cbn [retry ready call]. rewrite length_app, L. cbn. do 2 f_equal. lia.
  - rewrite take_app_length' by done. rewrite be_combine_split. destruct pkt as [|c pkt]; [done|]. cbn [hd MacTun.family].
    by destruct (_ =? 6).
Qed.
Lemma utun_round_trip_witness :
  MacTun.recv [mkAttempt (Ok tt) (Ok (MacTun.framed [Byte.x60; Byte.x01]))] = Some (Ok [Byte.x60; Byte.x01]).
Proof. by apply (utun_round_trip [Byte.x60; Byte.x01] []). Defined.
