(* ===== verification/Wintun.v ===== *)
(** The Windows device (core/core/src/tun.rs, Wintun): finding the library, opening the
    adapter, and the device with its reader thread as a transition system, from the first
    packet to the drop. *)
From S2P Require Import Prelude Calls Net Text Core Mpsc Tun.

(** ** Opening *)

(** What is asked of the library; an error is its text. *)
Inductive wcall :=
  | WExists (path : string)
  | WLoadPath (path : string)
  | WLoad
  | WOpen (name : string)
  | WCreate (name kind : string)
  | WSession (ring : Z).
Class Wintun := {
  wt_exists : list wcall -> string -> bool;
  wt_load_path : list wcall -> string -> result string unit;
  wt_load : list wcall -> result string unit;
  wt_open : list wcall -> string -> result string unit;
  wt_create : list wcall -> string -> result string unit;
  wt_session : list wcall -> result string unit;
}.

(** Wintun's ring, and the queue between the reader thread and [recv]. *)
Definition RING_CAPACITY : Z := 4 * 1024 * 1024.

Section Open.
Context `{Wintun}.
Abbreviation weff := (eff (list wcall) Error).

(** The two places next to the executable; a copy that does not load is passed over. *)
Definition candidates (dir : string) : list string := [dir +:+ "\wintun.dll"; dir +:+ "\resources\wintun.dll"].
Fixpoint try_candidates (cands : list string) : weff bool :=
  match cands with
  | [] => mret false
  | c :: r =>
    there ← ask (WExists c) (fun h => Ok (wt_exists h c));
    if there : bool then
      loaded ← ask (WLoadPath c) (fun h => Ok (is_ok (wt_load_path h c)));
      if loaded : bool then mret true else try_candidates r
    else try_candidates r
  end.
(** [exe_dir] is the directory of the executable, if the system names one. *)
Definition load_wintun (exe_dir : option string) : weff unit :=
  found ← match exe_dir with Some dir => try_candidates (candidates dir) | None => mret false end;
  if found : bool then mret tt
  else ask WLoad (fun h => map_err (fun e => Transport ("load wintun.dll: " +:+ e +:+
         ". Put wintun.dll (amd64, from https://www.wintun.net) next to the EntroTunnel executable.")) (wt_load h)).

Definition open_adapter (name : string) : weff unit :=
  there ← ask (WOpen name) (fun h => Ok (is_ok (wt_open h name)));
  if there : bool then mret tt
  else ask (WCreate name "EntroTunnel") (fun h =>
         map_err (fun e => Transport ("create wintun adapter: " +:+ e)) (wt_create h name)).
(** The work of the blocking task, and what becomes of a panic in it, after so many calls. *)
Definition wintun_setup (exe_dir : option string) (name : string) : weff unit :=
  load_wintun exe_dir;;
  open_adapter name;;
  ask (WSession RING_CAPACITY) (fun h =>
    map_err (fun e => Transport ("start wintun session: " +:+ e)) (wt_session h)).
Definition wintun_create (exe_dir : option string) (panic : option (nat * string)) (cfg : TunConfig) : weff string :=
  let name := WinTun.name_of cfg in
  match panic with
  | Some (k, e) => cut k (Transport ("wintun setup join: " +:+ e)) (wintun_setup exe_dir name)
  | None => wintun_setup exe_dir name
  end;;
  mret name.
End Open.

(** ** The device and its reader thread *)

(** The thread waits for the adapter, or for room in the queue, or is over. *)
Inductive RState := RReceiving | RSending (p : bytes) | ROver.
(** The owner uses the device, waits for the thread inside its destructor, or has dropped it. *)
Inductive Owner := Using | Joining | Gone.
#[export] Instance rstate_eq_dec : EqDecision RState.
Proof. solve_decision. Defined.
#[export] Instance owner_eq_dec : EqDecision Owner.
Proof. solve_decision. Defined.

Record Device := mkDevice {
  wd_queue : mpsc bytes;
  wd_reader : RState;
  wd_shut : bool;
  wd_owner : Owner;
  wd_arrived : list bytes;
  wd_taken : list bytes;
  wd_ring : list bytes;
}.
(** The last three fields are the history: packets the adapter handed over, packets
    [recv] took out of the queue, and packets put into the ring. *)
Definition device_start : Device := mkDevice (mpsc_new (Z.of_nat WinTun.QUEUE)) RReceiving false Using [] [] [].
Definition set_reader (m : mpsc bytes) (r : RState) (arrived : list bytes) (d : Device) : Device :=
  mkDevice m r (wd_shut d) (wd_owner d) arrived (wd_taken d) (wd_ring d).
Definition set_owner (m : mpsc bytes) (shut : bool) (o : Owner) (d : Device) : Device :=
  mkDevice m (wd_reader d) shut o (wd_arrived d) (wd_taken d) (wd_ring d).
Definition set_io (m : mpsc bytes) (taken ring : list bytes) (d : Device) : Device :=
  mkDevice m (wd_reader d) (wd_shut d) (wd_owner d) (wd_arrived d) taken ring.

Inductive wevent :=
  | WArrive (p : bytes)
  | WPush
  | WEnd
  | WRecv (buf : Z)
  | WSend (p : bytes) (room : bool)
  | WDrop
  | WJoined.

(** The thread: [receive_blocking], then [blocking_send], which waits for room and fails
    once the receiver is gone. *)
Definition reader_step (e : wevent) (d : Device) : option Device :=
  match e, wd_reader d with
  | WArrive p, RReceiving => Some (set_reader (wd_queue d) (RSending p) (wd_arrived d ++ [p]) d)
  | WEnd, RReceiving => Some (set_reader (wd_queue d) ROver (wd_arrived d) d)
  | WPush, RSending p =>
    if send_ready (wd_queue d) then
      let (m, sent) := try_send p (wd_queue d) in
      Some (set_reader m (if sent : bool then RReceiving else ROver) (wd_arrived d) d)
    else None
  | _, _ => None
  end.
Definition reader_over (d : Device) : bool := bool_decide (wd_reader d = ROver).

(** [recv] and [send]; [recv] of an empty queue waits unless the thread, the only sender,
    is over. *)
Definition device_recv (buf : Z) (d : Device) : option (Result bytes * Device) :=
  '(r, _) ← WinTun.recv buf (items (wd_queue d)) (reader_over d);
  Some (r, match pop (wd_queue d) with
           | Some (p, m) => set_io m (wd_taken d ++ [p]) (wd_ring d) d
           | None => d
           end).
Definition device_send (p : bytes) (room : bool) (d : Device) : Result Z * Device :=
  let (r, put) := WinTun.send p (fun _ => if room then Ok tt else Err "ring full") in
  (r, set_io (wd_queue d) (wd_taken d) (wd_ring d ++ put) d).

(** The destructor: shut the session down, join the thread; only then are the fields
    dropped, the receiving half of the queue among them. *)
Definition owner_step (e : wevent) (d : Device) : option Device :=
  match e, wd_owner d with
  | WRecv buf, Using => snd <$> device_recv buf d
  | WSend p room, Using => Some (device_send p room d).2
  | WDrop, Using => Some (set_owner (wd_queue d) true Joining d)
  | WJoined, Joining => if reader_over d then Some (set_owner (close_rx (wd_queue d)) (wd_shut d) Gone d) else None
  | _, _ => None
  end.
Definition wstep (d : Device) (e : wevent) : option Device :=
  match e with
  | WArrive _ | WPush | WEnd => reader_step e d
  | _ => owner_step e d
  end.
Abbreviation wrun := (runs wstep).

(** ** The invariant *)

Definition in_flight (r : RState) : list bytes := match r with RSending p => [p] | _ => [] end.
(** The thread waits for room in a full queue. *)
Definition stuck (d : Device) : Prop :=
  (exists p, wd_reader d = RSending p) /\ queue_len (wd_queue d) = Z.of_nat WinTun.QUEUE.

Record device_inv (d : Device) : Prop := {
  wi_cap : mpsc_ok (Z.of_nat WinTun.QUEUE) (wd_queue d);
  wi_open : wd_owner d <> Gone -> rx_open (wd_queue d) = true /\
    wd_arrived d = wd_taken d ++ items (wd_queue d) ++ in_flight (wd_reader d);
  wi_gone : wd_owner d = Gone -> wd_reader d = ROver;
  wi_prefix : wd_taken d `prefix_of` wd_arrived d;
  wi_ring : Forall (fun p => Z.of_nat (length p) <= 65535) (wd_ring d);
}.

Lemma device_start_inv : device_inv device_start.
Proof. by split. Qed.

Lemma reader_step_inv d e d' : device_inv d -> reader_step e d = Some d' -> device_inv d'.
Proof.
  intros [Hc Ho Hg Hp Hr] E. unfold reader_step in E.
  assert (wd_owner d <> Gone \/ wd_reader d = ROver) as [Hu|Hu] by (destruct (wd_owner d); eauto); [|by rewrite Hu in E; destruct e].
  destruct (Ho Hu) as [Hopen Ha].
  destruct e; try done; destruct (wd_reader d) as [|q|] eqn:Er; try done.
  - injection E as <-. split; cbn; try done; [intros _|by eapply prefix_app_r].
    split; [done|]. rewrite Ha. cbn. by rewrite app_nil_r, <- app_assoc.
  - destruct (send_ready (wd_queue d)) eqn:Es; [|done]. unfold send_ready in Es. rewrite Hopen in Es. cbn in Es.
    pose proof (try_send_ok (Z.of_nat WinTun.QUEUE) q _ Hc) as Hc'. unfold try_send in E, Hc'. rewrite Hopen, Es in E, Hc'. cbn in E, Hc'.
    injection E as <-. split; cbn; try done. intros _. split; [done|]. rewrite Ha. cbn. by rewrite app_nil_r.
  - injection E as <-. by split.
Qed.
Lemma owner_step_inv d e d' : device_inv d -> owner_step e d = Some d' -> device_inv d'.
Proof.
  intros [Hc Ho Hg Hp Hr] E. unfold owner_step in E.
  destruct e; try done; destruct (wd_owner d) eqn:Eo; try done.
  - destruct (Ho ltac:(done)) as [Hopen Ha]. unfold device_recv in E. destruct (WinTun.recv _ _ _) as [[r q]|]; [|done].
    cbn in E. injection E as <-. destruct (pop (wd_queue d)) as [[p m]|] eqn:Ep; [|split; try done; by rewrite ?Eo].
    pose proof (pop_ok _ _ _ _ Hc Ep) as Hc'. unfold pop in Ep. destruct (items (wd_queue d)) as [|x l] eqn:Ei; [done|].
    injection Ep as -> <-. split; cbn; try done; [| by rewrite Eo |].
    + intros _. split; [done|]. rewrite Ha. by rewrite <- app_assoc.
    + rewrite Ha. exists (l ++ in_flight (wd_reader d)). by rewrite <- app_assoc.
  - injection E as <-. unfold device_send, WinTun.send. destruct (Z.ltb_spec 65535 (Z.of_nat (length p))).
    + cbn. split; cbn; try done; try by rewrite Eo. by rewrite app_nil_r.
    + destruct room; cbn; split; cbn; try done; try (by rewrite Eo); [|by rewrite app_nil_r].
      apply Forall_app. split; [done|]. by repeat constructor.
  - injection E as <-. split; cbn; try done. intros _. by apply Ho.
  - unfold reader_over in E. case_bool_decide as Hd; [|done]. injection E as <-. split; cbn; try done.
    by apply close_rx_ok.
Qed.
Lemma wstep_inv d e d' : device_inv d -> wstep d e = Some d' -> device_inv d'.
Proof. intros Hi. unfold wstep. destruct e; eauto using reader_step_inv, owner_step_inv. Qed.
Lemma wrun_inv es d d' : device_inv d -> wrun es d = Some d' -> device_inv d'.
Proof. apply (runs_inv wstep device_inv), wstep_inv. Qed.

(** Single steps. *)
Lemma wstep_arrive d p : wd_reader d = RReceiving ->
  wstep d (WArrive p) = Some (set_reader (wd_queue d) (RSending p) (wd_arrived d ++ [p]) d).
Proof. intros Hr. cbn. by rewrite Hr. Qed.
Lemma wstep_push d p : wd_reader d = RSending p -> rx_open (wd_queue d) = true -> queue_len (wd_queue d) < cap (wd_queue d) ->
  wstep d WPush = Some (set_reader (mkMpsc (items (wd_queue d) ++ [p]) (cap (wd_queue d)) true) RReceiving (wd_arrived d) d).
Proof. intros Hr Ho Hq%Z.ltb_lt. cbn. unfold send_ready, try_send. by rewrite Hr, Ho, Hq. Qed.
Lemma wstep_end d : wd_reader d = RReceiving -> wstep d WEnd = Some (set_reader (wd_queue d) ROver (wd_arrived d) d).
Proof. intros Hr. cbn. by rewrite Hr. Qed.
Lemma wstep_joined d : wd_reader d = ROver -> wd_owner d = Joining ->
  wstep d WJoined = Some (set_owner (close_rx (wd_queue d)) (wd_shut d) Gone d).
Proof. intros Hr Ho. cbn. unfold reader_over. by rewrite Hr, Ho. Qed.

(** A burst of packets that nobody reads fills the queue. *)
Fixpoint burst (n : nat) (p : bytes) : list wevent :=
  match n with O => [] | S n => WArrive p :: WPush :: burst n p end.
Lemma wrun_burst n p d :
  wd_reader d = RReceiving -> rx_open (wd_queue d) = true -> queue_len (wd_queue d) + Z.of_nat n <= cap (wd_queue d) ->
  exists d', wrun (burst n p) d = Some d' /\ wd_reader d' = RReceiving /\ wd_owner d' = wd_owner d /\
    rx_open (wd_queue d') = true /\ cap (wd_queue d') = cap (wd_queue d) /\
    queue_len (wd_queue d') = queue_len (wd_queue d) + Z.of_nat n.
Proof.
  revert d. induction n as [|n IH]; intros d Hr Ho Hq; cbn [burst].
  { exists d. split_and!; try done. lia. }
  rewrite runs_cons, wstep_arrive by done. cbn [mbind option_bind].
  rewrite runs_cons, (wstep_push _ p) by (cbn; try done; lia). cbn [mbind option_bind].
  destruct (IH (set_reader (mkMpsc (items (wd_queue d) ++ [p]) (cap (wd_queue d)) true) RReceiving
    (wd_arrived d ++ [p]) (set_reader (wd_queue d) (RSending p) (wd_arrived d ++ [p]) d)))
    as (d' & Hd & H1 & H2 & H3 & H4 & H5); cbn; try done.
  - unfold queue_len in *. cbn. rewrite length_app. cbn. lia.
  - exists d'. split_and!; [exact Hd|done..|]. rewrite H5. unfold queue_len. cbn. rewrite length_app. cbn. lia.
Qed.

(** ** Properties *)

(** Packets come out of the Windows device in the order they came in.  However the
    adapter, the reader thread and the owner proceed: what [recv] took out so far is a
    prefix of what the adapter handed over; until the device is gone, the rest is in the
    queue, in order, with at most one packet in the thread's hands; the queue holds at most
    1024 packets; nothing longer than 65535 bytes is put into the ring; and once the
    destructor has returned, the thread is over. *)
Theorem wintun_in_order (es : list wevent) (d : Device) : wrun es device_start = Some d ->
  wd_taken d `prefix_of` wd_arrived d /\
  (wd_owner d <> Gone -> wd_arrived d = wd_taken d ++ items (wd_queue d) ++ in_flight (wd_reader d)) /\
  queue_len (wd_queue d) <= 1024 /\
  Forall (fun p => Z.of_nat (length p) <= 65535) (wd_ring d) /\
  (wd_owner d = Gone -> wd_reader d = ROver).
Proof.
  intros E. destruct (wrun_inv _ _ _ device_start_inv E) as [[_ Hc] Ho Hg Hp Hr].
  split_and!; [done| |exact Hc|done|done]. intros Hu. by apply Ho.
Qed.

(** What is left to do for the destructor while the thread takes no other packet. *)
Definition is_arrival (e : wevent) : bool := match e with WArrive _ => true | _ => false end.
Definition left_over (d : Device) : nat :=
  match wd_owner d, wd_reader d with
  | Gone, _ => 0 | _, ROver => 1 | _, RReceiving => 2 | _, RSending _ => 3
  end.
Record closing (d : Device) : Prop := {
  cl_inv : device_inv d;
  cl_owner : wd_owner d <> Using;
  cl_free : ~ stuck d;
}.
Lemma stuck_stays d e : device_inv d -> wd_owner d = Joining -> stuck d -> wstep d e = None.
Proof.
  intros [[Hc _] Hx _ _ _] Ho [[p Hr] Hq]. destruct (Hx ltac:(congruence)) as [Hopen _].
  unfold wstep, reader_step, owner_step, reader_over. rewrite Ho, Hr.
  destruct e; try done. unfold send_ready. by rewrite Hopen, Hc, Hq, Z.ltb_irrefl.
Qed.
Lemma closing_step d e d' : closing d -> is_arrival e = false -> wstep d e = Some d' ->
  closing d' /\ (left_over d' < left_over d)%nat.
Proof.
  intros [Hi Ho Hf] He E. pose proof (wstep_inv _ _ _ Hi E) as Hi'. pose proof (wi_gone _ Hi) as Hg.
  assert (wd_owner d' <> Using /\ ~ stuck d' /\ (left_over d' < left_over d)%nat) as (? & ? & ?); [|by split].
  unfold wstep, reader_step, owner_step, left_over, stuck in *.
  destruct e; try done; destruct (wd_owner d) eqn:Eo; try done; destruct (wd_reader d) eqn:Er; try done; try (by specialize (Hg eq_refl)).
  - destruct (send_ready _); [|done]. destruct (try_send _ _) as [m [|]]; injection E as <-; cbn; rewrite Eo;
      (split_and!; [done|by intros [[? ?] _]|lia]).
  - injection E as <-. cbn. rewrite Eo. split_and!; [done|by intros [[? ?] _]|lia].
  - unfold reader_over in E. by rewrite Er in E.
  - unfold reader_over in E. by rewrite Er in E.
  - unfold reader_over in E. rewrite Er in E. injection E as <-. cbn. rewrite Er. split_and!; [done|by intros [[? ?] _]|lia].
Qed.
Lemma closing_next d : closing d -> wd_owner d <> Gone -> exists e, is_arrival e = false /\ is_Some (wstep d e).
Proof.
  intros [[[Hc Hq] Hx _ _ _] Ho Hf] Hg. destruct (Hx Hg) as [Hopen _].
  destruct (wd_reader d) as [|p|] eqn:Er.
  - exists WEnd. split; [done|]. rewrite wstep_end by done. by eexists.
  - exists WPush. split; [done|]. rewrite (wstep_push _ p); [by eexists|done|done|].
    destruct (Z.eq_dec (queue_len (wd_queue d)) (cap (wd_queue d))); [|lia]. destruct Hf. split; [by eexists|congruence].
  - exists WJoined. split; [done|]. destruct (wd_owner d) eqn:Eo; [done| |done]. rewrite wstep_joined by done. by eexists.
Qed.
Lemma closing_run fs d d' : closing d -> forallb (fun e => negb (is_arrival e)) fs = true -> wrun fs d = Some d' ->
  closing d' /\ (length fs + left_over d' <= left_over d)%nat.
Proof.
  revert d. induction fs as [|e fs IH]; cbn [runs forallb]; intros d Hc Hn Hr.
  - injection Hr as <-. split; [done|cbn; lia].
  - apply andb_true_iff in Hn as [He%negb_true_iff Hn]. apply bind_Some in Hr as (d1 & E & Hr).
    destruct (closing_step _ _ _ Hc He E) as [Hc1 Hl]. destruct (IH _ Hc1 Hn Hr). split; [done|cbn; lia].
Qed.
(** A queue filled to the last place, the thread still waiting for the adapter. *)
Lemma queue_filled : exists d, wrun (burst WinTun.QUEUE [Byte.x45]) device_start = Some d /\ wd_reader d = RReceiving /\
  wd_owner d = Using /\ queue_len (wd_queue d) = Z.of_nat WinTun.QUEUE.
Proof.
  destruct (wrun_burst WinTun.QUEUE [Byte.x45] device_start) as (d & Hd & Hr & Ho & Hx & Hc & Hq); [done..|].
  exists d. split_and!; [done..|]. exact Hq.
Qed.

(** C39. Dropping the Windows device can hang.  The destructor joins the reader thread while
    it still owns the receiving half of the queue.  If at that time the thread waits for
    room in a full queue, no step of the device is possible any more.  Otherwise, as long
    as the thread takes no other packet from the adapter, the device makes at most three
    more steps, and always has one to make until the destructor has returned.  Both ways
    of hanging are reachable: 1025 packets that nobody reads and then the drop; and 1024,
    the drop, and one more packet that the thread takes before it sees the shutdown. *)
Theorem wintun_drop_hangs :
  (forall es d, wrun es device_start = Some d -> wd_owner d = Joining ->
     (stuck d -> forall e, wstep d e = None) /\
     (~ stuck d -> forall fs d', wrun fs d = Some d' -> forallb (fun e => negb (is_arrival e)) fs = true ->
        (length fs <= 3)%nat /\ (wd_owner d' = Gone \/ exists e, is_arrival e = false /\ is_Some (wstep d' e)))) /\
  (exists d, wrun (burst WinTun.QUEUE [Byte.x45] ++ [WArrive [Byte.x45]; WDrop]) device_start = Some d /\
     wd_owner d = Joining /\ stuck d) /\
  (exists d d', wrun (burst WinTun.QUEUE [Byte.x45] ++ [WDrop]) device_start = Some d /\ wd_owner d = Joining /\ ~ stuck d /\
     wstep d (WArrive [Byte.x45]) = Some d' /\ wd_owner d' = Joining /\ stuck d').
Proof.
  split_and!.
  - intros es d E Ho. pose proof (wrun_inv _ _ _ device_start_inv E) as Hi. split; [intros Hs e; by apply stuck_stays|].
    intros Hs fs d' Hr Hn. assert (closing d) as Hc by (split; [done|by rewrite Ho|done]).
    destruct (closing_run _ _ _ Hc Hn Hr) as [Hc' Hl]. split.
    + unfold left_over in Hl. rewrite Ho in Hl. destruct (wd_reader d); lia.
    + destruct (decide (wd_owner d' = Gone)); [by left|right]. by apply closing_next.
  - destruct queue_filled as (d & Hd & Hr & Ho & Hq).
    rewrite runs_app, Hd. cbn [mbind option_bind]. rewrite runs_cons, wstep_arrive by done. cbn [mbind option_bind].
    rewrite runs_cons. unfold wstep, owner_step. cbn [wd_owner set_reader]. rewrite Ho. eexists. split; [reflexivity|]. split; [done|].
    split; [by eexists|]. cbn. exact Hq.
  - destruct queue_filled as (d & Hd & Hr & Ho & Hq).
    exists (set_owner (wd_queue d) true Joining d). eexists. rewrite runs_app, Hd. cbn [mbind option_bind].
    rewrite runs_cons. assert (wstep d WDrop = Some (set_owner (wd_queue d) true Joining d)) as -> by (cbn; by rewrite Ho).
    split; [reflexivity|]. split; [done|].
    split; [intros [[p Hp] _]; cbn in Hp; congruence|]. rewrite wstep_arrive by done. split; [reflexivity|].
    split; [done|]. split; [by eexists|exact Hq].
Qed.

(** Loading the library fails only when every copy next to the executable was passed over
    and the system's own search, asked last, fails too. *)
Theorem load_fails_last `{Wintun} exe_dir h h' e : load_wintun exe_dir h = (h', Err e) ->
  exists h0, h' = h0 ++ [WLoad] /\ is_ok (wt_load h0) = false.
Proof.
  unfold load_wintun, mbind, eff_bind. intros E.
  destruct (match exe_dir with Some dir => try_candidates (candidates dir) | None => mret false end h) as [h1 [found|x]] eqn:Ec.
  - destruct found; [done|]. injection E as <- E. exists h1. split; [done|]. by destruct (wt_load h1).
  - exfalso. clear E. destruct exe_dir as [dir|]; [|done]. revert h Ec. generalize (candidates dir). intros l.
    induction l as [|c l IH]; intros h; cbn [try_candidates]; [done|].
    unfold mbind, eff_bind, ask. destruct (wt_exists h c); [|apply IH].
    destruct (is_ok _); [done|apply IH].
Qed.

(** ** Witnesses *)

Module WintunDemo.
Definition pkt (b : byte) : bytes := [b].
Definition events : list wevent :=
  [WArrive (pkt Byte.x01); WPush; WArrive (pkt Byte.x02); WRecv 1500; WPush; WArrive (pkt Byte.x03); WRecv 1500].
#[export] Instance wintun : Wintun := {|
  wt_exists _ p := String.eqb p "C:\et\wintun.dll";
  wt_load_path _ _ := Err "bad image";
  wt_load _ := Err "not found";
  wt_open _ _ := Err "no adapter";
  wt_create _ _ := Ok tt;
  wt_session _ := Ok tt;
|}.
End WintunDemo.

Lemma wintun_in_order_witness : exists d, wrun WintunDemo.events device_start = Some d /\
  wd_taken d = [[Byte.x01]; [Byte.x02]] /\ wd_taken d `prefix_of` wd_arrived d.
Proof.
  eexists. split; [vm_compute; reflexivity|]. split; [reflexivity|].
  apply (wintun_in_order WintunDemo.events). vm_compute. reflexivity.
Defined.

Lemma load_fails_last_witness : exists h0,
  (load_wintun (H := WintunDemo.wintun) (Some "C:\et") []).1 = h0 ++ [WLoad] /\
  is_ok (wt_load (Wintun := WintunDemo.wintun) h0) = false.
Proof.
  eapply (load_fails_last (H := WintunDemo.wintun) (Some "C:\et") []). vm_compute. reflexivity.
Defined.

Example create_demo :
  (wintun_create (H := WintunDemo.wintun) None None (mkTunConfig "" (Ipv4 Byte.x0a Byte.x00 Byte.x00 Byte.x02) 24 1400) []).1 =
    [WLoad] /\
  (load_wintun (H := WintunDemo.wintun) (Some "C:\et") []).1 =
    [WExists "C:\et\wintun.dll"; WLoadPath "C:\et\wintun.dll"; WExists "C:\et\resources\wintun.dll"; WLoad].
Proof. vm_compute. by split. Qed.
