(* ===== verification/LogRing.v ===== *)
(** The captured log of the graphical clients (desktop/client-tauri/src-tauri/src/main.rs
    and mobile/android/rust/src/lib.rs): a writer per event, and a ring of the last lines. *)
From S2P Require Import Prelude Net Text.

Definition LOG_CAP : nat := 2000.

(** The writer accumulates; its destructor splits what it has into lines. *)
Definition log_write (acc b : bytes) : bytes * nat := (acc ++ b, length b).
Definition log_push (q : list bytes) (line : bytes) : list bytes :=
  let q := if (LOG_CAP <=? length q)%nat then drop 1 q else q in
  q ++ [line].
Fixpoint log_lines (q : list bytes) (ls : list bytes) : list bytes :=
  match ls with
  | [] => q
  | l :: r =>
    let line := trim_end l in
    if bool_decide (line = []) then log_lines q r else log_lines (log_push q line) r
  end.
Definition log_drop (acc : bytes) (q : list bytes) : list bytes :=
  match acc with [] => q | _ => log_lines q (split_byte Byte.x0a (from_utf8_lossy acc)) end.
(** One event: the pieces written, then the destructor. *)
Definition log_event (pieces : list bytes) (q : list bytes) : list bytes :=
  log_drop (foldl (fun acc b => (log_write acc b).1) [] pieces) q.
Definition get_logs (q : list bytes) : list bytes := q.

(** ** The window *)

(** The last [n] elements. *)
Definition last_n {A} (n : nat) (l : list A) : list A := drop (length l - n) l.
Lemma last_n_short {A} n (l : list A) : (length l <= n)%nat -> last_n n l = l.
Proof. intros. unfold last_n. by replace (length l - n)%nat with 0%nat by lia. Qed.
Lemma length_last_n {A} n (l : list A) : (length (last_n n l) <= n)%nat.
Proof. unfold last_n. rewrite length_drop. lia. Qed.
Lemma last_n_snoc {A} n (l : list A) x : (0 < n)%nat -> last_n n (last_n n l ++ [x]) = last_n n (l ++ [x]).
Proof.
  intros Hn. unfold last_n. rewrite !length_app, length_drop. cbn [length].
  rewrite !drop_app, length_drop, drop_drop. f_equal; f_equal; lia.
Qed.
Lemma log_push_last q line : (length q <= LOG_CAP)%nat -> log_push q line = last_n LOG_CAP (q ++ [line]).
Proof.
  unfold log_push, last_n. intros Hq. rewrite length_app. cbn [length].
  destruct (Nat.leb_spec LOG_CAP (length q)); [|by replace (length q + 1 - LOG_CAP)%nat with 0%nat by lia].
  replace (length q + 1 - LOG_CAP)%nat with 1%nat by lia.
  destruct q; [cbn in *; unfold LOG_CAP in *; lia|done].
Qed.
Definition kept_lines (acc : bytes) : list bytes :=
  List.filter (fun l => negb (bool_decide (l = []))) (map trim_end (split_byte Byte.x0a (from_utf8_lossy acc))).
Lemma log_lines_last ls q : (length q <= LOG_CAP)%nat ->
  log_lines q ls = last_n LOG_CAP (q ++ List.filter (fun l => negb (bool_decide (l = []))) (map trim_end ls)).
Proof.
  revert q. induction ls as [|l ls IH]; intros q Hq; cbn [log_lines map List.filter].
  { by rewrite app_nil_r, last_n_short. }
  destruct (bool_decide_reflect (trim_end l = [])) as [E|E]; cbn [negb]; [by apply IH|].
  rewrite IH by (rewrite log_push_last by done; apply length_last_n).
  rewrite log_push_last by done. generalize (List.filter (fun l => negb (bool_decide (l = []))) (map trim_end ls)).
  intros new. change (trim_end l :: new) with ([trim_end l] ++ new). rewrite (app_assoc q).
  generalize (q ++ [trim_end l]). intros w. clear. revert w.
  induction new as [|x new IHn] using rev_ind; intros w.
  - rewrite !app_nil_r. apply last_n_short, length_last_n.
  - rewrite !app_assoc. rewrite <- (last_n_snoc LOG_CAP (last_n LOG_CAP w ++ new)) by (unfold LOG_CAP; lia).
    rewrite IHn. apply last_n_snoc. unfold LOG_CAP. lia.
Qed.

(** The log shown to the user is the last 2000 non-empty lines, in order, whatever was
    logged and however the events were cut into writes: an event adds the non-empty lines
    of its text, stripped at the end, and the oldest lines go first; the ring never holds
    more than 2000. *)
Theorem log_window pieces q :
  (length q <= LOG_CAP)%nat ->
  log_event pieces q = last_n LOG_CAP (q ++ kept_lines (mjoin pieces)) /\
  (length (log_event pieces q) <= LOG_CAP)%nat.
Proof.
  intros Hq.
  assert (foldl (fun acc b => (log_write acc b).1) [] pieces = mjoin pieces) as E.
  { assert (forall acc, foldl (fun acc b => (log_write acc b).1) acc pieces = acc ++ mjoin pieces) as Ha; [|apply Ha].
    induction pieces as [|p pieces IH]; intros acc; cbn; [by rewrite app_nil_r|]. by rewrite IH, app_assoc. }
  assert (log_event pieces q = last_n LOG_CAP (q ++ kept_lines (mjoin pieces))) as Ev; [|split; [done|]].
  - unfold log_event. rewrite E. unfold log_drop. destruct (mjoin pieces) as [|c acc] eqn:Ea; [|by apply log_lines_last].
    unfold kept_lines. cbn. by rewrite app_nil_r, last_n_short.
  - rewrite Ev. apply length_last_n.
Qed.
Lemma log_window_witness :
  (0 <= LOG_CAP)%nat /\ log_event [to_b "a"; to_b "b "; Byte.x0a :: to_b "c"] [] = [to_b "ab"; to_b "c"].
Proof.
  split; [unfold LOG_CAP; lia|].
  destruct (log_window [to_b "a"; to_b "b "; Byte.x0a :: to_b "c"] []) as [E _]; [unfold LOG_CAP; cbn; lia|].
  rewrite E. vm_compute. reflexivity.
Defined.

(** ** The Android library's log *)

(** The same writer without a console, over a ring of the whole process that the status
    screen reads as one text. *)
Module AndroidLog.
Definition LOG_CAP : nat := 2000.
Definition write (acc b : bytes) : bytes * nat := (acc ++ b, length b).
Definition push_line (q : list bytes) (raw : bytes) : list bytes :=
  let line := trim_end raw in
  if bool_decide (line = []) then q else (if (LOG_CAP <=? length q)%nat then drop 1 q else q) ++ [line].
Definition writer_drop (acc : bytes) (q : list bytes) : list bytes :=
  if bool_decide (acc = []) then q else foldl push_line q (split_byte Byte.x0a (from_utf8_lossy acc)).
Fixpoint join_bytes (sep : bytes) (ls : list bytes) : bytes :=
  match ls with [] => [] | [l] => l | l :: r => l ++ sep ++ join_bytes sep r end.
Definition logs_text (q : list bytes) : bytes := join_bytes [Byte.x0a] q.
(** What the process logged, an event as the pieces written. *)
Definition logged (events : list (list bytes)) : list bytes :=
  foldl (fun q pieces => writer_drop (foldl (fun acc b => (write acc b).1) [] pieces) q) [] events.

(** *** One line stays one line *)

Definition one_line (l : bytes) : Prop := Byte.x0a ∉ l.
Lemma strip_char_suffix set s r : strip_char set s = Some r -> r `suffix_of` s.
Proof.
  induction set as [|p set IH]; cbn [strip_char]; [done|].
  destruct (strip_prefix p s) as [x|] eqn:E; [|done]. intros [= <-]. apply strip_prefix_Some in E as ->. by exists p.
Qed.
Lemma trim_front_suffix set f s : trim_front_fuel set f s `suffix_of` s.
Proof.
  revert s. induction f as [|f IH]; intros s; cbn [trim_front_fuel]; [done|].
  destruct (strip_char set s) as [r|] eqn:E; [|done]. etrans; [apply IH|]. by eapply strip_char_suffix.
Qed.
Lemma trim_end_one_line l : one_line l -> one_line (trim_end l).
Proof.
  unfold one_line, trim_end. intros Hl Hx. apply Hl. apply list_elem_of_In, in_rev, list_elem_of_In in Hx.
  destruct (trim_front_suffix (map (@rev byte) ws_chars) (length l) (rev l)) as [k E].
  apply list_elem_of_In, in_rev, list_elem_of_In. rewrite E. apply elem_of_app. by right.
Qed.
Lemma split_one_line c s : Forall (fun l => c ∉ l) (split_byte c s).
Proof.
  induction s as [|d s IH]; cbn [split_byte]; [by constructor; [set_solver|]|].
  destruct (decide (c = d)) as [->|Hd]; [by constructor; [set_solver|]|].
  destruct (split_byte c s) as [|p ps]; [by constructor; [set_solver|]|].
  apply Forall_cons in IH as [Hp Hps]. constructor; [set_solver|done].
Qed.
Lemma split_plain c l : c ∉ l -> split_byte c l = [l].
Proof.
  induction l as [|d l IH]; cbn [split_byte]; [done|]. intros [Hd Hl]%not_elem_of_cons.
  rewrite decide_False by done. by rewrite IH.
Qed.
Lemma split_app c l s : c ∉ l -> split_byte c (l ++ c :: s) = l :: split_byte c s.
Proof.
  induction l as [|d l IH]; cbn [split_byte app]; [by rewrite decide_True|]. intros [Hd Hl]%not_elem_of_cons.
  rewrite decide_False by done. by rewrite IH.
Qed.
Lemma split_join q : q <> [] -> Forall one_line q -> split_byte Byte.x0a (logs_text q) = q.
Proof.
  unfold logs_text. induction q as [|l q IH]; [done|]. intros _ [Hl Hq]%Forall_cons.
  destruct q as [|m q]; [by apply split_plain|].
  change (join_bytes _ _) with (l ++ Byte.x0a :: join_bytes [Byte.x0a] (m :: q)).
  rewrite split_app by done. by rewrite IH.
Qed.

Lemma push_lines_eq q ls : foldl push_line q ls = log_lines q ls.
Proof.
  revert q. induction ls as [|l ls IH]; intros q; cbn [foldl log_lines]; [done|]. rewrite IH. unfold push_line, log_push.
  by destruct (bool_decide _).
Qed.
Lemma writer_drop_eq acc q : writer_drop acc q = log_drop acc q.
Proof. unfold writer_drop, log_drop. destruct acc; [done|]. by rewrite bool_decide_false, push_lines_eq. Qed.
Lemma push_one_line q ls : Forall one_line q -> Forall one_line ls -> Forall one_line (foldl push_line q ls).
Proof.
  revert q. induction ls as [|l ls IH]; intros q Hq Hl; cbn [foldl]; [done|]. apply Forall_cons in Hl as [Hl Hls].
  apply IH; [|done]. unfold push_line. destruct (bool_decide _); [done|]. apply Forall_app. split.
  - destruct (_ <=? _)%nat; [by apply Forall_drop|done].
  - constructor; [by apply trim_end_one_line|done].
Qed.
Lemma logged_one_line events : Forall one_line (logged events).
Proof.
  unfold logged. assert (forall q, Forall one_line q -> Forall one_line
    (foldl (fun q pieces => writer_drop (foldl (fun acc b => (write acc b).1) [] pieces) q) q events)) as Ha; [|by apply Ha].
  induction events as [|p events IH]; intros q Hq; cbn [foldl]; [done|]. apply IH. unfold writer_drop.
  destruct (bool_decide _); [done|]. apply push_one_line; [done|apply split_one_line].
Qed.

(** The text the Android screen gets holds exactly the lines: split at the newlines it is
    the ring again (a line never brings a newline of its own into it), and the ring is the
    one the desktop client would hold after the same events. *)
Theorem logs_text_lines (events : list (list bytes)) :
  logged events = foldl (fun q pieces => log_event pieces q) [] events /\
  (logged events <> [] -> split_byte Byte.x0a (logs_text (logged events)) = logged events) /\
  (logged events = [] -> logs_text (logged events) = []).
Proof.
  split; [|split; [intros Hn; by apply split_join, logged_one_line|by intros ->]].
  unfold logged. generalize (@nil bytes). induction events as [|p events IH]; intros q; cbn [foldl]; [done|].
  by rewrite IH, writer_drop_eq.
Qed.
End AndroidLog.
