(* ===== verification/Profiles.v ===== *)
(** The profile and settings store of the desktop client
    (desktop/client-tauri/src-tauri/src/main.rs, "persistence" and the profile commands).
    The errors of these commands are texts. *)
From Stdlib Require Import Strings.String.
From S2P Require Import Prelude Net Text Core Mpsc ClientConfig.

Record LocalState := mkLocal { settings : ConnectionSettings; active_profile : option string }.
Definition default_local : LocalState := mkLocal default_settings None.

(** The JSON files: a list of profiles, the older list of configurations, local state. *)
Class StoreFormats := {
  profiles_print : list Profile -> result string bytes;
  profiles_parse : bytes -> result string (list Profile);
  legacy_parse : bytes -> result string (list ClientConfig);
  local_print : LocalState -> result string bytes;
  local_parse : bytes -> result string LocalState;
}.
(** What is printed parses back. *)
Class StoreFormatsLaws `{StoreFormats} := {
  profiles_round_trip : forall l t, profiles_print l = Ok t -> profiles_parse t = Ok l;
  local_round_trip : forall s t, local_print s = Ok t -> local_parse t = Ok s;
}.
(** [char::is_alphanumeric] outside ASCII. *)
Class Unicode := { alphanumeric : bytes -> bool }.

Abbreviation cmd := (eff Disk string).
Definition io_write (path : string) (t : bytes) : cmd unit := with_err io_text (write_file path t).

Section Store.
Context `{StoreFormats} `{ClientFormats} `{Base64} `{Unicode}.
Context (profiles_path settings_path : string).

Definition slim (c : ClientConfig) : Profile := mkProfile (cc_name c) (cc_selected c) (servers c).
Definition parse_profiles (text : bytes) : list Profile :=
  match profiles_parse text with
  | Ok l => l
  | Err _ => match legacy_parse text with Ok old => map slim old | Err _ => [] end
  end.
Definition load_profiles (d : Disk) : list Profile :=
  match read_file profiles_path d with Ok text => parse_profiles text | Err _ => [] end.
Definition save_profiles (l : list Profile) : cmd unit :=
  text ← lift_result (profiles_print l); io_write profiles_path text.
Definition load_state (d : Disk) : LocalState :=
  match read_file settings_path d with
  | Ok t => match local_parse t with Ok s => s | Err _ => default_local end
  | Err _ => default_local
  end.
Definition save_state (s : LocalState) : cmd unit :=
  text ← lift_result (local_print s); io_write settings_path text.

(** Reading the store from a command. *)
Definition stored : cmd (list Profile) := fun d => (d, Ok (load_profiles d)).
Definition local : cmd LocalState := fun d => (d, Ok (load_state d)).

Definition taken (name : string) (l : list Profile) : bool := existsb (fun p => String.eqb (pr_name p) name) l.
Definition numbered (name : string) (n : Z) : string := name +:+ " (" +:+ pretty n +:+ ")".
(** The unbounded loop of the source; one candidate more than profiles is enough. *)
Fixpoint first_free (fuel : nat) (name : string) (n : Z) (l : list Profile) : option string :=
  match fuel with
  | O => None
  | S f => if taken (numbered name n) l then first_free f name (n + 1) l else Some (numbered name n)
  end.
Definition unique_name (name : string) (l : list Profile) : string :=
  if taken name l then default name (first_free (S (length l)) name 2 l) else name.

(** Replace the first profile of that name, else append. *)
Fixpoint upsert (p : Profile) (l : list Profile) : list Profile :=
  match l with
  | [] => [p]
  | q :: r => if String.eqb (pr_name q) (pr_name p) then p :: r else q :: upsert p r
  end.
Definition find_profile (name : string) (l : list Profile) : result string Profile :=
  ok_or ("profile '" +:+ name +:+ "' not found") (List.find (fun p => String.eqb (pr_name p) name) l).

Definition list_profiles : cmd (list Profile) := stored.
Definition upsert_profile (p : Profile) : cmd unit := l ← stored; save_profiles (upsert p l).
Definition remove_profile (name : string) : cmd unit :=
  l ← stored; save_profiles (List.filter (fun p => negb (String.eqb (pr_name p) name)) l).
Definition blank (s : string) : bool := bool_decide (trim (to_b s) = []).
Definition import_profile (link : bytes) : cmd Profile :=
  p ← lift_result (map_err show_error (decode_link link));
  match pr_servers p with
  | [] => throw "the imported config has no servers"
  | _ =>
    let name := if blank (pr_name p) then "imported" else pr_name p in
    l ← stored;
    let p := mkProfile (unique_name name l) (pr_selected p) (pr_servers p) in
    save_profiles (l ++ [p]);;
    mret p
  end.
Definition export_profile (name : string) : cmd bytes :=
  l ← stored; p ← lift_result (find_profile name l); mret (encode_link p).

(** A file name from a profile name: other characters become dashes. *)
Definition ascii_alnum (c : byte) : bool :=
  in_range 48 57 c || in_range 65 90 c || in_range 97 122 c.
Fixpoint safe_chars (fuel : nat) (s : bytes) : bytes :=
  match fuel, s with
  | S f, c :: _ =>
    let n := match utf8_len s with Ok n => n | Err n => n end in
    let ch := take n s in
    let keep := match ch with
                | [c] => ascii_alnum c || bool_decide (c = Byte.x2d) || bool_decide (c = Byte.x5f)
                | _ => alphanumeric ch
                end in
    (if keep then ch else [Byte.x2d]) ++ safe_chars f (drop n s)
  | _, _ => []
  end.
Definition safe_name (name : string) : string :=
  match safe_chars (length (to_b name)) (to_b name) with [] => "profile" | s => str s end.

(** [dir] is the configuration directory, [mkdir] whether it could be created. *)
Definition export_profile_toml (dir : string) (mkdir : result string unit) (name : string) : cmd (string * bytes) :=
  l ← stored;
  p ← lift_result (find_profile name l);
  s ← local;
  toml ← lift_result (map_err show_error (to_toml (compose p (settings s))));
  lift_result mkdir;;
  let path := dir +:+ "/" +:+ safe_name name +:+ ".toml" in
  io_write path toml;;
  mret (path, toml).
Definition export_all_profiles (dir : string) (mkdir : result string unit) : cmd (string * bytes) :=
  l ← stored;
  toml ← lift_result (map_err show_error (bundle_to_toml l));
  lift_result mkdir;;
  let path := dir +:+ "/all-profiles.toml" in
  io_write path toml;;
  mret (path, toml).

Definition importable (p : Profile) : bool :=
  negb (blank (pr_name p)) && negb (bool_decide (pr_servers p = [])).
(** The list after the valid entries, and how many there were. *)
Fixpoint merge_profiles (parsed : list Profile) (l : list Profile) (n : Z) : list Profile * Z :=
  match parsed with
  | [] => (l, n)
  | p :: r => if importable p then merge_profiles r (upsert p l) (n + 1) else merge_profiles r l n
  end.
Definition import_profiles_toml (toml : bytes) : cmd Z :=
  parsed ← lift_result (map_err show_error (profiles_from_toml toml));
  l ← stored;
  let '(l', n) := merge_profiles parsed l 0 in
  if n =? 0 then throw "no valid profiles found in the TOML"
  else save_profiles l';; mret n.

Definition get_state : cmd LocalState := local.
Definition set_settings (s : ConnectionSettings) : cmd unit :=
  st ← local; save_state (mkLocal s (active_profile st)).
Definition set_active_profile (name : option string) : cmd unit :=
  st ← local; save_state (mkLocal (settings st) name).
End Store.

(** ** Unique names *)

Definition names (l : list Profile) : list string := map pr_name l.
Lemma taken_spec name l : taken name l = true <-> name ∈ names l.
Proof.
  unfold taken, names. rewrite existsb_exists, list_elem_of_fmap. split.
  - intros (p & Hp & <-%String.eqb_eq). exists p. split; [done|by apply list_elem_of_In].
  - intros (p & -> & Hp). exists p. split; [by apply list_elem_of_In|apply String.eqb_refl].
Qed.
Lemma string_app_tail a b c : a +:+ c = b +:+ c -> a = b.
Proof.
  revert b. induction a as [|x a IH]; intros [|y b]; cbn; try done.
  - intros E. apply (f_equal String.length) in E. rewrite !string_length_app in E. cbn in E. lia.
  - intros E. apply (f_equal String.length) in E. rewrite !string_length_app in E. cbn in E. lia.
  - rewrite !string_app_cons. intros [= -> E]. f_equal. by apply IH.
Qed.
Lemma numbered_inj name n m : numbered name n = numbered name m -> n = m.
Proof.
  unfold numbered. intros E. apply (inj (String.append name)) in E. apply (inj (String.append " (")) in E.
  apply string_app_tail in E. by apply (inj pretty).
Qed.
(** The candidates tried are all taken, so there are no more of them than profiles. *)
Lemma first_free_none fuel name n l : first_free fuel name n l = None ->
  Forall (fun i => numbered name i ∈ names l) (seqZ n (Z.of_nat fuel)).
Proof.
  revert n. induction fuel as [|f IH]; intros n; [by constructor|]. cbn [first_free].
  destruct (taken (numbered name n) l) eqn:E; [|done]. intros Hf. rewrite seqZ_cons by lia.
  constructor; [by apply taken_spec|]. replace (Z.pred (Z.of_nat (S f))) with (Z.of_nat f) by lia. by apply IH.
Qed.
Lemma first_free_some fuel name n l r : first_free fuel name n l = Some r -> r ∉ names l.
Proof.
  revert n. induction fuel as [|f IH]; intros n; [done|]. cbn [first_free].
  destruct (taken (numbered name n) l) eqn:E; [apply IH|]. intros [= <-] Hin. apply taken_spec in Hin. congruence.
Qed.
Lemma first_free_enough name n l : exists r, first_free (S (length l)) name n l = Some r.
Proof.
  destruct (first_free (S (length l)) name n l) as [r|] eqn:E; [by exists r|]. exfalso.
  apply first_free_none in E.
  assert (length (map (numbered name) (seqZ n (Z.of_nat (S (length l))))) <= length (names l))%nat as Hle.
  { apply NoDup_incl_length.
    - apply NoDup_ListNoDup. apply NoDup_fmap_2; [|apply NoDup_seqZ]. intros i j. apply numbered_inj.
    - intros x Hx. apply list_elem_of_In in Hx. apply list_elem_of_fmap in Hx as (i & -> & Hi).
      apply list_elem_of_In. by eapply Forall_forall in E. }
  unfold names in Hle. rewrite !length_map, length_seqZ in Hle. lia.
Qed.
Lemma unique_fresh name l : unique_name name l ∉ names l.
Proof.
  unfold unique_name. destruct (taken name l) eqn:E.
  - destruct (first_free_enough name 2 l) as [r Er]. rewrite Er. by eapply first_free_some.
  - intros Hin%taken_spec. congruence.
Qed.
(** The search for a free name ends and finds one: an imported profile gets its own
    name if no stored profile has it, and otherwise the name followed by the first free
    number from 2; either way no stored profile has the name it gets, however many numbered
    copies there are. *)
Theorem unique_name_fresh name l :
  unique_name name l ∉ names l /\
  (name ∉ names l -> unique_name name l = name) /\
  (name ∈ names l -> exists n, 2 <= n /\ unique_name name l = numbered name n /\
     forall m, 2 <= m < n -> numbered name m ∈ names l).
Proof.
  split; [apply unique_fresh|]. unfold unique_name. destruct (taken name l) eqn:E.
  - apply taken_spec in E. destruct (first_free_enough name 2 l) as [r Er]. rewrite Er. cbn [default].
    split; [done|]. intros _.
    assert (forall fuel k, first_free fuel name k l = Some r ->
      exists n, k <= n /\ r = numbered name n /\ forall m, k <= m < n -> numbered name m ∈ names l) as Hs.
    { induction fuel as [|f IH]; intros k; [done|]. cbn [first_free].
      destruct (taken (numbered name k) l) eqn:Ek; [|intros [= <-]; exists k; repeat split; lia].
      intros (n & Hn & -> & Hm)%IH. exists n. split; [lia|split; [done|]]. intros m Hr.
      destruct (decide (m = k)) as [->|]; [by apply taken_spec|apply Hm; lia]. }
    by apply Hs in Er.
  - split; [done|]. intros Hin. apply taken_spec in Hin. congruence.
Qed.
Lemma unique_name_fresh_witness :
  unique_name "a" [mkProfile "a" None []; mkProfile "a (2)" None []] = "a (3)" /\
  unique_name "a" [mkProfile "a" None []; mkProfile "a (2)" None []] ∉ ["a"; "a (2)"].
Proof.
  split; [vm_compute; reflexivity|]. apply (unique_name_fresh "a" [mkProfile "a" None []; mkProfile "a (2)" None []]).
Defined.

(** ** Edits of the store *)

Lemma upsert_names p l : names (upsert p l) = if taken (pr_name p) l then names l else names l ++ [pr_name p].
Proof.
  induction l as [|q l IH]; [done|]. cbn. destruct (String.eqb_spec (pr_name q) (pr_name p)) as [E|E]; cbn.
  - by rewrite E.
  - change (map pr_name (upsert p l)) with (names (upsert p l)). rewrite IH. unfold taken. by destruct (existsb _ l).
Qed.
Lemma upsert_NoDup p l : NoDup (names l) -> NoDup (names (upsert p l)).
Proof.
  intros Hl. rewrite upsert_names. destruct (taken (pr_name p) l) eqn:E; [done|].
  apply NoDup_app. split; [done|split; [|apply NoDup_singleton]].
  intros x Hx ->%list_elem_of_singleton. apply taken_spec in Hx. congruence.
Qed.
Lemma merge_NoDup parsed l n : NoDup (names l) -> NoDup (names (merge_profiles parsed l n).1).
Proof.
  revert l n. induction parsed as [|p parsed IH]; intros l n Hl; [done|]. cbn.
  destruct (importable p); [|by apply IH]. by apply IH, upsert_NoDup.
Qed.
Lemma filter_NoDup f l : NoDup (names l) -> NoDup (names (List.filter f l)).
Proof.
  unfold names. induction l as [|p l IH]; cbn; [done|]. intros [Hp Hl]%NoDup_cons.
  destruct (f p); cbn; [|by apply IH]. apply NoDup_cons. split; [|by apply IH].
  intros Hin. apply Hp. apply list_elem_of_fmap in Hin as (q & -> & Hq). apply list_elem_of_fmap. exists q.
  split; [done|]. apply list_elem_of_In in Hq. apply filter_In in Hq as [Hq _]. by apply list_elem_of_In.
Qed.

Inductive edit := Upsert (p : Profile) | Remove (name : string) | Import (link : bytes) | ImportToml (toml : bytes).

Section Edits.
Context `{StoreFormatsLaws} `{ClientFormats} `{Base64}.
Context (profiles_path : string).

Definition run_edit (e : edit) : cmd unit :=
  match e with
  | Upsert p => upsert_profile profiles_path p
  | Remove n => remove_profile profiles_path n
  | Import k => import_profile profiles_path k;; mret tt
  | ImportToml t => import_profiles_toml profiles_path t;; mret tt
  end.

Lemma save_load l d d' : save_profiles profiles_path l d = (d', Ok tt) -> load_profiles profiles_path d' = l.
Proof.
  intros (d1 & t & [= <- E] & Ew)%eff_bind_ok. unfold io_write, with_err in Ew.
  destruct (write_file profiles_path t d) as [d2 [[]|e]] eqn:Ef; [|done]. injection Ew as <-.
  unfold load_profiles. rewrite (read_write_file _ _ _ _ Ef). unfold parse_profiles. by rewrite (profiles_round_trip _ _ E).
Qed.

(** The profile store through its commands.  A command that reports success has
    stored what it says: an upsert replaces the profile of that name in place or appends
    it; a removal leaves exactly the others; an import appends one profile with servers,
    under a name no other has, and changes nothing else; a file import upserts its valid
    entries in order.  Names that are unique stay unique, so lookups by name are
    unambiguous. *)
Theorem profile_store e d d' :
  run_edit e d = (d', Ok tt) ->
  NoDup (names (load_profiles profiles_path d)) ->
  NoDup (names (load_profiles profiles_path d')) /\
  match e with
  | Upsert p => load_profiles profiles_path d' = upsert p (load_profiles profiles_path d)
  | Remove n => load_profiles profiles_path d' =
      List.filter (fun p => negb (String.eqb (pr_name p) n)) (load_profiles profiles_path d)
  | Import k => exists p, load_profiles profiles_path d' = load_profiles profiles_path d ++ [p] /\
      pr_servers p <> [] /\ pr_name p ∉ names (load_profiles profiles_path d)
  | ImportToml t => exists ps, profiles_from_toml t = Ok ps /\
      load_profiles profiles_path d' = foldl (fun l p => upsert p l) (load_profiles profiles_path d) (List.filter importable ps)
  end.
Proof.
  intros Hr Hnd. set (l := load_profiles profiles_path d) in *. destruct e as [p|n|k|t]; cbn [run_edit] in Hr.
  - apply eff_bind_ok in Hr as (d1 & l1 & [= <- <-] & Hs). apply save_load in Hs. rewrite Hs.
    split; [by apply upsert_NoDup|done].
  - apply eff_bind_ok in Hr as (d1 & l1 & [= <- <-] & Hs). apply save_load in Hs. rewrite Hs.
    split; [by apply filter_NoDup|done].
  - apply eff_bind_ok in Hr as (d1 & p & Hi & [= <-]). unfold import_profile in Hi.
    apply eff_bind_ok in Hi as (d2 & q & [= <- _] & Hi). destruct (pr_servers q) as [|s0 ss] eqn:Es; [done|].
    apply eff_bind_ok in Hi as (d3 & l1 & [= <- <-] & Hi). apply eff_bind_ok in Hi as (d4 & [] & Hs & [= <- <-]).
    apply save_load in Hs. rewrite Hs. fold l. set (name := if blank (pr_name q) then "imported" else pr_name q).
    pose proof (unique_fresh name l) as Hf.
    split.
    + unfold names. rewrite map_app. apply NoDup_app. split; [done|split; [|apply NoDup_singleton]].
      intros x Hx ->%list_elem_of_singleton. by apply Hf.
    + eexists. split; [reflexivity|]. cbn. split; [done|exact Hf].
  - apply eff_bind_ok in Hr as (d1 & n & Hi & [= <-]). unfold import_profiles_toml in Hi.
    apply eff_bind_ok in Hi as (d2 & ps & [= <- Ep] & Hi). apply eff_bind_ok in Hi as (d3 & l1 & [= <- <-] & Hi). fold l in Hi.
    pose proof (merge_NoDup ps l 0 Hnd) as Hm.
    assert (forall ps l n, (merge_profiles ps l n).1 = foldl (fun l p => upsert p l) l (List.filter importable ps)) as Hfold.
    { induction ps0 as [|p ps0 IH]; intros l0 n0; [done|]. cbn. destruct (importable p); apply IH. }
    specialize (Hfold ps l 0). destruct (merge_profiles ps l 0) as [l' n']. cbn in Hm, Hfold.
    destruct (n' =? 0); [done|]. apply eff_bind_ok in Hi as (d4 & [] & Hs & Hd4). injection Hd4 as -> _.
    apply save_load in Hs. rewrite Hs. split; [exact Hm|]. exists ps. split; [|exact Hfold].
    destruct (profiles_from_toml t); [by injection Ep as ->|done].
Qed.
End Edits.

(** ** A store that knows one profile *)

Module StoreDemo.
#[export] Instance store : StoreFormats := {|
  profiles_print l := if decide (l = [FormatDemo.p0]) then Ok [Byte.x01] else if decide (l = []) then Ok [Byte.x00] else Err "unsupported";
  profiles_parse t := if decide (t = [Byte.x01]) then Ok [FormatDemo.p0] else if decide (t = [Byte.x00]) then Ok [] else Err "unsupported";
  legacy_parse _ := Err "unsupported";
  local_print _ := Err "unsupported";
  local_parse _ := Err "unsupported";
|}.
#[export] Instance store_laws : StoreFormatsLaws.
Proof.
  split; cbn; intros l t; [|done]. repeat case_decide; subst; try done; by intros [= <-].
Qed.
Definition disk : Disk := mkDisk ∅ ∅.
End StoreDemo.

(** The first profile is stored; its removal empties the store. *)
Lemma profile_store_witness :
  let '(d, r) := upsert_profile (H := StoreDemo.store) "profiles.json" FormatDemo.p0 StoreDemo.disk in
  r = Ok tt /\ load_profiles (H := StoreDemo.store) "profiles.json" d = [FormatDemo.p0].
Proof.
  destruct (upsert_profile (H := StoreDemo.store) "profiles.json" FormatDemo.p0 StoreDemo.disk) as [d r] eqn:E.
  assert (r = Ok tt) as ->; [|split; [done|]].
  { apply (f_equal snd) in E. cbn in E. rewrite <- E. vm_compute. reflexivity. }
  destruct (profile_store (H0 := StoreDemo.store_laws) (H1 := FormatDemo.formats) (H2 := NibbleCodec.codec)
    "profiles.json" (Upsert FormatDemo.p0) StoreDemo.disk d E) as [_ El].
  - change (NoDup (names [])). constructor.
  - exact El.
Defined.
