(* ===== verification/Desktop.v ===== *)
(** The desktop client's control of the engine
    (desktop/client-tauri/src-tauri/src/main.rs, "engine control"): commands that overlap,
    the slot that holds the running engine, the status shown, and quitting. *)
From Stdlib Require Import Strings.String.
From S2P Require Import Prelude Net Text Core Mpsc ClientConfig Engine Profiles.

(** How an engine task ended: it returned, or it panicked. *)
Inductive task_end := Returned (r : Result unit) | Panicked (msg : string).
Record Eng := mkEng {
  eg_cfg : ClientConfig;
  eg_cancelled : bool;
  eg_end : option task_end;
  eg_live : LiveStatus;
}.
(** [EngineHandle::stop] once the task has ended. *)
Definition stop_result (t : task_end) : Result unit :=
  match t with Returned r => r | Panicked m => Err (Transport ("engine task join: " +:+ m)) end.

Record Status := mkStatus {
  connected : bool;
  st_profile : option string;
  st_assigned_ip : option string;
  st_mode : option string;
  st_error : option string;
  st_peers : list (string * string);
  st_up : Z;
  st_down : Z;
}.
Definition default_status : Status := mkStatus false None None None None [] 0 0.

(** A command between two awaits. *)
Inductive Cmd :=
  | Stopping (name : string) (cfg : ClientConfig) (prev : nat)
  | Starting (name : string) (cfg : ClientConfig)
  | Waiting (name : string) (cfg : ClientConfig) (id : nat) (waited : Z)
  | Leaving (prev : nat)
  | Quitting (prev : nat).
(** The engine a command holds. *)
Definition holds (c : Cmd) : option nat :=
  match c with
  | Stopping _ _ p => Some p
  | Starting _ _ => None
  | Waiting _ _ i _ => Some i
  | Leaving p => Some p
  | Quitting p => Some p
  end.

Record Desk := mkDesk {
  dk_disk : Disk;
  dk_engines : gmap nat Eng;
  dk_slot : option nat;
  dk_status : Status;
  dk_cmds : gmap nat Cmd;
  dk_quitting : bool;
  dk_exited : bool;
}.
Definition with_engines f d := mkDesk (dk_disk d) (f (dk_engines d)) (dk_slot d) (dk_status d) (dk_cmds d) (dk_quitting d) (dk_exited d).
Definition with_slot s d := mkDesk (dk_disk d) (dk_engines d) s (dk_status d) (dk_cmds d) (dk_quitting d) (dk_exited d).
Definition with_status s d := mkDesk (dk_disk d) (dk_engines d) (dk_slot d) s (dk_cmds d) (dk_quitting d) (dk_exited d).
Definition with_cmds f d := mkDesk (dk_disk d) (dk_engines d) (dk_slot d) (dk_status d) (f (dk_cmds d)) (dk_quitting d) (dk_exited d).
Definition with_disk x d := mkDesk x (dk_engines d) (dk_slot d) (dk_status d) (dk_cmds d) (dk_quitting d) (dk_exited d).
Definition quit_now d := mkDesk (dk_disk d) (dk_engines d) (dk_slot d) (dk_status d) (dk_cmds d) true (dk_exited d).
Definition exit_now d := mkDesk (dk_disk d) (dk_engines d) (dk_slot d) (dk_status d) (dk_cmds d) (dk_quitting d) true.
Definition desk_start (disk : Disk) : Desk := mkDesk disk ∅ None default_status ∅ false false.

Definition cancel (e : Eng) : Eng := mkEng (eg_cfg e) true (eg_end e) (eg_live e).
Definition finished (d : Desk) (id : nat) : bool :=
  match dk_engines d !! id with Some e => bool_decide (is_Some (eg_end e)) | None => true end.
(** Taking the handle out of the slot and cancelling its engine, as [stop] does first. *)
Definition take_slot (d : Desk) : option nat * Desk :=
  match dk_slot d with
  | Some p => (Some p, with_engines (alter cancel p) (with_slot None d))
  | None => (None, d)
  end.

(** ** Texts *)

Definition needs_tun (cfg : ClientConfig) : bool :=
  match cc_mode cfg with GlobalProxy | Vpn => true | HttpProxy | SystemProxy => false end || cc_join_vpn cfg.
Definition has (needle : string) (hay : bytes) : bool := bool_decide (is_Some (find_sub_from 0 (to_b needle) hay)).
Definition early_message (t : option task_end) : string :=
  match t with
  | Some (Returned (Ok _)) | None => "the session ended immediately"
  | Some (Returned (Err e)) => show_error e
  | Some (Panicked m) => "engine task failed: " +:+ m
  end.
Definition privilege_hint : string :=
  " — Global proxy / VPN create a virtual NIC and need administrator/root. Run the app elevated, or switch to System proxy mode (no admin needed).".
Definition with_hint (cfg : ClientConfig) (msg : string) : string :=
  let low := map to_ascii_lowercase (to_b msg) in
  if needs_tun cfg && (has "not permitted" low || has "denied" low || has "permission" low)
  then msg +:+ privilege_hint else msg.

(** ** Steps *)

Section Desktop.
Context `{StoreFormats}.
Context (profiles_path settings_path : string).

(** The synchronous start of [connect_profile]: the profile, the composed configuration,
    and the active profile written back, best effort. *)
Definition remember (name : string) (s : LocalState) : cmd unit := fun d =>
  ((save_state settings_path (mkLocal (settings s) (Some name)) d).1, Ok tt).
Definition prepare (name : string) : cmd ClientConfig :=
  l ← stored profiles_path;
  p ← lift_result (find_profile name l);
  s ← local settings_path;
  remember name s;;
  mret (compose p (settings s)).

Inductive action :=
  | Connect (c : nat) (name : string)
  | Disconnect (c : nat)
  | Quit (c : nat)
  | Move (c : nat)
  | Ends (id : nat) (t : task_end)
  | Reports (id : nat) (l : LiveStatus).

Definition show_ip4 (a : option Ipv4Addr) : option string := show_v4 <$> a.
(** A command runs to its next await. *)
Definition move (c : nat) (d : Desk) : option Desk :=
  match dk_cmds d !! c with
  | Some (Stopping name cfg p) =>
    if finished d p then Some (with_cmds (insert c (Starting name cfg)) d) else None
  | Some (Starting name cfg) =>
    let id := fresh (dom (dk_engines d)) in
    Some (with_cmds (insert c (Waiting name cfg id 0))
            (with_engines (insert id (mkEng cfg false None no_status)) d))
  | Some (Waiting name cfg id waited) =>
    let mode := show_mode (cc_mode cfg) in
    if finished d id then
      let msg := with_hint cfg (early_message (dk_engines d !! id ≫= eg_end)) in
      Some (with_cmds (delete c) (with_status (mkStatus false (Some name) None (Some mode) (Some msg) [] 0 0) d))
    else if 3000 <=? waited then
      Some (with_cmds (delete c) (with_status
              (mkStatus true (Some name) (show_ip4 (cc_requested_ip cfg)) (Some mode) None [] 0 0) (with_slot (Some id) d)))
    else Some (with_cmds (insert c (Waiting name cfg id (waited + 150))) d)
  | Some (Leaving p) =>
    if finished d p then
      let err := match dk_engines d !! p ≫= eg_end with
                 | Some t => match stop_result t with Err e => Some (show_error e) | Ok _ => None end
                 | None => None
                 end in
      let s := dk_status d in
      Some (with_cmds (delete c) (with_status
              (mkStatus false (st_profile s) (st_assigned_ip s) (st_mode s) err (st_peers s) (st_up s) (st_down s)) d))
    else None
  | Some (Quitting p) => if finished d p then Some (with_cmds (delete c) (exit_now d)) else None
  | None => None
  end.
Definition dstep (a : action) (d : Desk) : option Desk :=
  if dk_exited d then None else
  match a with
  | Connect c name =>
    if bool_decide (is_Some (dk_cmds d !! c)) then None else
    match prepare name (dk_disk d) with
    | (disk, Err _) => Some (with_disk disk d)
    | (disk, Ok cfg) =>
      let '(prev, d) := take_slot (with_disk disk d) in
      Some (with_cmds (insert c match prev with Some p => Stopping name cfg p | None => Starting name cfg end) d)
    end
  | Disconnect c =>
    if bool_decide (is_Some (dk_cmds d !! c)) then None else
    let '(prev, d) := take_slot d in
    match prev with
    | Some p => Some (with_cmds (insert c (Leaving p)) d)
    | None =>
      let s := dk_status d in
      Some (with_status (mkStatus false (st_profile s) (st_assigned_ip s) (st_mode s) None (st_peers s) (st_up s) (st_down s)) d)
    end
  | Quit c =>
    if bool_decide (is_Some (dk_cmds d !! c)) then None else
    let '(prev, d) := take_slot (quit_now d) in
    match prev with
    | Some p => Some (with_cmds (insert c (Quitting p)) d)
    | None => Some (exit_now d)
    end
  | Move c => move c d
  | Ends id t =>
    match dk_engines d !! id with
    | Some e =>
      match eg_end e with
      | None => Some (with_engines (insert id (mkEng (eg_cfg e) (eg_cancelled e) (Some t) (eg_live e))) d)
      | Some _ => None
      end
    | None => None
    end
  | Reports id l =>
    match dk_engines d !! id with
    | Some e =>
      match eg_end e with
      | None => Some (with_engines (insert id (mkEng (eg_cfg e) (eg_cancelled e) None l)) d)
      | Some _ => None
      end
    | None => None
    end
  end.
Fixpoint drun (l : list action) (d : Desk) : option Desk :=
  match l with [] => Some d | a :: r => d' ← dstep a d; drun r d' end.

(** The [status] command. *)
Definition status (d : Desk) : Status :=
  let s := dk_status d in
  match dk_slot d ≫= (fun p => dk_engines d !! p) with
  | Some e =>
    let l := eg_live e in
    mkStatus (negb (bool_decide (is_Some (eg_end e)))) (st_profile s)
      (match show_ip4 (ls_ip l) with Some ip => Some ip | None => st_assigned_ip s end)
      (st_mode s) (st_error s) (map (fun p => (show_v4 (peer_ip p), peer_name p)) (ls_peers l)) (up_bytes l) (down_bytes l)
  | None => mkStatus false (st_profile s) (st_assigned_ip s) (st_mode s) (st_error s) [] 0 0
  end.
(** Closing the window hides it, and the system's request to exit is refused, until the
    user quits. *)
Definition close_prevented (d : Desk) : bool := negb (dk_quitting d).
Definition exit_prevented (d : Desk) : bool := negb (dk_quitting d).
End Desktop.
