(* ===== verification/DesktopThms.v ===== *)
(** Theorems about the desktop client's control of the engine: one engine at a time when
    commands do not overlap, and what overlapping commands lose. *)
From S2P Require Import Prelude Net Text Core Mpsc ClientConfig Engine Profiles Desktop.

Definition unfinished (d : Desk) (i : nat) : Prop := exists e, dk_engines d !! i = Some e /\ eg_end e = None.

(** The engine the client still knows: the slot's, or the one its only command holds. *)
Record single (d : Desk) : Prop := {
  sg_cmds : dk_cmds d = ∅ \/ exists c k, dk_cmds d = {[c := k]} /\ dk_slot d = None;
  sg_idle i : dk_cmds d = ∅ -> unfinished d i -> dk_slot d = Some i;
  sg_busy i c k : dk_cmds d = {[c := k]} -> unfinished d i -> holds k = Some i;
}.

Lemma cancel_unfinished d p i : unfinished (with_engines (alter cancel p) d) i <-> unfinished d i.
Proof.
  unfold unfinished. cbn. destruct (decide (i = p)) as [->|Hne].
  - rewrite lookup_alter_eq. destruct (dk_engines d !! p) as [e|]; cbn; [|naive_solver].
    split; intros (x & [= <-] & Hx); by eexists.
  - by rewrite lookup_alter_ne.
Qed.
Lemma finished_spec d p : finished d p = true <-> ~ unfinished d p.
Proof.
  unfold finished, unfinished. destruct (dk_engines d !! p) as [e|].
  - rewrite bool_decide_eq_true, <- not_eq_None_Some. split; [intros Hn (x & [= <-] & Hx); done|].
    intros Hn Hx. apply Hn. by exists e.
  - split; [by intros _ (x & ? & _)|done].
Qed.
Lemma singleton_cmd (c c' : nat) (k k' : Cmd) : ({[c := k]} : gmap nat Cmd) = {[c' := k']} -> k = k'.
Proof.
  intros E. assert (({[c := k]} : gmap nat Cmd) !! c = Some k) as Hl by apply lookup_singleton_eq.
  rewrite E in Hl. by apply lookup_singleton_Some in Hl as [_ ->].
Qed.
Lemma singleton_ne (c : nat) (k : Cmd) : ({[c := k]} : gmap nat Cmd) <> ∅.
Proof. apply map_non_empty_singleton. Qed.

(** The two shapes of the state. *)
Lemma single_idle d : dk_cmds d = ∅ -> (forall i, unfinished d i -> dk_slot d = Some i) -> single d.
Proof. intros Hc Hi. split; [by left|intros i _; apply Hi|]. intros i c k E. rewrite Hc in E. exfalso. by apply (singleton_ne c k). Qed.
Lemma single_busy d c k : dk_cmds d = {[c := k]} -> dk_slot d = None -> (forall i, unfinished d i -> holds k = Some i) -> single d.
Proof.
  intros Hc Hs Hi. split; [right; eauto| |].
  - intros i E. rewrite Hc in E. exfalso. by apply (singleton_ne c k).
  - intros i c' k' E. rewrite Hc in E. apply singleton_cmd in E as ->. apply Hi.
Qed.
Lemma single_cmd d c k : single d -> dk_cmds d !! c = Some k ->
  dk_cmds d = {[c := k]} /\ dk_slot d = None /\ forall i, unfinished d i -> holds k = Some i.
Proof.
  intros [[Hc|(c' & k' & Hc & Hs)] _ Hb] Hk; [by rewrite Hc, lookup_empty in Hk|].
  rewrite Hc in Hk. apply lookup_singleton_Some in Hk as [-> ->]. split; [done|split; [done|]]. intros i. by apply (Hb i _ _ Hc).
Qed.

Section Serial.
Context `{StoreFormats}.
Context (profiles_path settings_path : string).
Abbreviation dstep := (dstep profiles_path settings_path).
Abbreviation drun := (drun profiles_path settings_path).

(** Commands that start only when no other is running. *)
Definition serial (a : action) (d : Desk) : Prop :=
  match a with Connect _ _ | Disconnect _ | Quit _ => dk_cmds d = ∅ | _ => True end.
Fixpoint serial_run (l : list action) (d : Desk) : Prop :=
  match l with
  | [] => True
  | a :: r => serial a d /\ match dstep a d with Some d' => serial_run r d' | None => True end
  end.

(** A command starts with what the slot held. *)
Lemma take_single d c : single d -> dk_cmds d = ∅ ->
  let '(prev, d') := take_slot d in
  forall k, holds k = prev -> single (with_cmds (insert c k) d').
Proof.
  intros Hs Hc. unfold take_slot. destruct (dk_slot d) as [p|] eqn:Ep; intros k Hk; apply (single_busy _ c k); cbn.
  - by rewrite Hc.
  - done.
  - intros i Hi. apply (cancel_unfinished (with_slot None d) p i) in Hi. rewrite Hk, <- Ep. by apply (sg_idle _ Hs).
  - by rewrite Hc.
  - done.
  - intros i Hi. rewrite Hk, <- Ep. by apply (sg_idle _ Hs).
Qed.
Lemma engine_single d id e : single d -> is_Some (dk_engines d !! id) ->
  (eg_end e = None -> unfinished d id) -> single (with_engines (insert id e) d).
Proof.
  intros [Hc Hi Hb] _ Hu.
  assert (forall i, unfinished (with_engines (insert id e) d) i -> unfinished d i) as Hun.
  { intros i (x & Hx & Hn). cbn in Hx. apply lookup_insert_Some in Hx as [[<- <-]|[_ Hx]]; [by apply Hu|by exists x]. }
  split; cbn; eauto.
Qed.
Lemma move_single d d' c : single d -> move c d = Some d' -> single d'.
Proof.
  intros Hs. unfold move. destruct (dk_cmds d !! c) as [k|] eqn:Ek; [|done].
  destruct (single_cmd _ _ _ Hs Ek) as (Hc & Hsl & Hu).
  assert (forall k', (forall i, unfinished d i -> holds k' = Some i) -> single (with_cmds (insert c k') d)) as Hgo.
  { intros k' Hk'. apply (single_busy _ c k'); [|done|done]. cbn. by rewrite Hc, insert_singleton_eq. }
  assert (delete c (dk_cmds d) = ∅) as Hd by (rewrite Hc; apply delete_singleton_eq).
  destruct k as [name cfg p|name cfg|name cfg id waited|p|p]; cbn [holds] in Hu.
  - destruct (finished d p) eqn:Ef; [|done]. intros [= <-]. apply Hgo. intros i Hi.
    apply finished_spec in Ef. exfalso. apply Ef. specialize (Hu i Hi). by injection Hu as ->.
  - intros [= <-]. apply (single_busy _ c (Waiting name cfg (fresh (dom (dk_engines d))) 0)); cbn; [by rewrite Hc, insert_singleton_eq|done|].
    intros i (e & He & Hn). cbn in He. apply lookup_insert_Some in He as [[<- _]|[_ He]]; [done|].
    assert (unfinished d i) as Hi by (by exists e). by apply Hu in Hi.
  - destruct (finished d id) eqn:Ef.
    + intros [= <-]. apply single_idle; [done|]. intros i Hi. exfalso. apply finished_spec in Ef. apply Ef.
      specialize (Hu i Hi). by injection Hu as ->.
    + destruct (3000 <=? waited); intros [= <-]; [|by apply Hgo]. apply single_idle; [done|]. intros i Hi. by apply Hu.
  - destruct (finished d p) eqn:Ef; [|done]. intros [= <-]. apply single_idle; [done|]. intros i Hi. exfalso.
    apply finished_spec in Ef. apply Ef. specialize (Hu i Hi). by injection Hu as ->.
  - destruct (finished d p) eqn:Ef; [|done]. intros [= <-]. apply single_idle; [done|]. intros i Hi. exfalso.
    apply finished_spec in Ef. apply Ef. specialize (Hu i Hi). by injection Hu as ->.
Qed.
Lemma same_single d d' : single d -> dk_engines d' = dk_engines d -> dk_slot d' = dk_slot d -> dk_cmds d' = dk_cmds d -> single d'.
Proof.
  intros [Hc Hi Hb] Ee Es Ec. split; unfold unfinished; rewrite ?Ee, ?Es, ?Ec; [done|exact Hi|exact Hb].
Qed.
Lemma step_single a d d' : single d -> serial a d -> dstep a d = Some d' -> single d'.
Proof.
  intros Hs Ha. unfold Desktop.dstep. destruct (dk_exited d); [done|].
  destruct a as [c name|c|c|c|id t|id l]; cbn [serial] in Ha.
  - case_bool_decide; [done|]. destruct (prepare _ _ name (dk_disk d)) as [disk [cfg|e]].
    + pose proof (take_single (with_disk disk d) c) as Ht. destruct (take_slot (with_disk disk d)) as [prev d1].
      intros [= <-]. apply Ht; [by apply (same_single d)|done|by destruct prev].
    + intros [= <-]. by apply (same_single d).
  - case_bool_decide; [done|]. pose proof (take_single d c Hs Ha) as Ht.
    destruct (take_slot d) as [[p|] d1] eqn:Et; intros [= <-]; [by apply Ht|].
    unfold take_slot in Et. destruct (dk_slot d) eqn:Ep; [done|]. injection Et as <-. by apply (same_single d).
  - case_bool_decide; [done|]. pose proof (take_single (quit_now d) c) as Ht.
    destruct (take_slot (quit_now d)) as [[p|] d1] eqn:Et; intros [= <-]; [apply Ht; [by apply (same_single d)|done|done]|].
    unfold take_slot in Et. cbn in Et. destruct (dk_slot d) eqn:Ep; [done|]. injection Et as <-. by apply (same_single d).
  - by apply move_single.
  - destruct (dk_engines d !! id) as [e|] eqn:Ee; [|done]. destruct (eg_end e) eqn:Ex; [done|]. intros [= <-].
    apply engine_single; [done|by eexists|done].
  - destruct (dk_engines d !! id) as [e|] eqn:Ee; [|done]. destruct (eg_end e) eqn:Ex; [done|]. intros [= <-].
    apply engine_single; [done|by eexists|]. intros _. by exists e.
Qed.
Lemma run_single l d d' : single d -> serial_run l d -> drun l d = Some d' -> single d'.
Proof.
  revert d. induction l as [|a l IH]; intros d Hs; cbn; [by intros _ [= <-]|].
  destruct (dstep a d) as [d1|] eqn:E; [|done]. cbn. intros [Ha Hl]. apply IH; [|done]. by eapply step_single.
Qed.

(** C24. One engine at a time.  As long as the user's commands do not overlap (connect,
    disconnect and quit each start when no other is waiting), whatever the engines do and
    however the waits interleave with it: two engine tasks never run at once, for a new
    one is started only after the previous one has ended; and when no command is running,
    an engine that runs is the one in the slot, so a disconnect reaches it. *)
Theorem one_engine disk l d :
  serial_run l (desk_start disk) -> drun l (desk_start disk) = Some d ->
  (forall i j, unfinished d i -> unfinished d j -> i = j) /\
  (dk_cmds d = ∅ -> forall i, unfinished d i -> dk_slot d = Some i).
Proof.
  intros Hl Hr. assert (single d) as Hs.
  { eapply run_single; [|exact Hl|exact Hr]. apply single_idle; [done|]. intros i (e & He & _). cbn in He.
    by rewrite lookup_empty in He. }
  split; [|intros Hc i; by apply (sg_idle _ Hs)]. intros i j Hi Hj.
  destruct (sg_cmds _ Hs) as [Hc|(c & k & Hc & _)].
  - pose proof (sg_idle _ Hs i Hc Hi). pose proof (sg_idle _ Hs j Hc Hj). congruence.
  - pose proof (sg_busy _ Hs i c k Hc Hi). pose proof (sg_busy _ Hs j c k Hc Hj). congruence.
Qed.
End Serial.

(** ** Overlapping commands *)

Section Orphan.
Context `{StoreFormats}.
Context (profiles_path settings_path : string).
Abbreviation dstep := (dstep profiles_path settings_path).
Abbreviation drun := (drun profiles_path settings_path).

(** An engine that runs, uncancelled, and that neither the slot nor a command refers to. *)
Record orphan (i : nat) (d : Desk) : Prop := {
  or_slot : dk_slot d <> Some i;
  or_cmds c k : dk_cmds d !! c = Some k -> holds k <> Some i;
  or_runs : exists e, dk_engines d !! i = Some e /\ eg_end e = None /\ eg_cancelled e = false;
}.
Lemma orphan_cmd i d c k : orphan i d -> holds k <> Some i -> orphan i (with_cmds (insert c k) d).
Proof.
  intros [Hs Hc He] Hk. split; cbn; [done| |done]. intros c' k' Hl.
  apply lookup_insert_Some in Hl as [[_ <-]|[_ Hl]]; [done|by eapply Hc].
Qed.
Lemma orphan_uncmd i d c : orphan i d -> orphan i (with_cmds (delete c) d).
Proof. intros [Hs Hc He]. split; cbn; [done| |done]. intros c' k' [_ Hl]%lookup_delete_Some. by eapply Hc. Qed.
Lemma orphan_engine i d id e : orphan i d -> id <> i -> orphan i (with_engines (insert id e) d).
Proof. intros [Hs Hc He] Hne. split; cbn; [done|done|]. by rewrite lookup_insert_ne. Qed.
Lemma orphan_take i d : orphan i d -> let '(prev, d') := take_slot d in orphan i d' /\ prev <> Some i.
Proof.
  intros [Hs Hc He]. unfold take_slot. destruct (dk_slot d) as [p|] eqn:Ep; [|by split; [split; rewrite ?Ep|]].
  split; [|done]. split; cbn; [done|done|]. rewrite lookup_alter_ne; [done|congruence].
Qed.
Lemma desk_orphan_same i d d' : orphan i d -> dk_engines d' = dk_engines d -> dk_slot d' = dk_slot d -> dk_cmds d' = dk_cmds d -> orphan i d'.
Proof. intros [Hs Hc He] E1 E2 E3. split; [by rewrite E2|rewrite E3; exact Hc|by rewrite E1]. Qed.
Lemma orphan_move i d d' c : orphan i d -> move c d = Some d' -> orphan i d'.
Proof.
  intros Ho. unfold move. destruct (dk_cmds d !! c) as [k|] eqn:Ek; [|done].
  pose proof (or_cmds _ _ Ho c k Ek) as Hk. destruct k as [name cfg p|name cfg|name cfg id waited|p|p]; cbn [holds] in Hk.
  - destruct (finished d p); [|done]. intros [= <-]. by apply orphan_cmd.
  - intros [= <-]. destruct (or_runs _ _ Ho) as (e & He & _).
    assert (fresh (dom (dk_engines d)) <> i) as Hf.
    { intros <-. apply (is_fresh (dom (dk_engines d))). apply elem_of_dom. by eexists. }
    apply orphan_cmd; [by apply orphan_engine|cbn; congruence].
  - destruct (finished d id); [intros [= <-]; apply orphan_uncmd; by apply (desk_orphan_same i d)|].
    destruct (3000 <=? waited); intros [= <-]; [|by apply orphan_cmd].
    apply orphan_uncmd. destruct Ho as [Hs Hc He]. by split.
  - destruct (finished d p); [|done]. intros [= <-]. apply orphan_uncmd. by apply (desk_orphan_same i d).
  - destruct (finished d p); [|done]. intros [= <-]. apply orphan_uncmd. by apply (desk_orphan_same i d).
Qed.
Lemma desk_orphan_step i a d d' : orphan i d -> (forall t, a <> Ends i t) -> dstep a d = Some d' -> orphan i d'.
Proof.
  intros Ho Ha. unfold Desktop.dstep. destruct (dk_exited d); [done|]. destruct a as [c name|c|c|c|id t|id l].
  - case_bool_decide; [done|]. destruct (prepare _ _ name (dk_disk d)) as [disk [cfg|e]].
    + pose proof (orphan_take i (with_disk disk d)) as Ht. destruct (take_slot (with_disk disk d)) as [prev d1].
      intros [= <-]. destruct Ht as [Ht Hp]; [by apply (desk_orphan_same i d)|]. apply orphan_cmd; [done|].
      destruct prev; cbn; congruence.
    + intros [= <-]. by apply (desk_orphan_same i d).
  - case_bool_decide; [done|]. pose proof (orphan_take i d Ho) as Ht.
    destruct (take_slot d) as [[p|] d1]; intros [= <-]; destruct Ht as [Ht Hp]; [by apply orphan_cmd|by apply (desk_orphan_same i d1)].
  - case_bool_decide; [done|]. pose proof (orphan_take i (quit_now d)) as Ht.
    destruct (take_slot (quit_now d)) as [[p|] d1]; intros [= <-]; (destruct Ht as [Ht Hp]; [by apply (desk_orphan_same i d)|]);
      [by apply orphan_cmd|by apply (desk_orphan_same i d1)].
  - by apply orphan_move.
  - destruct (dk_engines d !! id) as [e|]; [|done]. destruct (eg_end e); [done|]. intros [= <-].
    apply orphan_engine; [done|]. intros ->. by eapply Ha.
  - destruct (dk_engines d !! id) as [e|] eqn:Ee; [|done]. destruct (eg_end e) eqn:Ex; [done|]. intros [= <-].
    destruct (decide (id = i)) as [->|Hne]; [|by apply orphan_engine].
    destruct Ho as [Hs Hc (e' & He' & Hn & Hca)]. rewrite Ee in He'. injection He' as <-.
    split; cbn; [done|done|]. rewrite lookup_insert_eq. by eexists.
Qed.

(** An engine that is lost stays lost.  Once an engine runs uncancelled while neither
    the slot nor a waiting command refers to it, no later command, in any order and with
    any interleaving, cancels it or shows it: it runs until it ends by itself.  Two
    connects that overlap lead there, because the second to finish waiting overwrites the
    slot with its own engine. *)
Theorem overlapping_connects_orphan i d l d' :
  orphan i d -> (forall t, Ends i t ∉ l) -> drun l d = Some d' -> orphan i d'.
Proof.
  revert d. induction l as [|a l IH]; intros d Ho Hl; cbn; [by intros [= <-]|].
  destruct (dstep a d) as [d1|] eqn:E; [|done]. apply IH; [|set_solver].
  eapply desk_orphan_step; [exact Ho| |exact E]. intros t ->. apply (Hl t). set_solver.
Qed.
End Orphan.

Module DeskDemo.
Definition disk : Disk := mkDisk {["profiles.json" := [Byte.x01]]} ∅.
Definition go (l : list action) : option Desk :=
  drun (H := StoreDemo.store) "profiles.json" "settings.json" l (desk_start disk).
(** Both connects are waiting before either has stored its engine. *)
Definition overlap : list action :=
  [Connect 0 "home"; Move 0; Connect 1 "home"; Move 1] ++ repeat (Move 0) 21 ++ repeat (Move 1) 21.
Definition one : list action := [Connect 0 "home"] ++ repeat (Move 0) 22.
(** A disconnect while the connect waits finds the slot empty. *)
Definition undone : list action := [Connect 0 "home"; Move 0; Disconnect 1] ++ repeat (Move 0) 21.
Definition lost (d : Desk) : bool :=
  bool_decide (dk_slot d = Some 1%nat) && bool_decide (dk_cmds d = ∅) &&
  match dk_engines d !! 0%nat with
  | Some e => negb (bool_decide (is_Some (eg_end e))) && negb (eg_cancelled e)
  | None => false
  end.
End DeskDemo.
Example disconnect_while_connecting :
  (fun d => connected (status d)) <$> DeskDemo.go DeskDemo.undone = Some true.
Proof. vm_compute. reflexivity. Qed.

Lemma lost_orphan d : DeskDemo.lost d = true -> orphan 0 d.
Proof.
  unfold DeskDemo.lost. intros [[Hs%bool_decide_eq_true_1 Hc%bool_decide_eq_true_1]%andb_true_iff He]%andb_true_iff.
  split; [by rewrite Hs|by rewrite Hc|]. destruct (dk_engines d !! 0%nat) as [e|]; [|done].
  apply andb_true_iff in He as [He Hca]. exists e. split; [done|]. split; [|by apply negb_true_iff].
  destruct (eg_end e); [done|done].
Qed.
Lemma overlapping_connects_orphan_witness :
  match DeskDemo.go DeskDemo.overlap with
  | Some d => orphan 0 d /\
      match drun (H := StoreDemo.store) "profiles.json" "settings.json" [Disconnect 2; Ends 1 (Returned (Ok tt)); Move 2] d with
      | Some d' => dk_slot d' = None /\ orphan 0 d'
      | None => False
      end
  | None => False
  end.
Proof.
  assert (match DeskDemo.go DeskDemo.overlap with
    | Some d => DeskDemo.lost d && match drun (H := StoreDemo.store) "profiles.json" "settings.json"
                  [Disconnect 2; Ends 1 (Returned (Ok tt)); Move 2] d with
                  | Some d' => bool_decide (dk_slot d' = None) | None => false end
    | None => false end = true) as Hc by (vm_compute; reflexivity).
  destruct (DeskDemo.go DeskDemo.overlap) as [d|]; [|discriminate]. apply andb_true_iff in Hc as [Ho%lost_orphan Hd].
  split; [exact Ho|].
  destruct (drun (H := StoreDemo.store) "profiles.json" "settings.json" [Disconnect 2; Ends 1 (Returned (Ok tt)); Move 2] d)
    as [d'|] eqn:E; [|discriminate].
  split; [by apply bool_decide_eq_true in Hd|].
  apply (overlapping_connects_orphan (H := StoreDemo.store) "profiles.json" "settings.json" 0 d
    [Disconnect 2; Ends 1 (Returned (Ok tt)); Move 2] d' Ho); [set_solver|exact E].
Defined.
Lemma one_engine_witness :
  match DeskDemo.go DeskDemo.one with
  | Some d => forall i, unfinished d i -> dk_slot d = Some i
  | None => False
  end.
Proof.
  assert (match DeskDemo.go DeskDemo.one with Some d => bool_decide (dk_cmds d = ∅) | None => false end = true) as Hc
    by (vm_compute; reflexivity).
  assert (serial_run (H := StoreDemo.store) "profiles.json" "settings.json" DeskDemo.one (desk_start DeskDemo.disk)) as Hs
    by (vm_compute; repeat split).
  destruct (DeskDemo.go DeskDemo.one) as [d|] eqn:E; [|discriminate].
  apply (proj2 (one_engine (H := StoreDemo.store) "profiles.json" "settings.json" DeskDemo.disk DeskDemo.one d Hs E)).
  by apply bool_decide_eq_true_1 in Hc.
Defined.
