(* ===== verification/DesktopExit.v ===== *)
(** How the desktop client starts and leaves (desktop/client-tauri/src-tauri/src/main.rs):
    the configuration directory it is started with, the tray, the relaunch with
    administrator rights, the latency command, and what happens to a running engine on
    every way out of the process. *)
From Stdlib Require Import Strings.String.
From S2P Require Import Prelude Net Text Core Mpsc ClientConfig Engine Profiles Desktop DesktopThms.
From S2P Require Os.

(** ** Start *)

(** [--config-dir] and the argument after it; else the directory the system names. *)
Definition config_dir (args : list bytes) (os_dir : option bytes) : bytes :=
  match Os.after (to_b "--config-dir") args with
  | Some d => d
  | None => default (to_b ".") os_dir
  end.
(** [Path::join] with the system's separator, and the two files of the state. *)
Definition path_join (sep : byte) (dir name : bytes) : bytes :=
  match last dir with
  | None => name
  | Some c => if bool_decide (c = sep) then dir ++ name else dir ++ [sep] ++ name
  end.
Definition app_files (sep : byte) (dir : bytes) : bytes * bytes :=
  (path_join sep dir (to_b "profiles.json"), path_join sep dir (to_b "settings.json")).

(** ** The tray *)

Inductive TrayAct := TrayShow | TrayQuit | TrayNothing.
Definition on_menu_event (id : string) : TrayAct :=
  if String.eqb id "show" then TrayShow else if String.eqb id "quit" then TrayQuit else TrayNothing.
Inductive Button := BLeft | BRight | BMiddle.
Inductive ButtonState := BUp | BDown.
Definition on_tray_click (b : Button) (s : ButtonState) : TrayAct :=
  match b, s with BLeft, BUp => TrayShow | _, _ => TrayNothing end.
Definition on_tray (c : nat) (t : TrayAct) : option action :=
  match t with TrayQuit => Some (Quit c) | _ => None end.

(** ** Latency *)

Section Commands.
Context `{StoreFormats}.
Context (profiles_path settings_path : string).

(** The server of the profile with that name, or the profile's active server. *)
Definition ping_entry (profile server : string) (d : Disk) : result string ServerEntry :=
  p ← find_profile profile (load_profiles profiles_path d);
  match List.find (fun s => String.eqb (se_name s) server) (pr_servers p) with
  | Some s => Ok s
  | None => ok_or ("server '" +:+ server +:+ "' not found") (ok (profile_active_server p))
  end.
(** [measured] is what the probe comes to, in nanoseconds. *)
Definition ping_server (measured : ServerEntry -> Result Z) (profile server : string) (d : Disk) : result string Z :=
  e ← ping_entry profile server d;
  rtt ← map_err show_error (measured e);
  Ok (wrap 64 (rtt / 1000000)).

(** ** Leaving *)

(** [relaunch_elevated]: [exe] is the path of the executable, [launch] what starting the
    elevated instance comes to inside a blocking task, which can panic.  On success the
    process is on its way out, and [exit] runs after 400 ms. *)
Definition relaunch (exe : result string bytes) (launch : bytes -> result string (result string unit)) (d : Desk)
    : Desk * result string unit :=
  match (e ← exe; l ← launch e; l) with
  | Ok _ => (quit_now d, Ok tt)
  | Err t => (d, Err t)
  end.

Inductive way_out :=
  | Does (a : action)
  | Relaunch (exe : result string bytes) (launch : bytes -> result string (result string unit))
  | ExitDue
  | CloseWindow
  | AskExit.
(** A process that has been told to exit by a relaunch, or whose window is gone, exits
    when the request comes; the exit handler lets it, since the user is quitting.  Closing
    the window hides it, and a request of the user or the system to exit is refused,
    until then. *)
Definition leave_step (s : Desk * bool) (w : way_out) : option (Desk * bool) :=
  let '(d, due) := s in
  match w with
  | Does a => d' ← dstep profiles_path settings_path a d; Some (d', due)
  | Relaunch exe launch =>
    if dk_exited d then None else
    let (d', r) := relaunch exe launch d in Some (d', due || is_ok r)
  | ExitDue => if due && negb (dk_exited d) && negb (exit_prevented d) then Some (exit_now d, due) else None
  | CloseWindow => if dk_exited d then None else Some (d, due || negb (close_prevented d))
  | AskExit => if dk_exited d then None else Some (if exit_prevented d then d else exit_now d, due)
  end.
Fixpoint leave_run (ws : list way_out) (s : Desk * bool) : option (Desk * bool) :=
  match ws with [] => Some s | w :: r => s' ← leave_step s w; leave_run r s' end.
End Commands.

(** ** A quit in progress *)

Section Leaving.
Context `{StoreFormats}.
Context (profiles_path settings_path : string).
Abbreviation dstep := (dstep profiles_path settings_path).
Abbreviation leave_run := (leave_run profiles_path settings_path).

(** The engine a quit waits for: it is cancelled, and the process has not exited before it
    ended. *)
Definition stopping (p : nat) (d : Desk) : Prop := exists e, dk_engines d !! p = Some e /\ eg_cancelled e = true.
Record quitting (c p : nat) (d : Desk) : Prop := {
  qt_engine : stopping p d;
  qt_cmds : dk_exited d = false -> dk_cmds d !! c = Some (Quitting p) /\
    forall c' q, dk_cmds d !! c' = Some (Quitting q) -> c' = c;
  qt_exit : dk_exited d = true -> finished d p = true;
}.
Definition no_quit (w : way_out) : Prop := match w with Does (Quit _) => False | Does _ => True | _ => False end.

Lemma stopping_cancel p q d : stopping p d -> stopping p (with_engines (alter cancel q) d).
Proof.
  intros (e & He & Hc). unfold stopping. cbn. destruct (decide (p = q)) as [->|Hne].
  - rewrite lookup_alter_eq, He. by exists (cancel e).
  - rewrite lookup_alter_ne by done. by exists e.
Qed.
Lemma stopping_insert p q x d : stopping p d -> (q = p -> eg_cancelled x = true) -> stopping p (with_engines (insert q x) d).
Proof.
  intros (e & He & Hc) Hx. unfold stopping. cbn. destruct (decide (q = p)) as [->|Hne].
  - rewrite lookup_insert_eq. exists x. by rewrite Hx.
  - rewrite lookup_insert_ne by done. by exists e.
Qed.

Lemma quitting_keep c p d d' : quitting c p d -> dk_exited d = false -> dk_exited d' = false -> stopping p d' ->
  dk_cmds d' !! c = dk_cmds d !! c ->
  (forall c' q, dk_cmds d' !! c' = Some (Quitting q) -> dk_cmds d !! c' = Some (Quitting q)) -> quitting c p d'.
Proof.
  intros [_ Hq _] Hx Hx' Hs Hc Hall. destruct (Hq Hx) as [H1 H2]. split; [done| |congruence].
  intros _. rewrite Hc. split; [done|]. intros c' q Hc'. by eapply H2, Hall.
Qed.
(** Another command is put, or ends. *)
Lemma other_insert c c1 k (m : gmap nat Cmd) : c1 <> c -> (forall q, k <> Quitting q) ->
  <[c1 := k]> m !! c = m !! c /\ forall c' q, <[c1 := k]> m !! c' = Some (Quitting q) -> m !! c' = Some (Quitting q).
Proof.
  intros Hne Hk. split; [by apply lookup_insert_ne|]. intros c' q. rewrite lookup_insert_Some.
  intros [[_ E]|[_ E]]; [by destruct (Hk q)|done].
Qed.
Lemma other_delete c c1 (m : gmap nat Cmd) : c1 <> c ->
  delete c1 m !! c = m !! c /\ forall c' q, delete c1 m !! c' = Some (Quitting q) -> m !! c' = Some (Quitting q).
Proof.
  intros Hne. split; [by apply lookup_delete_ne|]. intros c' q. rewrite lookup_delete_Some. by intros [_ E].
Qed.

Lemma quitting_move c p c1 d d' : quitting c p d -> dk_exited d = false -> move c1 d = Some d' -> quitting c p d'.
Proof.
  intros Hq Hx E. pose proof (qt_engine _ _ _ Hq) as Hs. destruct (qt_cmds _ _ _ Hq Hx) as [Hc Hall]. unfold move in E.
  destruct (decide (c1 = c)) as [->|Hne].
  { rewrite Hc in E. destruct (finished d p) eqn:Ef; [|done]. injection E as <-. split; [done|done|]. intros _. exact Ef. }
  destruct (dk_cmds d !! c1) as [[name cfg q|name cfg|name cfg id waited|q|q]|] eqn:Ec; try done.
  - destruct (finished d q); [|done]. injection E as <-.
    destruct (other_insert c c1 (Starting name cfg) (dk_cmds d)) as [? ?]; [done..|]. by apply (quitting_keep _ _ d).
  - injection E as <-. set (id := fresh (dom (dk_engines d))).
    destruct (other_insert c c1 (Waiting name cfg id 0) (dk_cmds d)) as [? ?]; [done..|].
    apply (quitting_keep _ _ d); try done. apply stopping_insert; [done|]. intros Ei. exfalso.
    destruct Hs as (e & He & _). apply (is_fresh (dom (dk_engines d))). apply elem_of_dom. exists e. unfold id in Ei. by rewrite Ei.
  - destruct (other_delete c c1 (dk_cmds d)) as [? ?]; [done|].
    destruct (finished d id); [injection E as <-; by apply (quitting_keep _ _ d)|].
    destruct (3000 <=? waited); injection E as <-; [by apply (quitting_keep _ _ d)|].
    destruct (other_insert c c1 (Waiting name cfg id (waited + 150)) (dk_cmds d)) as [? ?]; [done..|]. by apply (quitting_keep _ _ d).
  - destruct (finished d q); [|done]. injection E as <-.
    destruct (other_delete c c1 (dk_cmds d)) as [? ?]; [done|]. by apply (quitting_keep _ _ d).
  - by destruct Hne, (Hall c1 q).
Qed.
Lemma take_slot_shape d : (take_slot d).1 = dk_slot d /\ dk_cmds (take_slot d).2 = dk_cmds d /\
  dk_exited (take_slot d).2 = dk_exited d /\ dk_disk (take_slot d).2 = dk_disk d /\ (forall p, stopping p d -> stopping p (take_slot d).2).
Proof.
  unfold take_slot. destruct (dk_slot d) as [q|] eqn:Es; [|by rewrite ?Es].
  split_and!; try done. intros p Hs. apply (stopping_cancel p q (with_slot None d)). exact Hs.
Qed.
Lemma quitting_step c p a d d' : quitting c p d -> (forall c', a <> Quit c') -> dstep a d = Some d' -> quitting c p d'.
Proof.
  intros Hq Ha E. unfold Desktop.dstep in E. destruct (dk_exited d) eqn:Hx; [done|].
  pose proof (qt_engine _ _ _ Hq) as Hs. destruct (qt_cmds _ _ _ Hq Hx) as [Hc Hall].
  destruct a as [c1 name|c1|c1|c1|id t|id l]; [| |by destruct (Ha c1)| | |].
  - case_bool_decide as Hn; [done|]. assert (c1 <> c) as Hne by (intros ->; destruct Hn; by eexists).
    destruct (prepare _ _ name (dk_disk d)) as [disk [cfg|]]; [|injection E as <-; by apply (quitting_keep _ _ d)].
    destruct (take_slot_shape (with_disk disk d)) as (_ & T2 & T3 & _ & T5).
    destruct (take_slot (with_disk disk d)) as [prev d1]. cbn [fst snd] in *. injection E as <-.
    set (k := match prev with Some p0 => Stopping name cfg p0 | None => Starting name cfg end).
    destruct (other_insert c c1 k (dk_cmds d1)) as [H1 H2]; [done|by unfold k; destruct prev|].
    rewrite T2 in H1, H2. apply (quitting_keep _ _ d); try done; [cbn; by rewrite T3|by apply T5|cbn; by rewrite T2|cbn; by rewrite T2].
  - case_bool_decide as Hn; [done|]. assert (c1 <> c) as Hne by (intros ->; destruct Hn; by eexists).
    destruct (take_slot_shape d) as (_ & T2 & T3 & _ & T5). destruct (take_slot d) as [prev d1]. cbn [fst snd] in *.
    destruct prev as [q|]; injection E as <-.
    + destruct (other_insert c c1 (Leaving q) (dk_cmds d1)) as [H1 H2]; [done..|]. rewrite T2 in H1, H2.
      apply (quitting_keep _ _ d); try done; [cbn; by rewrite T3|by apply T5|cbn; by rewrite T2|cbn; by rewrite T2].
    + apply (quitting_keep _ _ d); try done; [cbn; by rewrite T3|by apply T5|cbn; by rewrite T2|cbn; by rewrite T2].
  - by eapply quitting_move.
  - destruct (dk_engines d !! id) as [e|] eqn:Ee; [|done]. destruct (eg_end e); [done|]. injection E as <-.
    apply (quitting_keep _ _ d); try done. apply stopping_insert; [done|]. intros ->. destruct Hs as (x & Hx' & Hcx). cbn. congruence.
  - destruct (dk_engines d !! id) as [e|] eqn:Ee; [|done]. destruct (eg_end e); [done|]. injection E as <-.
    apply (quitting_keep _ _ d); try done. apply stopping_insert; [done|]. intros ->. destruct Hs as (x & Hx' & Hcx). cbn. congruence.
Qed.
Lemma quitting_run c p ws d due d' due' : quitting c p d -> Forall no_quit ws -> leave_run ws (d, due) = Some (d', due') -> quitting c p d'.
Proof.
  revert d due. induction ws as [|w ws IH]; intros d due Hq Hn; cbn [DesktopExit.leave_run]; [by intros [= <- <-]|].
  inversion Hn as [|? ? Hw Hws]; subst. destruct w as [a| | | |]; [|done..]. cbn [leave_step].
  destruct (dstep a d) as [d1|] eqn:E; [|done]. cbn. apply IH; [|done].
  eapply quitting_step; [done| |exact E]. intros c' ->. done.
Qed.

Lemma dstep_quit_waits c p d : dk_exited d = false -> dk_cmds d !! c = None -> dk_slot d = Some p ->
  dstep (Quit c) d = Some (with_cmds (insert c (Quitting p)) (with_engines (alter cancel p) (with_slot None (quit_now d)))).
Proof.
  intros Hx Hc Hs. unfold Desktop.dstep. rewrite Hx, Hc. rewrite bool_decide_eq_false_2 by (by intros [? ?]).
  unfold take_slot. cbn [quit_now dk_slot]. by rewrite Hs.
Qed.
Lemma dstep_quit_at_once c d : dk_exited d = false -> dk_cmds d !! c = None -> dk_slot d = None ->
  dstep (Quit c) d = Some (exit_now (quit_now d)).
Proof.
  intros Hx Hc Hs. unfold Desktop.dstep. rewrite Hx, Hc. rewrite bool_decide_eq_false_2 by (by intros [? ?]).
  unfold take_slot. cbn [quit_now dk_slot]. by rewrite Hs.
Qed.

(** ** Properties *)

(** C25. Quitting stops the engine.  Until somebody quits, closing the window and a request
    to exit change nothing.  When the user quits while the slot holds an engine and no
    other quit is under way, the engine is cancelled; and whatever commands follow, however
    they interleave with the engine, the process does not exit before the engine's task
    has ended, so what the session changed on the system is restored: short of a second
    quit, of a relaunch, and, since these are no longer prevented once the user is
    quitting, of closing the window or asking the process to exit. *)
Theorem quit_stops_engine (c p : nat) (e : Eng) (ws : list way_out) (d d' : Desk) (due : bool) :
  dk_exited d = false -> dk_slot d = Some p -> dk_engines d !! p = Some e ->
  (forall c' q, dk_cmds d !! c' <> Some (Quitting q)) -> Forall no_quit ws ->
  leave_run (Does (Quit c) :: ws) (d, false) = Some (d', due) ->
  (dk_quitting d = false -> forall w, w = CloseWindow \/ w = AskExit ->
     leave_step profiles_path settings_path (d, false) w = Some (d, false)) /\
  (exists e', dk_engines d' !! p = Some e' /\ eg_cancelled e' = true) /\
  (dk_exited d' = true -> exists e' t, dk_engines d' !! p = Some e' /\ eg_end e' = Some t).
Proof.
  intros Hx Hp He Hq Hn. intros E0. split.
  { intros Hqt w [-> | ->]; cbn; unfold close_prevented, exit_prevented; by rewrite Hx, Hqt. }
  revert E0. cbn [DesktopExit.leave_run leave_step]. unfold Desktop.dstep. rewrite Hx.
  case_bool_decide as Hf; [done|]. unfold take_slot. cbn [quit_now dk_slot]. rewrite Hp. cbn [mbind option_bind].
  intros E. match type of E with leave_run ws (?x, false) = _ => assert (quitting c p x) as Hi end.
  { split; cbn; [|intros _; split; [by rewrite lookup_insert_eq|]|congruence].
    - exists (cancel e). cbn. by rewrite lookup_alter_eq, He.
    - intros c' q. rewrite lookup_insert_Some. intros [[-> _]|[_ E']]; [done|]. by destruct (Hq c' q). }
  destruct (quitting_run _ _ _ _ _ _ _ Hi Hn E) as [Hs _ Hex]. split; [exact Hs|].
  intros Hx'. destruct Hs as (e' & He' & _). specialize (Hex Hx'). unfold finished in Hex. rewrite He' in Hex.
  apply bool_decide_eq_true_1 in Hex as [t Ht]. by exists e', t.
Qed.

(** There are ways out that do not stop the engine.  A second quit while the first waits
    finds the slot empty and exits at once, before the engine's task has ended; a quit while a
    connect is still waiting exits with the new engine not even cancelled; and so does a
    relaunch with administrator rights, whatever engine is running; and closing the window,
    or asking the process to exit, while a quit waits, ends it before the engine has. *)
Theorem exits_without_stopping (c c' i : nat) (e : Eng) (d : Desk) :
  dk_exited d = false -> dk_engines d !! i = Some e -> eg_end e = None ->
  (dk_slot d = Some i -> dk_cmds d !! c = None -> dk_cmds d !! c' = None -> c <> c' ->
     exists d', leave_run [Does (Quit c); Does (Quit c')] (d, false) = Some (d', false) /\
       dk_exited d' = true /\ dk_engines d' !! i = Some (cancel e)) /\
  (dk_slot d = None -> dk_cmds d !! c = None ->
     exists d', leave_run [Does (Quit c)] (d, false) = Some (d', false) /\
       dk_exited d' = true /\ dk_engines d' !! i = Some e) /\
  (forall exe launch path, exe = Ok path -> launch path = Ok (Ok tt) ->
     exists d', leave_run [Relaunch exe launch; ExitDue] (d, false) = Some (d', true) /\
       dk_exited d' = true /\ dk_engines d' !! i = Some e) /\
  (dk_slot d = Some i -> dk_cmds d !! c = None -> forall ws, ws = [AskExit] \/ ws = [CloseWindow; ExitDue] ->
     exists d' due, leave_run (Does (Quit c) :: ws) (d, false) = Some (d', due) /\
       dk_exited d' = true /\ dk_engines d' !! i = Some (cancel e)).
Proof.
  intros Hx He Hend. split_and!.
  - intros Hs Hc Hc' Hne. cbn [DesktopExit.leave_run leave_step]. rewrite (dstep_quit_waits c i) by done.
    cbn [mbind option_bind DesktopExit.leave_run leave_step].
    rewrite dstep_quit_at_once by (try done; cbn; by rewrite lookup_insert_ne).
    eexists. split; [reflexivity|]. split; [done|]. cbn. by rewrite lookup_alter_eq, He.
  - intros Hs Hc. cbn [DesktopExit.leave_run leave_step]. rewrite dstep_quit_at_once by done.
    eexists. split; [reflexivity|]. by split.
  - intros exe launch path -> Hl. cbn [DesktopExit.leave_run leave_step]. rewrite Hx. unfold relaunch. cbn [mbind result_bind]. rewrite Hl.
    cbn. rewrite Hx. cbn. eexists. split; [reflexivity|]. by split.
  - intros Hs Hc ws Hw. cbn [DesktopExit.leave_run leave_step]. rewrite (dstep_quit_waits c i) by done.
    cbn [mbind option_bind]. destruct Hw as [-> | ->]; (eexists _, _; split; [cbn; rewrite Hx; cbn; rewrite ?Hx; reflexivity|]);
      (split; [done|]); cbn; by rewrite lookup_alter_eq, He.
Qed.

End Leaving.

(** A name the elevated instance cannot read back.  [Start-Process] joins the list of
    arguments with spaces and quotes none of them, and the program started splits its
    command line at spaces; so the instance relaunched on Windows takes the text up to the
    first space of the configuration directory for the directory. *)
Section Windows.
Context (start_process : list bytes -> list bytes).
Hypothesis joins_unquoted : forall a b args, start_process (args ++ [a ++ [Byte.x20] ++ b]) = start_process (args ++ [a; b]).
Definition bare (a : bytes) : Prop := a <> [] /\ Forall (fun c => c ∉ [Byte.x20; Byte.x09; Byte.x22]) a.
Hypothesis keeps_words : forall args, Forall bare args -> start_process args = args.

Theorem windows_config_dir_split (a b : bytes) (os_dir : option bytes) :
  bare a -> bare b ->
  config_dir (start_process [to_b "--config-dir"; a ++ [Byte.x20] ++ b]) os_dir = a /\ a <> a ++ [Byte.x20] ++ b.
Proof.
  intros Ha Hb. split.
  - assert (start_process [to_b "--config-dir"; a ++ [Byte.x20] ++ b] = start_process [to_b "--config-dir"; a; b]) as ->
      by exact (joins_unquoted a b [to_b "--config-dir"]).
    rewrite keeps_words.
    + reflexivity.
    + constructor; [|by constructor; [|constructor]]. split; [done|]. by apply (bool_decide_eq_true_1 _), eq_refl.
  - intros E. apply (f_equal length) in E. rewrite !length_app in E. cbn in E. lia.
Qed.
End Windows.

(** ** Witnesses *)

Module ExitDemo.
Definition eng : Eng := mkEng (compose FormatDemo.p0 default_settings) false None no_status.
Definition busy : Desk := mkDesk (mkDisk ∅ ∅) {[0%nat := eng]} (Some 0%nat) default_status ∅ false false.
Definition go (ws : list way_out) : option (Desk * bool) :=
  leave_run (H := StoreDemo.store) "profiles.json" "settings.json" ws (busy, false).
(** The arguments cut at spaces, as the two hypotheses say. *)
Fixpoint cut (cur : bytes) (s : bytes) : list bytes :=
  match s with
  | [] => match cur with [] => [] | _ => [cur] end
  | c :: r => if bool_decide (c = Byte.x20) then match cur with [] => cut [] r | _ => cur :: cut [] r end else cut (cur ++ [c]) r
  end.
Definition start_process (args : list bytes) : list bytes := cut [] (mjoin (map (fun a => a ++ [Byte.x20]) args)).
Lemma cut_word cur a r : Forall (fun c => c ∉ [Byte.x20; Byte.x09; Byte.x22]) a -> cur ++ a <> [] ->
  cut cur (a ++ Byte.x20 :: r) = (cur ++ a) :: cut [] r.
Proof.
  revert cur. induction a as [|c a IH]; intros cur Hf Hne; cbn.
  - rewrite app_nil_r in *. by destruct cur.
  - inversion Hf as [|? ? Hc Ha]; subst. rewrite bool_decide_eq_false_2 by (intros ->; apply Hc; by left).
    rewrite IH; [by rewrite <- app_assoc|done|by destruct cur].
Qed.
Lemma joins a b args : start_process (args ++ [a ++ [Byte.x20] ++ b]) = start_process (args ++ [a; b]).
Proof.
  unfold start_process. f_equal. induction args as [|x l IH]; cbn.
  - by rewrite <- !app_assoc.
  - f_equal. exact IH.
Qed.
Lemma keeps args : Forall bare args -> start_process args = args.
Proof.
  unfold start_process. induction 1 as [|a args [Hne Hf] _ IH]; [done|]. cbn. rewrite <- app_assoc. cbn.
  rewrite cut_word by done. f_equal. exact IH.
Qed.
End ExitDemo.

Lemma quit_stops_engine_witness : exists d due,
  ExitDemo.go [Does (Quit 0); Does (Ends 0 (Returned (Ok tt))); Does (Move 0)] = Some (d, due) /\
  dk_exited d = true /\ exists e t, dk_engines d !! 0%nat = Some e /\ eg_end e = Some t.
Proof.
  eexists _, _. split; [vm_compute; reflexivity|]. split; [reflexivity|].
  refine (proj2 (proj2 (quit_stops_engine (H := StoreDemo.store) "profiles.json" "settings.json" 0 0 ExitDemo.eng
    [Does (Ends 0 (Returned (Ok tt))); Does (Move 0)] ExitDemo.busy _ false eq_refl eq_refl eq_refl _ _ _)) _).
  - intros c' q. discriminate.
  - by repeat constructor.
  - vm_compute. reflexivity.
  - reflexivity.
Defined.

Lemma exits_without_stopping_witness : exists d,
  ExitDemo.go [Does (Quit 0); Does (Quit 1)] = Some (d, false) /\ dk_exited d = true /\
  dk_engines d !! 0%nat = Some (cancel ExitDemo.eng).
Proof.
  apply (proj1 (exits_without_stopping (H := StoreDemo.store) "profiles.json" "settings.json" 0 1 0 ExitDemo.eng
    ExitDemo.busy eq_refl eq_refl eq_refl)); [reflexivity|reflexivity|reflexivity|discriminate].
Defined.

Lemma windows_config_dir_split_witness :
  config_dir (ExitDemo.start_process [to_b "--config-dir"; to_b "C:\Users\Ann" ++ [Byte.x20] ++ to_b "Lee\et"]) None =
    to_b "C:\Users\Ann".
Proof.
  apply (windows_config_dir_split ExitDemo.start_process ExitDemo.joins ExitDemo.keeps).
  - split; [done|]. by apply (bool_decide_eq_true_1 _), eq_refl.
  - split; [done|]. by apply (bool_decide_eq_true_1 _), eq_refl.
Defined.
