(* ===== verification/Elevate.v ===== *)
(** Relaunching the desktop client with administrator rights
    (desktop/client-tauri/src-tauri/src/main.rs, "privilege elevation"): the command lines
    built for the shell, AppleScript and PowerShell. *)
From Stdlib Require Import Strings.String.
From S2P Require Import Prelude Net Text Core Os NetCfg.

(** [str::replace] of one byte. *)
Definition replace (c : byte) (by_ : bytes) (s : bytes) : bytes :=
  mjoin (map (fun x => if bool_decide (x = c) then by_ else [x]) s).
Definition apostrophe : byte := Byte.x27.
Definition backslash : byte := Byte.x5c.
Definition dquote : byte := Byte.x22.

(** [q]: for use inside single quotes of /bin/sh. *)
Definition q (s : bytes) : bytes := replace apostrophe [apostrophe; backslash; apostrophe; apostrophe] s.
Definition quoted (s : bytes) : bytes := [apostrophe] ++ q s ++ [apostrophe].
Definition inner (uid : Z) (exe cfg_dir : bytes) : bytes :=
  to_b "launchctl asuser " ++ to_b (pretty uid) ++ to_b " " ++ quoted exe ++ to_b " --config-dir " ++ quoted cfg_dir ++
  to_b " >/dev/null 2>&1 &".
Definition apple_escape (s : bytes) : bytes :=
  replace dquote [backslash; dquote] (replace backslash [backslash; backslash] s).
Definition script (uid : Z) (exe cfg_dir : bytes) : bytes :=
  to_b "do shell script " ++ [dquote] ++ apple_escape (inner uid exe cfg_dir) ++ [dquote] ++ to_b " with administrator privileges".
Definition ps_quoted (s : bytes) : bytes := [apostrophe] ++ replace apostrophe [apostrophe; apostrophe] s ++ [apostrophe].
Definition powershell_text (exe cfg_dir : bytes) : bytes :=
  to_b "Start-Process -FilePath " ++ ps_quoted exe ++ to_b " -ArgumentList " ++ ps_quoted (to_b "--config-dir") ++ to_b "," ++
  ps_quoted cfg_dir ++ to_b " -Verb RunAs".

Section Elevate.
Context `{Os}.

Definition pam_line (l : bytes) : bool :=
  let l := trim_start l in negb (starts_with (to_b "#") l) && contains (to_b "pam_tid.so") l.
Definition touchid_sudo_enabled : eff Sys Error bool :=
  a ← read_to_string "/etc/pam.d/sudo_local";
  match a with
  | Ok s => if existsb pam_line (lines s) then mret true else
      b ← read_to_string "/etc/pam.d/sudo";
      mret match b with Ok s => existsb pam_line (lines s) | Err _ => false end
  | Err _ =>
      b ← read_to_string "/etc/pam.d/sudo";
      mret match b with Ok s => existsb pam_line (lines s) | Err _ => false end
  end.
Definition launched (cancelled : string) (r : ran) : result string unit :=
  match r with
  | Spawn e => Err e
  | Exited true _ _ => Ok tt
  | Exited false _ _ => Err cancelled
  end.
Definition elevate_macos (uid : Z) (exe cfg_dir : bytes) : eff Sys Error (result string unit) :=
  touch ← touchid_sudo_enabled;
  r ← if touch : bool then output "/usr/bin/sudo" ["/bin/sh"; "-c"; str (inner uid exe cfg_dir)] else mret (Spawn "");
  if succeeded r then mret (Ok tt) else
    st ← output "osascript" ["-e"; str (script uid exe cfg_dir)];
    mret (launched "authorization was cancelled" st).
Definition elevate_windows (exe cfg_dir : bytes) : eff Sys Error (result string unit) :=
  st ← output "powershell" ["-NoProfile"; "-WindowStyle"; "Hidden"; "-Command"; str (powershell_text exe cfg_dir)];
  mret (launched "UAC elevation was cancelled" st).
Definition elevate_linux (exe cfg_dir : bytes) : eff Sys Error (result string unit) :=
  st ← output "pkexec" [str exe; "--config-dir"; str cfg_dir];
  mret match st with
       | Spawn e => Err ("pkexec failed: " +:+ e +:+ " (install policykit, or run with sudo)")
       | Exited _ _ _ => Ok tt
       end.
End Elevate.

(** ** How the texts are read back

    The words of a simple command of /bin/sh, up to its first redirection; [None] when the
    text uses an active character outside quotes or does not end its quotes. *)
Definition active (c : byte) : bool := existsb (fun x => bool_decide (x = c)) (to_b "$`;&|<()*?[]#~=%!{}" ++ [dquote; Byte.x0a; Byte.x09]).
#[local] Arguments active : simpl never.
Definition flush (cur : option bytes) : list bytes := match cur with Some w => [w] | None => [] end.
Definition add (c : byte) (cur : option bytes) : option bytes := Some (default [] cur ++ [c]).
Fixpoint sh (quoted esc : bool) (cur : option bytes) (s : bytes) : option (list bytes) :=
  match s with
  | [] => if quoted || esc then None else Some (flush cur)
  | c :: r =>
    if quoted then
      if bool_decide (c = apostrophe) then sh false false cur r else sh true false (add c cur) r
    else if esc then sh false false (add c cur) r
    else if bool_decide (c = apostrophe) then sh true false (Some (default [] cur)) r
    else if bool_decide (c = backslash) then sh false true (Some (default [] cur)) r
    else if bool_decide (c = Byte.x20) then app (flush cur) <$> sh false false None r
    else if bool_decide (c = Byte.x3e) then Some (flush cur)
    else if active c then None
    else sh false false (add c cur) r
  end.
Definition sh_words (s : bytes) : option (list bytes) := sh false false None s.

(** An AppleScript string after its opening quote: its value and what follows. *)
Fixpoint apple_string (esc : bool) (s : bytes) : option (bytes * bytes) :=
  match s with
  | [] => None
  | c :: r =>
    if esc then
      if bool_decide (c = backslash) || bool_decide (c = dquote) then (fun p => (c :: p.1, p.2)) <$> apple_string false r else None
    else if bool_decide (c = backslash) then apple_string true r
    else if bool_decide (c = dquote) then Some ([], r)
    else (fun p => (c :: p.1, p.2)) <$> apple_string false r
  end.

(** ** Theorems *)

Lemma q_cons c s : q (c :: s) = (if bool_decide (c = apostrophe) then [apostrophe; backslash; apostrophe; apostrophe] else [c]) ++ q s.
Proof. done. Qed.
(** The word being read grows by what was quoted. *)
Lemma sh_quoted w s r : sh true false (Some w) (q s ++ apostrophe :: r) = sh false false (Some (w ++ s)) r.
Proof.
  revert w. induction s as [|c s IH]; intros w; [by rewrite app_nil_r|]. rewrite q_cons, <- app_assoc.
  destruct (bool_decide_reflect (c = apostrophe)) as [->|Hne].
  - transitivity (sh true false (Some (w ++ [apostrophe])) (q s ++ apostrophe :: r)); [done|]. by rewrite IH, <- app_assoc.
  - transitivity (sh true false (Some (w ++ [c])) (q s ++ apostrophe :: r)); [|by rewrite IH, <- app_assoc].
    cbn. by rewrite bool_decide_false.
Qed.
Lemma sh_word s r : sh false false None (quoted s ++ r) = sh false false (Some s) r.
Proof.
  unfold quoted. rewrite <- !app_assoc. exact (sh_quoted [] s r).
Qed.
(** Characters that mean themselves. *)
Definition plain (c : byte) : bool :=
  negb (bool_decide (c = apostrophe) || bool_decide (c = backslash) || bool_decide (c = Byte.x20) ||
        bool_decide (c = Byte.x3e) || active c).
Lemma sh_plain w cur r : forallb plain w = true -> w <> [] ->
  sh false false cur (w ++ r) = sh false false (Some (default [] cur ++ w)) r.
Proof.
  revert cur. induction w as [|c w IH]; intros cur Hw Hne; [done|]. cbn in Hw. apply andb_true_iff in Hw as [Hc Hw].
  unfold plain in Hc. apply negb_true_iff in Hc. rewrite !orb_false_iff in Hc. destruct Hc as [[[[H1 H2] H3] H4] H5].
  cbn. rewrite H1, H2, H3, H4, H5. destruct w as [|c' w]; [done|]. rewrite IH by done. unfold add. cbn. by rewrite <- app_assoc.
Qed.
Lemma sh_space w r : sh false false (Some w) (Byte.x20 :: r) = app [w] <$> sh false false None r.
Proof. done. Qed.
(** A word of plain characters and the space after it. *)
Lemma sh_plain_word w r : forallb plain w = true -> w <> [] ->
  sh false false None (w ++ Byte.x20 :: r) = app [w] <$> sh false false None r.
Proof. intros Hw Hne. by rewrite sh_plain, sh_space by done. Qed.
Lemma sh_quoted_word s r : sh false false None (quoted s ++ Byte.x20 :: r) = app [s] <$> sh false false None r.
Proof. by rewrite sh_word, sh_space. Qed.

Lemma apple_cons c s : apple_escape (c :: s) =
  (if bool_decide (c = backslash) then [backslash; backslash] else if bool_decide (c = dquote) then [backslash; dquote] else [c]) ++ apple_escape s.
Proof.
  unfold apple_escape, replace. cbn [map mjoin]. destruct (bool_decide_reflect (c = backslash)) as [->|Hne].
  - done.
  - cbn. by destruct (bool_decide (c = dquote)).
Qed.
Lemma apple_read s r : apple_string false (apple_escape s ++ dquote :: r) = Some (s, r).
Proof.
  induction s as [|c s IH]; [done|]. rewrite apple_cons, <- app_assoc.
  destruct (bool_decide_reflect (c = backslash)) as [->|H1].
  - transitivity ((fun p => (backslash :: p.1, p.2)) <$> apple_string false (apple_escape s ++ dquote :: r)); [done|]. by rewrite IH.
  - destruct (bool_decide_reflect (c = dquote)) as [->|H2].
    + transitivity ((fun p => (dquote :: p.1, p.2)) <$> apple_string false (apple_escape s ++ dquote :: r)); [done|]. by rewrite IH.
    + cbn. rewrite !bool_decide_false by done. by rewrite IH.
Qed.

(** C26. No path can break out of the command line.  Whatever the path of the program and
    of the configuration directory, quotes, spaces, newlines and dollars included: the
    text handed to AppleScript is a single string literal whose value is the shell command,
    and /bin/sh reads from that command the program and the directory as two words, byte
    for byte, and no other word that depends on them. *)
Theorem elevation_quoting uid exe cfg_dir :
  forallb plain (to_b (pretty uid)) = true -> to_b (pretty uid) <> [] ->
  sh_words (inner uid exe cfg_dir) =
    Some [to_b "launchctl"; to_b "asuser"; to_b (pretty uid); exe; to_b "--config-dir"; cfg_dir] /\
  exists pre, script uid exe cfg_dir = pre ++ [dquote] ++ apple_escape (inner uid exe cfg_dir) ++ dquote :: to_b " with administrator privileges" /\
    apple_string false (apple_escape (inner uid exe cfg_dir) ++ dquote :: to_b " with administrator privileges") =
      Some (inner uid exe cfg_dir, to_b " with administrator privileges").
Proof.
  intros Hp Hne. split.
  - unfold sh_words, inner. set (u := to_b (pretty uid)) in *.
    change (to_b "launchctl asuser ") with (to_b "launchctl" ++ Byte.x20 :: to_b "asuser" ++ [Byte.x20]).
    change (to_b " ") with [Byte.x20].
    change (to_b " --config-dir ") with (Byte.x20 :: to_b "--config-dir" ++ [Byte.x20]).
    change (to_b " >/dev/null 2>&1 &") with (Byte.x20 :: to_b ">/dev/null 2>&1 &").
    repeat (rewrite <- app_assoc || rewrite <- app_comm_cons). cbn [app].
    rewrite !sh_plain_word, sh_quoted_word, sh_plain_word, sh_quoted_word by done. reflexivity.
  - exists (to_b "do shell script "). split; [done|apply apple_read].
Qed.
Lemma elevation_quoting_witness :
  sh_words (inner 501 (to_b "/Apps/O'Brien $x; rm") (to_b "/a b")) =
    Some [to_b "launchctl"; to_b "asuser"; to_b "501"; to_b "/Apps/O'Brien $x; rm"; to_b "--config-dir"; to_b "/a b"].
Proof.
  apply (elevation_quoting 501 (to_b "/Apps/O'Brien $x; rm") (to_b "/a b")); [vm_compute; reflexivity|discriminate].
Defined.
