(* ===== verification/Android.v ===== *)
(** The Android engine (mobile/android/rust/src/engine.rs): the hop list, what a session
    reports before the VPN exists, its two phases, and the bridge between the
    [VpnService] descriptor and the tunnel as a transition system. *)
From Stdlib Require Import Strings.String.
From S2P Require Import Prelude Calls Net Text Core Mpsc ClientConfig Chain Engine Tun.
From S2P Require Session.

(** A value of [serde_json]; an object is the list of the fields the code gives it. *)
Inductive Json :=
  | JNull
  | JBool (b : bool)
  | JNum (n : Z)
  | JStr (s : string)
  | JArr (l : list Json)
  | JObj (fields : list (string * Json)).
Definition j_opt (o : option string) : Json := match o with Some s => JStr s | None => JNull end.

Definition ANDROID_PEER_REFRESH_SECS : Z := 5.

(** An explicit chain of at least two known hops, or the active server. *)
Definition hops_of (cfg : ClientConfig) : Result (list ServerEntry) :=
  let h := resolve_hops (chain cfg) (servers cfg) in
  if (2 <=? length (chain cfg))%nat && (2 <=? length h)%nat then Ok h
  else s ← active_server cfg; Ok [s].

Definition netcfg_json (w : Welcome) (mode : SessionMode) : Json :=
  JObj [("mode", JStr (show_mode mode));
        ("assigned_ip", JStr (show_ip (V4 (assigned_ip w))));
        ("prefix_len", JNum (prefix_len w));
        ("gateway", JStr (show_ip (V4 (gateway w))));
        ("mtu", JNum (mtu w));
        ("dns", JArr (map (fun d => JStr (show_ip (V4 d))) (dns w)))].

(** What follows a successful handshake: a packet session waits for the descriptor, a
    stream session runs the local proxy, without the peer LAN. *)
Inductive Next :=
  | AwaitFd (w : Welcome) (member : bool)
  | RunProxy (w : Welcome).

(** The end of the first phase: the address shown, the report for the caller, and what
    the session does next. *)
Record Phase1 := mkPhase1 {
  p1_shown : option Ipv4Addr;
  p1_report : result string Json;
  p1_next : Result Next;
}.
Definition failed (e : Error) : Phase1 := mkPhase1 None (Err (show_error e)) (Err e).
Definition established (cfg : ClientConfig) (w : Welcome) : Phase1 :=
  mkPhase1 (Some (assigned_ip w)) (Ok (netcfg_json w (cc_mode cfg)))
    (Ok match cc_mode cfg with
        | GlobalProxy | Vpn => AwaitFd w (is_member cfg)
        | HttpProxy | SystemProxy => RunProxy w
        end).

Section Run.
Context `{World} `{Base64}.
Context (debug : Frame -> string).

(** [run] up to the end of its first phase. *)
Definition android_run (cfg : ClientConfig) : eff trace Error Phase1 :=
  match hops_of cfg with
  | Err e => mret (failed e)
  | Ok hops =>
    r ← try_eff (connect_chain debug hops (cc_mode cfg) (cc_requested_ip cfg) (cc_client_name cfg));
    mret match r with Err e => failed e | Ok (w, _) => established cfg w end
  end.
End Run.

(** ** The descriptor *)

(** [fcntl] twice: the flags it has, then those with [O_NONBLOCK]. *)
Definition O_NONBLOCK : Z := 2048.
Definition set_nonblocking (get : result IoError Z) (set : Z -> result IoError unit) : result IoError unit :=
  flags ← get; set (Z.lor flags O_NONBLOCK).
Definition tun_read (l : list (attempt bytes)) : option (Result bytes) := retry l.
Definition tun_write (pkt : bytes) (kernel : bytes -> list (attempt Z)) : option (Result Z) := retry (kernel pkt).
Definition read_len (w : Welcome) : Z := Z.max (mtu w) 2048.
(** The start of [fd_bridge]; a negative descriptor means that there is none. *)
Definition bridge_open (fd : Z) (get : result IoError Z) (set : Z -> result IoError unit)
    (async : result IoError unit) : Result unit :=
  if fd <? 0 then Err (Config "no VpnService fd provided for packet mode")
  else map_err Io (set_nonblocking get set);; map_err Io async.

(** ** The bridge *)

Inductive BUp := BUIdle | BUSending (f : Frame) | BUClosing | BUDone.
Inductive BDown := BDIdle | BDWriting (p : bytes) | BDDone.

Record Bridge := mkBridge {
  br_member : bool;
  br_len : Z;
  br_up : BUp;
  br_down : BDown;
  br_cancel : bool;
  br_over : bool;
  br_live : LiveStatus;
  br_wire : list Frame;
  br_read : list bytes;
  br_recvd : list Frame;
  br_tun : list (bytes * bool);
}.
(** [br_over]: [fd_bridge] has returned.  The last four fields are the history: the frames
    the tunnel accepted, the packets read off the descriptor, the frames received, and
    the packets written to the descriptor with the outcome nobody looks at. *)
Definition bridge_start (w : Welcome) (member : bool) (live : LiveStatus) : Bridge :=
  mkBridge member (read_len w) BUIdle BDIdle false false live [] [] [] [].

Definition set_bup (u : BUp) (wire : list Frame) (read : list bytes) (b : Bridge) : Bridge :=
  mkBridge (br_member b) (br_len b) u (br_down b) (br_cancel b) (br_over b) (br_live b) wire read (br_recvd b) (br_tun b).
Definition set_bdown (d : BDown) (live : LiveStatus) (recvd : list Frame) (tun : list (bytes * bool)) (b : Bridge) : Bridge :=
  mkBridge (br_member b) (br_len b) (br_up b) d (br_cancel b) (br_over b) live (br_wire b) (br_read b) recvd tun.
Definition set_bflags (cancel over : bool) (b : Bridge) : Bridge :=
  mkBridge (br_member b) (br_len b) (br_up b) (br_down b) cancel over (br_live b) (br_wire b) (br_read b) (br_recvd b) (br_tun b).

Inductive bevent :=
  | BKeepalive
  | BPeers
  | BRead (r : Result bytes)
  | BSent (ok : bool)
  | BUpStop
  | BClosed
  | BRecv (r : Result Frame)
  | BWrote (ok : bool)
  | BDownStop
  | BCancel
  | BReturn.

(** The uplink task: keepalives, the peer poll of a member, and packets. *)
Definition bup_step (e : bevent) (b : Bridge) : option Bridge :=
  match e, br_up b with
  | BKeepalive, BUIdle => Some (set_bup (BUSending FPing) (br_wire b) (br_read b) b)
  | BPeers, BUIdle => if br_member b then Some (set_bup (BUSending FGetPeers) (br_wire b) (br_read b) b) else None
  | BRead r, BUIdle =>
    match r with
    | Ok [] => Some b
    | Ok p =>
      if Z.of_nat (length p) <=? br_len b
      then Some (set_bup (BUSending (FPacket p)) (br_wire b) (br_read b ++ [p]) b) else None
    | Err _ => Some (set_bup BUClosing (br_wire b) (br_read b) b)
    end
  | BSent ok, BUSending f =>
    Some (if ok : bool then set_bup BUIdle (br_wire b ++ [f]) (br_read b) b
          else set_bup BUClosing (br_wire b) (br_read b) b)
  | BUpStop, BUIdle => if br_cancel b then Some (set_bup BUClosing (br_wire b) (br_read b) b) else None
  | BClosed, BUClosing => Some (set_bup BUDone (br_wire b) (br_read b) b)
  | _, _ => None
  end.

(** The downlink task. *)
Definition bdown_step (e : bevent) (b : Bridge) : option Bridge :=
  match e, br_down b with
  | BRecv r, BDIdle =>
    Some match r with
    | Ok (FPacket p) => set_bdown (BDWriting p) (br_live b) (br_recvd b ++ [FPacket p]) (br_tun b) b
    | Ok (FPeerList ps) => set_bdown BDIdle (show_peers ps (br_live b)) (br_recvd b ++ [FPeerList ps]) (br_tun b) b
    | Ok f => set_bdown BDIdle (br_live b) (br_recvd b ++ [f]) (br_tun b) b
    | Err _ => set_bdown BDDone (br_live b) (br_recvd b) (br_tun b) b
    end
  | BWrote ok, BDWriting p => Some (set_bdown BDIdle (br_live b) (br_recvd b) (br_tun b ++ [(p, ok)]) b)
  | BDownStop, BDIdle => if br_cancel b then Some (set_bdown BDDone (br_live b) (br_recvd b) (br_tun b) b) else None
  | _, _ => None
  end.

(** [fd_bridge] itself waits for the cancellation or the end of a task, and cancels. *)
Definition task_over (b : Bridge) : bool :=
  br_cancel b || match br_up b with BUDone => true | _ => false end || match br_down b with BDDone => true | _ => false end.
Definition bstep (b : Bridge) (e : bevent) : option Bridge :=
  match e with
  | BKeepalive | BPeers | BRead _ | BSent _ | BUpStop | BClosed => bup_step e b
  | BRecv _ | BWrote _ | BDownStop => bdown_step e b
  | BCancel => Some (set_bflags true (br_over b) b)
  | BReturn => if negb (br_over b) && task_over b then Some (set_bflags true true b) else None
  end.
Abbreviation brun := (runs bstep).

(** ** The bridge keeps order *)

Fixpoint packets (fs : list Frame) : list bytes :=
  match fs with
  | [] => []
  | FPacket p :: r => p :: packets r
  | _ :: r => packets r
  end.
Lemma packets_snoc fs f : packets (fs ++ [f]) = packets fs ++ packets [f].
Proof. induction fs as [|[] fs IH]; cbn in *; rewrite ?IH; done. Qed.
Definition polls (f : Frame) : bool := match f with FGetPeers => true | _ => false end.

Record bridge_inv (b : Bridge) : Prop := {
  bi_up : match br_up b with
    | BUIdle => packets (br_wire b) = br_read b
    | BUSending f => packets (br_wire b) ++ packets [f] = br_read b /\ (br_member b = false -> polls f = false)
    | _ => packets (br_wire b) `prefix_of` br_read b
    end;
  bi_down : match br_down b with
    | BDWriting p => map fst (br_tun b) ++ [p] = packets (br_recvd b)
    | _ => map fst (br_tun b) = packets (br_recvd b)
    end;
  bi_polls : br_member b = false -> Forall (fun f => polls f = false) (br_wire b);
  bi_len : Forall (fun p => p <> [] /\ Z.of_nat (length p) <= br_len b) (br_read b);
  bi_over : br_over b = true -> br_cancel b = true;
}.

Lemma bridge_start_inv w member live : bridge_inv (bridge_start w member live).
Proof. by constructor. Qed.
Lemma bup_inv e b b' : bridge_inv b -> bup_step e b = Some b' -> bridge_inv b'.
Proof.
  intros [Hu Hd Hp Hl Ho] H. unfold bup_step in H. destruct e; try done; destruct (br_up b) eqn:Eu; try done.
  - injection H as <-. constructor; cbn; try done. by rewrite app_nil_r.
  - destruct (br_member b) eqn:Em; [|done]. injection H as <-. constructor; cbn; rewrite ?Em; try done.
    by rewrite app_nil_r.
  - destruct r as [[|c p]|e]; [by injection H as <-; constructor; rewrite ?Eu| |].
    + destruct (Z.leb_spec (Z.of_nat (length (c :: p))) (br_len b)); [|done]. injection H as <-.
      constructor; cbn [br_up br_wire br_read br_down br_tun br_recvd br_member br_len br_cancel br_over set_bup]; try done.
      * by rewrite Hu.
      * apply Forall_app. split; [done|]. by repeat constructor.
    + injection H as <-. constructor; cbn; try done. by rewrite Hu.
  - destruct Hu as [Hu Hm]. destruct ok; injection H as <-; constructor; cbn; try done.
    + by rewrite packets_snoc.
    + intros Hb. apply Forall_app. split; [auto|]. repeat constructor. auto.
    + rewrite <- Hu. by apply prefix_app_r.
  - destruct (br_cancel b) eqn:Ek; [|done]. injection H as <-. constructor; cbn; try done. by rewrite Hu.
  - injection H as <-. by constructor.
Qed.
Lemma bdown_inv e b b' : bridge_inv b -> bdown_step e b = Some b' -> bridge_inv b'.
Proof.
  intros [Hu Hd Hp Hl Ho] H. unfold bdown_step in H. destruct e; try done; destruct (br_down b) eqn:Ed; try done.
  - injection H as <-. destruct r as [f|e]; [destruct f|]; constructor; cbn; try done; by rewrite packets_snoc, Hd, ?app_nil_r.
  - injection H as <-. constructor; cbn; try done. by rewrite map_app.
  - destruct (br_cancel b) eqn:Ek; [|done]. injection H as <-. by constructor.
Qed.
Lemma bstep_inv e b b' : bridge_inv b -> bstep b e = Some b' -> bridge_inv b'.
Proof.
  intros Hi H. destruct e; cbn [bstep] in H; eauto using bup_inv, bdown_inv.
  - injection H as <-. destruct Hi. by constructor.
  - destruct (_ && _); [|done]. injection H as <-. destruct Hi. by constructor.
Qed.
Lemma brun_inv es b b' : bridge_inv b -> brun es b = Some b' -> bridge_inv b'.
Proof. apply (runs_inv bstep bridge_inv). intros ? ? ?. apply bstep_inv. Qed.
Lemma bstep_fixed e b b' : bstep b e = Some b' -> br_member b' = br_member b /\ br_len b' = br_len b.
Proof. destruct e; cbn; intros H; repeat (case_match; try done); by simplify_eq. Qed.
Lemma brun_fixed es b b' : brun es b = Some b' -> br_member b' = br_member b /\ br_len b' = br_len b.
Proof. intros Hr. apply (runs_inv bstep (fun b' => br_member b' = br_member b /\ br_len b' = br_len b)) in Hr; [done| |done].
  by intros b1 e b2 [<- <-] E%bstep_fixed. Qed.

(** ** Greetings of a chain *)

(** A call that greets a server does so without asking for the peer LAN, in the mode of
    the last hop or as a relay. *)
Definition no_join (final : SessionMode) (c : Chain.call) : Prop :=
  match c with
  | CSend (FHello h) => join_vpn h = false /\ (hello_mode h = wire final \/ hello_mode h = HttpProxy)
  | _ => True
  end.

Lemma hop_no_join s rest final rip name : Forall (no_join final) (hop_calls s rest final rip name).
Proof. destruct rest; apply Forall_cons; (split; [cbn; auto|by repeat constructor]). Qed.
Lemma later_no_join `{Base64} hops final rip name : Forall (no_join final) (later_calls hops final rip name).
Proof.
  induction hops as [|s rest IH]; [constructor|]. cbn [later_calls].
  rewrite !Forall_app. split_and!; [by repeat constructor|apply hop_no_join|done].
Qed.
Lemma chain_no_join `{Base64} hops final rip name : Forall (no_join final) (chain_calls hops final rip name).
Proof.
  destruct hops as [|s rest]; [constructor|]. cbn [chain_calls]. rewrite !Forall_app.
  split_and!; [|by repeat constructor|apply hop_no_join|apply later_no_join].
  unfold resolve_calls. destruct (parse_ip _); by repeat constructor.
Qed.

Lemma try_ret {S E F A B} (m : eff S E A) (f : result E A -> B) (h : S) :
  (r ← (try_eff m : eff S F _); mret (f r)) h = ((m h).1, Ok (f (m h).2)).
Proof. unfold mbind, eff_bind, try_eff. by destruct (m h). Qed.
Lemma resolve_hops_length chain servers : (length (resolve_hops chain servers) <= length chain)%nat.
Proof. induction chain as [|n rest IH]; cbn; [done|]. destruct (List.find _ _); cbn; lia. Qed.

(** ** Properties *)

(** The first phase of an Android session, on every branch.  The hops are those the
    desktop engine would use: a chain of at least two known servers, the active server
    otherwise, and without either nothing is dialed.  The caller gets exactly one report:
    the text of the error the engine ends with, or the network configuration made from
    the welcome, and then the address shown is the assigned one; a packet session goes
    on to wait for the descriptor, a stream session to the proxy. *)
Theorem android_setup `{World} `{Base64} debug cfg h h' r :
  android_run debug cfg h = (h', r) -> exists p, r = Ok p /\
  match hops_of cfg with
  | Err e => active_server cfg = Err e /\ h' = h /\ p = failed e
  | Ok hops =>
    hops <> [] /\
    ((2 <= length hops)%nat -> hops = resolve_hops (chain cfg) (servers cfg)) /\
    ((length (resolve_hops (chain cfg) (servers cfg)) < 2)%nat -> exists s, active_server cfg = Ok s /\ hops = [s]) /\
    match connect_chain debug hops (cc_mode cfg) (cc_requested_ip cfg) (cc_client_name cfg) h with
    | (h1, Err e) => h' = h1 /\ p = failed e
    | (h1, Ok (w, _)) => h' = h1 /\ p = established cfg w /\
        (is_stream (cc_mode cfg) = true <-> p1_next p = Ok (RunProxy w))
    end
  end.
Proof.
  unfold android_run, hops_of. pose proof (resolve_hops_length (chain cfg) (servers cfg)) as Hlen.
  destruct (_ && _) eqn:E.
  - apply andb_true_iff in E as [_ E%Nat.leb_le]. rewrite try_ret.
    destruct (connect_chain debug _ _ _ _ h) as [h1 [[w ip]|e]]; intros [= <- <-]; eexists; (split; [reflexivity|]);
      (split; [by destruct (resolve_hops _ _); cbn in E; [lia|]|]); (split; [done|]); (split; [lia|]).
    + split_and!; try done. cbn. destruct (cc_mode cfg); cbn; split; congruence.
    + done.
  - destruct (active_server cfg) as [s|e] eqn:Ea; cbn [mbind result_bind].
    + rewrite try_ret.
      destruct (connect_chain debug _ _ _ _ h) as [h1 [[w ip]|e]]; intros [= <- <-]; eexists; (split; [reflexivity|]);
        (split; [done|]); (split; [cbn; lia|]); (split; [eauto|]).
      * split_and!; try done. cbn. destruct (cc_mode cfg); cbn; split; congruence.
      * done.
    + intros [= <- <-]. by eexists.
Qed.

(** On Android the peer LAN can be polled but not joined.  Whatever the network does,
    every greeting a session sends leaves [join_vpn] unset, since all its hops are reached
    by the chain code; a session in global-proxy mode whose settings ask for the peer LAN
    is nonetheless bridged as a member, so it polls for peers, while every server session
    its greetings can open is not a member and is never listed to the others. *)
Theorem android_never_joins `{World} `{Base64} debug cfg h h' p :
  android_run debug cfg h = (h', Ok p) ->
  (exists l, h' = h ++ l /\ Forall (no_join (cc_mode cfg)) l /\
     (cc_mode cfg = GlobalProxy -> forall g ss, CSend (FHello g) ∈ l ->
        Session.ss_hello ss = g -> Session.vpn_member ss = false)) /\
  (cc_mode cfg = GlobalProxy -> cc_join_vpn cfg = true -> forall w m, p1_next p = Ok (AwaitFd w m) -> m = true).
Proof.
  intros E. split.
  - assert (exists l, h' = h ++ l /\ Forall (no_join (cc_mode cfg)) l) as (l & -> & Hl).
    { revert E. unfold android_run, hops_of. destruct (if _ : bool then _ else _) as [hops|e].
      - rewrite try_ret. destruct (connect_chain debug _ _ _ _ h) as [h1 r] eqn:Ec. intros [= <- _].
        destruct (performs_chain debug hops _ _ _ _ _ _ Ec) as (l & -> & Hp & _).
        exists l. split; [done|]. pose proof (chain_no_join hops (cc_mode cfg) (cc_requested_ip cfg) (cc_client_name cfg)) as Hc.
        destruct Hp as [k Hp]. rewrite Hp in Hc. by apply Forall_app in Hc as [? _].
      - intros [= <- _]. exists []. by rewrite app_nil_r. }
    exists l. split_and!; try done. intros Hm g ss Hg Hss.
    rewrite Forall_forall in Hl. destruct (Hl _ Hg) as [Hj Hmode]. rewrite Hm in Hmode.
    unfold Session.vpn_member. rewrite Hss, Hj, orb_false_r. apply bool_decide_eq_false.
    destruct Hmode as [-> | ->]; done.
  - intros Hm Hj w m Hn. revert E. unfold android_run. destruct (hops_of cfg) as [hops|e].
    + rewrite try_ret. destruct (connect_chain debug _ _ _ _ h) as [h1 [[w' ip]|e]]; intros [= _ <-]; [|done].
      cbn in Hn. rewrite Hm in Hn. injection Hn as _ <-. unfold is_member. rewrite Hj. by rewrite orb_true_r.
    + by intros [= _ <-].
Qed.

(** The bridge keeps packets in order.  However its two tasks, the tunnel and the
    descriptor proceed: the tunnel is given the packets read off the descriptor in order,
    each once, no longer than the buffer of the larger of the MTU and 2048 bytes, and all
    of them while the uplink is idle; the packets received are written to the descriptor in order, each
    attempted once, and all of them while the downlink waits; only a member polls for
    peers; and when the bridge has returned, the session is cancelled. *)
Theorem bridge_in_order (w : Welcome) (member : bool) (live : LiveStatus) (es : list bevent) (b : Bridge) :
  brun es (bridge_start w member live) = Some b ->
  (packets (br_wire b) `prefix_of` br_read b /\ (br_up b = BUIdle -> packets (br_wire b) = br_read b)) /\
  Forall (fun p => p <> [] /\ Z.of_nat (length p) <= Z.max (mtu w) 2048) (br_read b) /\
  (map fst (br_tun b) `prefix_of` packets (br_recvd b) /\
   (br_down b = BDIdle -> map fst (br_tun b) = packets (br_recvd b))) /\
  (member = false -> Forall (fun f => polls f = false) (br_wire b)) /\
  (br_over b = true -> br_cancel b = true).
Proof.
  intros Hr. destruct (brun_fixed _ _ _ Hr) as [Em El].
  destruct (brun_inv _ _ _ (bridge_start_inv w member live) Hr) as [Hu Hd Hp Hl Ho].
  rewrite Em in Hp. rewrite El in Hl. split_and!; try done.
  - destruct (br_up b); [by rewrite Hu| |done|done]. destruct Hu as [<- _]. by apply prefix_app_r.
  - intros Hi. by rewrite Hi in Hu.
  - destruct (br_down b); [by rewrite Hd| |by rewrite Hd]. rewrite <- Hd. by apply prefix_app_r.
  - intros Hi. by rewrite Hi in Hd.
Qed.

(** ** Witnesses *)

Module AndroidDemo.
Definition cfg (chain : list string) : ClientConfig :=
  mkClientConfig "home" None GlobalProxy None None "et0" "127.0.0.1:7890" true "" 0 Tcp "" "" false None
    [ChainDemo.hop "a"; ChainDemo.hop "b"] [] Blacklist chain true.
Definition session (chain : list string) : trace * Result Phase1 :=
  android_run (H := ChainDemo.world) (H0 := NibbleCodec.codec) (fun _ => "") (cfg chain) [].
Definition pkt (n : byte) : bytes := [n; Byte.x00].
Definition events : list bevent :=
  [BKeepalive; BSent true; BRead (Ok (pkt Byte.x45)); BRecv (Ok (FPacket (pkt Byte.x46))); BSent true;
   BWrote false; BRecv (Ok (FPeerList [])); BRead (Ok []); BRead (Ok (pkt Byte.x47)); BRecv (Err Closed)].
End AndroidDemo.

Lemma android_setup_witness : exists p, (AndroidDemo.session ["a"; "b"]).2 = Ok p /\
  hops_of (AndroidDemo.cfg ["a"; "b"]) = Ok [ChainDemo.hop "a"; ChainDemo.hop "b"].
Proof.
  destruct (android_setup (H := ChainDemo.world) (H0 := NibbleCodec.codec) (fun _ => "") (AndroidDemo.cfg ["a"; "b"]) []
    (AndroidDemo.session ["a"; "b"]).1 (AndroidDemo.session ["a"; "b"]).2) as (p & E & _);
    [exact (surjective_pairing _)|].
  exists p. split; [exact E|reflexivity].
Defined.

Lemma android_never_joins_witness : exists h p, AndroidDemo.session ["a"] = (h, Ok p) /\
  p1_next p = Ok (AwaitFd ChainDemo.welcome true) /\ Forall (no_join GlobalProxy) h.
Proof.
  eexists _, _. split; [vm_compute; reflexivity|]. split; [reflexivity|].
  edestruct (android_never_joins (H := ChainDemo.world) (H0 := NibbleCodec.codec) (fun _ => "") (AndroidDemo.cfg ["a"]) [])
    as [(l & El & Hl & _) _]; [vm_compute; reflexivity|].
  cbn [app] in El. rewrite El. exact Hl.
Defined.

Lemma bridge_in_order_witness : exists b,
  brun AndroidDemo.events (bridge_start ChainDemo.welcome false no_status) = Some b /\
  map fst (br_tun b) `prefix_of` packets (br_recvd b).
Proof.
  eexists. split; [vm_compute; reflexivity|].
  apply (bridge_in_order ChainDemo.welcome false no_status AndroidDemo.events). vm_compute. reflexivity.
Defined.
