(* ===== verification/AndroidLib.v ===== *)
(** The library the Android app calls (mobile/android/rust/src/lib.rs): the global slots,
    the calls from Kotlin and the engine tasks as steps that interleave, one step per
    access to shared state. *)
From Stdlib Require Import Strings.String.
From S2P Require Import Prelude Net Text Core Mpsc ClientConfig Chain Engine Android.

(** The task a connect spawns: [engine::run], then the error slot, then the flag.  From
    [TFailed] on it does not await any more. *)
Inductive TaskPhase :=
  | TNew
  | TRunning
  | TAwaitFd
  | TBridging (fd : Z)
  | TProxying
  | TFailed (text : string)
  | TEnding
  | TDone
  | TDropped.
#[export] Instance task_phase_eq_dec : EqDecision TaskPhase.
Proof. solve_decision. Defined.

(** [an_fd] is the value inside the oneshot channel; [an_given] records every descriptor
    put there. *)
Record Sess := mkSess {
  an_cfg : ClientConfig;
  an_phase : TaskPhase;
  an_cancel : bool;
  an_shut : bool;
  an_report : option (result string Json);
  an_live : LiveStatus;
  an_fd : option Z;
  an_given : list Z;
}.
Definition new_sess (cfg : ClientConfig) : Sess := mkSess cfg TNew false false None no_status None [].
Definition in_task (p : TaskPhase) (x : Sess) : Sess :=
  mkSess (an_cfg x) p (an_cancel x) (an_shut x) (an_report x) (an_live x) (an_fd x) (an_given x).
Definition stopped_sess (c d : bool) (x : Sess) : Sess :=
  mkSess (an_cfg x) (an_phase x) (an_cancel x || c) (an_shut x || d) (an_report x) (an_live x) (an_fd x) (an_given x).
Definition reported (r : result string Json) (live : LiveStatus) (x : Sess) : Sess :=
  mkSess (an_cfg x) (an_phase x) (an_cancel x) (an_shut x) (Some r) live (an_fd x) (an_given x).
Definition deliver_fd (fd : Z) (x : Sess) : Sess :=
  mkSess (an_cfg x) (an_phase x) (an_cancel x) (an_shut x) (an_report x) (an_live x) (Some fd) (an_given x ++ [fd]).

(** What a call does after [stop_impl]. *)
Inductive After := JustStop | Answer (text : string) | Build (cfg : ClientConfig).
(** A call between two accesses. *)
Inductive Call :=
  | StopFd (k : After)
  | StopTake (k : After)
  | StopStore (id : nat) (k : After)
  | Building (cfg : ClientConfig)
  | SetFd (id : nat)
  | ClearError (id : nat)
  | SetRunning (id : nat)
  | Spawn (id : nat)
  | StoreEngine (id : nat)
  | WaitReport (id : nat).
(** The session a call has in hand, outside the slot. *)
Definition in_hand (c : Call) : option nat :=
  match c with
  | StopStore i _ | SetFd i | ClearError i | SetRunning i | Spawn i | StoreEngine i => Some i
  | _ => None
  end.

Record Lib := mkLib {
  lb_sessions : gmap nat Sess;
  lb_next : nat;
  lb_engine : option nat;
  lb_fd_tx : option nat;
  lb_error : option string;
  lb_running : bool;
  lb_calls : gmap nat Call;
  lb_answers : list (nat * result string Json);
}.
Definition lib_start : Lib := mkLib ∅ 0 None None None false ∅ [].

Definition set_sess (f : gmap nat Sess -> gmap nat Sess) (s : Lib) : Lib :=
  mkLib (f (lb_sessions s)) (lb_next s) (lb_engine s) (lb_fd_tx s) (lb_error s) (lb_running s) (lb_calls s) (lb_answers s).
Definition set_slots (e t : option nat) (s : Lib) : Lib :=
  mkLib (lb_sessions s) (lb_next s) e t (lb_error s) (lb_running s) (lb_calls s) (lb_answers s).
Definition set_flag (e : option string) (r : bool) (s : Lib) : Lib :=
  mkLib (lb_sessions s) (lb_next s) (lb_engine s) (lb_fd_tx s) e r (lb_calls s) (lb_answers s).
Definition set_call (c : nat) (k : Call) (s : Lib) : Lib :=
  mkLib (lb_sessions s) (lb_next s) (lb_engine s) (lb_fd_tx s) (lb_error s) (lb_running s) (<[c := k]> (lb_calls s)) (lb_answers s).
Definition end_call (c : nat) (a : option (result string Json)) (s : Lib) : Lib :=
  mkLib (lb_sessions s) (lb_next s) (lb_engine s) (lb_fd_tx s) (lb_error s) (lb_running s) (delete c (lb_calls s))
    (lb_answers s ++ match a with Some r => [(c, r)] | None => [] end).
Definition add_sess (cfg : ClientConfig) (s : Lib) : Lib :=
  mkLib (<[lb_next s := new_sess cfg]> (lb_sessions s)) (S (lb_next s)) (lb_engine s) (lb_fd_tx s)
    (lb_error s) (lb_running s) (lb_calls s) (lb_answers s).

(** [stop_impl] holds the lock of the slot until the runtime was told to shut down. *)
Definition holds_lock (k : Call) : bool := match k with StopStore _ _ => true | _ => false end.
Definition engine_locked (s : Lib) : bool :=
  negb (bool_decide (map_Forall (fun _ k => holds_lock k = false) (lb_calls s))).
Definition after_stop (c : nat) (k : After) (s : Lib) : Lib :=
  match k with
  | JustStop => end_call c None s
  | Answer t => end_call c (Some (Err t)) s
  | Build cfg => set_call c (Building cfg) s
  end.

(** [stop_impl] and [connect_impl], one access per step. *)
Definition call_step (c : nat) (k : Call) (s : Lib) : option Lib :=
  match k with
  | StopFd k => Some (set_call c (StopTake k) (set_slots (lb_engine s) None s))
  | StopTake k =>
    if engine_locked s then None else
    match lb_engine s with
    | Some i => Some (set_call c (StopStore i k) (set_sess (alter (stopped_sess true false) i) (set_slots None (lb_fd_tx s) s)))
    | None => Some (after_stop c k s)
    end
  | StopStore i k => Some (after_stop c k (set_sess (alter (stopped_sess false true) i) (set_flag (lb_error s) false s)))
  | Building _ => None
  | SetFd i => Some (set_call c (ClearError i) (set_slots (lb_engine s) (Some i) s))
  | ClearError i => Some (set_call c (SetRunning i) (set_flag None (lb_running s) s))
  | SetRunning i => Some (set_call c (Spawn i) (set_flag (lb_error s) true s))
  | Spawn i => Some (set_call c (StoreEngine i) (set_sess (alter (in_task TRunning) i) s))
  | StoreEngine i =>
    if engine_locked s then None else
    (** The handle the slot held is dropped, and its runtime with it. *)
    let s' := match lb_engine s with Some o => set_sess (alter (stopped_sess false true) o) s | None => s end in
    Some (set_call c (WaitReport i) (set_slots (Some i) (lb_fd_tx s) s'))
  | WaitReport i =>
    x ← lb_sessions s !! i;
    r ← an_report x;
    Some match r with
         | Ok v => end_call c (Some (Ok v)) s
         | Err e => set_call c (StopFd (Answer e)) s
         end
  end.

(** The receiver of the oneshot channel: dropped once [engine::run] is over. *)
Definition awaits_fd (x : Sess) : bool :=
  match an_phase x with TNew | TRunning | TAwaitFd | TProxying => true | _ => false end.
(** [start_bridge_impl]; the lock is held while the descriptor is sent. *)
Definition start_bridge (fd : Z) (s : Lib) : result string unit * Lib :=
  match lb_fd_tx s with
  | Some i =>
    let s' := set_slots (lb_engine s) None s in
    match lb_sessions s !! i with
    | Some x =>
      if awaits_fd x then (Ok tt, set_sess (insert i (deliver_fd fd x)) s')
      else (Err "engine is not awaiting a fd", s')
    | None => (Err "engine is not awaiting a fd", s')
    end
  | None => (Err "no pending connection", s)
  end.

(** The task of a session: the answer of the first phase, the descriptor, the end of the
    bridge or proxy, and what follows; a runtime that shuts down drops it at an await. *)
Inductive tevent :=
  | TkFirst (r : Result Welcome)
  | TkFd
  | TkEnd (r : Result unit)
  | TkError
  | TkStore
  | TkDrop.
Definition first_phase (cfg : ClientConfig) (r : Result Welcome) : Phase1 :=
  match r with Ok w => established cfg w | Err e => failed e end.
Definition show_first (p : Phase1) (live : LiveStatus) : LiveStatus :=
  match p1_shown p with Some ip => show_assigned ip live | None => live end.
Definition awaiting (p : TaskPhase) : bool :=
  match p with TRunning | TAwaitFd | TBridging _ | TProxying => true | _ => false end.

Definition task_step (i : nat) (x : Sess) (e : tevent) (s : Lib) : option Lib :=
  match e, an_phase x with
  | TkFirst r, TRunning =>
    let p := first_phase (an_cfg x) r in
    let x' := reported (p1_report p) (show_first p (an_live x)) x in
    Some (set_sess (insert i (in_task match p1_next p with
      | Ok (AwaitFd _ _) => TAwaitFd
      | Ok (RunProxy _) => TProxying
      | Err e => TFailed (show_error e)
      end x')) s)
  | TkFd, TAwaitFd =>
    match an_fd x with
    | Some fd => Some (set_sess (insert i (in_task (TBridging fd) x)) s)
    | None => if decide (lb_fd_tx s = Some i) then None else Some (set_sess (insert i (in_task TEnding x)) s)
    end
  | TkEnd r, TBridging _ | TkEnd r, TProxying =>
    Some (set_sess (insert i (in_task match r with Ok _ => TEnding | Err e => TFailed (show_error e) end x)) s)
  | TkError, TFailed t => Some (set_flag (Some t) (lb_running s) (set_sess (insert i (in_task TEnding x)) s))
  | TkStore, TEnding => Some (set_flag (lb_error s) false (set_sess (insert i (in_task TDone x)) s))
  | TkDrop, p => if an_shut x && awaiting p then Some (set_sess (insert i (in_task TDropped x)) s) else None
  | _, _ => None
  end.

Inductive levent :=
  | LConnect (c : nat) (parsed : result string ClientConfig)
  | LStop (c : nat)
  | LGo (c : nat)
  | LBuilt (c : nat) (r : result string unit)
  | LTimeout (c : nat)
  | LBridge (fd : Z)
  | LTask (i : nat) (e : tevent).

Definition fresh_call (c : nat) (s : Lib) : bool := bool_decide (lb_calls s !! c = None).

Definition lstep (s : Lib) (e : levent) : option Lib :=
  match e with
  | LConnect c parsed =>
    if fresh_call c s then
      Some match parsed with
           | Ok cfg => set_call c (StopFd (Build cfg)) s
           | Err t => end_call c (Some (Err t)) s
           end
    else None
  | LStop c => if fresh_call c s then Some (set_call c (StopFd JustStop) s) else None
  | LGo c => k ← lb_calls s !! c; call_step c k s
  | LBuilt c r =>
    match lb_calls s !! c with
    | Some (Building cfg) =>
      Some match r with
           | Ok _ => set_call c (SetFd (lb_next s)) (add_sess cfg s)
           | Err t => end_call c (Some (Err t)) s
           end
    | _ => None
    end
  | LTimeout c =>
    match lb_calls s !! c with
    | Some (WaitReport i) =>
      x ← lb_sessions s !! i;
      match an_report x with
      | None => Some (set_call c (StopFd (Answer "timed out connecting")) s)
      | Some _ => None
      end
    | _ => None
    end
  | LBridge fd => Some (start_bridge fd s).2
  | LTask i e => x ← lb_sessions s !! i; task_step i x e s
  end.
Abbreviation lrun := (runs lstep).

(** ** What Kotlin reads *)

Definition peer_json (p : PeerInfo) : Json :=
  JObj [("ip", JStr (show_ip (V4 (peer_ip p)))); ("name", JStr (peer_name p))].
Definition status_json (s : Lib) : Json :=
  let live := match i ← lb_engine s; lb_sessions s !! i with Some x => an_live x | None => no_status end in
  JObj [("running", JBool (lb_running s));
        ("assigned_ip", j_opt ((fun a => show_ip (V4 a)) <$> ls_ip live));
        ("peers", JArr (map peer_json (ls_peers live)));
        ("error", j_opt (lb_error s))].

(** ** One descriptor per session *)

(** The descriptors given to a session, and where the last one is. *)
Definition fd_ok (tx : option nat) (i : nat) (x : Sess) : Prop :=
  match an_fd x with
  | None => an_given x = [] /\ forall fd, an_phase x <> TBridging fd
  | Some fd => an_given x = [fd] /\ tx <> Some i /\ forall g, an_phase x = TBridging g -> g = fd
  end.

(** A sender that is about to be published is new. *)
Record fd_inv (s : Lib) : Prop := {
  fi_sess i x : lb_sessions s !! i = Some x -> fd_ok (lb_fd_tx s) i x /\ (i < lb_next s)%nat;
  fi_tx i : lb_fd_tx s = Some i -> (i < lb_next s)%nat;
  fi_new c i x : lb_calls s !! c = Some (SetFd i) -> lb_sessions s !! i = Some x -> an_fd x = None;
  fi_call c i : lb_calls s !! c = Some (SetFd i) -> (i < lb_next s)%nat /\ lb_fd_tx s <> Some i;
  fi_one c d i : lb_calls s !! c = Some (SetFd i) -> lb_calls s !! d = Some (SetFd i) -> c = d;
}.

(** Steps that give no descriptor and publish no sender. *)
Definition same_fd (s : Lib) (m : gmap nat Sess) : Prop := forall i x', m !! i = Some x' ->
  exists x, lb_sessions s !! i = Some x /\ an_fd x' = an_fd x /\ an_given x' = an_given x /\
    (forall g, an_phase x' = TBridging g -> an_phase x = TBridging g \/ an_fd x = Some g).
Record fd_quiet (s s' : Lib) : Prop := {
  fq_sess : same_fd s (lb_sessions s');
  fq_next : lb_next s' = lb_next s;
  fq_tx : lb_fd_tx s' = None \/ lb_fd_tx s' = lb_fd_tx s;
  fq_calls c i : lb_calls s' !! c = Some (SetFd i) -> lb_calls s !! c = Some (SetFd i);
}.

Lemma fd_ok_quiet tx tx' i x x' :
  (tx' = None \/ tx' = tx) -> an_fd x' = an_fd x -> an_given x' = an_given x ->
  (forall g, an_phase x' = TBridging g -> an_phase x = TBridging g \/ an_fd x = Some g) ->
  fd_ok tx i x -> fd_ok tx' i x'.
Proof.
  unfold fd_ok. intros Ht -> -> Hp. destruct (an_fd x) as [fd|].
  - intros (? & ? & Hg). split_and!; [done|destruct Ht; congruence|].
    intros g Hx. destruct (Hp _ Hx) as [?|[= ?]]; auto.
  - intros [? Hg]. split; [done|]. intros fd Hx. destruct (Hp _ Hx) as [?|?]; [by apply (Hg fd)|done].
Qed.
Lemma fd_quiet_inv s s' : fd_quiet s s' -> fd_inv s -> fd_inv s'.
Proof.
  intros [Hs Hn Ht Hc] [Is It In Ic Io]. constructor; rewrite ?Hn.
  - intros i x' Hx'. destruct (Hs _ _ Hx') as (x & Hx & ? & ? & ?). destruct (Is _ _ Hx) as [Hok ?].
    split; [by eapply fd_ok_quiet|done].
  - intros i Hi. apply It. destruct Ht; congruence.
  - intros c i x' Hk Hx'. destruct (Hs _ _ Hx') as (x & Hx & -> & _). eauto.
  - intros c i Hk. destruct (Ic _ _ (Hc _ _ Hk)) as [? ?]. split; [done|]. destruct Ht; congruence.
  - eauto.
Qed.

Lemma same_fd_refl s : same_fd s (lb_sessions s).
Proof. intros i x Hx. exists x. split_and!; auto. Qed.
Lemma same_fd_alter s f j :
  (forall x, an_fd (f x) = an_fd x /\ an_given (f x) = an_given x /\
     (an_phase (f x) = an_phase x \/ forall g, an_phase (f x) <> TBridging g)) ->
  same_fd s (alter f j (lb_sessions s)).
Proof.
  intros Hf i x' Hx'. apply lookup_alter_Some in Hx' as [(-> & x & Hx & ->)|[_ Hx]].
  - exists x. destruct (Hf x) as (? & ? & Hp). split_and!; try done. intros g Hg.
    destruct Hp as [Hp|Hp]; [rewrite Hp in Hg; by left|by destruct (Hp g)].
  - exists x'. split_and!; auto.
Qed.
Lemma same_fd_insert s j x x' :
  lb_sessions s !! j = Some x -> an_fd x' = an_fd x -> an_given x' = an_given x ->
  (forall g, an_phase x' = TBridging g -> an_fd x = Some g) -> same_fd s (<[j := x']> (lb_sessions s)).
Proof.
  intros Hx Hf Hg Hp i y Hy. apply lookup_insert_Some in Hy as [[<- <-]|[_ Hy]]; [exists x; split_and!; auto|].
  exists y. split_and!; auto.
Qed.
Lemma no_set_fd (calls : gmap nat Call) c k d i : in_hand k = None \/ (forall j, k <> SetFd j) ->
  (<[c := k]> calls) !! d = Some (SetFd i) -> calls !! d = Some (SetFd i).
Proof. intros Hk. rewrite lookup_insert_Some. intros [[_ ->]|[_ ?]]; [|done]. destruct Hk as [Hk|Hk]; [done|by destruct (Hk i)]. Qed.
Lemma delete_set_fd (calls : gmap nat Call) c d i :
  delete c calls !! d = Some (SetFd i) -> calls !! d = Some (SetFd i).
Proof. rewrite lookup_delete_Some. by intros [_ ?]. Qed.
#[local] Hint Resolve same_fd_refl delete_set_fd : fd.
#[local] Hint Extern 3 (lb_calls _ !! _ = Some (SetFd _)) =>
  eapply no_set_fd; [|eassumption]; (by left) || (by right) : fd.

Ltac quiet := constructor; cbn; auto with fd; try (intros ? ?; first [by apply delete_set_fd|by apply no_set_fd; auto; right]).

Lemma after_stop_quiet c k s s1 : fd_quiet s s1 -> fd_quiet s (after_stop c k s1).
Proof.
  intros [Hs Hn Ht Hc]. destruct k; constructor; cbn; auto.
  - intros d i Hd. by apply Hc, (delete_set_fd _ c).
  - intros d i Hd. by apply Hc, (delete_set_fd _ c).
  - intros d i Hd. apply Hc. eapply no_set_fd; [|exact Hd]. by left.
Qed.
Lemma stopped_same s c d j : same_fd s (alter (stopped_sess c d) j (lb_sessions s)).
Proof. apply same_fd_alter. intros x. split_and!; auto. Qed.
#[local] Hint Resolve stopped_same : fd.

Lemma call_quiet c k s s' :
  (forall i, k <> SetFd i) -> lb_calls s !! c = Some k -> call_step c k s = Some s' -> fd_quiet s s'.
Proof.
  intros Hk Hc H. destruct k; cbn [call_step] in H; try done.
  - injection H as <-. quiet.
  - destruct (engine_locked s); [done|]. destruct (lb_engine s); injection H as <-.
    + quiet.
    + apply after_stop_quiet. by quiet.
  - injection H as <-. apply after_stop_quiet. by quiet.
  - by destruct (Hk id).
  - injection H as <-. quiet.
  - injection H as <-. quiet.
  - injection H as <-. quiet. apply same_fd_alter. intros x. split_and!; auto.
  - destruct (engine_locked s); [done|]. injection H as <-. destruct (lb_engine s); quiet.
  - destruct (lb_sessions s !! id) as [x|]; cbn in H; [|done]. destruct (an_report x) as [[v|e]|]; cbn in H; [| |done];
      injection H as <-; quiet.
Qed.

Lemma task_quiet i x e s s' : lb_sessions s !! i = Some x -> task_step i x e s = Some s' -> fd_quiet s s'.
Proof.
  intros Hx H. unfold task_step in H.
  destruct e, (an_phase x) eqn:Ep; try done; repeat (case_match; try done); simplify_eq; constructor; cbn; auto;
    (apply (same_fd_insert _ _ x); cbn; [done|done|done|intros g Hg]); try done; simplify_eq; try done.
Qed.

(** The steps that are not quiet. *)
Lemma set_fd_inv c i s :
  fd_inv s -> lb_calls s !! c = Some (SetFd i) -> fd_inv (set_call c (ClearError i) (set_slots (lb_engine s) (Some i) s)).
Proof.
  intros [Is It In Ic Io] Hc. destruct (Ic _ _ Hc) as [Hi Ht].
  assert (forall d j, <[c := ClearError i]> (lb_calls s) !! d = Some (SetFd j) -> d <> c /\ lb_calls s !! d = Some (SetFd j)) as Hne.
  { intros d j [[_ ?]|[? ?]]%lookup_insert_Some; [done|]. by split. }
  constructor; cbn.
  - intros j x Hx. destruct (Is _ _ Hx) as [Hok Hj]. split; [|done]. unfold fd_ok in *.
    destruct (an_fd x) as [fd|] eqn:Ef; [|done]. destruct Hok as (? & ? & ?). split_and!; try done.
    intros [= <-]. by rewrite (In _ _ _ Hc Hx) in Ef.
  - by intros j [= <-].
  - intros d j x [_ Hd]%Hne Hx. eauto.
  - intros d j [Hd Hk]%Hne. split; [by apply (Ic d)|]. intros [= <-]. apply Hd. eauto.
  - intros d1 d2 j [_ H1]%Hne [_ H2]%Hne. eauto.
Qed.
Lemma built_inv c cfg s :
  fd_inv s -> lb_calls s !! c = Some (Building cfg) -> fd_inv (set_call c (SetFd (lb_next s)) (add_sess cfg s)).
Proof.
  intros [Is It In Ic Io] Hc.
  assert (forall d j, <[c := SetFd (lb_next s)]> (lb_calls s) !! d = Some (SetFd j) ->
    (d = c /\ j = lb_next s) \/ lb_calls s !! d = Some (SetFd j)) as Hd.
  { intros d j [[-> [= <-]]|[_ ?]]%lookup_insert_Some; auto. }
  constructor; cbn.
  - intros j x [[<- <-]|[_ Hx]]%lookup_insert_Some; [split; [done|lia]|].
    destruct (Is _ _ Hx). split; [done|lia].
  - intros j Hj. apply It in Hj. lia.
  - intros d j x [[-> ->]|Hk]%Hd; [by rewrite lookup_insert_eq; intros [= <-]|].
    intros [[<- <-]|[_ Hx]]%lookup_insert_Some; [done|eauto].
  - intros d j [[-> ->]|Hk]%Hd; [split; [lia|]|destruct (Ic _ _ Hk); split; [lia|done]].
    intros Ht. apply It in Ht. lia.
  - intros d1 d2 j [[-> ->]|H1]%Hd [[-> E2]|H2]%Hd; try done; [|subst|eauto].
    + apply Ic in H2 as [? _]. lia.
    + apply Ic in H1 as [? _]. lia.
Qed.
Lemma bridge_inv fd s : fd_inv s -> fd_inv (start_bridge fd s).2.
Proof.
  intros Hi. unfold start_bridge. destruct (lb_fd_tx s) as [i|] eqn:Et; [|done].
  assert (fd_quiet s (set_slots (lb_engine s) None s)) as Hq by quiet.
  destruct (lb_sessions s !! i) as [x|] eqn:Hx; [|by eapply fd_quiet_inv].
  destruct (awaits_fd x) eqn:Ea; [|by eapply fd_quiet_inv].
  pose proof (fd_quiet_inv _ _ Hq Hi) as [Is It In Ic Io]. destruct (fi_sess _ Hi _ _ Hx) as [Hok Hlt].
  unfold fd_ok in Hok. constructor; cbn in *; eauto.
  - intros j y [[<- <-]|[_ Hy]]%lookup_insert_Some; [|auto]. split; [|done]. unfold fd_ok. cbn.
    destruct (an_fd x); [by destruct Hok as (_ & ? & _)|]. destruct Hok as [-> Hp].
    split_and!; try done. intros g Hg. by destruct (Hp g).
  - intros c j y Hc [[<- <-]|[_ Hy]]%lookup_insert_Some; [|eauto].
    apply (fi_call _ Hi) in Hc as [_ Hc]. done.
Qed.

Lemma lstep_fd s e s' : fd_inv s -> lstep s e = Some s' -> fd_inv s'.
Proof.
  intros Hi H. destruct e; cbn [lstep] in H.
  - destruct (fresh_call c s); [|done]. injection H as <-. eapply fd_quiet_inv; [|done]. destruct parsed; quiet.
  - destruct (fresh_call c s); [|done]. injection H as <-. eapply fd_quiet_inv; [|done]. quiet.
  - apply bind_Some in H as (k & Hk & H).
    destruct k; try (eapply fd_quiet_inv; [|done]; eapply call_quiet; [|done|done]; done).
    injection H as <-. by apply set_fd_inv.
  - destruct (lb_calls s !! c) as [[]|] eqn:Hc; try done. injection H as <-. destruct r; [by apply built_inv|].
    eapply fd_quiet_inv; [|done]. quiet.
  - destruct (lb_calls s !! c) as [[]|] eqn:Hc; try done. apply bind_Some in H as (x & _ & H).
    destruct (an_report x); [done|]. injection H as <-. eapply fd_quiet_inv; [|done]. quiet.
  - injection H as <-. by apply bridge_inv.
  - apply bind_Some in H as (x & Hx & H). eapply fd_quiet_inv; [|done]. by eapply task_quiet.
Qed.
Lemma lrun_fd es s s' : fd_inv s -> lrun es s = Some s' -> fd_inv s'.
Proof. apply (runs_inv lstep fd_inv), lstep_fd. Qed.
Lemma lib_start_fd : fd_inv lib_start.
Proof. by constructor. Qed.

(** ** One session in the slot *)

Definition live (x : Sess) : bool := awaiting (an_phase x).
Definition held_in (e : option nat) (calls : gmap nat Call) (i : nat) : Prop :=
  e = Some i \/ exists c k, calls !! c = Some k /\ in_hand k = Some i.
Definition held (s : Lib) : nat -> Prop := held_in (lb_engine s) (lb_calls s).
(** A session whose runtime was not told to stop is the slot's, or some call has it. *)
Definition slot_inv (s : Lib) : Prop :=
  forall i x, lb_sessions s !! i = Some x -> an_shut x = false -> held s i.

(** Sessions are only ever told to stop, and keep their holder. *)
Lemma slot_mono s s' :
  (forall i x', lb_sessions s' !! i = Some x' -> an_shut x' = false ->
     exists x, lb_sessions s !! i = Some x /\ an_shut x = false /\ (held s i -> held s' i)) ->
  slot_inv s -> slot_inv s'.
Proof. intros Hs Hi i x' Hx' Hn. destruct (Hs _ _ Hx' Hn) as (x & Hx & Hn' & Hh). eauto. Qed.

Lemma held_call c k k' e calls i :
  (calls !! c = Some k \/ calls !! c = None) ->
  (in_hand k = Some i -> in_hand k' = Some i) -> held_in e calls i -> held_in e (<[c := k']> calls) i.
Proof.
  intros Hc Hk [He|(d & y & Hy & Hh)]; [by left|]. right. destruct (decide (d = c)) as [->|Hne].
  - exists c, k'. split; [apply lookup_insert_eq|]. destruct Hc; [|congruence]. simplify_eq. auto.
  - exists d, y. split; [|done]. by rewrite lookup_insert_ne.
Qed.
Lemma held_end c k e calls i :
  (calls !! c = Some k \/ calls !! c = None) -> in_hand k <> Some i -> held_in e calls i -> held_in e (delete c calls) i.
Proof.
  intros Hc Hk [He|(d & y & Hy & Hh)]; [by left|]. right. destruct (decide (d = c)) as [->|Hne].
  - destruct Hc; congruence.
  - exists d, y. split; [|done]. by rewrite lookup_delete_ne.
Qed.
Lemma held_after c k f s i :
  lb_calls s !! c = Some k -> in_hand k <> Some i -> held s i -> held (after_stop c f s) i.
Proof. intros Hc Hk. destruct f; cbn; [eapply held_end|eapply held_end|eapply held_call]; eauto. done. Qed.

Lemma sessions_after c f s : lb_sessions (after_stop c f s) = lb_sessions s.
Proof. by destruct f. Qed.
Lemma alter_stopped (m : gmap nat Sess) (a b : bool) j i x' : alter (stopped_sess a b) j m !! i = Some x' ->
  an_shut x' = false -> exists x, m !! i = Some x /\ an_shut x = false /\ (b = true -> i <> j).
Proof.
  intros [(-> & x & Hx & ->)|[Hne Hx]]%lookup_alter_Some Hs; [|eauto].
  exists x. cbn in Hs. apply orb_false_iff in Hs as [? ->]. auto.
Qed.

Lemma call_slot c k s s' : slot_inv s -> lb_calls s !! c = Some k -> call_step c k s = Some s' -> slot_inv s'.
Proof.
  intros Hi Hk H. revert Hi. destruct k; cbn [call_step] in H; try done.
  - injection H as <-. apply slot_mono. intros i x Hx Hn. exists x. split_and!; try done.
    by apply (held_call c (StopFd k)); [left|].
  - destruct (engine_locked s); [done|]. destruct (lb_engine s) as [o|] eqn:Eo; injection H as <-.
    + apply slot_mono. intros i x Hx Hn. apply alter_stopped in Hx as (y & Hy & Hs & _); [|done]. exists y. split_and!; try done.
      intros [He|(d & z & Hz & Hh)]; right; cbn.
      * exists c, (StopStore o k). split; [apply lookup_insert_eq|]. cbn. congruence.
      * exists d, z. split; [|done]. rewrite lookup_insert_ne; [done|]. intros <-. by simplify_eq/=.
    + apply slot_mono. rewrite sessions_after. intros i x Hx Hn. exists x. split_and!; try done.
      by apply (held_after _ (StopTake k)).
  - injection H as <-. apply slot_mono. rewrite sessions_after. intros i x Hx Hn.
    apply alter_stopped in Hx as (y & Hy & Hs & Hne); [|done]. exists y. split_and!; try done.
    intros Hh. apply (held_after _ (StopStore id k)); [done|cbn; intros [= ->]; by apply Hne|done].
  - injection H as <-. apply slot_mono. intros i x Hx Hn. exists x. split_and!; try done.
    by apply (held_call c (SetFd id)); [left|].
  - injection H as <-. apply slot_mono. intros i x Hx Hn. exists x. split_and!; try done.
    by apply (held_call c (ClearError id)); [left|].
  - injection H as <-. apply slot_mono. intros i x Hx Hn. exists x. split_and!; try done.
    by apply (held_call c (SetRunning id)); [left|].
  - injection H as <-. apply slot_mono. intros i x Hx Hn. cbn in Hx.
    assert (exists y, lb_sessions s !! i = Some y /\ an_shut y = false) as (y & Hy & Hs)
      by (apply lookup_alter_Some in Hx as [(-> & y & Hy & ->)|[_ Hy]]; eauto).
    exists y. split_and!; try done. by apply (held_call c (Spawn id)); [left|].
  - destruct (engine_locked s); [done|]. injection H as <-. apply slot_mono. intros i x Hx Hn.
    assert (exists y, lb_sessions s !! i = Some y /\ an_shut y = false /\ (lb_engine s = Some i -> False)) as (y & Hy & Hs & Hne).
    { destruct (lb_engine s) as [o|]; [|by exists x]. apply alter_stopped in Hx as (y & Hy & Hs & Hne); [|done].
      exists y. split_and!; try done. intros [= ->]. by apply Hne. }
    exists y. split_and!; try done. intros [He|(d & z & Hz & Hh)]; [done|]. destruct (decide (d = c)) as [->|Hd].
    + left. rewrite Hk in Hz. injection Hz as <-. done.
    + right. exists d, z. split; [|done]. destruct (lb_engine s); cbn; by rewrite lookup_insert_ne.
  - destruct (lb_sessions s !! id) as [y|]; cbn in H; [|done].
    destruct (an_report y) as [[v|e]|]; cbn in H; [| |done]; injection H as <-; apply slot_mono;
      intros i x Hx Hn; exists x; split_and!; try done.
    + by apply (held_end c (WaitReport id)); [left|].
    + by apply (held_call c (WaitReport id)); [left|].
Qed.
Lemma task_slot i x e s s' : lb_sessions s !! i = Some x -> slot_inv s -> task_step i x e s = Some s' -> slot_inv s'.
Proof.
  intros Hx Hi H. revert Hi.
  assert (exists x' e' r', s' = set_flag e' r' (set_sess (insert i x') s) /\ an_shut x' = an_shut x) as (x' & e' & r' & -> & Hs).
  { unfold task_step in H. destruct e, (an_phase x); try done; repeat (case_match; try done); simplify_eq;
      eexists _, _, _; (split; [reflexivity|done]). }
  apply slot_mono. intros j y Hy Hn. cbn in Hy. apply lookup_insert_Some in Hy as [[<- <-]|[_ Hy]]; [|by exists y].
  exists x. split_and!; try done. congruence.
Qed.
Lemma lstep_slot s e s' : slot_inv s -> lstep s e = Some s' -> slot_inv s'.
Proof.
  intros Hi H. destruct e; cbn [lstep] in H.
  - unfold fresh_call in H. destruct (bool_decide _) eqn:Hf; [|done]. apply bool_decide_eq_true in Hf. injection H as <-.
    revert Hi. destruct parsed; apply slot_mono; intros i x Hx Hn; exists x; split_and!; try done.
    + by apply (held_call c (StopFd JustStop)); [right|].
    + by apply (held_end c (StopFd JustStop)); [right|].
  - unfold fresh_call in H. destruct (bool_decide _) eqn:Hf; [|done]. apply bool_decide_eq_true in Hf. injection H as <-.
    revert Hi. apply slot_mono; intros i x Hx Hn; exists x; split_and!; try done.
    by apply (held_call c (StopFd JustStop)); [right|].
  - apply bind_Some in H as (k & Hk & H). by eapply call_slot.
  - destruct (lb_calls s !! c) as [[]|] eqn:Hc; try done. injection H as <-. revert Hi. destruct r.
    + intros Hi i x Hx Hn. cbn in Hx. apply lookup_insert_Some in Hx as [[<- <-]|[_ Hx]].
      * right. exists c, (SetFd (lb_next s)). split; [apply lookup_insert_eq|done].
      * apply (held_call c (Building cfg)); [by left|done|]. by apply (Hi i x).
    + apply slot_mono; intros i x Hx Hn; exists x; split_and!; try done.
      by apply (held_end c (Building cfg)); [left|].
  - destruct (lb_calls s !! c) as [[]|] eqn:Hc; try done. apply bind_Some in H as (x & _ & H).
    destruct (an_report x); [done|]. injection H as <-. revert Hi. apply slot_mono; intros i y Hy Hn; exists y; split_and!; try done.
    by apply (held_call c (WaitReport id)); [left|].
  - injection H as <-. revert Hi. unfold start_bridge. destruct (lb_fd_tx s) as [i|]; [|done].
    destruct (lb_sessions s !! i) as [x|] eqn:Hx; [destruct (awaits_fd x)|];
      apply slot_mono; intros j y Hy Hn; try by exists y.
    cbn in Hy. apply lookup_insert_Some in Hy as [[<- <-]|[_ Hy]]; [by exists x|by exists y].
  - apply bind_Some in H as (x & Hx & H). by eapply task_slot.
Qed.
Lemma lrun_slot es s s' : slot_inv s -> lrun es s = Some s' -> slot_inv s'.
Proof. apply (runs_inv lstep slot_inv), lstep_slot. Qed.

(** Single steps of a run. *)
Lemma stop_step c s : lb_calls s !! c = None -> lstep s (LStop c) = Some (set_call c (StopFd JustStop) s).
Proof. intros H. cbn [lstep]. unfold fresh_call. by rewrite bool_decide_eq_true_2. Qed.
Lemma go_step c k s s' : lb_calls s !! c = Some k -> call_step c k s = Some s' -> lstep s (LGo c) = Some s'.
Proof. intros H. cbn [lstep]. by rewrite H. Qed.
Lemma connect_step c cfg s :
  lb_calls s !! c = None -> lstep s (LConnect c (Ok cfg)) = Some (set_call c (StopFd (Build cfg)) s).
Proof. intros H. cbn [lstep]. unfold fresh_call. by rewrite bool_decide_eq_true_2. Qed.
Lemma built_step c cfg s :
  lb_calls s !! c = Some (Building cfg) -> lstep s (LBuilt c (Ok tt)) = Some (set_call c (SetFd (lb_next s)) (add_sess cfg s)).
Proof. intros H. cbn [lstep]. by rewrite H. Qed.
Lemma task_run i x e s s' :
  lb_sessions s !! i = Some x -> task_step i x e s = Some s' -> lstep s (LTask i e) = Some s'.
Proof. intros H. cbn [lstep]. by rewrite H. Qed.
(** The first phase of a session that was welcomed. *)
Definition welcomed (w : Welcome) (x : Sess) : Sess :=
  in_task (if is_stream (cc_mode (an_cfg x)) then TProxying else TAwaitFd)
    (reported (Ok (netcfg_json w (cc_mode (an_cfg x)))) (show_assigned (assigned_ip w) (an_live x)) x).
Lemma first_step i x w s :
  an_phase x = TRunning -> task_step i x (TkFirst (Ok w)) s = Some (set_sess (insert i (welcomed w x)) s).
Proof. intros H. unfold task_step, welcomed. rewrite H. cbn. by destruct (cc_mode (an_cfg x)). Qed.
Lemma ends_step i x (b : bool) s :
  an_phase x = (if b then TProxying else TAwaitFd) -> an_fd x = None -> lb_fd_tx s = None ->
  task_step i x (if b then TkEnd (Ok tt) else TkFd) s = Some (set_sess (insert i (in_task TEnding x)) s).
Proof. intros H Hf Ht. unfold task_step. destruct b; rewrite H; [done|]. by rewrite Hf, Ht, decide_False. Qed.
Lemma unlocked s : map_Forall (fun _ k => holds_lock k = false) (lb_calls s) -> engine_locked s = false.
Proof. intros H. unfold engine_locked. by rewrite bool_decide_eq_true_2. Qed.

(** ** The flag without a connect *)

Definition starts (e : levent) : bool := match e with LConnect _ _ => true | _ => false end.
(** A call that will only stop. *)
Definition only_stops (k : Call) : Prop :=
  match k with StopFd JustStop | StopTake JustStop | StopStore _ JustStop => True | _ => False end.
Definition quiet_flag (s : Lib) : Prop := lb_running s = false /\ map_Forall (fun _ => only_stops) (lb_calls s).

Lemma quiet_flag_step s e s' : quiet_flag s -> starts e = false -> lstep s e = Some s' -> quiet_flag s'.
Proof.
  intros [Hr Hc] He H. destruct e; try done; cbn [lstep] in H.
  - destruct (fresh_call c s); [|done]. injection H as <-. split; [done|]. by apply map_Forall_insert_2.
  - apply bind_Some in H as (k & Hk & H). pose proof (Hc _ _ Hk) as Hs.
    assert (forall a, map_Forall (fun _ => only_stops) (lb_calls (end_call c a s))) as Hd
      by (intros a; by apply map_Forall_delete).
    destruct k as [[]|[]|? []|?|?|?|?|?|?|?]; try done; cbn [call_step after_stop] in H.
    + injection H as <-. split; [done|]. by apply map_Forall_insert_2.
    + destruct (engine_locked s); [done|]. destruct (lb_engine s); injection H as <-; (split; [done|]); [|apply (Hd None)].
      by apply map_Forall_insert_2.
    + injection H as <-. split; [done|]. apply (Hd None).
  - destruct (lb_calls s !! c) as [[]|] eqn:E; try done. by apply Hc in E.
  - destruct (lb_calls s !! c) as [[]|] eqn:E; try done. by apply Hc in E.
  - injection H as <-. unfold start_bridge. repeat case_match; done.
  - apply bind_Some in H as (x & Hx & H). unfold task_step in H.
    destruct e, (an_phase x); try done; repeat (case_match; try done); simplify_eq; by split.
Qed.
Lemma quiet_flag_run es s s' :
  quiet_flag s -> Forall (fun e => starts e = false) es -> lrun es s = Some s' -> quiet_flag s'.
Proof. apply (runs_inv_of lstep quiet_flag). intros ? ? ?. apply quiet_flag_step. Qed.

(** ** Properties *)

(** C19. A descriptor goes to one session, once.  Whatever calls from Kotlin overlap and
    however the engine tasks proceed: a session is given at most one descriptor in its
    life, the bridge of a session runs on the descriptor it was given, a published
    sender belongs to a session that has none yet, and handing over a descriptor
    reports success exactly when it was put into the channel of such a session; a
    second hand-over without a new connect is refused. *)
Theorem android_fd_once (es : list levent) (s : Lib) (fd : Z) :
  lrun es lib_start = Some s ->
  (forall i x, lb_sessions s !! i = Some x -> (length (an_given x) <= 1)%nat /\
     (forall g, an_phase x = TBridging g -> an_given x = [g]) /\
     (lb_fd_tx s = Some i -> an_given x = [])) /\
  (is_ok (start_bridge fd s).1 = true <-> exists i x, lb_fd_tx s = Some i /\ lb_sessions s !! i = Some x /\
     awaits_fd x = true /\ lb_sessions (start_bridge fd s).2 !! i = Some (deliver_fd fd x)) /\
  (start_bridge fd (start_bridge fd s).2).1 = Err "no pending connection".
Proof.
  intros Hr. destruct (lrun_fd _ _ _ lib_start_fd Hr) as [Is _ _ _ _]. split; [|split].
  - intros i x Hx. destruct (Is _ _ Hx) as [Hok _]. unfold fd_ok in Hok.
    destruct (an_fd x) as [g|]; [destruct Hok as (-> & ? & Hp)|destruct Hok as (-> & Hp)]; split_and!; try done; try (by cbn; lia).
    + intros g' Hg'. by rewrite (Hp _ Hg').
    + intros g' Hg'. by destruct (Hp g').
  - unfold start_bridge. destruct (lb_fd_tx s) as [i|]; cbn; [|split; [done|naive_solver]].
    destruct (lb_sessions s !! i) as [x|] eqn:Hx; cbn; [|split; [done|naive_solver]].
    destruct (awaits_fd x) eqn:Ea; cbn.
    + split; [|done]. intros _. exists i, x. split_and!; try done. apply lookup_insert_eq.
    + split; [done|]. intros (j & y & [= <-] & Hy & Hw & _). congruence.
  - unfold start_bridge at 2. destruct (lb_fd_tx s) as [i|] eqn:Et; cbn; [|unfold start_bridge; by rewrite Et].
    destruct (lb_sessions s !! i) as [x|]; [destruct (awaits_fd x)|]; done.
Qed.

(** One session at a time.  In every reachable state, a session whose runtime was not
    told to shut down is the one in the slot, or some call has it in its hands; so once
    no call is under way there is at most one such session, it is the slot's, and after
    a call that only stops there is none. *)
Theorem android_one_session (es : list levent) (s : Lib) :
  lrun es lib_start = Some s -> lb_calls s = ∅ ->
  (forall i x, lb_sessions s !! i = Some x -> an_shut x = false -> lb_engine s = Some i) /\
  forall c, exists s', lrun ([LStop c; LGo c; LGo c] ++ (if lb_engine s then [LGo c] else [])) s = Some s' /\
    lb_calls s' = ∅ /\ map_Forall (fun _ x => an_shut x = true) (lb_sessions s') /\
    lb_engine s' = None /\ lb_fd_tx s' = None.
Proof.
  intros Hr Hc.
  assert (slot_inv s) as Hi by (eapply lrun_slot; [|exact Hr]; by intros i x Hx; cbn in Hx; rewrite lookup_empty in Hx).
  assert (forall i x, lb_sessions s !! i = Some x -> an_shut x = false -> lb_engine s = Some i) as Hone.
  { intros i x Hx Hn. destruct (Hi _ _ Hx Hn) as [?|(c & k & Hk & _)]; [done|]. by rewrite Hc, lookup_empty in Hk. }
  split; [done|]. intros c. clear Hi Hr. destruct s as [sessions nx eng tx err run calls ans]. cbn in Hc, Hone. cbn [lb_engine]. subst calls.
  destruct eng as [o|]; eexists; (split; [|split_and!]).
  - cbn [app]. eapply runs_push; [by apply stop_step, lookup_empty|].
    eapply runs_push; [eapply go_step; [apply lookup_insert_eq|reflexivity]|].
    eapply runs_push; [eapply go_step; [apply lookup_insert_eq|cbn [call_step]; rewrite unlocked; [reflexivity|]]|].
    { repeat (apply map_Forall_insert_2; [done|]). apply map_Forall_empty. }
    eapply runs_push; [eapply go_step; [apply lookup_insert_eq|reflexivity]|]. reflexivity.
  - cbn. by rewrite !delete_insert_eq.
  - cbn. intros i x Hx. destruct (an_shut x) eqn:Hn; [done|].
    apply alter_stopped in Hx as (y & Hy & Hs & Hne); [|done].
    apply alter_stopped in Hy as (z & Hz & Hs' & _); [|done]. destruct (Hne eq_refl). specialize (Hone _ _ Hz Hs'). congruence.
  - done.
  - done.
  - cbn [app]. eapply runs_push; [by apply stop_step, lookup_empty|].
    eapply runs_push; [eapply go_step; [apply lookup_insert_eq|reflexivity]|].
    eapply runs_push; [eapply go_step; [apply lookup_insert_eq|cbn [call_step]; rewrite unlocked; [reflexivity|]]|reflexivity].
    repeat (apply map_Forall_insert_2; [done|]). apply map_Forall_empty.
  - cbn. by rewrite !delete_insert_eq.
  - cbn. intros i x Hx. destruct (an_shut x) eqn:Hn; [done|]. by specialize (Hone _ _ Hx Hn).
  - done.
  - done.
Qed.

(** Evaluates a lookup in maps built by insertions. *)
Ltac look := cbn; repeat first
  [ rewrite lookup_insert_eq | rewrite lookup_insert_ne by done
  | rewrite lookup_delete_eq | rewrite lookup_delete_ne by done
  | rewrite lookup_alter_eq | rewrite lookup_alter_ne by done | rewrite lookup_empty ]; cbn; try reflexivity.
(** Writes a state as one record again. *)
Ltac flat := cbv [set_sess set_slots set_flag set_call end_call add_sess after_stop lb_sessions lb_next lb_engine lb_fd_tx
  lb_error lb_running lb_calls lb_answers lib_start app].
Ltac connect := eapply runs_push; [apply connect_step; look|]; flat.
Ltac built := eapply runs_push; [eapply built_step; look|]; flat.
Ltac go := eapply runs_push; [eapply go_step; [look|cbn [call_step]; rewrite ?unlocked by (intros ? ?; look); look]|]; flat.
Ltac task := eapply runs_push; [eapply task_run; [look|look]|]; flat.
Ltac first_ok := eapply runs_push; [eapply task_run; [look|apply first_step; look]|]; flat.

(** Two connects in a row.  The first session's task, cancelled by the second connect,
    clears the flag after that connect has set it. *)
Definition stale_run (cfg1 cfg2 : ClientConfig) (w1 w2 : Welcome) : list levent :=
  [LConnect 0 (Ok cfg1); LGo 0; LGo 0; LBuilt 0 (Ok tt); LGo 0; LGo 0; LGo 0; LGo 0; LGo 0; LTask 0 (TkFirst (Ok w1)); LGo 0;
   LConnect 1 (Ok cfg2); LGo 1; LGo 1; LTask 0 (if is_stream (cc_mode cfg1) then TkEnd (Ok tt) else TkFd); LGo 1;
   LBuilt 1 (Ok tt); LGo 1; LGo 1; LGo 1; LTask 0 TkStore; LGo 1; LGo 1; LTask 1 (TkFirst (Ok w2)); LGo 1].

(** The status can deny a running session.  For any two configurations there is a run
    in which the app connects twice, both calls succeed, the first session is over, and
    the second is connected and alive in the slot, its address shown, while the flag
    says that nothing runs: the old task cleared it after the new connect had set it.
    Nothing sets it again: it stays so until the next connect, whatever happens. *)
Theorem android_status_denies (cfg1 cfg2 : ClientConfig) (w1 w2 : Welcome) :
  exists s, lrun (stale_run cfg1 cfg2 w1 w2) lib_start = Some s /\
    lb_answers s = [(0%nat, Ok (netcfg_json w1 (cc_mode cfg1))); (1%nat, Ok (netcfg_json w2 (cc_mode cfg2)))] /\
    (exists x, lb_engine s = Some 1%nat /\ lb_sessions s !! 1%nat = Some x /\ awaiting (an_phase x) = true /\
       an_cancel x = false /\ ls_ip (an_live x) = Some (assigned_ip w2)) /\
    lb_running s = false /\
    forall es s', Forall (fun e => starts e = false) es -> lrun es s = Some s' -> lb_running s' = false.
Proof.
  assert (exists s, lrun (stale_run cfg1 cfg2 w1 w2) lib_start = Some s /\
    lb_answers s = [(0%nat, Ok (netcfg_json w1 (cc_mode cfg1))); (1%nat, Ok (netcfg_json w2 (cc_mode cfg2)))] /\
    (exists x, lb_engine s = Some 1%nat /\ lb_sessions s !! 1%nat = Some x /\ awaiting (an_phase x) = true /\
       an_cancel x = false /\ ls_ip (an_live x) = Some (assigned_ip w2)) /\
    lb_running s = false /\ lb_calls s = ∅) as (s & Hr & Ha & Hx & Hf & Hc).
  { eexists. split.
    { unfold stale_run. connect. go. go. built. do 5 go. first_ok. go.
      connect. go. go.
      eapply runs_push; [eapply task_run; [look|apply ends_step; look]|]; flat.
      go. built. do 3 go.
      task. go. go. first_ok. go. reflexivity. }
    split; [reflexivity|]. split; [|split; [reflexivity|apply map_empty; intros [|[|i]]; look]].
    eexists. split; [reflexivity|]. split; [look|]. cbn. by destruct (cc_mode cfg2). }
  exists s. split_and!; try done. intros es s' Hs He.
  apply (quiet_flag_run es s s'); [|done|done]. split; [done|]. rewrite Hc. apply map_Forall_empty.
Qed.

(** ** Witnesses *)

Module LibDemo.
(** A packet session that is given descriptor 7; a second hand-over finds no sender. *)
Definition connected : list levent :=
  [LConnect 0 (Ok (AndroidDemo.cfg [])); LGo 0; LGo 0; LBuilt 0 (Ok tt); LGo 0; LGo 0; LGo 0; LGo 0; LGo 0;
   LTask 0 (TkFirst (Ok ChainDemo.welcome)); LGo 0].
Definition bridged : list levent := connected ++ [LBridge 7; LTask 0 TkFd; LBridge 8].
Definition after (es : list levent) : Lib := default lib_start (lrun es lib_start).
End LibDemo.

Lemma demo_connected : lrun LibDemo.connected lib_start = Some (LibDemo.after LibDemo.connected).
Proof. vm_compute. reflexivity. Qed.
Lemma demo_bridged : lrun LibDemo.bridged lib_start = Some (LibDemo.after LibDemo.bridged).
Proof. vm_compute. reflexivity. Qed.

Lemma android_fd_once_witness : exists x,
  lb_sessions (LibDemo.after LibDemo.bridged) !! 0%nat = Some x /\ an_phase x = TBridging 7 /\ an_given x = [7] /\
  is_ok (start_bridge 7 (LibDemo.after LibDemo.connected)).1 = true /\
  (start_bridge 8 (start_bridge 7 (LibDemo.after LibDemo.connected)).2).1 = Err "no pending connection".
Proof.
  destruct (lb_sessions (LibDemo.after LibDemo.bridged) !! 0%nat) as [x|] eqn:E; [|vm_compute in E; discriminate].
  exists x. split; [reflexivity|]. destruct (android_fd_once _ _ 7 demo_bridged) as [Hs _].
  assert (an_phase x = TBridging 7) as Hp by (vm_compute in E; injection E as <-; reflexivity).
  destruct (Hs _ _ E) as (_ & Hg & _). split; [exact Hp|]. split; [exact (Hg 7 Hp)|].
  split; [vm_compute; reflexivity|vm_compute; reflexivity].
Defined.

Lemma android_one_session_witness : exists s',
  lrun [LStop 5; LGo 5; LGo 5; LGo 5] (LibDemo.after LibDemo.connected) = Some s' /\ lb_engine s' = None.
Proof.
  destruct (android_one_session _ _ demo_connected) as [_ Hs]; [vm_compute; reflexivity|].
  destruct (Hs 5%nat) as (s' & Hr & _ & _ & He & _). exists s'. split; [|exact He].
  rewrite <- Hr. vm_compute. reflexivity.
Defined.

Lemma android_status_denies_witness : exists s,
  lrun (stale_run (AndroidDemo.cfg []) (AndroidDemo.cfg []) ChainDemo.welcome ChainDemo.welcome) lib_start = Some s /\
  lb_running s = false.
Proof.
  destruct (android_status_denies (AndroidDemo.cfg []) (AndroidDemo.cfg []) ChainDemo.welcome ChainDemo.welcome)
    as (s & Hr & _ & _ & _ & Hq).
  exists s. split; [exact Hr|]. exact (Hq [] s (Forall_nil_2 _) eq_refl).
Defined.
