(* ===== verification/Anyhow.v ===== *)
(** [anyhow] errors, as the two programs with a [main] use them: what they print, and the
    lift of a library error into one. *)
From S2P Require Import Prelude Core.

(** The context shown first, and what caused it. *)
Record Failure := mkFailure { f_context : option string; f_cause : string }.
Definition with_context {A} (c : string) (r : Result A) : result Failure A :=
  map_err (fun e => mkFailure (Some c) (show_error e)) r.
Definition no_context {A} (r : Result A) : result Failure A := map_err (fun e => mkFailure None (show_error e)) r.
(** [bail!]. *)
Definition bail {A} (text : string) : result Failure A := Err (mkFailure None text).
