(* ===== verification/ServerMain.v ===== *)
(** Starting and stopping the server (server/src/main.rs): the TLS material, bringing up
    the network, the tasks spawned for the listeners and the web admin, the accept loop
    with its handshake deadline, and the restoration of the network on every way out. *)
From Stdlib Require Import Strings.String Strings.Ascii.
From stdpp Require Import gmultiset.
From S2P Require Import Prelude Net Text Core Anyhow Mpsc ServerConfig Os ServerNet ServerNetThms.

(** ** Socket addresses, as the standard library parses them *)

Definition read_port (s : string) : option (Z * string) :=
  s ← read_char ":"%char s; read_number 10 (S (String.length s)) 65536 true s.
Definition read_scope (s : string) : option string :=
  match read_char "%"%char s with
  | Some r => '(_, r) ← read_number 10 (S (String.length r)) 4294967296 true r; Some r
  | None => Some s
  end.
Definition read_sockaddr (s : string) : option (SocketAddr * string) :=
  match ('(a, r) ← read_ipv4 s; '(p, r) ← read_port r; Some (SockAddr (V4 a) p, r)) with
  | Some x => Some x
  | None =>
    r ← read_char "["%char s; '(a, r) ← read_ipv6 r; r ← read_scope r; r ← read_char "]"%char r;
    '(p, r) ← read_port r; Some (SockAddr (V6 a) p, r)
  end.
Definition parse_sockaddr (s : string) : option SocketAddr := parse_whole read_sockaddr s.

(** ** TLS material *)

Definition CERT_FILE : string := "entrotunnel-cert.pem".
Definition KEY_FILE : string := "entrotunnel-key.pem".
Definition SELF_SIGNED_NAMES : list string := ["entrotunnel"; "localhost"].
Definition needs_tls (cfg : ServerConfig) : bool :=
  existsb (fun l => negb (bool_decide (l_transport l = Tcp))) (listeners cfg).

Definition read_pem (path : string) (d : Disk) : result IoError string := str <$> read_file path d.
(** The files next to the configuration; a write that fails is ignored. *)
Definition save_pem (dir name pem : string) : eff Disk Failure unit :=
  ignore (write_file (dir +:+ name) (to_b pem)).

(** A fresh pair for any listener but raw TCP, written next to the configuration.  [dir]
    is the directory of the configuration file with its separator; [generated] is the
    pair the certificate generator makes for the given names. *)
Definition fresh_pair (generated : list string -> Result (string * string)) (cfg : ServerConfig) (dir : string)
    : eff Disk Failure (string * string) :=
  if needs_tls cfg then
    p ← lift_result (no_context (generated SELF_SIGNED_NAMES));
    save_pem dir CERT_FILE p.1;;
    save_pem dir KEY_FILE p.2;;
    mret p
  else mret ("", "").
Definition tls_material (feature_tls : bool) (generated : list string -> Result (string * string))
    (cfg : ServerConfig) (dir : string) : eff Disk Failure (string * string) :=
  if negb feature_tls then mret ("", "") else
  match tls_cert_path (security cfg), tls_key_path (security cfg) with
  | Some cert, Some key => fun d =>
    (d, c ← map_err (fun e => mkFailure (Some ("read cert " +:+ cert)) (io_text e)) (read_pem cert d);
        k ← map_err (fun e => mkFailure (Some ("read key " +:+ key)) (io_text e)) (read_pem key d);
        Ok (c, k))
  | _, _ => fresh_pair generated cfg dir
  end.

(** ** Starting *)

Inductive Task :=
  | TunRouter (ifname : string)
  | Sampler
  | AcceptLoop (addr : SocketAddr) (kind : TransportKind) (ws_tls : bool)
  | WebAdmin (addr : SocketAddr).
#[export] Instance task_eq_dec : EqDecision Task.
Proof. solve_decision. Defined.

Record Machine := mkMachine { m_disk : Disk; m_sys : Sys; m_tasks : list Task }.
Definition on_disk {A} (m : eff Disk Failure A) : eff Machine Failure A := fun s =>
  let (d, r) := m (m_disk s) in (mkMachine d (m_sys s) (m_tasks s), r).
Definition on_sys {A} (m : eff Sys Error A) : eff Machine Failure A := fun s =>
  let (y, r) := m (m_sys s) in (mkMachine (m_disk s) y (m_tasks s), no_context r).
Definition spawn (t : Task) : eff Machine Failure unit := fun s =>
  (mkMachine (m_disk s) (m_sys s) (m_tasks s ++ [t]), Ok tt).

Section Run.
Context `{Os} `{IpNet} `{ServerToml} `{Base64}.
(** The build's feature, the certificate generator, what creating the TUN comes to. *)
Context (feature_tls : bool) (generated : list string -> Result (string * string)) (created : Result string).

Definition parse_bind (what bind : string) : result Failure SocketAddr :=
  match parse_sockaddr bind with
  | Some a => Ok a
  | None => Err (mkFailure (Some (what +:+ " " +:+ bind)) "invalid socket address syntax")
  end.
Fixpoint listen (ls : list ListenerConfig) : eff Machine Failure unit :=
  match ls with
  | [] => mret tt
  | l :: r =>
    addr ← lift_result (parse_bind "bad listener bind" (l_bind l));
    spawn (AcceptLoop addr (l_transport l) (l_tls l));;
    listen r
  end.
(** From the network on; the value that restores the network is dropped on every way
    out, so the part that can leave early comes first. *)
Definition serve (cfg : ServerConfig) (net : option ServerNet) (shutdown : result IoError unit) : eff Machine Failure unit :=
  match net with Some n => spawn (TunRouter (tun n)) | None => mret tt end;;
  spawn Sampler;;
  listen (listeners cfg);;
  addr ← lift_result (parse_bind "bad web bind" (web_bind (web cfg)));
  spawn (WebAdmin addr);;
  lift_result (map_err (fun e => mkFailure None (io_text e)) shutdown).
Definition drop_server_net (net : option ServerNet) : eff Machine Failure unit :=
  match net with Some n => on_sys (drop_net n) | None => mret tt end.

(** [run]; [shutdown] is what waiting for a signal comes to. *)
Definition server_run (path dir : string) (shutdown : result IoError unit) : eff Machine Failure unit :=
  cfg ← (fun s => (s, with_context ("loading " +:+ path) (load path (m_disk s))));
  prefix ← lift_result (with_context "subnet prefix" (cfg_prefix_len cfg));
  psk ← lift_result (with_context "noise_psk" (parse_psk (to_b (noise_psk (security cfg)))));
  pem ← on_disk (tls_material feature_tls generated cfg dir);
  n ← try_eff (on_sys (setup created (network cfg) prefix (subnet (network cfg))));
  let net := ok (n : result Failure ServerNet) in
  r ← try_eff (serve cfg net shutdown);
  drop_server_net net;;
  lift_result r.
End Run.

(** ** The two commands *)

(** On Unix: a handler for each of the two signals, then the first of them to arrive. *)
Definition wait_for_shutdown (sigterm sigint : result IoError unit) : result IoError unit := sigterm;; sigint.

(** The command line: where the configuration is, and what to do; [Run] unless told
    otherwise.  The lines printed are the result; the random key and tokens are arguments. *)
Inductive ServerCmd := SRun | SGenConfig.
Section Main.
Context `{Os} `{IpNet} `{ServerToml} `{Base64}.
Context (feature_tls : bool) (generated : list string -> Result (string * string)) (created : Result string).

Definition gen_server_config (path psk admin tok : string) : eff Machine Failure (list string) :=
  let cfg := template psk admin tok in
  on_disk (fun d => let (d', r) := save path cfg d in (d', with_context ("writing " +:+ path) r));;
  mret (["wrote " +:+ path; "noise_psk : " +:+ noise_psk (security cfg); "admin_token: " +:+ admin_token (web cfg)] ++
        map (fun p => "example peer token: " +:+ p_token p +:+ " -> " +:+ show_ip (V4 (p_ip p))) (take 1 (peers cfg))).
Definition server_main (cmd : option ServerCmd) (path dir psk admin tok : string) (sigterm sigint : result IoError unit)
    : eff Machine Failure (list string) :=
  match default SRun cmd with
  | SGenConfig => gen_server_config path psk admin tok
  | SRun => server_run feature_tls generated created path dir (wait_for_shutdown sigterm sigint);; mret []
  end.
End Main.

(** ** The accept loop of a listener *)

Definition HANDSHAKE_SECS : Z := 15.
(** What happens around it: the kernel hands over a connection or an error, the
    handshake of one ends, or its deadline passes. *)
Inductive aevent :=
  | Accepted (id : nat)
  | AcceptFailed (e : Error)
  | Finished (id : nat) (r : Result unit)
  | DeadlinePassed (id : nat).
(** Handshakes under way, and the connections handed to their handler. *)
Record Loop := mkLoop { ac_pending : gset nat; ac_serving : list nat; ac_seen : list nat }.
Definition loop_start : Loop := mkLoop ∅ [] [].
Definition accept_step (s : Loop) (e : aevent) : option Loop :=
  match e with
  | Accepted id =>
    if decide (id ∈ ac_seen s) then None
    else Some (mkLoop ({[id]} ∪ ac_pending s) (ac_serving s) (ac_seen s ++ [id]))
  | AcceptFailed _ => Some s
  | Finished id r =>
    if decide (id ∈ ac_pending s)
    then Some (mkLoop (ac_pending s ∖ {[id]}) (if is_ok r then ac_serving s ++ [id] else ac_serving s) (ac_seen s))
    else None
  | DeadlinePassed id =>
    if decide (id ∈ ac_pending s)
    then Some (mkLoop (ac_pending s ∖ {[id]}) (ac_serving s) (ac_seen s)) else None
  end.
Abbreviation accept_run := (runs accept_step).

Example sockaddr_v4 : parse_sockaddr "0.0.0.0:08443" = Some (SockAddr (V4 (v4 0 0 0 0)) 8443).
Proof. reflexivity. Qed.
Example sockaddr_v6 : (fun a => show_ip (sa_ip a)) <$> parse_sockaddr "[fd66::1%3]:9000" = Some "fd66::1".
Proof. reflexivity. Qed.
Example sockaddr_bad : map parse_sockaddr ["1.2.3.4"; "1.2.3.4:65536"; "::1:80"; "1.2.3.4:"; "a:1"] = [None; None; None; None; None].
Proof. reflexivity. Qed.

(** ** What starting does *)

(** The tasks of the listeners up to the first address that does not parse. *)
Fixpoint listener_tasks (ls : list ListenerConfig) : list Task * option string :=
  match ls with
  | [] => ([], None)
  | l :: r =>
    match parse_sockaddr (l_bind l) with
    | Some a => let (ts, bad) := listener_tasks r in (AcceptLoop a (l_transport l) (l_tls l) :: ts, bad)
    | None => ([], Some (l_bind l))
    end
  end.
Definition bad_address (what bind : string) : Failure :=
  mkFailure (Some (what +:+ " " +:+ bind)) "invalid socket address syntax".
(** The tasks a start spawns, and how it ends. *)
Definition started (cfg : ServerConfig) (net : option ServerNet) (shutdown : result IoError unit)
    : list Task * result Failure unit :=
  let (ls, bad) := listener_tasks (listeners cfg) in
  let base := match net with Some n => [TunRouter (tun n)] | None => [] end ++ [Sampler] ++ ls in
  match bad with
  | Some b => (base, Err (bad_address "bad listener bind" b))
  | None =>
    match parse_sockaddr (web_bind (web cfg)) with
    | None => (base, Err (bad_address "bad web bind" (web_bind (web cfg))))
    | Some a => (base ++ [WebAdmin a], map_err (fun e => mkFailure None (io_text e)) shutdown)
    end
  end.
Definition add_tasks (ts : list Task) (s : Machine) : Machine := mkMachine (m_disk s) (m_sys s) (m_tasks s ++ ts).

Lemma listen_eq ls s :
  listen ls s = (add_tasks (listener_tasks ls).1 s,
    match (listener_tasks ls).2 with None => Ok tt | Some b => Err (bad_address "bad listener bind" b) end).
Proof.
  revert s. induction ls as [|l ls IH]; intros s; cbn [listen listener_tasks].
  - unfold add_tasks. rewrite app_nil_r. by destruct s.
  - unfold mbind, eff_bind, lift_result, parse_bind. destruct (parse_sockaddr (l_bind l)) as [a|].
    + unfold spawn. rewrite IH. destruct (listener_tasks ls) as [ts bad]. cbn. unfold add_tasks. cbn. by rewrite <- app_assoc.
    + cbn. unfold add_tasks. rewrite app_nil_r. by destruct s.
Qed.
Lemma serve_eq cfg net shutdown s :
  serve cfg net shutdown s = (add_tasks (started cfg net shutdown).1 s, (started cfg net shutdown).2).
Proof.
  unfold serve, started. unfold mbind, eff_bind.
  set (pre := match net with Some n => [TunRouter (tun n)] | None => [] end).
  assert ((match net with Some n => spawn (TunRouter (tun n)) | None => mret tt end) s = (add_tasks pre s, Ok tt)) as ->.
  { unfold pre, add_tasks. destruct net; [done|]. rewrite app_nil_r. by destruct s. }
  unfold spawn at 1. cbn [m_disk m_sys m_tasks add_tasks]. rewrite listen_eq.
  destruct (listener_tasks (listeners cfg)) as [ls [b|]]; cbn [fst snd]; unfold add_tasks; cbn [m_disk m_sys m_tasks].
  - by rewrite <- !app_assoc.
  - unfold lift_result, parse_bind. destruct (parse_sockaddr (web_bind (web cfg))) as [a|]; cbn; rewrite <- !app_assoc; try done.
Qed.

Section Claims.
Context `{Os} `{!Firewall} `{IpNet} `{ServerToml} `{Base64}.
Context (feature_tls : bool) (generated : list string -> Result (string * string)) (created : Result string).
Abbreviation server_run := (server_run feature_tls generated created).

(** Everything before the network leaves the system alone. *)
Definition prepared (path dir : string) (d : Disk) : Disk * result Failure (ServerConfig * Z * (string * string)) :=
  match with_context ("loading " +:+ path) (load path d) with
  | Err e => (d, Err e)
  | Ok cfg =>
    match with_context "subnet prefix" (cfg_prefix_len cfg), with_context "noise_psk" (parse_psk (to_b (noise_psk (security cfg)))) with
    | Err e, _ => (d, Err e)
    | Ok _, Err e => (d, Err e)
    | Ok prefix, Ok _ =>
      let (d', r) := tls_material feature_tls generated cfg dir d in
      (d', p ← r; Ok (cfg, prefix, p))
    end
  end.
Lemma server_run_eq path dir shutdown s :
  server_run path dir shutdown s =
  match prepared path dir (m_disk s) with
  | (d, Err e) => (mkMachine d (m_sys s) (m_tasks s), Err e)
  | (d, Ok (cfg, prefix, _)) =>
    let '(y, n) := setup created (network cfg) prefix (subnet (network cfg)) (m_sys s) in
    let net := ok n in
    let y' := match net with Some n => (drop_net n y).1 | None => y end in
    (mkMachine d y' (m_tasks s ++ (started cfg net shutdown).1), (started cfg net shutdown).2)
  end.
Proof.
  unfold prepared, ServerMain.server_run. unfold mbind at 1, eff_bind at 1.
  destruct (with_context ("loading " +:+ path) (load path (m_disk s))) as [cfg|e]; [|by destruct s].
  unfold mbind at 1, eff_bind at 1, lift_result at 1.
  destruct (with_context "subnet prefix" (cfg_prefix_len cfg)) as [prefix|e]; [|by destruct s].
  unfold mbind at 1, eff_bind at 1, lift_result at 1.
  destruct (with_context "noise_psk" _) as [psk|e]; [|by destruct s].
  unfold mbind at 1, eff_bind at 1, on_disk at 1.
  destruct (tls_material feature_tls generated cfg dir (m_disk s)) as [d [p|e]]; [|done].
  cbn [mbind result_bind]. unfold mbind at 1, eff_bind at 1, try_eff, on_sys. cbn [m_sys m_disk m_tasks].
  destruct (setup created (network cfg) prefix (subnet (network cfg)) (m_sys s)) as [y n].
  assert (ok (no_context n) = ok n) as -> by by destruct n.
  unfold mbind, eff_bind. rewrite serve_eq. unfold drop_server_net, on_sys, add_tasks. cbn [m_sys m_disk m_tasks].
  destruct (ok n) as [net|]; [|done]. destruct (drop_net net y) as [y' r] eqn:Ed.
  assert (r = Ok tt) as -> by by eapply run_all_ok. cbn. by rewrite Ed.
Qed.

(** C20. The server gives the network back however it ends.  Started on any system, and
    whether it stops on a signal, on an unusable listener or web address, or before it
    touched the network: the packet filter rules afterwards are those of the start, up to
    rules of ours that were there already although adding them again failed. *)
Theorem server_restores_network path dir shutdown d h ts m r :
  server_run path dir shutdown (mkMachine d (sys_new h) ts) = (m, r) ->
  exists miss, miss ⊆ rules h /\ rules (sy_log (m_sys m)) = rules h ∖ miss /\
    (forall cfg prefix p y n, prepared path dir d = (m_disk m, Ok (cfg, prefix, p)) ->
       setup created (network cfg) prefix (subnet (network cfg)) (sys_new h) = (y, Ok n) ->
       exists l, sy_log y = h ++ l /\ miss ⊆ failed l).
Proof.
  rewrite server_run_eq. cbn [m_disk m_sys m_tasks].
  destruct (prepared path dir d) as [d' [[[cfg prefix] p]|e]] eqn:Ep.
  2:{ intros [= <- <-]. exists ∅. cbn. split_and!; [multiset_solver|multiset_solver|done]. }
  destruct (setup created (network cfg) prefix (subnet (network cfg)) (sys_new h)) as [y [n|e]] eqn:Es;
    pose proof (setup_then_drop _ _ _ _ _ _ _ Es) as Hd; cbn [ok]; intros [= <- <-]; cbn.
  - destruct Hd as (l & El & miss & Hm & Hr).
    exists (miss ∩ rules h). split; [multiset_solver|]. split.
    + destruct (drop_net n y) as [y' x] eqn:Ed. cbn. rewrite (Hr y y' x eq_refl Ed). multiset_solver.
    + intros cfg' prefix' p' y1 n1 [= <- <- <-]. rewrite Es. intros [= <- <-]. exists l. split; [done|]. multiset_solver.
  - exists ∅. split_and!; [multiset_solver|rewrite Hd; multiset_solver|].
    intros cfg' prefix' p' y1 n1 [= <- <- <-]. by rewrite Es.
Qed.

(** A start that got past its preparations spawns, whether or not the network came up,
    the router of the TUN if there is one, the sampler, an accept loop for each listener
    in order up to the first address that does not parse, and the web admin only if all
    did; the error names that address, and a network that failed is not an error. *)
Theorem server_starts path dir shutdown s d cfg prefix p :
  prepared path dir (m_disk s) = (d, Ok (cfg, prefix, p)) ->
  exists m net, server_run path dir shutdown s = (m, (started cfg net shutdown).2) /\
    m_tasks m = m_tasks s ++ (started cfg net shutdown).1 /\
    net = ok (setup created (network cfg) prefix (subnet (network cfg)) (m_sys s)).2 /\
    ((started cfg net shutdown).2 = Ok tt ->
     length (started cfg net shutdown).1 = (length (listeners cfg) + if net then 3 else 2)%nat).
Proof.
  intros E. rewrite server_run_eq, E. destruct (setup _ _ _ _ _) as [y n]. eexists _, (ok n).
  split; [reflexivity|]. split; [done|]. split; [done|]. unfold started.
  assert (forall ls ts, listener_tasks ls = (ts, None) -> length ts = length ls) as Hl.
  { induction ls as [|l ls IH]; intros ts; cbn [listener_tasks]; [by intros [= <-]|].
    destruct (parse_sockaddr _); [|done]. destruct (listener_tasks ls) as [t bad]. intros [= <- ->]. cbn. by rewrite IH. }
  destruct (listener_tasks (listeners cfg)) as [ls [b|]] eqn:El; [done|].
  destruct (parse_sockaddr (web_bind (web cfg))); [|done]. intros _. cbn [fst]. rewrite !length_app, (Hl _ _ El).
  destruct (ok n); cbn; lia.
Qed.

(** Writing the starter configuration changes the one file, and it loads back. *)
Lemma gen_loads `{!ServerTomlLaws} path psk admin tok (s s' : Machine) lines :
  gen_server_config path psk admin tok s = (s', Ok lines) ->
  exists d, s' = mkMachine d (m_sys s) (m_tasks s) /\ load path d = Ok (template psk admin tok).
Proof.
  unfold gen_server_config. set (cfg := template psk admin tok).
  intros (s1 & [] & Hw & Hr)%eff_bind_ok. injection Hr as <- _. unfold on_disk in Hw.
  destruct (save path cfg (m_disk s)) as [d [[]|]] eqn:Es; [|done]. injection Hw as <-. exists d. split; [done|].
  unfold save in Es. apply eff_bind_ok in Es as (d1 & t & Et & Ew). unfold lift_result in Et.
  destruct (toml_print cfg) as [t'|] eqn:Ep; [|done]. injection Et as <- <-.
  unfold with_err in Ew. destruct (write_file path t' (m_disk s)) as [d1 [[]|]] eqn:Ef; [|done]. injection Ew as <-.
  unfold load. by rewrite (read_write_file _ _ _ _ Ef), (toml_round_trip _ _ Ep).
Qed.
Lemma starter_prepared `{!Base64Laws} path dir key admin tok d n :
  length key = 32%nat -> parse_v4net "10.66.0.0/24" = Ok n ->
  load path d = Ok (template (str (generate_psk key)) admin tok) ->
  prepared path dir d = (d, Ok (template (str (generate_psk key)) admin tok, v4net_prefix n, ("", ""))).
Proof.
  intros Hk Hn Hl. unfold prepared. rewrite Hl. cbn [with_context map_err]. unfold cfg_prefix_len.
  cbn [template network subnet]. rewrite Hn. cbn [with_context map_err template security noise_psk].
  rewrite b_str. destruct (psk_round_trip key) as [-> _]. rewrite Hk. cbn [Nat.eqb with_context map_err].
  unfold tls_material. destruct feature_tls; reflexivity.
Qed.

(** C21. The starter configuration works.  If writing it succeeds, with any tokens and a fresh
    random key, a start from the same file gets past its preparations without touching the
    disk, sets up the network of the configuration from the state the machine was in,
    routes packets exactly when that brought up a TUN and goes on without one otherwise,
    listens with Noise on port 8443 of every address and with the web admin on port 9000 of
    this host only, runs until the signal, and then undoes what the set-up did; the one
    example peer is enabled and well formed. *)
Theorem starter_config_runs `{!ServerTomlLaws} `{!Base64Laws} path dir key admin tok sigterm sigint (s s' : Machine) lines n :
  length key = 32%nat -> parse_v4net "10.66.0.0/24" = Ok n ->
  server_main feature_tls generated created (Some SGenConfig) path dir (str (generate_psk key)) admin tok sigterm sigint s = (s', Ok lines) ->
  let cfg := template (str (generate_psk key)) admin tok in
  let up := setup created (network cfg) (v4net_prefix n) (subnet (network cfg)) (m_sys s) in
  exists m,
    server_main feature_tls generated created (Some SRun) path dir "" "" "" sigterm sigint s' =
      (m, match wait_for_shutdown sigterm sigint with Ok _ => Ok [] | Err e => Err (mkFailure None (io_text e)) end) /\
    m_disk m = m_disk s' /\
    m_sys m = match up.2 with Ok net => (drop_net net up.1).1 | Err _ => up.1 end /\
    m_tasks m = m_tasks s ++ match up.2 with Ok net => [TunRouter (tun net)] | Err _ => [] end ++
      [Sampler; AcceptLoop (SockAddr (V4 (v4 0 0 0 0)) 8443) Tcp true; WebAdmin (SockAddr (V4 (v4 127 0 0 1)) 9000)] /\
    peers_wf cfg /\ find_peer cfg tok = Some (mkPeer "example" tok (v4 10 66 0 2) true true true).
Proof.
  intros Hk Hn (d & -> & Hl)%gen_loads cfg. unfold server_main. cbn [default from_option id]. unfold mbind at 1, eff_bind at 1.
  rewrite server_run_eq. cbn [m_disk m_sys m_tasks]. rewrite (starter_prepared path dir key admin tok d n Hk Hn Hl).
  fold cfg. destruct (setup created (network cfg) (v4net_prefix n) (subnet (network cfg)) (m_sys s)) as [y r].
  cbn [fst snd].
  exists (mkMachine d (match r with Ok n => (drop_net n y).1 | Err _ => y end)
    (m_tasks s ++ match r with Ok n => [TunRouter (tun n)] | Err _ => [] end ++
     [Sampler; AcceptLoop (SockAddr (V4 (v4 0 0 0 0)) 8443) Tcp true; WebAdmin (SockAddr (V4 (v4 127 0 0 1)) 9000)])).
  split; [|split_and!; [done|done|done|split; apply NoDup_singleton|unfold find_peer; cbn; by rewrite String.eqb_refl]].
  unfold started. change (listener_tasks _) with ([AcceptLoop (SockAddr (V4 (v4 0 0 0 0)) 8443) Tcp true], @None string).
  change (parse_sockaddr _) with (Some (SockAddr (V4 (v4 127 0 0 1)) 9000)). cbn [fst snd].
  by destruct (wait_for_shutdown sigterm sigint); cbn; destruct r.
Qed.
End Claims.

(** What a start without configured files is to do. *)
Definition fresh (generated : list string -> Result (string * string)) (cfg : ServerConfig) (dir : string)
    (d d' : Disk) (r : result Failure (string * string)) : Prop :=
  (Forall (fun l => l_transport l = Tcp) (listeners cfg) -> d' = d /\ r = Ok ("", "")) /\
  (Exists (fun l => l_transport l <> Tcp) (listeners cfg) ->
   r = no_context (generated SELF_SIGNED_NAMES) /\
   (forall c k, r = Ok (c, k) -> write_fault d = ∅ ->
      read_file (dir +:+ CERT_FILE) d' = Ok (to_b c) /\ read_file (dir +:+ KEY_FILE) d' = Ok (to_b k))).
Lemma needs_tls_spec cfg : needs_tls cfg = false <-> Forall (fun l => l_transport l = Tcp) (listeners cfg).
Proof.
  unfold needs_tls. induction (listeners cfg) as [|l ls IH]; cbn; [done|].
  rewrite orb_false_iff, IH, Forall_cons, negb_false_iff, bool_decide_eq_true. done.
Qed.
Lemma fresh_pair_spec generated cfg dir d :
  let '(d', r) := fresh_pair generated cfg dir d in fresh generated cfg dir d d' r.
Proof.
  unfold fresh_pair, fresh. destruct (needs_tls cfg) eqn:En.
  - assert (~ Forall (fun l => l_transport l = Tcp) (listeners cfg)) as Hno by (rewrite <- needs_tls_spec; congruence).
    unfold mbind, eff_bind, lift_result. destruct (no_context (generated SELF_SIGNED_NAMES)) as [[c k]|e]; [|done].
    split; [done|]. intros _. split; [done|]. intros c' k' [= <- <-] Hw. cbn [fst snd].
    unfold ignore, write_file. rewrite Hw, !lookup_empty. cbn. rewrite ?Hw, ?lookup_empty. unfold read_file. cbn.
    assert (dir +:+ CERT_FILE <> dir +:+ KEY_FILE) as Hne
      by (induction dir as [|a dir IH]; [done|intros [= E]; by apply IH]).
    by rewrite lookup_insert_ne, !lookup_insert_eq.
  - apply needs_tls_spec in En. split; [done|]. intros Hx. exfalso. rewrite Forall_forall in En.
    apply Exists_exists in Hx as (y & Hy & Hn). by apply Hn, En.
Qed.

(** Where the TLS pair comes from.  With both paths configured it is what the two files
    hold, and a file that cannot be read is an error that names it.  Otherwise, so also
    with only one of the two configured, raw-TCP listeners alone need none, and any other
    listener gets a pair generated now, whatever the disk holds: a pair written by an
    earlier start is overwritten, not read back, and a pair that cannot be written is
    used all the same. *)
Theorem tls_material_spec generated cfg dir d :
  let '(d', r) := tls_material true generated cfg dir d in
  match tls_cert_path (security cfg), tls_key_path (security cfg) with
  | Some cert, Some key => d' = d /\
      match r with
      | Ok (c, k) => read_pem cert d = Ok c /\ read_pem key d = Ok k
      | Err e => (f_context e = Some ("read cert " +:+ cert) /\ is_ok (read_pem cert d) = false) \/
                 (f_context e = Some ("read key " +:+ key) /\ is_ok (read_pem key d) = false)
      end
  | _, _ => fresh generated cfg dir d d' r
  end.
Proof.
  unfold tls_material. cbn [negb]. pose proof (fresh_pair_spec generated cfg dir d) as Hgen.
  destruct (tls_cert_path (security cfg)) as [cert|], (tls_key_path (security cfg)) as [key|]; try exact Hgen.
  split; [done|]. destruct (read_pem cert d) as [c|e]; cbn; [|by left].
  destruct (read_pem key d) as [k|e]; cbn; [done|by right].
Qed.

(** ** The accept loop *)

Record loop_inv (s : Loop) : Prop := {
  al_pending : forall i, i ∈ ac_pending s -> i ∈ ac_seen s /\ i ∉ ac_serving s;
  al_serving : forall i, i ∈ ac_serving s -> i ∈ ac_seen s;
  al_once : NoDup (ac_serving s) /\ NoDup (ac_seen s);
}.
Lemma accept_step_inv s e s' : loop_inv s -> accept_step s e = Some s' -> loop_inv s'.
Proof.
  intros [Hp Hs [Hn Hd]] H. destruct e as [id|e|id r|id]; cbn [accept_step] in H.
  - destruct (decide _) as [|Hid]; [done|]. injection H as <-. constructor; cbn.
    + intros i [->%elem_of_singleton|Hi]%elem_of_union; [split; [set_solver|auto]|]. destruct (Hp _ Hi). set_solver.
    + intros i Hi. apply elem_of_app. auto.
    + split; [done|]. apply NoDup_app. split_and!; [done|set_solver|apply NoDup_singleton].
  - by injection H as <-.
  - destruct (decide _) as [Hid|]; [|done]. injection H as <-. destruct (Hp _ Hid) as [Hi Hni]. destruct (is_ok r).
    + constructor; cbn.
      * intros i [Hx Hx']%elem_of_difference. destruct (Hp _ Hx). set_solver.
      * intros i [? | ->%list_elem_of_singleton]%elem_of_app; auto.
      * split; [|done]. apply NoDup_app. split_and!; [done|set_solver|apply NoDup_singleton].
    + constructor; cbn; [|done|done]. intros i [Hx Hx']%elem_of_difference. auto.
  - destruct (decide _) as [Hid|]; [|done]. injection H as <-. constructor; cbn; [|done|done].
    intros i [Hx Hx']%elem_of_difference. auto.
Qed.
Lemma accept_run_inv es s s' : loop_inv s -> accept_run es s = Some s' -> loop_inv s'.
Proof. apply (runs_inv accept_step loop_inv), accept_step_inv. Qed.
Lemma loop_start_inv : loop_inv loop_start.
Proof. constructor; cbn; [set_solver|set_solver|split; constructor]. Qed.

(** A stalled peer cannot wedge a listener: whatever handshakes are under way, the loop
    takes the next connection; a connection is served at most once, only after its own
    handshake succeeded, and no longer once its deadline passed. *)
Theorem accept_never_wedged es s :
  accept_run es loop_start = Some s ->
  (forall id, id ∉ ac_seen s -> is_Some (accept_step s (Accepted id))) /\
  NoDup (ac_serving s) /\
  (forall id, id ∈ ac_pending s -> id ∉ ac_serving s /\
     (exists s1, accept_step s (Finished id (Ok tt)) = Some s1 /\ id ∈ ac_serving s1) /\
     (exists s1, accept_step s (DeadlinePassed id) = Some s1 /\
        forall r, accept_step s1 (Finished id r) = None)).
Proof.
  intros [Hp Hs [Hn _]]%(accept_run_inv _ _ _ loop_start_inv). split_and!; [|done|].
  - intros id Hid. cbn [accept_step]. rewrite decide_False by done. by eexists.
  - intros id Hid. split; [by apply Hp|]. split.
    + cbn [accept_step]. rewrite decide_True by done. eexists. split; [reflexivity|]. cbn. set_solver.
    + cbn [accept_step]. rewrite decide_True by done. eexists. split; [reflexivity|]. cbn. intros r.
      rewrite decide_False by set_solver. done.
Qed.

(** ** A server on the machine of [FwBox] *)

Module StartDemo.
Definition cfg (bind : string) : ServerConfig :=
  let c := template (str (@generate_psk NibbleCodec.codec (replicate 32 Byte.x2a))) "admin" "tok" in
  mkConfig (listeners c ++ [mkListener Ws bind true]) (network c) (security c) (web c) (peers c).
#[export] Instance toml (bind : string) : ServerToml := {| toml_parse _ := Ok (cfg bind); toml_print _ := Ok [] |}.
Definition disk : Disk := mkDisk {["server.toml" := []]} ∅.
Definition start (created : Result string) (bind : string) : Machine * result Failure unit :=
  server_run (H := FwBox.fw_os true) (H0 := FwBox.fw_nets) (H1 := toml bind) (H2 := NibbleCodec.codec)
    true (fun _ => Ok ("CERT", "KEY")) created "server.toml" "" (Ok tt) (mkMachine disk (sys_new []) []).
Definition waiting : list aevent := [Accepted 1; Accepted 2; Finished 2 (Err Closed)].
End StartDemo.

(** Without a TUN, and with an address nothing can listen on. *)
Example start_tasks :
  (m_tasks (StartDemo.start (Err Closed) "0.0.0.0:8444").1, (StartDemo.start (Err Closed) "0.0.0.0:8444").2) =
  ([Sampler; AcceptLoop (SockAddr (V4 (v4 0 0 0 0)) 8443) Tcp true;
    AcceptLoop (SockAddr (V4 (v4 0 0 0 0)) 8444) Ws true; WebAdmin (SockAddr (V4 (v4 127 0 0 1)) 9000)], Ok tt).
Proof. vm_compute. reflexivity. Qed.
Example start_nonsense :
  (StartDemo.start (Err Closed) "nonsense").2 = Err (bad_address "bad listener bind" "nonsense").
Proof. vm_compute. reflexivity. Qed.

(** A listener address that does not parse, found after the network came up. *)
Lemma server_restores_network_witness :
  rules (Firewall := FwBox.fw_table true) (sy_log (m_sys (StartDemo.start (Ok "et0") "nonsense").1)) = ∅.
Proof.
  destruct (server_restores_network (H := FwBox.fw_os true) (H0 := FwBox.fw_table true) (H1 := FwBox.fw_nets)
    (H2 := StartDemo.toml "nonsense") (H3 := NibbleCodec.codec) true (fun _ => Ok ("CERT", "KEY")) (Ok "et0")
    "server.toml" "" (Ok tt) StartDemo.disk [] [] (StartDemo.start (Ok "et0") "nonsense").1
    (StartDemo.start (Ok "et0") "nonsense").2) as (miss & _ & E & _); [exact (surjective_pairing _)|].
  transitivity ((∅ : gmultiset frule) ∖ miss); [exact E|]. clear E. multiset_solver.
Defined.

Lemma server_starts_witness : exists m net,
  StartDemo.start (Ok "et0") "0.0.0.0:8444" = (m, (started (StartDemo.cfg "0.0.0.0:8444") net (Ok tt)).2).
Proof.
  destruct (server_starts (H := FwBox.fw_os true) (H1 := FwBox.fw_nets) (H2 := StartDemo.toml "0.0.0.0:8444")
    (H3 := NibbleCodec.codec) true (fun _ => Ok ("CERT", "KEY")) (Ok "et0") "server.toml" "" (Ok tt)
    (mkMachine StartDemo.disk (sys_new []) []) _ _ _ _ eq_refl) as (m & net & E & _).
  exists m, net. exact E.
Defined.

Lemma tls_material_spec_witness : exists d',
  tls_material true (fun _ => Ok ("CERT", "KEY")) (StartDemo.cfg "0.0.0.0:8444") "etc/" StartDemo.disk = (d', Ok ("CERT", "KEY")) /\
  read_file "etc/entrotunnel-key.pem" d' = Ok (to_b "KEY").
Proof.
  eexists. split; [reflexivity|].
  pose proof (tls_material_spec (fun _ => Ok ("CERT", "KEY")) (StartDemo.cfg "0.0.0.0:8444") "etc/" StartDemo.disk) as Ht.
  destruct Ht as [_ Ht]. destruct Ht as [_ Ht].
  - right. left. done.
  - destruct (Ht "CERT" "KEY" eq_refl eq_refl) as [_ Hk]. exact Hk.
Defined.

Lemma accept_never_wedged_witness : exists s,
  accept_run StartDemo.waiting loop_start = Some s /\ is_Some (accept_step s (Accepted 3)).
Proof.
  eexists. split; [reflexivity|].
  destruct (accept_never_wedged StartDemo.waiting _ eq_refl) as [Ha _]. apply Ha. set_solver.
Defined.

(** A format that knows the starter configuration only. *)
Module StarterDemo.
Definition key : bytes := replicate 32 Byte.x2a.
Definition first_config : ServerConfig := template (str (@generate_psk NibbleCodec.codec key)) "admin" "tok".
#[export] Instance toml : ServerToml := {|
  toml_parse _ := Ok first_config; toml_print c := if decide (c = first_config) then Ok [] else Err "unknown" |}.
#[export] Instance toml_laws : ServerTomlLaws.
Proof. constructor. intros c t. cbn. destruct (decide (c = first_config)) as [->|]; [done|discriminate]. Qed.
Definition main (cmd : ServerCmd) (s : Machine) : Machine * result Failure (list string) :=
  server_main (H := FwBox.fw_os true) (H0 := FwBox.fw_nets) (H1 := toml) (H2 := NibbleCodec.codec)
    true (fun _ => Ok ("CERT", "KEY")) (Err Closed) (Some cmd) "server.toml" ""
    (match cmd with SRun => "" | SGenConfig => str (@generate_psk NibbleCodec.codec key) end)
    (match cmd with SRun => "" | SGenConfig => "admin" end) (match cmd with SRun => "" | SGenConfig => "tok" end)
    (Ok tt) (Ok tt) s.
Definition written : Machine := mkMachine (mkDisk {["server.toml" := []]} ∅) (sys_new []) [].
Definition lines : list string := ["wrote server.toml"; "noise_psk : " +:+ noise_psk (security first_config);
  "admin_token: admin"; "example peer token: tok -> 10.66.0.2"].
End StarterDemo.
Lemma starter_config_runs_witness : exists m,
  StarterDemo.main SRun StarterDemo.written = (m, Ok []) /\ m_disk m = m_disk StarterDemo.written.
Proof.
  assert (StarterDemo.main SGenConfig (mkMachine (mkDisk ∅ ∅) (sys_new []) []) =
    (StarterDemo.written, Ok StarterDemo.lines)) as Hg by (vm_compute; reflexivity).
  destruct (starter_config_runs (H := FwBox.fw_os true) (H1 := FwBox.fw_nets) (H2 := StarterDemo.toml)
    (H3 := NibbleCodec.codec) (H4 := StarterDemo.toml_laws) (H5 := NibbleCodec.laws)
    true (fun _ => Ok ("CERT", "KEY")) (Err Closed) "server.toml" "" StarterDemo.key "admin" "tok"
    (Ok tt) (Ok tt) _ _ _ _ eq_refl eq_refl Hg) as (m & E & Ed & _).
  exists m. split; [exact E|exact Ed].
Defined.
