(* ===== verification/Handshake.v ===== *)
(** The Noise handshake (core/core/src/crypto/noise.rs) over a byte stream: two framed
    messages, the initiator's first; what [snow] computes is a parameter. *)
From S2P Require Import Prelude Net Text Core Channel.

(** The [snow] crate's [HandshakeState]: building one for a role (initiator or not) and a
    pre-shared key, one message out and one in, each with the size of the buffer it gets,
    and the switch to transport mode.  An error is its text. *)
Class SnowHandshake `{Snow} := {
  HandshakeState : Type;
  hs_build : bool -> bytes -> result string HandshakeState;
  hs_write : HandshakeState -> nat -> HandshakeState * result string bytes;
  hs_read : HandshakeState -> bytes -> nat -> HandshakeState * result string unit;
  hs_finish : HandshakeState -> result string TransportState;
}.
(** Documented behaviour of the pattern [NNpsk0]: two states of one key complete and then
    share their keys in both directions; the first message of another key is refused.  A
    message fits the buffer of 1024 bytes the code gives it. *)
Class SnowHandshakeLaws `{SnowHandshake} `{!SnowLaws} := {
  hs_first : forall psk a b, hs_build true psk = Ok a -> hs_build false psk = Ok b ->
    exists a1 m1 b1 b2 m2 a2 ta tb,
      hs_write a 1024 = (a1, Ok m1) /\ hs_read b m1 1024 = (b1, Ok tt) /\
      hs_write b1 1024 = (b2, Ok m2) /\ hs_read a1 m2 1024 = (a2, Ok tt) /\
      hs_finish a2 = Ok ta /\ hs_finish b2 = Ok tb /\ snow_sync ta tb /\ snow_sync tb ta;
  hs_small : forall a n a' m, hs_write a n = (a', Ok m) -> (length m <= n)%nat;
  hs_other : forall psk psk' a b a1 m1, psk <> psk' -> hs_build true psk = Ok a -> hs_build false psk' = Ok b ->
    hs_write a 1024 = (a1, Ok m1) -> exists b1 e, hs_read b m1 1024 = (b1, Err e);
}.

(** The buffers of both functions. *)
Definition HS_BUF : nat := 1024.

Definition noise_err (e : string) : Error := Crypto ("noise: " +:+ e).

(** A handshake message behind its length in two bytes. *)
Definition write_hs (data : bytes) : eff StreamEnd Error unit :=
  on_w (with_err Io (write_uint 2 (wrap 16 (msg_len data)));;
        with_err Io (write_all data);;
        with_err Io flush).
Definition read_hs : eff StreamEnd Error bytes :=
  len ← on_r (with_err Io (read_uint 2));
  on_r (with_err Io (read_exact (Z.to_nat len))).

Section Handshake.
Context `{SnowHandshake}.
(** Whether the name of the pattern parses. *)
Context (params : result string unit).

Definition build (initiator : bool) (psk : bytes) : Result HandshakeState :=
  map_err (fun e => Crypto ("noise params: " +:+ e)) params;;
  map_err noise_err (hs_build initiator psk).
Definition put (h : HandshakeState) : eff StreamEnd Error HandshakeState :=
  let (h', r) := hs_write h HS_BUF in
  m ← lift_result (map_err noise_err r);
  write_hs m;;
  mret h'.
Definition get (h : HandshakeState) : eff StreamEnd Error HandshakeState :=
  m ← read_hs;
  let (h', r) := hs_read h m HS_BUF in
  lift_result (map_err noise_err r);;
  mret h'.
Definition transport_mode (h : HandshakeState) : Result TransportState := map_err noise_err (hs_finish h).

(** The initiator up to the point where it waits for the answer, and from there. *)
Definition initiator_greets (psk : bytes) : eff StreamEnd Error HandshakeState :=
  h ← lift_result (build true psk); put h.
Definition initiator_ends (h : HandshakeState) : eff StreamEnd Error TransportState :=
  h ← get h; lift_result (transport_mode h).
Definition initiator_handshake (psk : bytes) : eff StreamEnd Error TransportState :=
  h ← initiator_greets psk; initiator_ends h.
Definition responder_handshake (psk : bytes) : eff StreamEnd Error TransportState :=
  h ← lift_result (build false psk);
  h ← get h;
  h ← put h;
  lift_result (transport_mode h).
End Handshake.

(** [wrap]: both halves of the stream share the transport state. *)
Definition noise_over `{Snow} (e : StreamEnd) (t : TransportState) : NoiseEnd := mkNoise (e_w e) (e_r e) t.

(** ** One message *)

Definition hs_frame (m : bytes) : bytes := be_split 2 (msg_len m) ++ m.

Lemma write_hs_ok m e :
  writable (e_w e) -> msg_len m < 65536 ->
  exists w, write_hs m e = (mkEnd w (e_r e), Ok tt) /\ w_out w = w_out (e_w e) ++ hs_frame m /\ writable w.
Proof.
  intros Hw Hm. unfold write_hs, on_w, hs_frame.
  destruct (write_all_writable (be_split 2 (wrap 16 (msg_len m))) _ Hw) as (w1 & H1 & Hw1).
  destruct (write_all_writable m w1 Hw1) as (w2 & H2 & Hw2).
  exists w2. unfold mbind, eff_bind, with_err, write_uint. rewrite H1, H2, (flush_writable w2 Hw2). cbn.
  split; [done|]. split; [|done]. apply write_all_ok in H1, H2. rewrite H2, H1, <- app_assoc.
  do 2 f_equal. unfold wrap. rewrite Z.mod_small; [done|]. unfold msg_len in *. lia.
Qed.
Lemma read_hs_frame m rest e :
  r_in (e_r e) = hs_frame m ++ rest -> msg_len m < 65536 ->
  read_hs e = (mkEnd (e_w e) (mkReader rest (r_end (e_r e))), Ok m).
Proof.
  intros Hr Hm. destruct e as [w [rin rend]]. cbn in *. subst rin. unfold read_hs, on_r, mbind, eff_bind, with_err, hs_frame.
  cbn [e_r e_w]. rewrite <- app_assoc. rewrite read_uint_split by (unfold msg_len in *; cbn; lia).
  cbn. unfold msg_len. rewrite Nat2Z.id, read_exact_app. done.
Qed.
(** Reading leaves what was written alone. *)
Lemma read_hs_writer e e' r : read_hs e = (e', r) -> e_w e' = e_w e.
Proof.
  unfold read_hs, on_r, mbind, eff_bind, with_err. destruct (read_uint 2 (e_r e)) as [r1 [l|x]]; cbn; [|by intros [= <- _]].
  destruct (read_exact _ r1) as [r2 v]. by intros [= <- _].
Qed.

(** ** Properties *)

Section Claims.
Context `{SnowHandshakeLaws}.
Context (params : result string unit).

Lemma small m : (length m <= 1024)%nat -> msg_len m < 65536.
Proof. unfold msg_len. lia. Qed.
Lemma put_ok h h' m e : hs_write h 1024 = (h', Ok m) -> writable (e_w e) ->
  exists w, put h e = (mkEnd w (e_r e), Ok h') /\ w_out w = w_out (e_w e) ++ hs_frame m /\ writable w.
Proof.
  intros Hh Hw. unfold put, HS_BUF. rewrite Hh. unfold mbind, eff_bind, lift_result, map_err.
  destruct (write_hs_ok m e Hw) as (w & E & Ho & Hw'); [by eapply small, hs_small|]. rewrite E. by exists w.
Qed.
Lemma get_ok h h' m rest e : (length m <= 1024)%nat -> hs_read h m 1024 = (h', Ok tt) -> r_in (e_r e) = hs_frame m ++ rest ->
  get h e = (mkEnd (e_w e) (mkReader rest (r_end (e_r e))), Ok h').
Proof.
  intros Hm Hh Hr. unfold get, mbind, eff_bind. rewrite (read_hs_frame m rest) by (try done; by apply small).
  unfold HS_BUF. by rewrite Hh.
Qed.

(** C11. The handshake gives two ends of one encrypted link.  For two ends with the same key
    over streams that accept writes: the initiator's greeting, delivered to the
    responder, makes it answer and finish, and the answer, delivered back, makes the
    initiator finish.  Nothing is left unread on either side, and what they then wrap
    around the streams is a Noise link with both directions empty, on which every
    theorem about such links holds from the start. *)
Theorem handshake_links (psk : bytes) (x y : HandshakeState) (a b : StreamEnd) :
  params = Ok tt -> hs_build true psk = Ok x -> hs_build false psk = Ok y ->
  writable (e_w a) -> writable (e_w b) -> r_in (e_r a) = [] -> r_in (e_r b) = [] ->
  exists a1 h b1 tb a2 ta greeting answer,
    initiator_greets params psk a = (a1, Ok h) /\ w_out (e_w a1) = w_out (e_w a) ++ greeting /\
    responder_handshake params psk (feed greeting b) = (b1, Ok tb) /\ w_out (e_w b1) = w_out (e_w b) ++ answer /\
    initiator_ends h (feed answer a1) = (a2, Ok ta) /\
    link_rel (H := noise_channel) (noise_over a2 ta, noise_over b1 tb) ([], []) /\
    link_ready (H := noise_channel) (noise_over a2 ta, noise_over b1 tb).
Proof.
  intros Hp Hx Hy Hwa Hwb Hra Hrb.
  destruct (hs_first psk x y Hx Hy) as (x1 & m1 & y1 & y2 & m2 & x2 & ta & tb & W1 & R1 & W2 & R2 & Fa & Fb & Sab & Sba).
  pose proof (hs_small _ _ _ _ W1) as L1. pose proof (hs_small _ _ _ _ W2) as L2.
  destruct (put_ok _ _ _ a W1 Hwa) as (wa & Ea & Oa & Wa).
  assert (get y (feed (hs_frame m1) b) = (mkEnd (e_w b) (mkReader [] (r_end (e_r b))), Ok y1)) as Eb.
  { apply (get_ok y y1 m1 [] (feed (hs_frame m1) b)); [done|done|]. cbn. by rewrite Hrb, app_nil_r. }
  destruct (put_ok _ _ _ (mkEnd (e_w b) (mkReader [] (r_end (e_r b)))) W2 Hwb) as (wb & Eb' & Ob & Wb).
  assert (get x1 (feed (hs_frame m2) (mkEnd wa (e_r a))) = (mkEnd wa (mkReader [] (r_end (e_r a))), Ok x2)) as Ea'.
  { apply (get_ok x1 x2 m2 [] (feed (hs_frame m2) (mkEnd wa (e_r a)))); [done|done|]. cbn. by rewrite Hra, app_nil_r. }
  eexists _, x1, _, tb, _, ta, (hs_frame m1), (hs_frame m2).
  split; [|split; [|split; [|split; [|split]]]].
  - unfold initiator_greets, build. rewrite Hp. cbn. rewrite Hx. cbn. exact Ea.
  - exact Oa.
  - unfold responder_handshake, build. rewrite Hp. cbn [map_err mbind result_bind]. rewrite Hy. cbn [map_err].
    unfold mbind, eff_bind, lift_result. rewrite Eb, Eb'. unfold transport_mode. by rewrite Fb.
  - exact Ob.
  - unfold initiator_ends, mbind, eff_bind. rewrite Ea'. unfold lift_result, transport_mode. by rewrite Fa.
  - split; [|by split]. by apply (@fresh_link _ noise_channel noise_laws).
Qed.

(** C10. A stranger gets no answer.  Whatever bytes arrive and however the stream fails, the
    responder writes nothing before it has read a first message that the handshake
    accepts; in particular an initiator with another key is refused with an error, and
    not one byte is sent to it. *)
Theorem stranger_gets_nothing (psk : bytes) (e e' : StreamEnd) (r : Result TransportState) :
  responder_handshake params psk e = (e', r) ->
  (w_out (e_w e') <> w_out (e_w e) \/ is_ok r = true ->
     exists y m y1 e1, hs_build false psk = Ok y /\ read_hs e = (e1, Ok m) /\ hs_read y m 1024 = (y1, Ok tt)) /\
  (forall other x y x1 m1 rest, other <> psk -> hs_build true other = Ok x -> hs_build false psk = Ok y ->
     hs_write x 1024 = (x1, Ok m1) -> r_in (e_r e) = hs_frame m1 ++ rest ->
     e_w e' = e_w e /\ exists t, r = Err (Crypto t)).
Proof.
  unfold responder_handshake, build. destruct params as [[]|pe]; cbn [map_err mbind result_bind].
  2:{ intros [= <- <-]. split; [by intros [?|?]|]. intros. split; [done|]. by eexists. }
  destruct (hs_build false psk) as [y|be] eqn:Ey; cbn [map_err].
  2:{ intros [= <- <-]. split; [by intros [?|?]|]. done. }
  unfold mbind, eff_bind, lift_result at 1, get at 1, mbind, eff_bind.
  destruct (read_hs e) as [e1 [m|re]] eqn:Er; pose proof (read_hs_writer _ _ _ Er) as Hw.
  - unfold HS_BUF. destruct (hs_read y m 1024) as [y1 [[]|se]] eqn:Eh.
    + intros _. split; [intros _; by exists y, m, y1, e1|].
      intros other x y' x1 m1 rest Ho Hx [= <-] Hm Hr. exfalso.
      rewrite (read_hs_frame m1 rest) in Er by (try done; by eapply small, hs_small). injection Er as _ <-.
      destruct (hs_other other psk _ _ _ _ Ho Hx Ey Hm) as (b1 & err & Hb). congruence.
    + cbn. intros [= <- <-]. rewrite Hw. split; [by intros [?|?]|]. intros. split; [done|]. by eexists.
  - intros [= <- <-]. rewrite Hw. split; [by intros [?|?]|].
    intros other x y' x1 m1 rest Ho Hx [= <-] Hm Hr. exfalso.
    rewrite (read_hs_frame m1 rest) in Er by (try done; by eapply small, hs_small). done.
Qed.
End Claims.

(** ** A toy handshake: the message is the key, and both directions count from zero *)

Module KeyEcho.
Record hs := mkHs { key : bytes; keyed : (length key = 32)%nat }.
Definition start : TransportState (Snow := CounterCipher.snow) := CounterCipher.mkState 0 0.
Definition build (psk : bytes) : result string hs :=
  match decide (length psk = 32)%nat with left p => Ok (mkHs psk p) | right _ => Err "bad key" end.
Definition write (h : hs) (n : nat) : hs * result string bytes :=
  (h, if (length (key h) <=? n)%nat then Ok (key h) else Err "output buffer too small").
Definition read (h : hs) (m : bytes) (n : nat) : hs * result string unit :=
  (h, if decide (m = key h) then Ok tt else Err "decrypt error").
#[export] Instance handshake : SnowHandshake (H := CounterCipher.snow) := {|
  HandshakeState := hs; hs_build _ := build; hs_write := write; hs_read := read; hs_finish h := Ok start |}.

Lemma build_ok psk h : build psk = Ok h -> key h = psk.
Proof. unfold build. case_decide; [|done]. by intros [= <-]. Qed.
Lemma write_fits h : write h 1024 = (h, Ok (key h)).
Proof.
  unfold write. assert ((length (key h) <=? 1024)%nat = true) as -> by (apply Nat.leb_le; rewrite (keyed h); lia). done.
Qed.
Lemma read_own h n : read h (key h) n = (h, Ok tt).
Proof. unfold read. by rewrite decide_True. Qed.
#[export] Instance hs_laws : @SnowHandshakeLaws _ handshake CounterCipher.laws.
Proof.
  split; cbn.
  - intros psk a b Ha Hb. assert (a = b) as -> by congruence. exists b, (key b), b, b, (key b), b, start, start.
    by rewrite write_fits, read_own.
  - intros a n a' m. unfold write. destruct (Nat.leb_spec (length (key a)) n); by intros [= _ <-].
  - intros psk psk' a b a1 m1 Hn Ha%build_ok Hb%build_ok. rewrite write_fits. intros [= _ <-].
    exists b, "decrypt error". unfold read. rewrite decide_False; [done|congruence].
Qed.
End KeyEcho.

Definition demo_key : bytes := replicate 32 Byte.x07.
Definition demo_start : KeyEcho.hs := KeyEcho.mkHs demo_key eq_refl.
Definition empty_end : StreamEnd := mkEnd (mkWriter [] None eof None false) (mkReader [] None).

#[local] Existing Instances CounterCipher.snow CounterCipher.laws KeyEcho.handshake KeyEcho.hs_laws.
Lemma handshake_links_witness : exists a1 h b1 tb a2 ta greeting answer,
  initiator_greets (Ok tt) demo_key empty_end = (a1, Ok h) /\ w_out (e_w a1) = [] ++ greeting /\
  responder_handshake (Ok tt) demo_key (feed greeting empty_end) = (b1, Ok tb) /\ w_out (e_w b1) = [] ++ answer /\
  initiator_ends h (feed answer a1) = (a2, Ok ta) /\
  link_rel (H := noise_channel) (noise_over a2 ta, noise_over b1 tb) ([], []) /\
  link_ready (H := noise_channel) (noise_over a2 ta, noise_over b1 tb).
Proof.
  exact (handshake_links (H2 := KeyEcho.hs_laws) (Ok tt) demo_key demo_start demo_start empty_end empty_end
    eq_refl eq_refl eq_refl (conj eq_refl eq_refl) (conj eq_refl eq_refl) eq_refl eq_refl).
Defined.

(** A greeting under another key. *)
Definition other_greeting : StreamEnd := feed (hs_frame (replicate 32 Byte.x09)) empty_end.
Lemma stranger_gets_nothing_witness :
  let out := responder_handshake (Ok tt) demo_key other_greeting in
  e_w out.1 = e_w empty_end /\ exists t, out.2 = Err (Crypto t).
Proof.
  pose (out := responder_handshake (Ok tt) demo_key other_greeting).
  destruct (stranger_gets_nothing (H2 := KeyEcho.hs_laws) (Ok tt) demo_key other_greeting out.1 out.2
    (surjective_pairing _)) as [_ H].
  apply (H (replicate 32 Byte.x09) (KeyEcho.mkHs (replicate 32 Byte.x09) eq_refl) demo_start
    (KeyEcho.mkHs (replicate 32 Byte.x09) eq_refl) (replicate 32 Byte.x09) []); [discriminate|reflexivity..].
Defined.
