(* ===== verification/Dial.v ===== *)
(** Dialing and accepting (core/core/src/crypto/tls.rs, transport/tcp.rs, ws.rs, quic.rs):
    what each transport does before the first message, on the client and on the server,
    and whom it trusts.  Sockets, [rustls], [tungstenite] and [quinn] are an environment
    that answers each call, knowing every call made before. *)
From S2P Require Import Prelude Calls Net Text Core Channel Handshake.

(** ** TLS material (crypto/tls.rs) *)

(** [rustls], its PEM reader and the public roots: certificates, keys and trust anchors;
    reading the certificates and the first key of a PEM text; adding a certificate to a
    root store; whether a chain and a key belong together. *)
Class Rustls := {
  Cert : Type;
  PrivateKey : Type;
  Anchor : Type;
  pem_certs : string -> result string (list Cert);
  pem_key : string -> result string (option PrivateKey);
  to_anchor : Cert -> result string Anchor;
  TLS_SERVER_ROOTS : list Anchor;
  single_cert : list Cert -> PrivateKey -> result string unit;
}.

Inductive TlsVersion := Tls12 | Tls13.
(** What a builder without explicit versions offers. *)
Definition DEFAULT_VERSIONS : list TlsVersion := [Tls13; Tls12].
Definition ALPN : bytes := to_b "et1".

Section Tls.
Context `{Rustls}.

(** Whom a client accepts: anyone ([NoVerify]), or a chain to one of the anchors. *)
Inductive Trust := NoVerify | RootStore (roots : list Anchor).
Record TlsClient := mkTlsClient { tc_trust : Trust; tc_versions : list TlsVersion; tc_alpn : list bytes }.
Record TlsServer := mkTlsServer {
  ts_chain : list Cert;
  ts_key : PrivateKey;
  ts_versions : list TlsVersion;
  ts_alpn : list bytes;
}.

Definition parse_cert_chain (pem : string) : Result (list Cert) :=
  certs ← map_err (fun e => Crypto ("parse cert pem: " +:+ e)) (pem_certs pem);
  match certs with [] => Err (Crypto "no certificates in PEM") | _ => Ok certs end.
Definition parse_private_key (pem : string) : Result PrivateKey :=
  k ← map_err (fun e => Crypto ("parse key pem: " +:+ e)) (pem_key pem);
  ok_or (Crypto "no private key in PEM") k.

(** Adding certificates one by one stops at the first that is no anchor. *)
Fixpoint add_roots (certs : list Cert) : Result (list Anchor) :=
  match certs with
  | [] => Ok []
  | c :: r =>
    a ← map_err (fun e => Crypto ("add pinned cert: " +:+ e)) (to_anchor c);
    l ← add_roots r; Ok (a :: l)
  end.
Definition client_roots (pinned_pem : option string) : Result (list Anchor) :=
  match pinned_pem with
  | Some pem => certs ← parse_cert_chain pem; add_roots certs
  | None => Ok TLS_SERVER_ROOTS
  end.
Definition client_with (versions : list TlsVersion) (skip_verify : bool) (pinned_pem : option string) : Result TlsClient :=
  trust ← (if skip_verify then Ok NoVerify else RootStore <$> client_roots pinned_pem);
  Ok (mkTlsClient trust versions [ALPN]).
Definition client_config : bool -> option string -> Result TlsClient := client_with DEFAULT_VERSIONS.
Definition quic_client_config : bool -> option string -> Result TlsClient := client_with [Tls13].

Definition server_with (versions : list TlsVersion) (what cert_pem key_pem : string) : Result TlsServer :=
  certs ← parse_cert_chain cert_pem;
  key ← parse_private_key key_pem;
  map_err (fun e => Crypto (what +:+ e)) (single_cert certs key);;
  Ok (mkTlsServer certs key versions [ALPN]).
Definition server_config : string -> string -> Result TlsServer := server_with DEFAULT_VERSIONS "server tls config: ".
Definition quic_server_config : string -> string -> Result TlsServer := server_with [Tls13] "quic server tls config: ".
End Tls.
Arguments TlsClient : clear implicits. Arguments TlsServer : clear implicits.
Arguments Trust : clear implicits.
Arguments TlsClient {_}. Arguments TlsServer {_}. Arguments Trust {_}.

(** ** The outside world *)

(** The calls; the answer to one may depend on the history that ends with it. *)
Inductive dcall `{Rustls} :=
  | DTcp (host : string) (port : Z)
  | DTls (cfg : TlsClient) (name : string)
  | DUpgrade (url : string)
  | DQuicSocket (cfg : TlsClient)
  | DLookup (host : string) (port : Z)
  | DQuicConnect (addr : SocketAddr) (name : string)
  | DOpenBi
  | DClose
  | DBindTcp (addr : SocketAddr)
  | DBindQuic (cfg : TlsServer) (addr : SocketAddr)
  | DAccept
  | DQuicIncoming
  | DTlsAccept (cfg : TlsServer)
  | DWsAccept
  | DQuicAccept
  | DAcceptBi.
Abbreviation dtrace := (list dcall).

(** Sockets and the handshakes other libraries run: TCP, TLS and the upgrade to a WebSocket,
    QUIC's configuration, socket, start, handshake and first stream, and the same from
    the accepting side.  An error is its text. *)
Class Outside `{Rustls} := {
  TlsStream : Type;
  QuicConn : Type;
  o_tcp : dtrace -> result IoError StreamEnd;
  o_server_name : string -> result string unit;
  o_tls : dtrace -> StreamEnd -> result string TlsStream;
  o_upgrade : dtrace -> TlsStream -> result WsError WsCh.WsEnd;
  o_quic_crypto : TlsClient -> result string unit;
  o_quic_socket : dtrace -> result string unit;
  o_lookup : dtrace -> result IoError (list SocketAddr);
  o_quic_start : dtrace -> SocketAddr -> string -> result string unit;
  o_quic_conn : dtrace -> result string QuicConn;
  o_open_bi : dtrace -> QuicConn -> result string StreamEnd;
  o_bind : dtrace -> result IoError unit;
  o_quic_server_crypto : TlsServer -> result string unit;
  o_quic_bind : dtrace -> result string unit;
  o_accept : dtrace -> result IoError (StreamEnd * SocketAddr);
  o_tls_accept : dtrace -> StreamEnd -> result string TlsStream;
  o_ws_accept : dtrace -> TlsStream + StreamEnd -> result WsError WsCh.WsEnd;
  o_quic_open : dtrace -> bool;
  o_quic_accept : dtrace -> result string (QuicConn * SocketAddr);
  o_accept_bi : dtrace -> QuicConn -> result string StreamEnd;
}.

Definition dask `{Rustls} {A} (c : dcall) (f : dtrace -> Result A) : eff dtrace Error A :=
  ask c (fun h => f (h ++ [c])).
Definition text_err {A} (what : string) (f : string -> Error) (r : result string A) : Result A :=
  map_err (fun e => f (what +:+ e)) r.

(** What a dialer or listener hands out: the two halves of the encrypted channel. *)
Inductive Chan `{Snow} :=
  | NoiseChan (e : NoiseEnd)
  | WsChan (e : WsCh.WsEnd)
  | QuicChan (e : StreamEnd).

(** ** Dialing *)

Section Dialing.
Context `{Outside} `{SnowHandshake}.
(** Whether the name of the Noise pattern parses. *)
Context (params : result string unit).

(** tcp.rs [connect_over]: the Noise handshake on a stream, and the wrapping. *)
Definition tcp_over (hs : bytes -> eff StreamEnd Error TransportState) (s : StreamEnd) (psk : bytes) : Result Chan :=
  let (s', r) := hs psk s in
  ts ← r; Ok (NoiseChan (noise_over s' ts)).
Definition dial_tcp_over (s : StreamEnd) (sec : ClientSecurity) : Result Chan :=
  tcp_over (initiator_handshake params) s (noise_psk sec).
Definition tcp_stream (ep : Endpoint) : eff dtrace Error StreamEnd :=
  dask (DTcp (ep_host ep) (ep_port ep)) (fun h => map_err Io (o_tcp h)).
Definition dial_tcp (ep : Endpoint) (sec : ClientSecurity) : eff dtrace Error Chan :=
  s ← tcp_stream ep; lift_result (dial_tcp_over s sec).

(** ws.rs: the name, TLS and the upgrade, on a stream; both dialers build the TLS
    configuration before anything else. *)
Definition ws_url (ep : Endpoint) : string :=
  "wss://" +:+ ep_server_name ep +:+ ":" +:+ pretty (ep_port ep) +:+ ep_ws_path ep.
Definition ws_config (sec : ClientSecurity) : Result TlsClient :=
  client_config (tls_skip_verify sec) (tls_pinned_cert_pem sec).
Definition ws_on (cfg : TlsClient) (s : StreamEnd) (ep : Endpoint) : eff dtrace Error Chan :=
  lift_result (text_err "invalid server name: " Crypto (o_server_name (ep_server_name ep)));;
  tls ← dask (DTls cfg (ep_server_name ep)) (fun h => text_err "tls connect: " Crypto (o_tls h s));
  ws ← dask (DUpgrade (ws_url ep)) (fun h => map_err ws_err (o_upgrade h tls));
  mret (WsChan ws).
Definition dial_ws (ep : Endpoint) (sec : ClientSecurity) : eff dtrace Error Chan :=
  cfg ← lift_result (ws_config sec);
  s ← tcp_stream ep;
  ws_on cfg s ep.
Definition dial_ws_over (s : StreamEnd) (ep : Endpoint) (sec : ClientSecurity) : eff dtrace Error Chan :=
  cfg ← lift_result (ws_config sec);
  ws_on cfg s ep.

(** quic.rs: the first address the name resolves to, over a socket bound to IPv4. *)
Definition quic_addr (ep : Endpoint) (l : list SocketAddr) : Result SocketAddr :=
  ok_or (Config ("cannot resolve " +:+ ep_host ep)) (List.hd_error l).
Definition quic_dial_at (ep : Endpoint) (l : list SocketAddr) : eff dtrace Error Chan :=
  addr ← lift_result (quic_addr ep l);
  conn ← dask (DQuicConnect addr (ep_server_name ep)) (fun h =>
    text_err "quic connect: " Transport (o_quic_start h addr (ep_server_name ep));;
    text_err "quic handshake: " Transport (o_quic_conn h));
  s ← dask DOpenBi (fun h => text_err "quic open_bi: " Transport (o_open_bi h conn));
  mret (QuicChan s).
Definition dial_quic (ep : Endpoint) (sec : ClientSecurity) : eff dtrace Error Chan :=
  crypto ← lift_result (quic_client_config (tls_skip_verify sec) (tls_pinned_cert_pem sec));
  lift_result (text_err "quic client crypto: " Crypto (o_quic_crypto crypto));;
  dask (DQuicSocket crypto) (fun h => text_err "quic endpoint: " Transport (o_quic_socket h));;
  l ← dask (DLookup (ep_host ep) (ep_port ep)) (fun h => map_err Io (o_lookup h));
  quic_dial_at ep l.

(** transport/mod.rs [connect] and [connect_over]: the choice of Channel.v over these
    dialers, and the dialer it chose. *)
Definition dialers (tcp ws quic : bool) : Transports (eff dtrace Error Chan) StreamEnd :=
  mkTransports _ _ tcp ws quic
    (fun ep sec => Ok (dial_tcp ep sec)) (fun ep sec => Ok (dial_ws ep sec)) (fun ep sec => Ok (dial_quic ep sec))
    (fun s sec => Ok (lift_result (dial_tcp_over s sec))) (fun s ep sec => Ok (dial_ws_over s ep sec)).
Definition dial (tcp ws quic : bool) (ep : Endpoint) (sec : ClientSecurity) : eff dtrace Error Chan :=
  m ← lift_result (connect (dialers tcp ws quic) ep sec); m.
Definition dial_over (tcp ws quic : bool) (s : StreamEnd) (ep : Endpoint) (sec : ClientSecurity) : eff dtrace Error Chan :=
  m ← lift_result (connect_over (dialers tcp ws quic) s ep sec); m.
End Dialing.

(** ** Accepting *)

(** A listener: the key, the TLS acceptor if it terminates TLS itself, the endpoint. *)
Inductive Listener `{Rustls} := LTcp (psk : bytes) | LWs (acceptor : option TlsServer) | LQuic.
(** A connection whose handshake has not run yet. *)
Inductive Incoming `{Rustls} :=
  | ITcp (s : StreamEnd) (peer : SocketAddr) (psk : bytes)
  | IWs (s : StreamEnd) (peer : SocketAddr) (acceptor : option TlsServer)
  | IQuic.
Record ServerSecurity := mkServerSecurity { s_psk : bytes; s_cert_pem : string; s_key_pem : string }.
Record Accepted `{Snow} := mkAccepted { ac_peer : SocketAddr; ac_chan : Chan }.
Arguments mkAccepted {_}.

Section Accepting.
Context `{Outside} `{SnowHandshake}.
Context (params : result string unit).
(** The build's features. *)
Context (tcp ws quic : bool).

Definition bind_tcp (addr : SocketAddr) : eff dtrace Error unit := dask (DBindTcp addr) (fun h => map_err Io (o_bind h)).
Definition bind_ws (addr : SocketAddr) (sec : ServerSecurity) (tls : bool) : eff dtrace Error Listener :=
  acceptor ← lift_result (if tls then Some <$> server_config (s_cert_pem sec) (s_key_pem sec) else Ok None);
  bind_tcp addr;;
  mret (LWs acceptor).
Definition bind_quic (addr : SocketAddr) (sec : ServerSecurity) : eff dtrace Error Listener :=
  crypto ← lift_result (quic_server_config (s_cert_pem sec) (s_key_pem sec));
  lift_result (text_err "quic server crypto: " Crypto (o_quic_server_crypto crypto));;
  dask (DBindQuic crypto addr) (fun h => text_err "quic bind: " Transport (o_quic_bind h));;
  mret LQuic.
Definition listener_bind (addr : SocketAddr) (kind : TransportKind) (sec : ServerSecurity) (ws_tls : bool)
    : eff dtrace Error Listener :=
  match kind with
  | Tcp => if tcp then bind_tcp addr;; mret (LTcp (s_psk sec)) else throw (NotImplemented "tcp feature disabled")
  | Ws => if ws then bind_ws addr sec ws_tls else throw (NotImplemented "ws feature disabled")
  | Quic => if quic then bind_quic addr sec else throw (NotImplemented "quic feature disabled")
  end.

Definition accept_socket : eff dtrace Error (StreamEnd * SocketAddr) := dask DAccept (fun h => map_err Io (o_accept h)).
Definition accept_tcp (psk : bytes) : eff dtrace Error Incoming := p ← accept_socket; mret (ITcp p.1 p.2 psk).
Definition accept_ws (acceptor : option TlsServer) : eff dtrace Error Incoming :=
  p ← accept_socket; mret (IWs p.1 p.2 acceptor).
Definition accept_quic : eff dtrace Error Incoming :=
  dask DQuicIncoming (fun h => if o_quic_open h then Ok tt else Err (Transport "quic endpoint closed"));;
  mret IQuic.
Definition listener_accept (l : Listener) : eff dtrace Error Incoming :=
  match l with
  | LTcp psk => accept_tcp psk
  | LWs acceptor => accept_ws acceptor
  | LQuic => accept_quic
  end.

Definition finish_ws (s : StreamEnd) (acceptor : option TlsServer) : eff dtrace Error Chan :=
  x ← match acceptor with
      | Some cfg => t ← dask (DTlsAccept cfg) (fun h => text_err "tls accept: " Crypto (o_tls_accept h s)); mret (inl t)
      | None => mret (inr s)
      end;
  w ← dask DWsAccept (fun h => map_err ws_err (o_ws_accept h x));
  mret (WsChan w).
Definition finish_tcp (s : StreamEnd) (psk : bytes) : Result Chan := tcp_over (responder_handshake params) s psk.
Definition finish_quic : eff dtrace Error Accepted :=
  p ← dask DQuicAccept (fun h => text_err "quic accept: " Transport (o_quic_accept h));
  s ← dask DAcceptBi (fun h => text_err "quic accept_bi: " Transport (o_accept_bi h p.1));
  mret (mkAccepted p.2 (QuicChan s)).
Definition finish (i : Incoming) : eff dtrace Error Accepted :=
  match i with
  | ITcp s peer psk => c ← lift_result (finish_tcp s psk); mret (mkAccepted peer c)
  | IWs s peer acceptor => c ← finish_ws s acceptor; mret (mkAccepted peer c)
  | IQuic => finish_quic
  end.
End Accepting.

(** ** What is asked of the outside *)

(** The trust a client's security settings stand for. *)
Definition trusted `{Rustls} (sec : ClientSecurity) (cfg : TlsClient) : Prop :=
  tc_alpn cfg = [ALPN] /\
  match tls_skip_verify sec, tls_pinned_cert_pem sec with
  | true, _ => tc_trust cfg = NoVerify
  | false, None => tc_trust cfg = RootStore TLS_SERVER_ROOTS
  | false, Some pem => exists certs roots, pem_certs pem = Ok certs /\ certs <> [] /\
      Forall2 (fun c a => to_anchor c = Ok a) certs roots /\ tc_trust cfg = RootStore roots
  end.

Section Trust.
Context `{Rustls}.
Lemma add_roots_ok certs roots : add_roots certs = Ok roots -> Forall2 (fun c a => to_anchor c = Ok a) certs roots.
Proof.
  revert roots. induction certs as [|c r IH]; cbn; intros roots; [by intros [= <-]|].
  destruct (to_anchor c) as [a|e] eqn:Ea; [|done]. cbn. destruct (add_roots r) as [l|e]; [|done]. cbn.
  intros [= <-]. constructor; [done|by apply IH].
Qed.
Lemma client_with_trusted v sec cfg :
  client_with v (tls_skip_verify sec) (tls_pinned_cert_pem sec) = Ok cfg -> trusted sec cfg /\ tc_versions cfg = v.
Proof.
  unfold client_with, trusted. destruct (tls_skip_verify sec).
  - by intros [= <-].
  - unfold client_roots, parse_cert_chain. destruct (tls_pinned_cert_pem sec) as [pem|].
    + destruct (pem_certs pem) as [[|c l]|] eqn:Ep; cbn [map_err mbind result_bind]; [done| |done].
      destruct (add_roots (c :: l)) as [roots|] eqn:Er; [|done]. intros [= <-]. cbn. split; [|done]. split; [done|].
      exists (c :: l), roots. split_and!; [done|done|by apply add_roots_ok|done].
    + by intros [= <-].
Qed.
End Trust.

Section Scripts.
Context `{Outside} `{SnowHandshake}.
Context (params : result string unit).

Definition ws_script (cfg : TlsClient) (ep : Endpoint) : dtrace := [DTls cfg (ep_server_name ep); DUpgrade (ws_url ep)].
Definition tcp_script (ep : Endpoint) : dtrace := [DTcp (ep_host ep) (ep_port ep)].
(** Up to the lookup, and from the first address it answers. *)
Definition quic_lookup (cfg : TlsClient) (ep : Endpoint) : dtrace := [DQuicSocket cfg; DLookup (ep_host ep) (ep_port ep)].
Definition quic_rest (ep : Endpoint) (answer : list SocketAddr) : dtrace :=
  match answer with a :: _ => [DQuicConnect a (ep_server_name ep); DOpenBi] | [] => [] end.

Lemma performs_ws_on cfg s ep : performs (ws_on cfg s ep) (ws_script cfg ep).
Proof.
  apply performs_bind_ok. intros _ _. change (ws_script cfg ep) with ([DTls cfg (ep_server_name ep)] ++ [DUpgrade (ws_url ep)]).
  apply performs_bind; [apply performs_ask|]. intros tls.
  apply performs_last; [apply performs_ask|]. intros ws. apply performs_ret.
Qed.
Lemma performs_dial_tcp ep sec : performs (dial_tcp params ep sec) (tcp_script ep).
Proof. apply performs_last; [apply performs_ask|]. intros s. apply performs_lift. Qed.
Lemma performs_dial_ws ep sec cfg : ws_config sec = Ok cfg -> performs (dial_ws ep sec) (tcp_script ep ++ ws_script cfg ep).
Proof.
  intros E. unfold dial_ws. rewrite E. apply performs_bind_ok. intros ? [= <-].
  apply performs_bind; [apply performs_ask|]. intros s. apply performs_ws_on.
Qed.
Lemma performs_quic_rest ep l : performs (quic_dial_at ep l) (quic_rest ep l).
Proof.
  unfold quic_dial_at, quic_addr, quic_rest. destruct l as [|a l]; cbn [List.hd_error ok_or].
  - apply performs_bind_ok. done.
  - apply performs_bind_ok. intros ? [= <-].
    change [?x; ?y] with ([x] ++ [y]). apply performs_bind; [apply performs_ask|]. intros conn.
    apply performs_last; [apply performs_ask|]. intros s. apply performs_ret.
Qed.
End Scripts.

(** ** Properties *)

Section Claims.
Context `{Outside} `{SnowHandshake}.
Context (params : result string unit) (tcp ws quic : bool).

(** The channel a successful TCP dial returns: the outcome of the Noise handshake. *)
Definition noise_with (psk : bytes) (c : Chan) : Prop := exists s e ts,
  initiator_handshake params psk s = (e, Ok ts) /\ c = NoiseChan (noise_over e ts).

Lemma dial_tcp_chan ep sec h h' c : dial_tcp params ep sec h = (h', Ok c) -> noise_with (noise_psk sec) c.
Proof.
  unfold dial_tcp, dial_tcp_over, tcp_over. intros (h1 & s & _ & E)%eff_bind_ok. unfold lift_result in E.
  destruct (initiator_handshake params (noise_psk sec) s) as [e [ts|]] eqn:Ei; [|done]. injection E as _ <-.
  by exists s, e, ts.
Qed.

(** The answer to the lookup a QUIC dial makes. *)
Definition quic_answer (h : dtrace) (cfg : TlsClient) (ep : Endpoint) : list SocketAddr :=
  match o_lookup (h ++ quic_lookup cfg ep) with Ok l => l | Err _ => [] end.
Lemma dial_quic_script ep sec h h' r :
  dial_quic ep sec h = (h', r) -> (h' = h /\ is_ok r = false) \/
  exists cfg l, trusted sec cfg /\ tc_versions cfg = [Tls13] /\ h' = h ++ l /\
    l `prefix_of` quic_lookup cfg ep ++ quic_rest ep (quic_answer h cfg ep) /\
    (is_ok r = true -> l = quic_lookup cfg ep ++ quic_rest ep (quic_answer h cfg ep)).
Proof.
  unfold dial_quic. intros [(e & _ & -> & ->)|(cfg & Hc & E)]%lift_bind; [by left|].
  apply client_with_trusted in Hc as [Ht Hv].
  apply lift_bind in E as [(e & _ & -> & ->)|([] & _ & E)]; [by left|]. right. exists cfg.
  apply ask_bind in E as [(e & _ & -> & ->)|([] & _ & E)].
  { exists [DQuicSocket cfg]. split_and!; [done..|by exists (DLookup (ep_host ep) (ep_port ep) :: quic_rest ep (quic_answer h cfg ep))|done]. }
  unfold quic_answer, quic_lookup.
  apply ask_bind in E as [(e & Hl & -> & ->)|(l & Hl & E)]; rewrite <- app_assoc in Hl; cbn [app] in Hl.
  { exists [DQuicSocket cfg; DLookup (ep_host ep) (ep_port ep)]. rewrite <- app_assoc. split_and!; [done..|by apply prefix_app_r|done]. }
  destruct (o_lookup _) as [l'|]; [|done]. injection Hl as ->.
  destruct (performs_quic_rest ep l _ _ _ E) as (m & -> & Hp & Hm).
  exists ([DQuicSocket cfg; DLookup (ep_host ep) (ep_port ep)] ++ m). rewrite <- !app_assoc.
  split_and!; [done..|by apply prefix_app|]. intros Hr. by rewrite (Hm Hr).
Qed.

(** Whether the build has a transport. *)
Definition built (k : TransportKind) : bool := match k with Tcp => tcp | Ws => ws | Quic => quic end.
(** What a dial may ask for, on a fresh socket or on a stream that exists already. *)
Definition dial_calls (first : dtrace) (ep : Endpoint) (sec : ClientSecurity) (h : dtrace) (l : dtrace) (r : Result Chan) : Prop :=
  match ep_kind ep with
  | Tcp => l `prefix_of` first /\ (forall c, r = Ok c -> l = first /\ noise_with (noise_psk sec) c)
  | Ws => (l = [] /\ is_ok r = false) \/ exists cfg, trusted sec cfg /\
      l `prefix_of` first ++ ws_script cfg ep /\ (is_ok r = true -> l = first ++ ws_script cfg ep)
  | Quic => (l = [] /\ is_ok r = false) \/ exists cfg, trusted sec cfg /\ tc_versions cfg = [Tls13] /\
      l `prefix_of` quic_lookup cfg ep ++ quic_rest ep (quic_answer h cfg ep) /\
      (is_ok r = true -> l = quic_lookup cfg ep ++ quic_rest ep (quic_answer h cfg ep))
  end.

Definition asks_only (first : dtrace) (ep : Endpoint) (sec : ClientSecurity) (h : dtrace) (l : dtrace) (r : Result Chan) : Prop :=
  (built (ep_kind ep) = false -> l = [] /\ is_ok r = false) /\ dial_calls first ep sec h l r.

Lemma asks_nothing first ep sec h r : is_ok r = false -> asks_only first ep sec h [] r.
Proof.
  intros Hr. split; [by split|]. unfold dial_calls. destruct (ep_kind ep); [|by left..].
  split; [apply prefix_nil|]. intros c ->. done.
Qed.
Lemma asks_built first ep sec h l r : built (ep_kind ep) = true -> dial_calls first ep sec h l r -> asks_only first ep sec h l r.
Proof. intros Hb Hc. split; [congruence|done]. Qed.

Lemma ws_asks first ep sec (k : TlsClient -> eff dtrace Error Chan) h h' r :
  ep_kind ep = Ws -> (forall cfg, performs (k cfg) (first ++ ws_script cfg ep)) ->
  (lift_result (ws_config sec) ≫= k) h = (h', r) -> exists l, h' = h ++ l /\ dial_calls first ep sec h l r.
Proof.
  intros Hk Hp. unfold dial_calls. rewrite Hk. intros [(e & _ & -> & ->)|(cfg & Hc & E)]%lift_bind.
  { exists []. rewrite app_nil_r. auto. }
  destruct (Hp cfg _ _ _ E) as (l & -> & Hl). exists l. split; [done|]. right. exists cfg.
  split; [by apply client_with_trusted in Hc as [? _]|done].
Qed.

Lemma dial_asks ep sec h h' r : dial params tcp ws quic ep sec h = (h', r) ->
  exists l, h' = h ++ l /\ asks_only (tcp_script ep) ep sec h l r.
Proof.
  unfold dial, connect.
  intros [(e & _ & -> & ->)|(m & Hm & E)]%lift_bind.
  { exists []. rewrite app_nil_r. split; [done|by apply asks_nothing]. }
  assert (built (ep_kind ep) = true) as Hb by (by destruct (ep_kind ep); cbn in *; destruct (_ : bool)).
  enough (exists l, h' = h ++ l /\ dial_calls (tcp_script ep) ep sec h l r) as (l & ? & ?) by eauto using asks_built.
  destruct (ep_kind ep) eqn:Hk; cbn in Hm, Hb; rewrite Hb in Hm; injection Hm as <-.
  + destruct (performs_dial_tcp params _ _ _ _ _ E) as (l & -> & Hp & Hl). exists l.
    split; [done|]. unfold dial_calls. rewrite Hk. split; [done|]. intros c ->. split; [by apply Hl|by apply dial_tcp_chan in E].
  + revert E. apply ws_asks; [done|]. intros cfg. apply performs_bind; [apply performs_ask|]. intros s. apply performs_ws_on.
  + unfold dial_calls. rewrite Hk. destruct (dial_quic_script _ _ _ _ _ E) as [[-> Hr]|(cfg & l & ? & ? & -> & ?)].
    * exists []. rewrite app_nil_r. auto.
    * exists l. split; [done|]. right. by exists cfg.
Qed.
Lemma dial_over_asks s ep sec h h' r : dial_over params tcp ws quic s ep sec h = (h', r) ->
  exists l, h' = h ++ l /\ asks_only [] ep sec h l r /\ (ep_kind ep = Quic -> l = [] /\ is_ok r = false).
Proof.
  unfold dial_over, connect_over.
  intros [(e & _ & -> & ->)|(m & Hm & E)]%lift_bind.
  { exists []. rewrite app_nil_r. split_and!; [done|by apply asks_nothing|done]. }
  assert (ep_kind ep <> Quic) as Hq by (by intros Hk; rewrite Hk in Hm).
  assert (built (ep_kind ep) = true) as Hb by (by destruct (ep_kind ep); cbn in *; destruct (_ : bool)).
  enough (exists l, h' = h ++ l /\ dial_calls [] ep sec h l r) as (l & ? & ?)
    by (exists l; split_and!; [done|by apply asks_built|done]).
  destruct (ep_kind ep) eqn:Hk; cbn in Hm, Hb; [| |done]; rewrite Hb in Hm; injection Hm as <-.
  + injection E as <- Hr. exists []. rewrite app_nil_r. unfold dial_calls. rewrite Hk. split; [done|]. split; [done|].
    intros c ->. split; [done|]. unfold dial_tcp_over, tcp_over in Hr.
    destruct (initiator_handshake params (noise_psk sec) s) as [e [ts|]] eqn:Ei; [|done]. injection Hr as <-. by exists s, e, ts.
  + exact (ws_asks [] ep sec (fun cfg => ws_on cfg s ep) h h' r Hk (fun cfg => performs_ws_on cfg s ep) E).
Qed.
(** A dial that is dropped on the way has asked for a part of it. *)
Lemma asks_only_take first ep sec h l r k e :
  asks_only first ep sec h l r -> asks_only first ep sec h (take k l) (Err e).
Proof.
  assert (forall m, l `prefix_of` m -> take k l `prefix_of` m) as Ht by (intros m; by apply transitivity, prefix_take).
  intros [Hb Hc]. split; [by intros [-> _]%Hb; rewrite take_nil|]. revert Hc. unfold dial_calls. destruct (ep_kind ep).
  - intros [Hp _]. split; [by apply Ht|done].
  - intros [[-> _]|(cfg & ? & ? & _)]; [left; by rewrite take_nil|]. right. exists cfg. split_and!; [done|by apply Ht|done].
  - intros [[-> _]|(cfg & ? & ? & ? & _)]; [left; by rewrite take_nil|]. right. exists cfg. split_and!; [done..|by apply Ht|done].
Qed.

(** C12. A dial asks for what its settings say, and nothing else.  On a fresh socket and on a
    carrier, for every transport: raw TCP contacts the endpoint's host and port, and the
    channel it returns comes from a Noise handshake under the configured key.  WebSocket and QUIC
    contact nobody when the TLS settings are unusable; otherwise every TLS session they
    start checks the endpoint's server name, offers the protocol's ALPN id, and trusts
    anyone exactly when verification is switched off, only the pinned certificates when
    there are some, the public roots otherwise; QUIC offers TLS 1.3 only and takes the
    first address of the lookup.  All these calls are made when the dial succeeds, and a
    prefix of them otherwise; QUIC over a carrier, or a transport not built in, is an error
    before any call. *)
Theorem dial_trust (ep : Endpoint) (sec : ClientSecurity) (h h' : dtrace) (r : Result Chan) :
  (dial params tcp ws quic ep sec h = (h', r) ->
     exists l, h' = h ++ l /\ asks_only (tcp_script ep) ep sec h l r) /\
  (forall s, dial_over params tcp ws quic s ep sec h = (h', r) ->
     exists l, h' = h ++ l /\ asks_only [] ep sec h l r /\ (ep_kind ep = Quic -> l = [] /\ is_ok r = false)).
Proof. split; [apply dial_asks|intros s; apply dial_over_asks]. Qed.

(** The TLS configuration a listener's certificate and key stand for. *)
Definition presents (versions : list TlsVersion) (sec : ServerSecurity) (cfg : TlsServer) : Prop :=
  pem_certs (s_cert_pem sec) = Ok (ts_chain cfg) /\ ts_chain cfg <> [] /\ pem_key (s_key_pem sec) = Ok (Some (ts_key cfg)) /\
  single_cert (ts_chain cfg) (ts_key cfg) = Ok tt /\ ts_versions cfg = versions /\ ts_alpn cfg = [ALPN].
Lemma server_with_presents v what sec cfg :
  server_with v what (s_cert_pem sec) (s_key_pem sec) = Ok cfg -> presents v sec cfg.
Proof.
  unfold server_with, presents, parse_cert_chain, parse_private_key.
  destruct (pem_certs _) as [[|c l]|]; cbn [map_err mbind result_bind]; [done| |done].
  destruct (pem_key _) as [[k|]|]; cbn [map_err mbind result_bind ok_or]; [|done..].
  destruct (single_cert (c :: l) k) as [[]|] eqn:Es; cbn [map_err mbind result_bind]; [|done]. by intros [= <-].
Qed.

(** The calls of finishing a pending connection. *)
Definition finish_script (i : Incoming) : dtrace :=
  match i with
  | ITcp _ _ _ => []
  | IWs _ _ (Some cfg) => [DTlsAccept cfg; DWsAccept]
  | IWs _ _ None => [DWsAccept]
  | IQuic => [DQuicAccept; DAcceptBi]
  end.
Lemma performs_finish i : performs (finish params i) (finish_script i).
Proof.
  destruct i as [s peer psk|s peer acceptor|]; cbn [finish finish_script].
  - apply performs_last; [apply performs_lift|]. intros c. apply performs_ret.
  - apply performs_last; [|intros c; apply performs_ret]. destruct acceptor as [cfg|]; cbn [finish_ws].
    + change [?x; ?y] with ([x] ++ [y]). apply performs_bind.
      * apply performs_last; [apply performs_ask|]. intros t. apply performs_ret.
      * intros x. apply performs_last; [apply performs_ask|]. intros w. apply performs_ret.
    + change [DWsAccept] with ([] ++ [DWsAccept]). apply performs_bind; [apply performs_ret|].
      intros x. apply performs_last; [apply performs_ask|]. intros w. apply performs_ret.
  - change [?x; ?y] with ([x] ++ [y]). apply performs_bind; [apply performs_ask|].
    intros p. apply performs_last; [apply performs_ask|]. intros s. apply performs_ret.
Qed.

(** What a listener of each kind is once it is bound. *)
Definition bound_as (kind : TransportKind) (sec : ServerSecurity) (ws_tls : bool) (l : Listener) : Prop :=
  match kind with
  | Tcp => l = LTcp (s_psk sec)
  | Ws => if ws_tls then exists cfg, presents DEFAULT_VERSIONS sec cfg /\ l = LWs (Some cfg) else l = LWs None
  | Quic => l = LQuic
  end.
(** The socket a listener binds, its certificate and key usable where it presents them. *)
Definition binds (kind : TransportKind) (sec : ServerSecurity) (ws_tls : bool) (addr : SocketAddr) (c : dcall) : Prop :=
  match kind with
  | Quic => exists cfg, presents [Tls13] sec cfg /\ c = DBindQuic cfg addr
  | Ws => (ws_tls = true -> exists cfg, presents DEFAULT_VERSIONS sec cfg) /\ c = DBindTcp addr
  | Tcp => c = DBindTcp addr
  end.
Lemma bind_asks kind sec ws_tls addr h h' r :
  listener_bind tcp ws quic addr kind sec ws_tls h = (h', r) ->
  (h' = h /\ is_ok r = false) \/
  (exists c, h' = h ++ [c] /\ binds kind sec ws_tls addr c /\ forall l, r = Ok l -> bound_as kind sec ws_tls l).
Proof.
  unfold listener_bind, bound_as, binds. destruct kind; (destruct (_ : bool); [|intros [= <- <-]; by left]).
  - intros [(e & _ & -> & ->)|([] & _ & [= <- <-])]%ask_bind; right; eexists; (split; [reflexivity|]); (split; [done|]);
      [done|by intros l [= <-]].
  - intros [(e & _ & -> & ->)|(acc & Ha & E)]%lift_bind; [by left|].
    assert (if ws_tls then exists cfg, presents DEFAULT_VERSIONS sec cfg /\ acc = Some cfg else acc = None) as Hacc.
    { destruct ws_tls; [|by injection Ha as <-]. unfold server_config in Ha.
      destruct (server_with _ _ _ _) as [cfg|] eqn:Es; [|done]. injection Ha as <-. exists cfg.
      by apply server_with_presents in Es. }
    assert (ws_tls = true -> exists cfg, presents DEFAULT_VERSIONS sec cfg) as Hpr by (intros ->; naive_solver).
    apply ask_bind in E as [(e & _ & -> & ->)|([] & _ & [= <- <-])]; right; eexists; (split; [reflexivity|]); (split; [done|]); [done|].
    intros l [= <-]. destruct ws_tls; naive_solver.
  - intros [(e & _ & -> & ->)|(cfg & Hc & E)]%lift_bind; [by left|]. apply server_with_presents in Hc.
    apply lift_bind in E as [(e & _ & -> & ->)|([] & _ & E)]; [by left|].
    apply ask_bind in E as [(e & _ & -> & ->)|([] & _ & [= <- <-])]; right; eexists; (split; [reflexivity|]);
      (split; [by exists cfg|]); [done|by intros l [= <-]].
Qed.

(** C22. What a listener lets in.  Binding asks for one socket at most, and for none, by QUIC
    and by WebSocket told to terminate TLS, unless the certificate and key are usable; a WebSocket listener presents that
    certificate when it was told to terminate TLS and takes plain WebSockets otherwise, QUIC
    always presents it and offers TLS 1.3 only.  Accepting is one call, never a step of a
    handshake, so nobody who stalls can hold up the loop.  Finishing a connection runs the
    handshake of its own listener and nothing else; over raw TCP the result is a Noise link
    only if the responder's handshake under the listener's key succeeded. *)
Theorem accept_policy (addr : SocketAddr) (kind : TransportKind) (sec : ServerSecurity) (ws_tls : bool)
    (l : Listener) (i : Incoming) (h h' : dtrace) :
  (forall r, listener_bind tcp ws quic addr kind sec ws_tls h = (h', r) ->
     (h' = h /\ is_ok r = false) \/
     (exists c, h' = h ++ [c] /\ binds kind sec ws_tls addr c /\ forall l, r = Ok l -> bound_as kind sec ws_tls l)) /\
  (forall r, listener_accept l h = (h', r) -> exists c, h' = h ++ [c] /\ (c = DAccept \/ c = DQuicIncoming) /\
     forall i, r = Ok i -> match l, i with
       | LTcp psk, ITcp _ _ psk' => psk' = psk
       | LWs acceptor, IWs _ _ acceptor' => acceptor' = acceptor
       | LQuic, IQuic => True
       | _, _ => False
       end) /\
  (forall r, finish params i h = (h', r) ->
     exists cs, h' = h ++ cs /\ cs `prefix_of` finish_script i /\ (is_ok r = true -> cs = finish_script i) /\
     forall a s peer psk, r = Ok a -> i = ITcp s peer psk ->
       exists e ts, responder_handshake params psk s = (e, Ok ts) /\ a = mkAccepted peer (NoiseChan (noise_over e ts))).
Proof.
  split_and!.
  - intros r. apply bind_asks.
  - intros r. unfold listener_accept, accept_tcp, accept_ws, accept_quic. destruct l as [psk|acceptor|].
    + intros [(e & _ & -> & ->)|(p & _ & [= <- <-])]%ask_bind; eexists; (split; [done|]); (split; [by left|]); [done|by intros i0 [= <-]].
    + intros [(e & _ & -> & ->)|(p & _ & [= <- <-])]%ask_bind; eexists; (split; [done|]); (split; [by left|]); [done|by intros i0 [= <-]].
    + intros [(e & _ & -> & ->)|(p & _ & [= <- <-])]%ask_bind; eexists; (split; [done|]); (split; [by right|]); [done|by intros i0 [= <-]].
  - intros r E. destruct (performs_finish i _ _ _ E) as (cs & -> & Hp & Hc). exists cs. split_and!; [done..|].
    intros a s peer psk -> ->. cbn [finish] in E. unfold finish_tcp, tcp_over in E. apply lift_bind in E as [(e & _ & _ & ?)|(c & Hr & [= _ <-])]; [done|].
    destruct (responder_handshake params psk s) as [e [ts|]] eqn:Ei; [|done]. injection Hr as <-. by exists e, ts.
Qed.

(** QUIC never tries a second address, and its socket is bound to IPv4: where [quinn]
    refuses IPv6 addresses on such a socket, a name whose first address is IPv6 cannot be
    dialed, whatever the other addresses are. *)
Theorem quic_first_address_only (ep : Endpoint) (sec : ClientSecurity) (h h' : dtrace) (r : Result Chan) :
  (forall h a p name, exists e, o_quic_start h (SockAddr (V6 a) p) name = Err e) ->
  dial_quic ep sec h = (h', r) ->
  (forall cfg, quic_client_config (tls_skip_verify sec) (tls_pinned_cert_pem sec) = Ok cfg ->
     exists a p more, quic_answer h cfg ep = SockAddr (V6 a) p :: more) ->
  is_ok r = false.
Proof.
  intros Hv6 E Ha. unfold dial_quic in E.
  apply lift_bind in E as [(e & _ & _ & ->)|(cfg & Hc & E)]; [done|]. specialize (Ha _ Hc) as (a & p & more & Ha).
  apply lift_bind in E as [(e & _ & _ & ->)|([] & _ & E)]; [done|].
  apply ask_bind in E as [(e & _ & _ & ->)|([] & _ & E)]; [done|].
  apply ask_bind in E as [(e & _ & _ & ->)|(l & Hl & E)]; [done|].
  unfold quic_answer, quic_lookup in Ha. rewrite <- app_assoc in Hl. cbn [app] in Hl.
  destruct (o_lookup _) as [l'|]; [|done]. injection Hl as <-. subst l'. cbn in E. unfold quic_dial_at in E. cbn in E.
  apply lift_bind in E as [(e & _ & _ & ->)|(x & [= <-] & E)]; [done|].
  apply ask_bind in E as [(e & _ & _ & ->)|(conn & Hs & _)]; [done|].
  destruct (Hv6 ((h ++ [DQuicSocket cfg]) ++ [DLookup (ep_host ep) (ep_port ep)] ++ [DQuicConnect (SockAddr (V6 a) p) (ep_server_name ep)]) a p (ep_server_name ep)) as [e He].
  rewrite <- app_assoc in Hs. cbn in *. by rewrite He in Hs.
Qed.
End Claims.

(** ** Witnesses *)

(** Certificates are their PEM text, and everything works; the name resolves to an IPv6
    address first, which the QUIC socket refuses. *)
#[local] Existing Instances CounterCipher.snow CounterCipher.laws KeyEcho.handshake KeyEcho.hs_laws.
Module DialDemo.
#[export] Instance rustls : Rustls := {|
  Cert := string; PrivateKey := string; Anchor := string;
  pem_certs p := Ok (if String.eqb p "" then [] else [p]);
  pem_key p := Ok (if String.eqb p "" then None else Some p);
  to_anchor := Ok;
  TLS_SERVER_ROOTS := ["public"];
  single_cert _ _ := Ok tt;
|}.
Definition answered : StreamEnd := feed (hs_frame demo_key) empty_end.
Definition ws : WsCh.WsEnd := WsCh.mkWs [] None [].
Definition v4 : SocketAddr := SockAddr (V4 (Ipv4 Byte.xc0 Byte.x00 Byte.x02 Byte.x01)) 443.
Definition v6 : SocketAddr := SockAddr (V6 (v6_of_segments [8193; 3512; 0; 0; 0; 0; 0; 1])) 443.
#[export] Instance outside : Outside := {|
  TlsStream := unit; QuicConn := unit;
  o_tcp _ := Ok answered;
  o_server_name _ := Ok tt;
  o_tls _ _ := Ok tt;
  o_upgrade _ _ := Ok ws;
  o_quic_crypto _ := Ok tt;
  o_quic_socket _ := Ok tt;
  o_lookup _ := Ok [v6; v4];
  o_quic_start _ a _ := match sa_ip a with V6 _ => Err "invalid remote address" | V4 _ => Ok tt end;
  o_quic_conn _ := Ok tt;
  o_open_bi _ _ := Ok empty_end;
  o_bind _ := Ok tt;
  o_quic_server_crypto _ := Ok tt;
  o_quic_bind _ := Ok tt;
  o_accept _ := Ok (answered, v4);
  o_tls_accept _ _ := Ok tt;
  o_ws_accept _ _ := Ok ws;
  o_quic_open _ := true;
  o_quic_accept _ := Ok (tt, v4);
  o_accept_bi _ _ := Ok empty_end;
|}.
Definition ep (k : TransportKind) : Endpoint := mkEndpoint "et.example" 443 k "/et" "et.example".
Definition sec (skip : bool) (pin : option string) : ClientSecurity := mkSecurity demo_key skip pin.
Definition attempt (k : TransportKind) (skip : bool) (pin : option string) : dtrace * Result Chan :=
  dial (Ok tt) true true true (ep k) (sec skip pin) [].
End DialDemo.
#[local] Existing Instances DialDemo.rustls DialDemo.outside.

Example dial_demo :
  is_ok (DialDemo.attempt Tcp false None).2 = true /\
  (DialDemo.attempt Ws false (Some "own")).1 =
    [DTcp "et.example" 443; DTls (mkTlsClient (RootStore ["own"]) [Tls13; Tls12] [ALPN]) "et.example";
     DUpgrade "wss://et.example:443/et"] /\
  (DialDemo.attempt Ws false (Some "")).1 = [] /\
  is_ok (DialDemo.attempt Quic true None).2 = false.
Proof.
  split; [vm_compute; reflexivity|].
  split; [vm_compute; reflexivity|].
  split; vm_compute; reflexivity.
Qed.

Lemma dial_trust_witness : exists l, (DialDemo.attempt Ws false (Some "own")).1 = [] ++ l /\
  asks_only (Ok tt) true true true (tcp_script (DialDemo.ep Ws)) (DialDemo.ep Ws) (DialDemo.sec false (Some "own")) [] l
    (DialDemo.attempt Ws false (Some "own")).2.
Proof.
  apply (proj1 (dial_trust (Ok tt) true true true (DialDemo.ep Ws) (DialDemo.sec false (Some "own")) []
    (DialDemo.attempt Ws false (Some "own")).1 (DialDemo.attempt Ws false (Some "own")).2)).
  exact (surjective_pairing _).
Defined.

Lemma accept_policy_witness : exists c,
  (listener_accept (LTcp demo_key) []).1 = [] ++ [c] /\ (c = DAccept \/ c = DQuicIncoming).
Proof.
  destruct (proj1 (proj2 (accept_policy (Ok tt) true true true DialDemo.v4 Tcp (mkServerSecurity demo_key "" "") false
    (LTcp demo_key) IQuic [] (listener_accept (LTcp demo_key) []).1)) (listener_accept (LTcp demo_key) []).2)
    as (c & H & Hc & _); [exact (surjective_pairing _)|].
  by exists c.
Defined.

Lemma quic_first_address_only_witness : is_ok (dial_quic (DialDemo.ep Quic) (DialDemo.sec true None) []).2 = false.
Proof.
  apply (quic_first_address_only (DialDemo.ep Quic) (DialDemo.sec true None) []
    (dial_quic (DialDemo.ep Quic) (DialDemo.sec true None) []).1).
  - intros h a p name. by exists "invalid remote address".
  - exact (surjective_pairing _).
  - intros cfg _. eexists _, _, [DialDemo.v4]. reflexivity.
Defined.
