(* ===== verification/Latency.v ===== *)
(** The latency probe (core/client-core/src/latency.rs): one timed dial, no greeting. *)
From S2P Require Import Prelude Calls Net Text Core Channel Handshake ClientConfig Dial.

Section Latency.
Context `{Outside} `{SnowHandshake} `{Base64}.
Context (params : result string unit) (tcp ws quic : bool).

(** [tokio::time::timeout]: [late] says that the deadline passed after so many calls; the
    computation is dropped there. *)
Definition timed {A} (late : option nat) (m : eff dtrace Error A) : eff dtrace Error A :=
  match late with None => m | Some k => cut k (Transport "latency probe timed out") m end.

Definition probe_endpoint (s : ServerEntry) : Endpoint := mkEndpoint (host s) (port s) Quic "/et" (sni s).
Definition probe_security (s : ServerEntry) : Result ClientSecurity :=
  psk ← parse_psk (to_b (se_psk s)); Ok (mkSecurity psk (tls_skip_verify s) None).
(** A plain connection, dropped at once. *)
Definition tcp_probe (s : ServerEntry) : eff dtrace Error StreamEnd :=
  dask (DTcp (host s) (port s)) (fun h => map_err (fun e => Transport ("connect: " +:+ io_text e)) (o_tcp h)).

Definition clock (elapsed : dtrace -> Z) : eff dtrace Error Z := fun h => (h, Ok (elapsed h)).

(** [elapsed] is what the clock says once the dial is over; the channel of a QUIC probe is
    closed, whatever that comes to. *)
Definition measure_latency (s : ServerEntry) (late : option nat) (elapsed : dtrace -> Z) : eff dtrace Error Z :=
  match transport s with
  | Tcp | Ws => conn ← timed late (tcp_probe s); clock elapsed
  | Quic =>
    sec ← lift_result (probe_security s);
    timed late (dial params tcp ws quic (probe_endpoint s) sec);;
    rtt ← clock elapsed;
    ignore (dask DClose (fun _ => Ok tt) : eff dtrace Error unit);;
    mret rtt
  end.

Lemma timed_asks {A} late (m : eff dtrace Error A) (P : dtrace -> dtrace -> Result A -> Prop) h h' r :
  (forall h' r, m h = (h', r) -> exists l, h' = h ++ l /\ P h l r) ->
  (forall l r k e, P h l r -> P h (take k l) (Err e)) ->
  timed late m h = (h', r) -> exists l, h' = h ++ l /\ P h l r /\ (is_ok r = true -> late = None).
Proof.
  intros Hm Ht. destruct (m h) as [h1 r1] eqn:E. destruct (Hm _ _ eq_refl) as (l & -> & Hl).
  destruct late as [k|]; cbn [timed].
  - unfold cut. rewrite E. cbn [fst]. rewrite drop_app_length. intros [= <- <-]. exists (take k l).
    split_and!; [done|by eapply Ht|done].
  - rewrite E. intros [= <- <-]. by exists l.
Qed.

(** A probe leaves nothing behind: over TCP and WebSocket it asks for one connection to the
    server's port and for no handshake at all; over QUIC for what a session with the same
    key and trust would ask for, with no greeting, and then closes; what it reports is the
    clock, and only when the deadline did not pass. *)
Theorem probe_stateless (s : ServerEntry) (late : option nat) (elapsed : dtrace -> Z) (h h' : dtrace) (r : Result Z) :
  measure_latency s late elapsed h = (h', r) ->
  (forall d, r = Ok d -> late = None) /\
  match transport s with
  | Tcp | Ws => h' = h \/ h' = h ++ [DTcp (host s) (port s)] /\ forall d, r = Ok d -> d = elapsed h'
  | Quic => (h' = h /\ is_ok r = false) \/ exists sec l closed x, probe_security s = Ok sec /\
      asks_only params tcp ws quic (tcp_script (probe_endpoint s)) (probe_endpoint s) sec h l (x : Result Chan) /\ h' = h ++ l ++ closed /\
      ((closed = [] /\ is_ok r = false) \/ (closed = [DClose] /\ is_ok x = true /\ r = Ok (elapsed (h ++ l))))
  end.
Proof.
  unfold measure_latency.
  assert (forall h' r, (conn ← timed late (tcp_probe s); clock elapsed) h = (h', r) ->
    (forall d, r = Ok d -> late = None) /\
    (h' = h \/ h' = h ++ [DTcp (host s) (port s)] /\ forall d, r = Ok d -> d = elapsed h')) as Htcp.
  { clear. intros h' r E. unfold mbind, eff_bind in E. destruct (timed late (tcp_probe s) h) as [h1 r1] eqn:Et.
    apply (timed_asks _ _ (fun _ l _ => l = [] \/ l = [DTcp (host s) (port s)])) in Et as (l & -> & Hl & Hok).
    - destruct r1 as [c|e]; injection E as <- <-; (split; [naive_solver|]);
        (destruct Hl as [-> | ->]; [left; by rewrite app_nil_r|right; split; [done|]]); by intros d [= <-].
    - intros h2 r2. unfold tcp_probe, dask, ask. intros [= <- <-]. eauto.
    - intros l r2 [|k] e; [by left|]. intros [-> | ->]; [by left|right; by destruct k]. }
  destruct (transport s); [by apply Htcp..|]. clear Htcp.
  intros [(e & _ & -> & ->)|(sec & Hs & E)]%lift_bind; [split; [done|by left]|].
  unfold mbind, eff_bind in E. destruct (timed late _ h) as [h1 r1] eqn:Et.
  apply (timed_asks _ _ (fun h l r => asks_only params tcp ws quic (tcp_script (probe_endpoint s)) (probe_endpoint s) sec h l r)) in Et as (l & -> & Hl & Hok).
  - destruct r1 as [c|e]; injection E as <- <-.
    + split; [naive_solver|]. right. exists sec, l, [DClose], (Ok c). rewrite app_assoc. split_and!; try done. by right.
    + split; [done|]. right. exists sec, l, [], (Err e). rewrite app_nil_r. split_and!; try done. by left.
  - intros h2 r2. apply dial_asks.
  - intros l r2 k e. apply asks_only_take.
Qed.
End Latency.

(** ** Witness *)

Module LatencyDemo.
#[export] Existing Instances CounterCipher.snow KeyEcho.handshake DialDemo.rustls DialDemo.outside.
Definition server (k : TransportKind) : ServerEntry := mkServerEntry "a" "et.example" 443 k "token" "key" true None.
Definition probe (k : TransportKind) (late : option nat) : dtrace * Result Z :=
  measure_latency (H3 := NibbleCodec.codec) (Ok tt) true true true (server k) late (fun _ => 7) [].
End LatencyDemo.

Lemma probe_stateless_witness : LatencyDemo.probe Tcp None = ([DTcp "et.example" 443], Ok 7) /\
  forall d, (LatencyDemo.probe Tcp (Some 1%nat)).2 = Ok d -> Some 1%nat = None.
Proof.
  split; [reflexivity|].
  apply (proj1 (probe_stateless (H3 := NibbleCodec.codec) (Ok tt) true true true (LatencyDemo.server Tcp) (Some 1%nat)
    (fun _ => 7) [] (LatencyDemo.probe Tcp (Some 1%nat)).1 (LatencyDemo.probe Tcp (Some 1%nat)).2 (surjective_pairing _))).
Defined.
