(* ===== verification/Cli.v ===== *)
(** The headless client (desktop/cli/src/main.rs): its commands over the configuration
    file and the console, and the choice of the fastest server. *)
From Stdlib Require Import Strings.String Strings.Ascii.
From S2P Require Import Prelude Net Text Core Mpsc ClientConfig Anyhow.

Inductive Cmd :=
  | Run
  | Servers
  | Ping
  | Import (link : bytes) (mode : string)
  | GenConfig (host : string) (port : Z).

(** The disk, and the lines printed so far. *)
Record Console := mkConsole { co_disk : Disk; co_out : list string }.
Abbreviation cli_eff := (eff Console Failure).
Definition say (line : string) : cli_eff unit := fun s => (mkConsole (co_disk s) (co_out s ++ [line]), Ok tt).
Definition say_all (lines : list string) : cli_eff unit := fun s => (mkConsole (co_disk s) (co_out s ++ lines), Ok tt).

(** [{:<16}]: padded to sixteen characters, which may be more bytes. *)
Fixpoint chars (s : string) : nat :=
  match s with
  | EmptyString => 0
  | String a r =>
    let n := nat_of_ascii a in
    if ((128 <=? n) && (n <? 192))%nat then chars r else S (chars r)
  end.
Fixpoint spaces (n : nat) : string := match n with O => "" | S n => String " "%char (spaces n) end.
Definition pad16 (s : string) : string := s +:+ spaces (16 - chars s).
Definition server_text (s : ServerEntry) : string :=
  pad16 (se_name s) +:+ " " +:+ host s +:+ ":" +:+ pretty (port s) +:+ "  [" +:+ show_transport (transport s) +:+ "]".
(** One space less before the transport. *)
Definition ping_text (s : ServerEntry) : string :=
  pad16 (se_name s) +:+ " " +:+ host s +:+ ":" +:+ pretty (port s) +:+ " [" +:+ show_transport (transport s) +:+ "]".

(** ** Importing a link, and the starter configuration *)

Definition parse_mode (m : string) : result Failure SessionMode :=
  if bool_decide (m ∈ ["global_proxy"; "global"]) then Ok GlobalProxy
  else if bool_decide (m ∈ ["system_proxy"; "system"]) then Ok SystemProxy
  else if bool_decide (m ∈ ["http_proxy"; "http"]) then Ok HttpProxy
  else if String.eqb m "vpn" then Ok Vpn
  else bail ("unknown mode '" +:+ m +:+ "' (use global_proxy|system_proxy|http_proxy|vpn)").
Definition cli_settings (mode : SessionMode) : ConnectionSettings :=
  mkSettings mode (s_requested_ip default_settings) (Some "cli") (s_tun_name default_settings)
    (s_http_listen default_settings) (s_join_vpn default_settings) (s_routes default_settings)
    (s_split_mode default_settings) (s_chain default_settings) (s_ipv6_killswitch default_settings).
Definition starter (token psk host : string) (port : Z) : ClientConfig :=
  mkClientConfig "default" (Some "main") GlobalProxy None (Some "cli") "et0" "127.0.0.1:7890" false
    "" 0 Tcp "" "" false None
    [mkServerEntry "main" host port Tcp token psk false None]
    [mkRule "192.168.0.0/16" "direct" None; mkRule "10.0.0.0/8" "direct" None]
    Blacklist [] true.

(** ** Latency *)

(** Nanoseconds to whole milliseconds. *)
Definition as_millis (d : Z) : Z := d / 1000000.
Abbreviation probe := (ServerEntry * Result Z)%type.
Definition reached (results : list probe) : list Z := omap (fun p => as_millis <$> ok p.2) results.
Definition min_ms (l : list Z) : option Z :=
  match l with [] => None | x :: r => Some (fold_left Z.min r x) end.
Definition best (results : list probe) : option Z := min_ms (reached results).
Definition mark (b : option Z) (ms : Z) : string := if bool_decide (Some ms = b) then "  *fastest" else "".
Definition ping_line (b : option Z) (p : probe) : string :=
  match p.2 with
  | Ok d => "  " +:+ ping_text p.1 +:+ "  " +:+ pretty (as_millis d) +:+ " ms" +:+ mark b (as_millis d)
  | Err e => "  " +:+ ping_text p.1 +:+ "  unreachable (" +:+ show_error e +:+ ")"
  end.
Definition ping_targets (c : ClientConfig) : list ServerEntry :=
  match servers c with [] => option_list (ok (active_server c)) | l => l end.

(** ** The commands *)

Section Cli.
Context `{ClientFormats} `{Base64}.
(** The file named by [--config], the server named by [--server], the random token and key,
    the engine and what the probe of a server comes to ([None] for a task that died). *)
Context (path : string) (override : option string) (token psk : string).
Context (engine : ClientConfig -> Result unit) (probed : ServerEntry -> option (Result Z)).

Definition load_it : cli_eff ClientConfig := fun s =>
  (s, with_context ("loading " +:+ path) (load_config path (co_disk s))).
Definition save_it (c : ClientConfig) : cli_eff unit := fun s =>
  let (d, r) := save_config path c (co_disk s) in
  (mkConsole d (co_out s), with_context ("writing " +:+ path) r).

Definition import_link (link : bytes) (mode : string) : cli_eff unit :=
  p ← lift_result (with_context "decoding config link" (decode_link link));
  m ← lift_result (parse_mode mode);
  save_it (compose p (cli_settings m));;
  say ("imported '" +:+ pr_name p +:+ "' → " +:+ path);;
  say_all (map (fun s => "  server " +:+ server_text s) (pr_servers p));;
  say ("mode: " +:+ show_mode m).
Definition gen_config (host : string) (port : Z) : cli_eff unit :=
  save_it (starter token psk host port);;
  say ("wrote " +:+ path);;
  say "NOTE: each server's token + noise_psk must match a peer record on that server.".

Definition server_line (active : option ServerEntry) (s : ServerEntry) : string :=
  "  " +:+ (if bool_decide (Some (se_name s) = se_name <$> active) then "*" else " ") +:+ " " +:+ server_text s.
Definition list_servers : cli_eff unit :=
  c ← load_it;
  let active := ok (active_server c) in
  say ("servers in " +:+ path +:+ ":");;
  say_all (match servers c with [] => ["  (legacy single-server config — no named servers)"] | _ => [] end);;
  say_all (map (server_line active) (servers c));;
  say_all (match active with
    | Some s => ["active: " +:+ se_name s +:+ " (" +:+ host s +:+ ":" +:+ pretty (port s) +:+ " via " +:+
        show_transport (transport s) +:+ ")"]
    | None => []
    end).

(** The probes run side by side; their results are taken in the order of the servers. *)
Definition ping_results (targets : list ServerEntry) : list probe :=
  omap (fun s => (fun r => (s, r)) <$> probed s) targets.
Definition ping : cli_eff unit :=
  c ← load_it;
  let targets := ping_targets c in
  say ("pinging " +:+ pretty (Z.of_nat (length targets)) +:+ " server(s)…");;
  let results := ping_results targets in
  say_all (map (ping_line (best results)) results).

Definition select_server (name : string) (c : ClientConfig) : ClientConfig :=
  mkClientConfig (cc_name c) (Some name) (cc_mode c) (cc_requested_ip c) (cc_client_name c) (cc_tun_name c)
    (cc_http_listen c) (cc_join_vpn c) (server_host c) (server_port c) (cc_transport c) (cc_token c) (cc_psk c)
    (cc_tls_skip c) (cc_server_name c) (servers c) (routes c) (split_mode c) (chain c) (ipv6_killswitch c).
Definition with_server (c : ClientConfig) : ClientConfig :=
  match override with
  | Some name => select_server name c
  | None => c
  end.
Definition run_engine : cli_eff unit :=
  c ← load_it;
  lift_result (with_context "engine run" (engine (with_server c))).

(** No command means [Run]. *)
Definition cli (cmd : option Cmd) : cli_eff unit :=
  match default Run cmd with
  | Import link mode => import_link link mode
  | GenConfig host port => gen_config host port
  | Servers => list_servers
  | Ping => ping
  | Run => run_engine
  end.
End Cli.

(** ** Lemmas *)

Lemma min_ms_spec l m : min_ms l = Some m <-> m ∈ l /\ Forall (Z.le m) l.
Proof.
  assert (forall r x, let m := fold_left Z.min r x in (m = x \/ m ∈ r) /\ m <= x /\ Forall (Z.le m) r) as Hf.
  { induction r as [|y r IH]; intros x; cbn; [by split_and!; [left|..]|].
    destruct (IH (Z.min x y)) as (Hin & Hle & Hall). split_and!; [| |constructor]; [|lia|lia|done].
    destruct Hin as [-> |Hin]; [|right; by right]. destruct (Z.min_spec x y) as [[_ ->]|[_ ->]]; [by left|right; by left]. }
  destruct l as [|x r]; cbn; [split; [done|intros [Hm _]; by apply not_elem_of_nil in Hm]|].
  destruct (Hf r x) as (Hin & Hle & Hall). split.
  - intros [= <-]. split; [apply elem_of_cons; naive_solver|by constructor].
  - intros [Hm Hmin]. f_equal. inversion Hmin as [|? ? Hx Hr]; subst. rewrite Forall_forall in Hall, Hr.
    apply elem_of_cons in Hm. apply Z.le_antisymm.
    + destruct Hm as [-> |Hm]; [done|by apply Hall].
    + destruct Hin as [-> |Hin]; [done|by apply Hr].
Qed.
Lemma elem_reached results ms : ms ∈ reached results <-> exists s d, (s, Ok d) ∈ results /\ as_millis d = ms.
Proof.
  unfold reached. rewrite list_elem_of_omap. split.
  - intros ([s [d|e]] & Hin & E); cbn in E; [|done]. injection E as <-. eauto.
  - intros (s & d & Hin & <-). exists (s, Ok d). done.
Qed.

(** ** Properties *)

(** The ping command marks the fastest servers and no other.  Every server that was
    probed is listed once, in the order of the configuration; a reached server's line
    carries the mark exactly when no reached server took fewer whole milliseconds; and
    when any server was reached, some line is marked. *)
Theorem fastest_marked (targets : list ServerEntry) (probed : ServerEntry -> option (Result Z)) :
  let results := ping_results probed targets in
  map fst results = filter (fun s => is_Some (probed s)) targets /\
  (forall s d, (s, Ok d) ∈ results ->
     (mark (best results) (as_millis d) = "  *fastest" <->
      forall s' d', (s', Ok d') ∈ results -> as_millis d <= as_millis d')) /\
  ((exists s d, (s, Ok d) ∈ results) -> exists s d, (s, Ok d) ∈ results /\
     ping_line (best results) (s, Ok d) = "  " +:+ ping_text s +:+ "  " +:+ pretty (as_millis d) +:+ " ms  *fastest").
Proof.
  intros results. assert (forall m, best results = Some m <-> m ∈ reached results /\ Forall (Z.le m) (reached results)) as Hb.
  { intros m. apply min_ms_spec. }
  split_and!.
  - clear Hb. unfold results, ping_results. clear results. induction targets as [|s l IH]; [done|]. cbn [omap list_omap].
    destruct (probed s) as [r|] eqn:Er.
    + rewrite filter_cons_True by (cbn; rewrite Er; by eexists). cbn. by rewrite <- IH.
    + rewrite filter_cons_False by (cbn; rewrite Er; by intros [? ?]). exact IH.
  - intros s d Hin. unfold mark. case_bool_decide as Hd.
    + split; [intros _|done]. intros s' d' Hin'. symmetry in Hd. apply Hb in Hd as [_ Hall].
      rewrite Forall_forall in Hall. apply Hall, elem_reached. by exists s', d'.
    + split; [done|]. intros Hmin. destruct Hd. symmetry. apply Hb. split; [apply elem_reached; by exists s, d|].
      apply Forall_forall. intros m (s' & d' & Hin' & <-)%elem_reached. by eapply Hmin.
  - intros (s & d & Hin). assert (as_millis d ∈ reached results) as Hr by (apply elem_reached; by exists s, d).
    destruct (best results) as [m|] eqn:Em.
    + destruct (proj1 (Hb m) eq_refl) as [(s' & d' & Hin' & <-)%elem_reached _]. exists s', d'. split; [done|].
      unfold ping_line, mark. cbn [snd fst].
      rewrite bool_decide_eq_true_2 by done. reflexivity.
    + unfold best, min_ms in Em. destruct (reached results); [by apply not_elem_of_nil in Hr|done].
Qed.

Section Claims.
Context `{ClientFormatsLaws} `{Base64}.

(** An imported link is what the client then runs.  If importing a link in a mode
    succeeds, the link decodes to a profile and the mode is one of the four; the file then
    loads as that profile under the command line's settings, so a later run on the same disk
    hands the engine this configuration, with the server named on the command line selected,
    and its active server is the profile's.  A link that does not decode, or another mode, is
    refused with nothing written and nothing printed. *)
Theorem import_then_run (path : string) (link : bytes) (mode : string) (s s' : Console) (r : result Failure unit) :
  import_link path link mode s = (s', r) ->
  match decode_link link, parse_mode mode with
  | Ok p, Ok m =>
    let c := compose p (cli_settings m) in
    (r = Ok tt -> load_config path (co_disk s') = Ok c /\ cc_mode c = m /\
       (forall e, active_server c = Ok e <-> profile_active_server p = Ok e) /\
       forall override engine s2, co_disk s2 = co_disk s' ->
         run_engine path override engine s2 = (s2, with_context "engine run" (engine (with_server override c)))) /\
    (is_ok r = false -> co_out s' = co_out s)
  | _, _ => s' = s /\ is_ok r = false
  end.
Proof.
  unfold import_link. unfold mbind at 1, eff_bind at 1, lift_result at 1.
  destruct (decode_link link) as [p|e]; cbn [with_context map_err]; [|by intros [= <- <-]].
  unfold mbind at 1, eff_bind at 1, lift_result at 1.
  destruct (parse_mode mode) as [m|e]; [|by intros [= <- <-]].
  set (c := compose p (cli_settings m)). unfold mbind at 1, eff_bind at 1, save_it.
  destruct (save_config path c (co_disk s)) as [d [[]|e]] eqn:Es; cbn [with_context map_err]; [|by intros [= <- <-]].
  intros [= <- <-]. split; [|done]. intros _. cbn [co_disk].
  assert (load_config path d = Ok c) as Hl.
  { unfold save_config in Es. apply eff_bind_ok in Es as (d1 & t & Et & Ew).
    unfold lift_result, to_toml in Et. destruct (config_print c) as [t'|] eqn:Ep; [|done]. injection Et as <- <-.
    unfold with_err in Ew. destruct (write_file path t' (co_disk s)) as [d1 [[]|]] eqn:Ef; [|done]. injection Ew as <-.
    unfold load_config. rewrite (read_write_file _ _ _ _ Ef), (config_round_trip _ _ Ep). done. }
  split; [done|]. split; [done|]. split.
  - intros e. unfold active_server, profile_active_server. cbn. by destruct (pr_servers p).
  - intros override engine s2 H2. unfold run_engine, load_it, mbind, eff_bind. rewrite H2, Hl. done.
Qed.

(** The server named on the command line is the one the engine uses if the file has it;
    an unknown name silently means the first server. *)
Theorem override_spec (name : string) (c : ClientConfig) first rest : servers c = first :: rest ->
  exists e, active_server (with_server (Some name) c) = Ok e /\ In e (servers c) /\
    (In name (map se_name (servers c)) -> se_name e = name) /\ (~ In name (map se_name (servers c)) -> e = first).
Proof.
  intros E. unfold active_server. cbn. rewrite E. eexists. split; [reflexivity|].
  destruct (pick_spec (Some name) (first :: rest) first) as (Hin & Hn & Hd & _); [by left|].
  split_and!; [done|by apply Hn|by apply Hd].
Qed.
End Claims.

(** ** Witness: a format that knows the imported configuration *)

Module CliDemo.
Definition imported : ClientConfig := compose FormatDemo.p0 (cli_settings Vpn).
#[export] Instance formats : ClientFormats := {|
  json_print := @json_print FormatDemo.formats;
  json_parse := @json_parse FormatDemo.formats;
  config_print c := if decide (c = imported) then Ok [Byte.x02] else Err "unsupported";
  config_parse t := if decide (t = [Byte.x02]) then Ok imported else Err "unsupported";
  bundle_print := @bundle_print FormatDemo.formats;
  bundle_parse := @bundle_parse FormatDemo.formats;
|}.
#[export] Instance formats_laws : ClientFormatsLaws.
Proof.
  split; cbn; intros ? ?; case_decide; try done; subst; by intros [= <-].
Qed.
Definition link : bytes := @encode_link FormatDemo.formats NibbleCodec.codec FormatDemo.p0.
Definition console : Console := mkConsole (mkDisk ∅ ∅) [].
Definition run (mode : string) : Console * result Failure unit :=
  import_link (H0 := NibbleCodec.codec) "client.toml" link mode console.
Definition entry (name : string) : ServerEntry := mkServerEntry name "h" 1 Tcp "" "" false None.
Definition probed (s : ServerEntry) : option (Result Z) :=
  if String.eqb (se_name s) "b" then Some (Ok 2500000)
  else if String.eqb (se_name s) "c" then Some (Err Closed)
  else Some (Ok 2100000).
End CliDemo.

Lemma import_then_run_witness :
  load_config (H := CliDemo.formats) "client.toml" (co_disk (CliDemo.run "vpn").1) = Ok CliDemo.imported /\
  is_ok (CliDemo.run "tap").2 = false.
Proof.
  assert (decode_link (H := CliDemo.formats) (H0 := NibbleCodec.codec) CliDemo.link = Ok FormatDemo.p0) as Hd
    by (vm_compute; reflexivity).
  split.
  - pose proof (import_then_run (H0 := CliDemo.formats_laws) (H1 := NibbleCodec.codec) "client.toml" CliDemo.link "vpn"
      CliDemo.console (CliDemo.run "vpn").1 (CliDemo.run "vpn").2 (surjective_pairing _)) as H.
    rewrite Hd in H. destruct H as [H _]. apply H. vm_compute. reflexivity.
  - pose proof (import_then_run (H0 := CliDemo.formats_laws) (H1 := NibbleCodec.codec) "client.toml" CliDemo.link "tap"
      CliDemo.console (CliDemo.run "tap").1 (CliDemo.run "tap").2 (surjective_pairing _)) as H.
    rewrite Hd in H. apply H.
Defined.

Example ping_demo : let results := ping_results CliDemo.probed (map CliDemo.entry ["a"; "b"; "c"; "d"]) in
  map (ping_line (best results)) results =
    ["  a                h:1 [tcp]  2 ms  *fastest"; "  b                h:1 [tcp]  2 ms  *fastest";
     "  c                h:1 [tcp]  unreachable (connection closed)"; "  d                h:1 [tcp]  2 ms  *fastest"].
Proof. vm_compute. reflexivity. Qed.
